(* ===== verification/_CoqProject ===== *)
-Q . S2P
Prelude.v
Console.v
Doubles.v
Rounding.v
Identity.v
Errors.v
Hash.v
Json.v
JsonParser.v
RealText.v
JsonText.v
Signature.v
Contract.v
ContractValidate.v
ContractDecode.v
ContractText.v
Evaluation.v
Policy.v
Composition.v
State.v
StateWindows.v
Frame.v
Ledger.v
Boot.v
Journal.v
Recovery.v
ScanSound.v
Wire.v
Sockets.v
Wncctl.v
Runtime.v
Authority.v
Replay.v
Coordinator.v
Service.v
ClientSession.v
CoordinatorMain.v
Primes.v
Field25519.v
Scalar25519.v
Edwards.v
Curve25519.v
Encode25519.v
Window25519.v
BasePoint25519.v
Ed25519Sign.v
