(* ===== verification/Prelude.v ===== *)
(** * Workload Network Contract: a verification development

    The program under [src/] lets the publisher of a workload declare, in a signed JSON
    document, what the workload needs from a network (the contract), and lets one
    coordinator process validate, store, compose and evaluate such contracts against
    evidence submitted by tools.  Everything it acknowledges is kept in a journal of
    linked, checksummed frames in a state directory.  This development models the
    program's own logic as executable Rocq functions and proves what each part promises.

    ** Files and what they model

    - [Prelude]: results (a C++ function that returns [bool] and assigns a [Code&] and a
      message is a function into [result]), fixed width integers, strings and byte lists,
      [std::map] as a list in key order, [std::sort], tactics and the shared lemmas.
    - [Doubles]: the comparisons and conversions of [double] the code uses, on
      [SpecFloat] binary64 values; [Rounding] proves that the double of a decimal depends
      on the rational it denotes alone.
    - [Identity] ([identity.hpp], [identity.inl], [identity.cpp]): 64 digit identities,
      generations, incarnations, hexadecimal and base64url.
    - [Errors] ([error.hpp], [codec.cpp]): the codes, their table, diagnostics and the
      bounded diagnostic log.
    - [Hash] ([hash.hpp], [hash.cpp], [hash512.cpp]): SHA-256, SHA-512, HMAC, CRC-32 and
      the domain separated digests, with the class [Hashing] the other parts hash through
      and its laws [HashingOk]; [wnc_hashing] is the code's instance, [toy_hashing] a cheap
      one for concrete runs.
    - [Json], [JsonParser] ([json.hpp], [json.cpp]): JSON values, the canonical writer with
      its byte budget, and the bounded recursive descent parser.  [RealText] describes the
      canonical text of numbers and [JsonText] proves that canonical text reads back.
    - [Signature] ([signature.hpp], [signature.cpp]): trust sets, signing and
      verification, against the interface [Ed25519] with the law [Ed25519Ok].
    - [Contract], [ContractValidate], [ContractDecode] ([contract.hpp], [contract.cpp]): the
      contract's data, its canonical form and derived identities, its validation, and its
      JSON codec.  [ContractText] proves that a decoded contract is written as a document
      within the decoder's bounds.
    - [Evaluation] ([evaluation.hpp], [evaluation.cpp]): evidence sets, their codec and
      freshness, the decision on one requirement and the evaluation of a contract.
    - [Policy] ([policy.hpp], [policy.cpp]): policies, their codec and validation, the check
      of a contract against a policy, and the compatibility of two generations.
    - [Composition] ([composition.hpp], [composition.cpp]): overlay layers on a base contract.
    - [State] ([state.cpp], the POSIX half): the files of the state directory as a map from
      names to bytes; what the operating system answers to each call is an argument.
      [StateWindows] is the Windows half, with the lock and the path checks of both.
    - [Frame], [Ledger] ([ledger.hpp], [ledger.cpp]): the journal's frames; the state
      directory with its boot record, segments, scan, recovery, appends and snapshots.
      [Boot], [Journal], [Recovery] and [ScanSound] hold the proofs about them.
    - [Wire] ([wire.hpp], [wire.cpp]): message types, frames, and the loops that read and
      write them over a connection; what the sockets answer is an argument.  [Sockets]: the
      handles that socket objects own; each is closed once ([handles_owned]).
    - [Runtime] ([runtime.hpp], [runtime.cpp]): the authority state, the five requests with
      their checks, records and effects, evaluation, queries, and the replay of the journal
      when a directory is opened.  [Authority] holds the request step relation and the
      invariant of the state; [Replay] relates a session to the state a restart rebuilds.
    - [Coordinator] ([coordinator.hpp], [coordinator.cpp]): sessions, passes, the dispatch of
      request frames, the handlers with the documents they answer, the drain and the
      shutdown.  [Service] holds the proofs: the service against the requests of [Authority].

    - [Console]: an exit code and two output streams.  [Wncctl] ([wncctl_main.cpp]): the
      command line tool, every command, its client included, as a function of the arguments,
      the files it can read and what the network does.  [CoordinatorMain]
      ([coordinator_main.cpp]): the coordinator process from its arguments to its shutdown.
      [ClientSession] holds the proofs that compose the client with the service.

    - The implementation of the interface [Ed25519] ([ed25519.hpp], [ed25519.cpp]), from the
      limbs up: [Primes] proves the two moduli prime by certificates; [Field25519] has the field
      elements and [Scalar25519] the scalars, as 32 bit limbs with their carry chains;
      [Edwards] proves the group law of the curve; [Curve25519] has the points, and
      [Encode25519], [Window25519] and [BasePoint25519] prove their encoding, their multiples
      and the order of the base point; [Ed25519Sign] has signing and verification and the
      instance [wnc_ed25519] with its law [wnc_ed25519_ok].

    The parts meet as they do in the program: bytes of a socket become frames ([Wire]), frames
    become documents ([JsonParser]) and requests ([Coordinator]), a request is checked
    ([ContractValidate], [Signature], [Policy]), recorded ([Ledger] over [State]) and only then
    applied ([Runtime]).  [CoordinatorMain] starts that service with the keys of its command
    line; [Wncctl] writes the contracts and asks the service about them.

    A definition has the name of the C++ function, type or member it translates; a member
    name that would clash carries a short prefix.  Early returns are branches in the order
    of the source, and messages are the source's texts.

    ** What the theorems show

    - Authority: in every reachable state each workload holds the linked chain of its accepted
      contracts ([runtime_authority]), the terms of a required requirement are kept by every
      later generation ([promises_persist]), nothing is applied twice ([replay_refused]), and
      a request changes the state only after its record
      is acknowledged ([request_durable]).
    - Restart: opening the directory again after its first session refines the session,
      whatever the disk did to the last request, when the records read back
      ([restart_refines]); no verdict survives it ([restart_needs_evidence]).
    - Service: whatever the peers send, the service only performs requests
      ([service_authority]); one frame has one answer, or none and the end of the session when
      it does not fit a frame ([request_answered]); its memory is
      bounded by its configuration ([session_memory_bounded]); a submitter cannot claim
      provenance ([submitter_claims_removed]); queued replies are delivered byte by byte
      ([reply_delivered]).
    - Processes: a coordinator started on a fresh directory stores only contracts signed by a
      key its command line names ([process_contracts_signed]); its exit code and output say
      what it did ([process_exact]); a client whose peer is the service prints what the
      service decides ([client_exchange]); a sealed contract that fits a document is accepted
      by the other commands and sealed again to itself ([seal_then_validate]).
    - Durability, in the first session of a directory: whatever byte an append is
      interrupted at, the directory reopens to the old journal or the old one with the new
      record, and acknowledged records are there ([crash_recovery]); on a disk that works the
      journal refines a list of records ([journal_refines_history]).  In any directory: a scan that succeeds has read a chain of linked frames and nothing else
      ([journal_scan_sound]); frames, boot records and snapshots read back exactly, and every
      single byte change of a header is refused ([frame_tamper_detected]); a boot record that
      can be read keeps strangers out ([open_checks_owner]).  The Windows half of the file
      primitives writes and appends as the POSIX half does on a disk that makes progress, and
      reads and truncates as it does when its calls are answered alike
      ([windows_posix_equivalent]); without progress its writes do not end
      ([windows_writes_end]).
    - Decisions: a contract is satisfied exactly when it requires something and current
      evidence of this incarnation meets every required requirement
      ([evaluate_contract_exact]); an accepted layer and a chain of compatible generations keep
      every required requirement, with terms at least as strict, so that what meets the later
      one meets the earlier one unless a collective lost a member ([compose_never_weakens],
      [required_requirements_persist]); the exact verdicts
      of contract validation, of the policy check and of one requirement.
    - Authenticity: verification accepts exactly the claims signed by a trusted key of the
      claimed publisher ([verify_signature_exact]); a trust set keeps its type under every
      addition ([trust_set_typed]).  The Ed25519 code signs by the equations of
      RFC 8032 ([ed25519_sign_exact]), accepts exactly the signatures that satisfy them
      ([ed25519_verify_exact]), and so accepts what it signs ([ed25519_sign_verifies]).  Below
      them the limb arithmetic is exact ([fe_operations_exact], [scalar_operations_exact]), the
      point formulas and the window compute in the group ([point_arithmetic_refines]), and a
      point has one encoding ([point_encoding_exact]).
    - Codecs: the JSON writer and parser, contracts, policies, evidence, wire frames and
      base64url round trip, a document with its reals as long as their text fits a number
      literal ([json_roundtrip], [small_real_unreadable]); a canonical form does not depend on the order of its input.
    - Hashing: the buffered SHA-2 objects compute the FIPS fold for any split of the
      message, the domain separated encoding is injective, CRC-32 detects a changed byte.
    - Some theorems are executions in which the code does not do what it is meant to do:
      the append after a reopening ([reopened_append_breaks]), a retry after a failed flush
      ([retry_after_failed_flush_breaks]), evidence submitted with an identity, which makes its
      directory unusable ([submitted_identity_breaks_recovery]), the takeover of a directory
      whose boot record cannot be read ([open_checks_owner]), and the members of a required
      collective that a successor ([required_collective_loses_member]) or an overlay
      ([compose_drops_member]) drops.

    ** Bounds and fuel

    Loops that are not structural take fuel: the block loops of the hashes, the parser and
    the scan of a segment take the number of bytes left, and each step consumes at least
    one.  The parser's nesting bound and the writer's byte budget are the source's.
    The four bit window, the long division of scalars and the squarings of an exponent run
    their fixed number of rounds, as the source does.
    Integers that can wrap carry their width ([u32], [u64], [to_int64]).  The size bounds of
    [config.hpp] are definitions with the source's names.

    ** What is not modelled

    That nobody forges a signature, or finds a collision, is no theorem: statements that need
    it say what is equal or which equation holds instead.  The operating system:
    entropy, machine identity, clocks, sockets, signals and threads, whose answers are
    arguments of the definitions, and, in the class [Host], message texts of the operating
    system and the files it refuses to open or truncate, which are the same ones throughout a
    run.  A read that breaks off midway and a removal that is refused, which the code does not
    notice, are left out.  Copies, moves and destructors of the C++ values, which the functional
    definitions make invisible.  The tests.  The lists of answers are finite, so a loop that waits on the
    outside world stops where its list does: at the point where the code would wait. *)
From Stdlib Require Import ZArith Lia Ascii String Permutation Sorted.
From stdpp Require Import base numbers option list strings pretty sets.

#[global] Set Default Goal Selector "!".

Declare Scope wnc_scope.
Delimit Scope wnc_scope with wnc.
#[global] Open Scope wnc_scope.
#[global] Open Scope Z_scope.

Create HintDb wnc.

(** stdpp seals concatenation; the writers and parsers compute with it. *)
#[global] Arguments String.append : simpl nomatch.

(** ** Results

    A C++ function that reports [bool] together with a [Code&] and a message
    reference is a function into [result]: the error carries what the references
    were assigned, the success carries the out-parameters. *)
Inductive result (E A : Type) : Type :=
| Ok (a : A)
| Err (e : E).
Arguments Ok {E A} a.
Arguments Err {E A} e.

#[export] Instance result_ret {E} : MRet (result E) := fun A a => Ok a.
#[export] Instance result_bind {E} : MBind (result E) :=
  fun A B f r => match r with Ok a => f a | Err e => Err e end.

(** [guard b e]: the early return [if (!b) return e]. *)
Definition require {E} (b : bool) (e : E) : result E unit :=
  if b then Ok tt else Err e.

Definition is_ok {E A} (r : result E A) : bool :=
  match r with Ok _ => true | Err _ => false end.

Fixpoint result_fold {E A S} (f : S -> A -> result E S) (s : S) (l : list A) : result E S :=
  match l with
  | [] => Ok s
  | x :: l' => match f s x with Ok s' => result_fold f s' l' | Err e => Err e end
  end.

(** ** Machine integers

    A [w]-bit unsigned integer is a [Z] in [0, 2^w); the operations that can leave
    the range wrap as the C++ ones do. *)
Definition u8 (z : Z) : Z := z mod 2 ^ 8.
Definition u16 (z : Z) : Z := z mod 2 ^ 16.
Definition u32 (z : Z) : Z := z mod 2 ^ 32.
Definition u64 (z : Z) : Z := z mod 2 ^ 64.

(** [static_cast<std::int64_t>] of an unsigned 64-bit value. *)
Definition to_int64 (z : Z) : Z := (z + 2 ^ 63) mod 2 ^ 64 - 2 ^ 63.

(** ** Bytes and strings

    [std::string] and [std::string_view] are Rocq strings (one [ascii] per byte);
    [std::span<const std::uint8_t>] and [std::array<std::uint8_t, N>] are lists of
    byte values. *)
Notation bytes := (list Z).

Definition byte_of_ascii (c : ascii) : Z := Z.of_N (N_of_ascii c).
Definition ascii_of_byte (b : Z) : ascii := ascii_of_N (Z.to_N b).

Fixpoint bytes_of_string (s : string) : bytes :=
  match s with
  | EmptyString => []
  | String c s' => byte_of_ascii c :: bytes_of_string s'
  end.

Fixpoint string_of_bytes (b : bytes) : string :=
  match b with
  | [] => EmptyString
  | x :: b' => String (ascii_of_byte x) (string_of_bytes b')
  end.

Definition is_byte (b : Z) : Prop := 0 <= b < 256.

(** [s.size()] as an unsigned value. *)
Definition size (s : string) : Z := Z.of_nat (String.length s).
Definition is_empty (s : string) : bool := match s with EmptyString => true | _ => false end.
Definition zlength {A} (l : list A) : Z := Z.of_nat (length l).

(** [std::to_string] of an integer and [std::to_chars] of a 64-bit integer. *)
Definition to_string (z : Z) : string := pretty z.

(** [l[from, from + len)]. *)
Definition slice {A} (from len : nat) (l : list A) : list A := take len (drop from l).

(** ** Orders and [std::map]

    [StdLess] is the strict order a C++ container is instantiated with ([std::less]
    or [operator<]); a [std::map] is the list of its entries in key order, which is
    its iteration order. *)
Class StdLess (K : Type) := std_less : K -> K -> bool.

Class StdLessOk (K : Type) `{StdLess K} : Prop := {
  std_less_irrefl : forall k, std_less k k = false;
  std_less_trans : forall a b c, std_less a b = true -> std_less b c = true -> std_less a c = true;
  std_less_total : forall a b, std_less a b = false -> std_less b a = false -> a = b
}.

(** [std::char_traits<char>] compares characters as unsigned values. *)
Fixpoint string_less (a b : string) : bool :=
  match a, b with
  | _, EmptyString => false
  | EmptyString, String _ _ => true
  | String c a', String d b' =>
      if (N_of_ascii c <? N_of_ascii d)%N then true
      else if (N_of_ascii d <? N_of_ascii c)%N then false
      else string_less a' b'
  end.

#[export] Instance string_std_less : StdLess string := string_less.
#[export] Instance Z_std_less : StdLess Z := Z.ltb.

Section StdMap.
Context {K V : Type} `{StdLess K}.

(** Equivalent keys, [!(a < b) && !(b < a)]. *)
Definition key_equiv (a b : K) : bool := negb (std_less a b) && negb (std_less b a).

Fixpoint map_find (k : K) (m : list (K * V)) : option V :=
  match m with
  | [] => None
  | (k', v) :: m' => if key_equiv k k' then Some v else map_find k m'
  end.

(** [m[k] = v]. *)
Fixpoint map_insert (k : K) (v : V) (m : list (K * V)) : list (K * V) :=
  match m with
  | [] => [(k, v)]
  | (k', v') :: m' =>
      if std_less k k' then (k, v) :: m
      else if std_less k' k then (k', v') :: map_insert k v m'
      else (k', v) :: m'
  end.

Definition map_has (k : K) (m : list (K * V)) : bool :=
  match map_find k m with Some _ => true | None => false end.

(** [m.emplace(k, v)]: the map and whether the entry was inserted. *)
Definition map_emplace (k : K) (v : V) (m : list (K * V)) : list (K * V) * bool :=
  if map_has k m then (m, false) else (map_insert k v m, true).

Fixpoint keys_sorted (m : list (K * V)) : Prop :=
  match m with
  | [] => True
  | (k, _) :: m' => Forall (fun p => std_less k p.1 = true) m' /\ keys_sorted m'
  end.

End StdMap.

(** A loop that emplaces every element under its key: the first element of a key stays. *)
Definition emplace_all {K V : Type} `{StdLess K} (key : V -> K) (l : list V) (m : list (K * V)) : list (K * V) :=
  fold_left (fun m x => (map_emplace (key x) x m).1) l m.

(** ** [std::sort]

    A stable insertion sort: the standard leaves the order of equivalent elements
    unspecified, this model fixes it to the input order. *)
Section StdSort.
Context {A : Type} (less : A -> A -> bool).

Fixpoint sort_insert (x : A) (l : list A) : list A :=
  match l with
  | [] => [x]
  | y :: l' => if less y x then y :: sort_insert x l' else x :: l
  end.

Fixpoint std_sort (l : list A) : list A :=
  match l with
  | [] => []
  | x :: l' => sort_insert x (std_sort l')
  end.

End StdSort.

(** ** Tactics *)
Ltac inv H := inversion H; subst; clear H.

(** Case analysis on the boolean scrutinised by the goal or a hypothesis. *)
Ltac case_bool :=
  match goal with
  | |- context [if ?b then _ else _] => destruct b eqn:?
  | H : context [if ?b then _ else _] |- _ => destruct b eqn:?
  end.

(** Case analysis on every scrutinee of a hypothesis, closing absurd branches. *)
Ltac break_hyp H :=
  repeat match type of H with
         | context [match ?x with _ => _ end] => destruct x eqn:?; try discriminate H
         end.

Ltac bool_hyps :=
  repeat match goal with
         | H : _ && _ = true |- _ => apply andb_true_iff in H; destruct H
         | H : _ || _ = false |- _ => apply orb_false_iff in H; destruct H
         | H : negb _ = true |- _ => apply negb_true_iff in H
         | H : negb _ = false |- _ => apply negb_false_iff in H
         end.

(** ** Lemmas on results *)
Lemma result_bind_Ok {E A B} (f : A -> result E B) r b :
  (r ≫= f) = Ok b -> exists a, r = Ok a /\ f a = Ok b.
Proof. destruct r; simpl; [eauto | discriminate]. Qed.

Lemma require_Ok {E} b (e : E) : require b e = Ok tt <-> b = true.
Proof. unfold require; destruct b; naive_solver. Qed.

Lemma result_fold_app {E A S} (f : S -> A -> result E S) l1 l2 s :
  result_fold f s (l1 ++ l2) =
  match result_fold f s l1 with Ok s' => result_fold f s' l2 | Err e => Err e end.
Proof. revert s; induction l1 as [|x l1 IH]; intros s; simpl; [done|]. destruct (f s x); auto. Qed.

(** An invariant of the accumulator is kept by a fold that does not fail. *)
Lemma result_fold_inv {E A S} (P : S -> Prop) (f : S -> A -> result E S) l s s' :
  (forall s x s'', P s -> f s x = Ok s'' -> P s'') ->
  P s -> result_fold f s l = Ok s' -> P s'.
Proof.
  intros Hf. revert s; induction l as [|x l IH]; intros s Hs; simpl.
  - naive_solver.
  - destruct (f s x) eqn:Hfx; naive_solver.
Qed.

(** ** Lemmas on machine integers *)
Lemma u64_small z : 0 <= z < 2 ^ 64 -> u64 z = z.
Proof. apply Z.mod_small. Qed.

Lemma u64_range z : 0 <= u64 z < 2 ^ 64.
Proof. apply Z.mod_pos_bound; lia. Qed.

Lemma to_int64_small z : 0 <= z < 2 ^ 63 -> to_int64 z = z.
Proof. intros ?; unfold to_int64; rewrite Z.mod_small; lia. Qed.

Lemma to_int64_range z : - 2 ^ 63 <= to_int64 z < 2 ^ 63.
Proof. unfold to_int64. pose proof (Z.mod_pos_bound (z + 2 ^ 63) (2 ^ 64)). lia. Qed.

(** ** Lemmas on bytes and strings *)
Lemma byte_of_ascii_range c : is_byte (byte_of_ascii c).
Proof. unfold is_byte, byte_of_ascii. pose proof (N_ascii_bounded c). lia. Qed.

Lemma ascii_of_byte_of_ascii c : ascii_of_byte (byte_of_ascii c) = c.
Proof. unfold ascii_of_byte, byte_of_ascii. rewrite N2Z.id. apply ascii_N_embedding. Qed.

Lemma byte_of_ascii_of_byte b : is_byte b -> byte_of_ascii (ascii_of_byte b) = b.
Proof.
  unfold is_byte, ascii_of_byte, byte_of_ascii. intros ?.
  rewrite N_ascii_embedding by lia. lia.
Qed.

Lemma string_of_bytes_of_string s : string_of_bytes (bytes_of_string s) = s.
Proof. induction s as [|c s IH]; simpl; [done|]. by rewrite ascii_of_byte_of_ascii, IH. Qed.

Lemma bytes_of_string_of_bytes b : Forall is_byte b -> bytes_of_string (string_of_bytes b) = b.
Proof. induction 1; simpl; [done|]. rewrite byte_of_ascii_of_byte by done. congruence. Qed.

Lemma bytes_of_string_bytes s : Forall is_byte (bytes_of_string s).
Proof. induction s; simpl; constructor; auto using byte_of_ascii_range. Qed.

Lemma bytes_of_string_length s : length (bytes_of_string s) = String.length s.
Proof. induction s; simpl; auto. Qed.

Lemma bytes_of_string_inj s t : bytes_of_string s = bytes_of_string t -> s = t.
Proof. intros E. rewrite <- (string_of_bytes_of_string s), E. apply string_of_bytes_of_string. Qed.

Lemma is_empty_true s : is_empty s = true <-> s = EmptyString.
Proof. destruct s; naive_solver. Qed.

Lemma zlength_zero {A} (l : list A) : (zlength l =? 0) = true <-> l = [].
Proof. unfold zlength. rewrite Z.eqb_eq. destruct l; simpl; [tauto|]. split; [lia|done]. Qed.

Lemma zlength_nonzero {A} (l : list A) : (zlength l =? 0) = false <-> l <> [].
Proof. rewrite <- zlength_zero. by destruct (zlength l =? 0). Qed.

(** A boolean fact of every character, or of every value below a bound, by
    enumeration. *)
Lemma ascii_forall (p : ascii -> bool) :
  forallb p (ascii_of_nat <$> seq 0 256) = true -> forall c, p c = true.
Proof.
  rewrite forallb_forall. intros Hp c. rewrite <- (ascii_nat_embedding c). apply Hp.
  apply in_map_iff. exists (nat_of_ascii c). split; [done|]. apply in_seq.
  pose proof (nat_ascii_bounded c). lia.
Qed.

Lemma range_forall (p : Z -> bool) (n : Z) :
  forallb p (seqZ 0 n) = true -> forall v, 0 <= v < n -> p v = true.
Proof.
  rewrite forallb_forall. intros Hp v Hv. apply Hp. apply list_elem_of_In, elem_of_seqZ. lia.
Qed.

(** ** Bit operations as arithmetic *)
Lemma testbit_high (a k i : Z) : 0 <= a < 2 ^ k -> k <= i -> Z.testbit a i = false.
Proof.
  intros Ha Hi. destruct (decide (a = 0)) as [->|]; [apply Z.bits_0|].
  assert (0 <= k) by (destruct (decide (0 <= k)); [done|]; rewrite Z.pow_neg_r in Ha; lia).
  apply Z.bits_above_log2; [lia|]. apply Z.lt_le_trans with k; [|done]. apply Z.log2_lt_pow2; lia.
Qed.

Lemma lor_mul_add (a b k : Z) : 0 <= k -> 0 <= b < 2 ^ k -> Z.lor (a * 2 ^ k) b = a * 2 ^ k + b.
Proof.
  intros Hk Hb. rewrite <- Z.add_lor_land. enough (Z.land (a * 2 ^ k) b = 0) by lia.
  apply Z.bits_inj'. intros i Hi. rewrite Z.land_spec, Z.bits_0, Z.mul_pow2_bits by done.
  destruct (decide (i < k)).
  - by rewrite Z.testbit_neg_r by lia.
  - rewrite (testbit_high b k) by lia. apply andb_false_r.
Qed.

Lemma lor_shiftl_add (a b k : Z) :
  0 <= k -> 0 <= b < 2 ^ k -> Z.lor (Z.shiftl a k) b = a * 2 ^ k + b.
Proof. intros Hk Hb. rewrite Z.shiftl_mul_pow2 by done. by apply lor_mul_add. Qed.

(** [(x >> k) & (2^w - 1)]. *)
Lemma land_shiftr_mod (a k w : Z) :
  0 <= k -> 0 <= w -> Z.land (Z.shiftr a k) (2 ^ w - 1) = (a / 2 ^ k) mod 2 ^ w.
Proof.
  intros Hk Hw. rewrite Z.shiftr_div_pow2 by done.
  rewrite <- Z.land_ones by done. by rewrite Z.ones_equiv, Z.sub_1_r.
Qed.

Lemma div_mod_pow2 (x k w m : Z) :
  0 <= k -> 0 <= w -> k + w <= m -> (x mod 2 ^ m / 2 ^ k) mod 2 ^ w = (x / 2 ^ k) mod 2 ^ w.
Proof.
  intros Hk Hw Hm. apply Z.bits_inj'. intros i Hi.
  destruct (decide (i < w)).
  - rewrite !Z.mod_pow2_bits_low, !Z.div_pow2_bits, Z.mod_pow2_bits_low by lia. done.
  - rewrite !Z.mod_pow2_bits_high by lia. done.
Qed.

(** ** Lemmas on slices *)
Lemma slice_app_l {A} from len (l1 l2 : list A) :
  (from + len <= length l1)%nat -> slice from len (l1 ++ l2) = slice from len l1.
Proof.
  intros ?. unfold slice. rewrite drop_app_le by lia.
  rewrite take_app_le; [done|]. rewrite length_drop; lia.
Qed.

Lemma slice_app_r {A} from len (l1 l2 : list A) :
  (length l1 <= from)%nat -> slice from len (l1 ++ l2) = slice (from - length l1) len l2.
Proof. intros ?. unfold slice. by rewrite drop_app_ge by lia. Qed.

Lemma slice_length {A} from len (l : list A) :
  (from + len <= length l)%nat -> length (slice from len l) = len.
Proof. intros ?. unfold slice. rewrite length_take, length_drop. lia. Qed.

Lemma slice_all {A} (l : list A) : slice 0 (length l) l = l.
Proof. unfold slice. rewrite drop_0. by apply take_ge. Qed.

(** ** The string order *)
#[local] Arguments N.ltb : simpl never.
#[local] Arguments N_of_ascii : simpl never.

#[export] Instance string_std_less_ok : StdLessOk string.
Proof.
  split; unfold std_less, string_std_less.
  - induction k as [|c k IH]; simpl; [done|]. by rewrite N.ltb_irrefl.
  - induction a as [|c a IH]; intros [|d b] [|e f]; simpl; try done.
    intros H1 H2. repeat case_bool; try done;
      rewrite ?N.ltb_lt, ?N.ltb_ge in *; try lia. by eapply IH.
  - induction a as [|c a IH]; intros [|d b]; simpl; try done.
    intros H1 H2. repeat case_bool; try done; rewrite ?N.ltb_lt, ?N.ltb_ge in *; try lia.
    f_equal; [|by apply IH]. rewrite <- (ascii_N_embedding c), <- (ascii_N_embedding d).
    f_equal; lia.
Qed.

#[export] Instance Z_std_less_ok : StdLessOk Z.
Proof.
  split; unfold std_less, Z_std_less; intros *; rewrite ?Z.ltb_lt, ?Z.ltb_ge; lia.
Qed.

(** ** Lemmas on [std::map] *)
Section StdMapFacts.
Context {K V : Type} `{StdLessOk K}.
Implicit Types (k : K) (m : list (K * V)).

Lemma std_less_asym a b : std_less a b = true -> std_less b a = false.
Proof.
  intros E. destruct (std_less b a) eqn:E'; [|done].
  pose proof (std_less_trans _ _ _ E E') as E''. rewrite std_less_irrefl in E''. done.
Qed.

Lemma key_equiv_eq a b : key_equiv a b = true <-> a = b.
Proof.
  unfold key_equiv. split.
  - intros. bool_hyps. by apply std_less_total.
  - intros ->. by rewrite std_less_irrefl.
Qed.

Lemma key_equiv_refl a : key_equiv a a = true.
Proof. by apply key_equiv_eq. Qed.

Lemma key_equiv_ne a b : a <> b -> key_equiv a b = false.
Proof. intros ?. destruct (key_equiv a b) eqn:E; [|done]. by apply key_equiv_eq in E. Qed.

Lemma map_find_insert_eq k (v : V) m : map_find k (map_insert k v m) = Some v.
Proof.
  induction m as [|[k' v'] m IH]; simpl; [by rewrite key_equiv_refl|].
  destruct (std_less k k') eqn:E1; simpl; [by rewrite key_equiv_refl|].
  destruct (std_less k' k) eqn:E2; simpl.
  - unfold key_equiv. by rewrite E1, E2.
  - unfold key_equiv. by rewrite E1, E2.
Qed.

Lemma map_find_insert_ne k k' (v : V) m :
  k <> k' -> map_find k (map_insert k' v m) = map_find k m.
Proof.
  intros Hne. induction m as [|[k0 v0] m IH]; simpl; [by rewrite key_equiv_ne|].
  destruct (std_less k' k0) eqn:E1; simpl; [by rewrite key_equiv_ne|].
  destruct (std_less k0 k') eqn:E2; simpl; [by rewrite IH|].
  assert (k' = k0) as <- by by apply std_less_total. by rewrite key_equiv_ne.
Qed.

Lemma map_find_Some_in k (v : V) m : map_find k m = Some v -> (k, v) ∈ m.
Proof.
  induction m as [|[k' v'] m IH]; simpl; [done|].
  case_bool; [|set_solver]. apply key_equiv_eq in Heqb as <-. intros [= ->]. set_solver.
Qed.

Lemma map_find_None k m : map_find k m = None <-> k ∉ m.*1.
Proof.
  induction m as [|[k' v'] m IH]; simpl; [set_solver|].
  case_bool.
  - apply key_equiv_eq in Heqb as <-. set_solver.
  - assert (k <> k') by (intros ->; by rewrite key_equiv_refl in Heqb). rewrite IH. set_solver.
Qed.

Lemma map_has_spec k m : map_has k m = true <-> k ∈ m.*1.
Proof.
  unfold map_has. destruct (map_find k m) eqn:E.
  - split; [|done]. intros _. apply map_find_Some_in in E. apply list_elem_of_fmap. by eexists (_, _).
  - apply map_find_None in E. naive_solver.
Qed.

Lemma map_insert_keys k k' (v : V) m : k' ∈ (map_insert k v m).*1 <-> k' = k \/ k' ∈ m.*1.
Proof.
  induction m as [|[k0 v0] m IH]; simpl; [set_solver|].
  destruct (std_less k k0) eqn:E1; simpl; [set_solver|].
  destruct (std_less k0 k) eqn:E2; simpl; [set_solver|].
  assert (k = k0) as -> by by apply std_less_total. set_solver.
Qed.

Lemma map_emplace_keys k k' (v : V) m :
  k' ∈ (map_emplace k v m).1.*1 <-> k' = k \/ k' ∈ m.*1.
Proof.
  unfold map_emplace. destruct (map_has k m) eqn:E; simpl.
  - apply map_has_spec in E. naive_solver.
  - apply map_insert_keys.
Qed.

Lemma map_emplace_fresh k (v : V) m : (map_emplace k v m).2 = true <-> k ∉ m.*1.
Proof.
  rewrite <- map_has_spec. unfold map_emplace. destruct (map_has k m); naive_solver.
Qed.

Lemma emplace_all_find (key : V -> K) k l m :
  map_find k (emplace_all key l m) =
  match map_find k m with Some v => Some v | None => List.find (fun x => key_equiv k (key x)) l end.
Proof.
  revert m; induction l as [|x l IH]; intros m; [by cbn; destruct (map_find k m)|].
  assert (emplace_all key (x :: l) m = emplace_all key l (map_emplace (key x) x m).1) as -> by done.
  cbn [List.find]. rewrite IH. unfold map_emplace, map_has. destruct (map_find (key x) m) eqn:E; simpl.
  - destruct (map_find k m) eqn:E'; [done|]. rewrite key_equiv_ne; [done|]. intros ->. congruence.
  - destruct (key_equiv k (key x)) eqn:Ek.
    + apply key_equiv_eq in Ek as ->. by rewrite map_find_insert_eq, E.
    + rewrite map_find_insert_ne; [done|]. intros ->. by rewrite key_equiv_refl in Ek.
Qed.

Lemma emplace_all_None (key : V -> K) k l : map_find k (emplace_all key l []) = None <-> k ∉ key <$> l.
Proof.
  rewrite emplace_all_find. simpl. rewrite list_elem_of_fmap. split.
  - intros Hn (x & -> & Hx). apply list_elem_of_In in Hx.
    pose proof (find_none _ _ Hn _ Hx) as E. simpl in E. by rewrite key_equiv_refl in E.
  - intros Hn. destruct (List.find _ l) as [x|] eqn:E; [|done]. exfalso. apply Hn.
    apply find_some in E as [Hx E]. apply key_equiv_eq in E as ->. exists x. by apply list_elem_of_In in Hx.
Qed.

Lemma emplace_all_Some (key : V -> K) k l x :
  map_find k (emplace_all key l []) = Some x -> x ∈ l /\ key x = k.
Proof.
  rewrite emplace_all_find. simpl. intros E. apply find_some in E as [Hx E].
  apply key_equiv_eq in E. by apply list_elem_of_In in Hx.
Qed.

Lemma map_insert_sorted k (v : V) m : keys_sorted m -> keys_sorted (map_insert k v m).
Proof.
  induction m as [|[k0 v0] m IH]; simpl; [by repeat constructor|].
  intros [Hlt Hs].
  destruct (std_less k k0) eqn:E1; simpl.
  - split; [|done]. constructor; [done|]. eapply Forall_impl; [done|].
    intros [k1 v1]; simpl. by apply std_less_trans.
  - destruct (std_less k0 k) eqn:E2; simpl; [|by split].
    split; [|by apply IH]. apply Forall_forall. intros [k1 v1] Hin; simpl.
    assert (k1 = k \/ k1 ∈ m.*1) as [->|Hk].
    { apply (map_insert_keys k k1 v m). apply list_elem_of_fmap. by exists (k1, v1). }
    + done.
    + apply list_elem_of_fmap in Hk as [[k2 v2] [-> Hin']].
      rewrite Forall_forall in Hlt. by apply (Hlt (k2, v2)).
Qed.

Lemma keys_sorted_NoDup m : keys_sorted m -> NoDup m.*1.
Proof.
  induction m as [|[k v] m IH]; simpl; [constructor|].
  intros [Hlt Hs]. constructor; [|by apply IH].
  intros Hin. apply list_elem_of_fmap in Hin as [[k' v'] [-> Hin]].
  rewrite Forall_forall in Hlt. specialize (Hlt _ Hin). simpl in Hlt.
  by rewrite std_less_irrefl in Hlt.
Qed.

Lemma keys_sorted_find k (v : V) m : keys_sorted m -> (k, v) ∈ m -> map_find k m = Some v.
Proof.
  induction m as [|[k' v'] m IH]; simpl; [set_solver|].
  intros [Hlt Hs] Hin. apply elem_of_cons in Hin as [[= <- <-]|Hin]; [by rewrite key_equiv_refl|].
  rewrite Forall_forall in Hlt. specialize (Hlt _ Hin). simpl in Hlt.
  rewrite key_equiv_ne; [by apply IH|]. intros ->. by rewrite std_less_irrefl in Hlt.
Qed.

Lemma keys_sorted_app_lt m k (v : V) m' :
  keys_sorted (m ++ (k, v) :: m') -> Forall (fun p => std_less p.1 k = true) m.
Proof.
  induction m as [|[k0 v0] m IH]; simpl; [constructor|]. intros [Hlt Hs].
  constructor; [|by apply IH]. rewrite Forall_forall in Hlt. apply (Hlt (k, v)). set_solver.
Qed.

(** Appending a key above all others is inserting it. *)
Lemma map_insert_last k (v : V) m :
  Forall (fun p => std_less p.1 k = true) m -> map_insert k v m = m ++ [(k, v)].
Proof.
  induction 1 as [|[k0 v0] m Hlt Hm IH]; simpl in *; [done|].
  rewrite (std_less_asym _ _ Hlt), Hlt. by rewrite IH.
Qed.

Lemma map_has_below k m :
  Forall (fun p : K * V => std_less p.1 k = true) m -> map_has k m = false.
Proof.
  intros Hm. apply not_true_iff_false. rewrite map_has_spec. intros Hin.
  apply list_elem_of_fmap in Hin as [[k0 v0] [-> Hin]]. rewrite Forall_forall in Hm.
  specialize (Hm _ Hin). simpl in Hm. by rewrite std_less_irrefl in Hm.
Qed.

(** Two maps in key order with the same lookups are the same list. *)
Lemma keys_sorted_ext (m1 m2 : list (K * V)) :
  keys_sorted m1 -> keys_sorted m2 ->
  (forall k, map_find k m1 = map_find k m2) -> m1 = m2.
Proof.
  revert m2; induction m1 as [|[k v] m1 IH]; intros [|[k' v'] m2]; simpl; intros H1 H2 Heq.
  - done.
  - specialize (Heq k'). by rewrite key_equiv_refl in Heq.
  - specialize (Heq k). by rewrite key_equiv_refl in Heq.
  - destruct H1 as [L1 S1], H2 as [L2 S2].
    assert (forall a b (w : V) m, Forall (fun p => std_less b p.1 = true) m ->
              std_less a b = true -> map_find a ((b, w) :: m) = None) as Hnone.
    { intros a b w m HL Hab. apply map_find_None. simpl. intros Hin.
      apply elem_of_cons in Hin as [->|Hin]; [by rewrite std_less_irrefl in Hab|].
      apply list_elem_of_fmap in Hin as [[c x] [-> Hin]]. rewrite Forall_forall in HL.
      specialize (HL _ Hin). simpl in HL. pose proof (std_less_trans _ _ _ HL Hab) as E.
      rewrite std_less_irrefl in E. done || (pose proof (std_less_asym _ _ Hab); congruence). }
    destruct (std_less k k') eqn:E1.
    { specialize (Heq k). rewrite key_equiv_refl in Heq.
      pose proof (Hnone k k' v' m2 L2 E1) as Hn. simpl in Hn. congruence. }
    destruct (std_less k' k) eqn:E2.
    { specialize (Heq k'). rewrite key_equiv_refl in Heq.
      pose proof (Hnone k' k v m1 L1 E2) as Hn. simpl in Hn. congruence. }
    assert (k = k') as <- by by apply std_less_total.
    assert (v = v') as <-. { specialize (Heq k). rewrite !key_equiv_refl in Heq. by inv Heq. }
    f_equal. apply IH; [done..|]. intros a. specialize (Heq a).
    destruct (key_equiv a k) eqn:Ea; [|done]. apply key_equiv_eq in Ea as ->.
    transitivity (@None V); [|symmetry]; apply map_find_None; intros Hin;
      apply list_elem_of_fmap in Hin as [[c x] [-> Hin]].
    + rewrite Forall_forall in L1. specialize (L1 _ Hin). simpl in L1.
      by rewrite std_less_irrefl in L1.
    + rewrite Forall_forall in L2. specialize (L2 _ Hin). simpl in L2.
      by rewrite std_less_irrefl in L2.
Qed.

End StdMapFacts.

(** Lexicographic order on pairs, used for composite keys. *)
#[export] Instance prod_std_less {A B} `{StdLess A, StdLess B} : StdLess (A * B) :=
  fun p q => if std_less p.1 q.1 then true
             else if std_less q.1 p.1 then false else std_less p.2 q.2.

#[export] Instance prod_std_less_ok {A B} `{StdLessOk A, StdLessOk B} : StdLessOk (A * B).
Proof.
  split.
  - intros [a b]. unfold std_less, prod_std_less; simpl. by rewrite !std_less_irrefl.
  - intros [a1 b1] [a2 b2] [a3 b3]. unfold std_less, prod_std_less; simpl.
    destruct (std_less a1 a2) eqn:E12, (std_less a2 a3) eqn:E23; intros H3 H4.
    + by rewrite (std_less_trans _ _ _ E12 E23).
    + destruct (std_less a3 a2) eqn:E32; [done|].
      assert (a2 = a3) as <- by by apply std_less_total. by rewrite E12.
    + destruct (std_less a2 a1) eqn:E21; [done|].
      assert (a1 = a2) as <- by by apply std_less_total. by rewrite E23.
    + destruct (std_less a2 a1) eqn:E21; [done|].
      assert (a1 = a2) as <- by by apply std_less_total.
      destruct (std_less a3 a1) eqn:E31; [done|].
      assert (a1 = a3) as <- by by apply std_less_total.
      rewrite std_less_irrefl. by eapply std_less_trans.
  - intros [a1 b1] [a2 b2]. unfold std_less, prod_std_less; simpl.
    destruct (std_less a1 a2) eqn:E12, (std_less a2 a1) eqn:E21; try done.
    intros H3 H4. f_equal; by apply std_less_total.
Qed.

(** ** Lemmas on [std::sort]

    The comparator is the order of a key [f]. *)
Section StdSortFacts.
Context {A K : Type} `{StdLessOk K} (f : A -> K).

Notation less := (fun x y : A => std_less (f x) (f y)).
Notation sorted := (StronglySorted (fun x y : A => std_less (f y) (f x) = false)).

Lemma sort_insert_perm (lt : A -> A -> bool) x l : sort_insert lt x l ≡ₚ x :: l.
Proof.
  induction l as [|y l IH]; simpl; [done|]. case_bool; [|done].
  rewrite IH. by rewrite Permutation_swap.
Qed.

Lemma std_sort_perm (lt : A -> A -> bool) l : std_sort lt l ≡ₚ l.
Proof. induction l as [|x l IH]; simpl; [done|]. by rewrite sort_insert_perm, IH. Qed.

Lemma std_less_ntrans a b c : std_less b a = false -> std_less c b = false -> std_less c a = false.
Proof.
  intros H1 H2. destruct (std_less c a) eqn:E; [|done].
  destruct (std_less a b) eqn:Eab.
  - pose proof (std_less_trans _ _ _ E Eab). congruence.
  - assert (a = b) as <- by by apply std_less_total. congruence.
Qed.

Lemma sort_insert_sorted x l : sorted l -> sorted (sort_insert less x l).
Proof.
  induction 1 as [|y l Hs IH Hall]; simpl; [by repeat constructor|]. case_bool.
  - constructor; [done|]. rewrite sort_insert_perm. constructor; [|done].
    by apply std_less_asym.
  - constructor; [by constructor|]. constructor; [done|].
    eapply Forall_impl; [done|]. simpl. intros z Hz. by eapply std_less_ntrans.
Qed.

Lemma std_sort_sorted l : sorted (std_sort less l).
Proof. induction l; simpl; [constructor|]. by apply sort_insert_sorted. Qed.

(** Two sorted permutations agree when equal keys mean equal elements. *)
Lemma sorted_perm_unique l1 l2 :
  sorted l1 -> sorted l2 -> (forall x y, x ∈ l1 -> y ∈ l1 -> f x = f y -> x = y) -> l1 ≡ₚ l2 -> l1 = l2.
Proof.
  intros Hs1. revert l2. induction Hs1 as [|x l1 Hs1 IH Hall1]; intros l2 Hs2 Hinj Hp.
  - by apply Permutation_nil_l in Hp.
  - destruct Hs2 as [|y l2 Hs2 Hall2]; [by apply Permutation_nil_r in Hp|].
    assert (x = y) as <-.
    { assert (x ∈ y :: l2) as Hx by (rewrite <- Hp; set_solver).
      assert (y ∈ x :: l1) as Hy by (rewrite Hp; set_solver).
      apply elem_of_cons in Hx as [->|Hx]; [done|].
      apply elem_of_cons in Hy as [->|Hy]; [done|].
      rewrite Forall_forall in Hall1, Hall2.
      apply Hinj; [set_solver..|]. apply std_less_total; auto. }
    f_equal. apply Permutation_cons_inv in Hp. apply IH; [done| |done]. intros; apply Hinj; set_solver.
Qed.

Lemma NoDup_keys_inj l : NoDup (f <$> l) -> forall x y, x ∈ l -> y ∈ l -> f x = f y -> x = y.
Proof.
  induction l as [|z l IH]; [set_solver|]. rewrite fmap_cons, NoDup_cons. intros [Hnin Hnd] x y Hx Hy E.
  apply elem_of_cons in Hx as [->|Hx], Hy as [->|Hy]; [done|..].
  - exfalso. apply Hnin. rewrite E. by apply list_elem_of_fmap_2.
  - exfalso. apply Hnin. rewrite <- E. by apply list_elem_of_fmap_2.
  - by apply IH.
Qed.

(** The output of the sort is a function of the elements when their keys differ. *)
Lemma std_sort_permutation_inj l1 l2 :
  (forall x y, x ∈ l1 -> y ∈ l1 -> f x = f y -> x = y) -> l1 ≡ₚ l2 ->
  std_sort less l1 = std_sort less l2.
Proof.
  intros Hinj Hp. apply sorted_perm_unique; auto using std_sort_sorted.
  - intros x y. rewrite !std_sort_perm. apply Hinj.
  - by rewrite !std_sort_perm.
Qed.

Lemma std_sort_permutation l1 l2 :
  NoDup (f <$> l1) -> l1 ≡ₚ l2 -> std_sort less l1 = std_sort less l2.
Proof. intros Hnd. apply std_sort_permutation_inj. by apply NoDup_keys_inj. Qed.

Lemma sort_insert_front x l :
  Forall (fun y => std_less (f y) (f x) = false) l -> sort_insert less x l = x :: l.
Proof. destruct 1 as [|y l Hy Hl]; simpl; [done|]. by rewrite Hy. Qed.

Lemma std_sort_id l : sorted l -> std_sort less l = l.
Proof.
  induction 1 as [|x l Hs IH Hall]; simpl; [done|]. rewrite IH. by apply sort_insert_front.
Qed.

Lemma std_sort_idem l : std_sort less (std_sort less l) = std_sort less l.
Proof. apply std_sort_id, std_sort_sorted. Qed.

End StdSortFacts.

#[export] Hint Resolve std_sort_perm byte_of_ascii_range bytes_of_string_bytes u64_range : wnc.
#[export] Hint Rewrite @std_less_irrefl using typeclasses eauto : wnc.
