(* ===== verification/Console.v ===== *)
(** * What a command line tool writes

    The exit code and the two output streams of [src/tools/wncctl_main.cpp] and
    [src/tools/coordinator_main.cpp].  A program is read as what it still has to write
    around the value it returns: [out text r] prints [text] and goes on as [r]. *)
From Stdlib Require Import ZArith Ascii String.
From stdpp Require Import base strings.
From S2P Require Import Prelude.

Record Run := mk_run { exit_code : Z; out_text : string; err_text : string }.

Definition finish (code : Z) : Run := mk_run code EmptyString EmptyString.

(** [std::printf(...)] and [std::fprintf(stderr, ...)], then the rest of the command. *)
Definition out (text : string) (r : Run) : Run := mk_run (exit_code r) (text ++ out_text r) (err_text r).
Definition err (text : string) (r : Run) : Run := mk_run (exit_code r) (out_text r) (text ++ err_text r).

Definition outs (texts : list string) (r : Run) : Run := fold_right out r texts.
Definition errs (texts : list string) (r : Run) : Run := fold_right err r texts.

Definition line (text : string) : string := text ++ String "010" EmptyString.

Lemma errs_exit texts r : exit_code (errs texts r) = exit_code r.
Proof. by induction texts. Qed.

Lemma errs_out texts r : out_text (errs texts r) = out_text r.
Proof. by induction texts. Qed.

Lemma outs_exit texts r : exit_code (outs texts r) = exit_code r.
Proof. by induction texts. Qed.

Lemma outs_err texts r : err_text (outs texts r) = err_text r.
Proof. by induction texts. Qed.

Lemma line_not_empty text : line text <> EmptyString.
Proof. by destruct text. Qed.

Lemma append_not_empty a b : a <> EmptyString -> String.append a b <> EmptyString.
Proof. by destruct a. Qed.
