(* ===== verification/Doubles.v ===== *)
(** * IEEE binary64 values

    The C++ [double] as the Standard Library's executable [spec_float] at precision 53:
    the comparisons of the language (a NaN compares false), [std::isfinite], the
    conversion from [std::int64_t], and the three conversions to and from text the
    sources use: [std::to_string] (the [%f] format), [std::to_chars] (the shortest
    representation that reads back as the same value) and [std::from_chars].  All of
    them compute with exact integers. *)
From Stdlib Require Import ZArith Lia Floats.SpecFloat Ascii String.
From stdpp Require Import base option list strings pretty.
From S2P Require Import Prelude.

#[local] Open Scope Z_scope.

Notation double := spec_float.

(** [static_cast<double>] of a signed 64-bit integer; also the integer literals. *)
Definition double_of_int (z : Z) : double := binary_normalize 53 1024 z 0 false.

Definition d_zero : double := S754_zero false.

(** [a < b], [a <= b], [a == b] on doubles. *)
Definition dlt (a b : double) : bool := SFltb a b.
Definition dle (a b : double) : bool := SFleb a b.
Definition deq (a b : double) : bool := SFeqb a b.

Definition is_finite (d : double) : bool :=
  match d with S754_zero _ | S754_finite _ _ _ => true | _ => false end.

(** ** Text *)

(** [m * 2 ^ e], rounded to the nearest integer, ties to even. *)
Definition round_half_even (num den : Z) : Z :=
  let q := num / den in
  let r := num mod den in
  if 2 * r <? den then q
  else if den <? 2 * r then q + 1
  else if Z.even q then q else q + 1.

Definition scaled (m e : Z) : Z * Z := if 0 <=? e then (m * 2 ^ e, 1) else (m, 2 ^ (- e)).

Fixpoint zeros (n : nat) : string :=
  match n with O => EmptyString | S n' => String "0"%char (zeros n') end.

Definition pad_left (width : nat) (s : string) : string :=
  String.append (zeros (width - String.length s)) s.

(** [std::to_string(double)]: the [%f] format, six fraction digits. *)
Definition to_string_double (d : double) : string :=
  match d with
  | S754_zero s => String.append (if s then "-" else EmptyString) "0.000000"
  | S754_infinity s => String.append (if s then "-" else EmptyString) "inf"
  | S754_nan => "nan"
  | S754_finite s m e =>
      let '(num, den) := scaled (Zpos m) e in
      let v := round_half_even (num * 10 ^ 6) den in
      String.append (if s then "-" else EmptyString)
        (String.append (to_string (v / 10 ^ 6))
           (String.append "." (pad_left 6 (to_string (v mod 10 ^ 6)))))
  end.

(** The double nearest to [digits * 10 ^ exponent]. *)
Definition double_of_decimal (negative : bool) (digits exponent : Z) : double :=
  if digits =? 0 then S754_zero negative
  else if 0 <=? exponent
  then binary_normalize 53 1024
         (if negative then - (digits * 10 ^ exponent) else digits * 10 ^ exponent) 0 negative
  else let '(q, e', l) := SFdiv_core_binary 53 1024 digits 0 (10 ^ (- exponent)) 0 in
       binary_round_aux 53 1024 negative q e' l.

(** [std::from_chars(double)] on a token [digits * 10 ^ exponent]: a value that is too
    large, or a non zero one that rounds to zero, is [errc::result_out_of_range]. *)
Definition from_chars_double (negative : bool) (digits exponent : Z) : option double :=
  match double_of_decimal negative digits exponent with
  | S754_zero s => if digits =? 0 then Some (S754_zero s) else None
  | S754_finite s m e => Some (S754_finite s m e)
  | _ => None
  end.

Fixpoint strip_zeros (fuel : nat) (digits exponent : Z) : Z * Z :=
  match fuel with
  | O => (digits, exponent)
  | S fuel' => if digits mod 10 =? 0 then strip_zeros fuel' (digits / 10) (exponent + 1)
               else (digits, exponent)
  end.

(** The decimal exponent [k] with [10 ^ k <= num / den < 10 ^ (k + 1)]. *)
Definition decimal_exponent (num den : Z) : Z :=
  let guess := (Z.log2 num - Z.log2 den) * 1233 / 4096 in
  let le k := if 0 <=? k then 10 ^ k * den <=? num else den <=? num * 10 ^ (- k) in
  if le (guess + 1) then guess + 1 else if le guess then guess else guess - 1.

(** The shortest decimal [digits * 10 ^ exponent] that reads back as [m * 2 ^ e], and
    among the shortest ones the nearest to the value. *)
Fixpoint shortest_from (n fuel : nat) (num den k : Z) (v : double) : option (Z * Z) :=
  match fuel with
  | O => None
  | S fuel' =>
      let x := k + 1 - Z.of_nat n in
      let '(a, b) := if 0 <=? x then (num, den * 10 ^ x) else (num * 10 ^ (- x), den) in
      let lo := a / b in
      let r := a mod b in
      let reads d := deq (double_of_decimal false d x) v in
      let lo_ok := reads lo in
      let hi_ok := reads (lo + 1) in
      if lo_ok && (negb hi_ok || (2 * r <=? b)) then Some (strip_zeros 20 lo x)
      else if hi_ok then Some (strip_zeros 20 (lo + 1) x)
      else shortest_from (S n) fuel' num den k v
  end.

Definition shortest_decimal (m : positive) (e : Z) : option (Z * Z) :=
  let '(num, den) := scaled (Zpos m) e in
  shortest_from 1 17 num den (decimal_exponent num den) (S754_finite false m e).

(** [std::to_chars(double)] of a finite value: fixed or scientific notation, whichever
    is shorter, fixed on a tie. *)
Definition fixed_notation (m : positive) (e digits exponent : Z) : string :=
  let text := to_string digits in
  let len := Z.of_nat (String.length text) in
  if 0 <=? exponent then let '(num, den) := scaled (Zpos m) e in to_string (num / den)
  else if len + exponent <=? 0
  then String.append "0." (String.append (zeros (Z.to_nat (- (len + exponent)))) text)
  else String.append (substring 0 (Z.to_nat (len + exponent)) text)
         (String.append "." (substring (Z.to_nat (len + exponent)) (Z.to_nat (- exponent)) text)).

Definition scientific_notation (digits exponent : Z) : string :=
  let text := to_string digits in
  let len := Z.of_nat (String.length text) in
  let x := exponent + len - 1 in
  let mantissa :=
    if len =? 1 then text
    else String.append (substring 0 1 text)
           (String.append "." (substring 1 (String.length text - 1) text)) in
  String.append mantissa
    (String.append (if x <? 0 then "e-" else "e+") (pad_left 2 (to_string (Z.abs x)))).

Definition to_chars_double (d : double) : option string :=
  match d with
  | S754_zero s => Some (if s then "-0" else "0")
  | S754_finite s m e =>
      match shortest_decimal m e with
      | None => None
      | Some (digits, exponent) =>
          let fixed := fixed_notation m e digits exponent in
          let scientific := scientific_notation digits exponent in
          let text :=
            if (String.length fixed <=? String.length scientific)%nat then fixed else scientific in
          Some (if s then String.append "-" text else text)
      end
  | _ => None
  end.

(** ** The order of the finite values

    [SFcompare] is the lexicographic comparison of this key. *)
Definition magnitude_compare (m1 : positive) (e1 : Z) (m2 : positive) (e2 : Z) : comparison :=
  match Z.compare e1 e2 with
  | Lt => Lt | Gt => Gt | Eq => Pos.compare_cont Eq m1 m2
  end.

Definition double_key (d : double) : Z * (Z * Z) :=
  match d with
  | S754_nan => (0, (0, 0))
  | S754_infinity true => (-3, (0, 0))
  | S754_infinity false => (3, (0, 0))
  | S754_zero _ => (0, (0, 0))
  | S754_finite true m e => (-1, (- e, Zneg m))
  | S754_finite false m e => (1, (e, Zpos m))
  end.

Definition is_nan (d : double) : bool := match d with S754_nan => true | _ => false end.

(** ** Lemmas *)
Lemma dlt_key a b :
  is_nan a = false -> is_nan b = false -> dlt a b = std_less (double_key a) (double_key b).
Proof.
  unfold dlt, SFltb, std_less, prod_std_less, std_less, prod_std_less, std_less, Z_std_less.
  destruct a as [[]|[]| |[] m e], b as [[]|[]| |[] m' e']; simpl; try done; intros _ _.
  - destruct (Z.compare_spec e e') as [->|?|?].
    + rewrite !Z.ltb_irrefl. change (Pos.compare_cont Eq m m') with (m ?= m')%positive.
      unfold Z.ltb; simpl. by destruct (m ?= m')%positive.
    + rewrite (proj2 (Z.ltb_ge (- e) (- e'))), (proj2 (Z.ltb_lt (- e') (- e))) by lia. done.
    + by rewrite (proj2 (Z.ltb_lt (- e) (- e'))) by lia.
  - destruct (Z.compare_spec e e') as [->|?|?].
    + rewrite !Z.ltb_irrefl. change (Pos.compare_cont Eq m m') with (m ?= m')%positive.
      unfold Z.ltb; simpl. by destruct (m ?= m')%positive.
    + by rewrite (proj2 (Z.ltb_lt e e')) by lia.
    + rewrite (proj2 (Z.ltb_ge e e')), (proj2 (Z.ltb_lt e' e)) by lia. done.
Qed.

Lemma double_key_total a b :
  std_less (double_key a) (double_key b) = false ->
  std_less (double_key b) (double_key a) = false -> double_key a = double_key b.
Proof. apply std_less_total. Qed.

Lemma deq_key a b :
  is_nan a = false -> is_nan b = false ->
  deq a b = true <-> double_key a = double_key b.
Proof.
  unfold deq, SFeqb.
  destruct a as [[]|[]| |[] m e], b as [[]|[]| |[] m' e']; simpl; try done; intros _ _.
  all: destruct (Z.compare_spec e e') as [->|?|?]; try (split; [done | intros [=]; lia]).
  all: change (Pos.compare_cont Eq m m') with (m ?= m')%positive.
  all: destruct (Pos.compare_spec m m') as [->|?|?]; simpl; try done.
  all: split; [done | intros [=]; lia].
Qed.

Lemma dle_dlt a b : is_nan a = false -> is_nan b = false -> dle a b = negb (dlt b a).
Proof.
  unfold dle, dlt, SFleb, SFltb.
  destruct a as [[]|[]| |[] m e], b as [[]|[]| |[] m' e']; simpl; try done; intros _ _.
  all: rewrite (Z.compare_antisym e e'); destruct (Z.compare e e'); simpl; try done.
  all: change (Pos.compare_cont Eq m m') with (m ?= m')%positive.
  all: change (Pos.compare_cont Eq m' m) with (m' ?= m)%positive.
  all: rewrite (Pos.compare_antisym m m'); by destruct (m ?= m')%positive.
Qed.

Lemma is_finite_not_nan d : is_finite d = true -> is_nan d = false.
Proof. by destruct d. Qed.

Section DoubleOrder.
Context (a b c : double) (Ha : is_finite a = true) (Hb : is_finite b = true) (Hc : is_finite c = true).

Lemma dle_refl : dle a a = true.
Proof using Ha.
  apply is_finite_not_nan in Ha. rewrite dle_dlt, dlt_key by done. by rewrite std_less_irrefl.
Qed.

Lemma dle_trans : dle a b = true -> dle b c = true -> dle a c = true.
Proof using Ha Hb Hc.
  apply is_finite_not_nan in Ha, Hb, Hc. rewrite !dle_dlt, !dlt_key by done.
  rewrite !negb_true_iff. intros. by eapply std_less_ntrans.
Qed.

Lemma dle_total : dle a b = true \/ dle b a = true.
Proof using Ha Hb.
  apply is_finite_not_nan in Ha, Hb. rewrite !dle_dlt, !dlt_key by done.
  rewrite !negb_true_iff. destruct (std_less (double_key b) (double_key a)) eqn:E; [|by left].
  right. by apply std_less_asym.
Qed.

Lemma deq_dle : deq a b = true <-> dle a b = true /\ dle b a = true.
Proof using Ha Hb.
  apply is_finite_not_nan in Ha, Hb. rewrite deq_key, !dle_dlt, !dlt_key by done.
  rewrite !negb_true_iff. split.
  - intros ->. by rewrite std_less_irrefl.
  - intros [? ?]. by apply double_key_total.
Qed.

Lemma dlt_not_dle : dlt a b = negb (dle b a).
Proof using Ha Hb.
  apply is_finite_not_nan in Ha, Hb. rewrite dle_dlt by done. by rewrite negb_involutive.
Qed.

End DoubleOrder.

#[export] Hint Resolve is_finite_not_nan dle_refl : wnc.

(** ** The sign of a converted integer

    Rounding never takes a nonzero integer to zero. *)
Lemma shr_1_m mrs : 0 <= shr_m mrs -> shr_m (shr_1 mrs) = shr_m mrs / 2.
Proof.
  destruct mrs as [[|[p|p|]|p] r s]; simpl; try done; intros _.
  - apply (Z.div_unique _ 2 _ 1); lia.
  - apply (Z.div_unique _ 2 _ 0); lia.
Qed.

Lemma iter_shr_m p mrs : 0 <= shr_m mrs -> shr_m (SpecFloat.iter_pos shr_1 p mrs) = shr_m mrs / 2 ^ Zpos p.
Proof.
  revert mrs; induction p as [p IH|p IH|]; intros mrs Hm; cbn [SpecFloat.iter_pos].
  - assert (0 <= shr_m (shr_1 mrs)) by (rewrite shr_1_m; [apply Z.div_pos|]; lia).
    rewrite IH by (rewrite IH by done; apply Z.div_pos; lia). rewrite IH, shr_1_m by done.
    rewrite !Z.div_div by lia. f_equal. rewrite (Pos2Z.inj_xI p).
    replace (2 * Zpos p + 1) with (1 + Zpos p + Zpos p) by lia. rewrite !Z.pow_add_r by lia. lia.
  - rewrite IH by (rewrite IH by done; apply Z.div_pos; lia). rewrite IH by done.
    rewrite Z.div_div by lia. f_equal. rewrite (Pos2Z.inj_xO p).
    replace (2 * Zpos p) with (Zpos p + Zpos p) by lia. by rewrite Z.pow_add_r by lia.
  - by apply shr_1_m.
Qed.

Lemma digits_bound p : 2 ^ (Zpos (digits2_pos p) - 1) <= Zpos p.
Proof.
  induction p as [p IH|p IH|]; cbn [digits2_pos]; [| |done];
    rewrite Pos2Z.inj_succ; replace (Z.succ (Zpos (digits2_pos p)) - 1)
      with (1 + (Zpos (digits2_pos p) - 1)) by lia; rewrite Z.pow_add_r by lia; lia.
Qed.

Lemma shr_fexp_positive m e l :
  0 < m -> -1073 <= e ->
  0 < shr_m (shr_fexp 53 1024 m e l).1 /\ e <= (shr_fexp 53 1024 m e l).2.
Proof.
  intros Hm He. destruct m as [|p|p]; try lia.
  assert (shr_m (shr_record_of_loc (Zpos p) l) = Zpos p) as Hr by (by destruct l as [|[]]).
  unfold shr_fexp, fexp, emin. cbn [Zdigits2].
  set (n := Z.max (Zpos (digits2_pos p) + e - 53) (3 - 1024 - 53) - e).
  assert (n <= Zpos (digits2_pos p) - 1) as Hn by lia.
  destruct n as [|q|q]; simpl; [lia| |lia].
  rewrite iter_shr_m, Hr by lia. split; [|lia].
  apply Z.div_str_pos. split; [lia|]. transitivity (2 ^ (Zpos (digits2_pos p) - 1)); [|apply digits_bound].
  apply Z.pow_le_mono_r; lia.
Qed.

Lemma round_even_positive m l : 0 < m -> 0 < round_nearest_even m l.
Proof. intros. destruct l as [|[]]; simpl; try destruct (Z.even m); lia. Qed.

Lemma binary_round_nonzero s p :
  (exists m e, binary_round 53 1024 s p 0 = S754_finite s m e) \/ binary_round 53 1024 s p 0 = S754_infinity s.
Proof.
  unfold binary_round. destruct (shl_align p 0 _) as [mz ez] eqn:E.
  assert (-1073 <= ez) as He.
  { revert E. unfold shl_align, fexp, emin. destruct (_ - 0) as [|d|d] eqn:Hd; intros [= <- <-]; lia. }
  unfold binary_round_aux. destruct (shr_fexp_positive (Zpos mz) ez loc_Exact) as [H1 H2]; [done..|].
  destruct (shr_fexp 53 1024 (Zpos mz) ez loc_Exact) as [mrs e1]. cbn [fst snd] in *.
  destruct (shr_fexp_positive (round_nearest_even (shr_m mrs) (loc_of_shr_record mrs)) e1 loc_Exact)
    as [H3 H4]; [by apply round_even_positive|lia|].
  destruct (shr_fexp 53 1024 (round_nearest_even _ _) e1 loc_Exact) as [mrs2 e2]. cbn [fst snd] in *.
  destruct (shr_m mrs2); [lia| |lia]. destruct (e2 <=? _); [left; by do 2 eexists|by right].
Qed.

Lemma double_of_int_sign z : dlt (double_of_int z) d_zero = (z <? 0) /\ double_of_int z <> S754_zero true.
Proof.
  unfold double_of_int, binary_normalize. destruct z as [|p|p]; [done| |];
    [destruct (binary_round_nonzero false p) as [(m & e & ->)| ->]|
     destruct (binary_round_nonzero true p) as [(m & e & ->)| ->]]; done.
Qed.

(** A double that is neither below zero nor the negative zero is the zero when it equals it. *)
Lemma deq_zero d : deq d d_zero = true -> d <> S754_zero true -> d = d_zero.
Proof. destruct d as [[]|[]| |[] m e]; done. Qed.

(** A comparison that holds involves no NaN, so chains of comparisons need no side condition. *)
Lemma dle_not_nan a b : dle a b = true -> is_nan a = false /\ is_nan b = false.
Proof. destruct a as [[]|[]| |[]], b as [[]|[]| |[]]; simpl; intros; done. Qed.

Lemma dle_chain a b c : dle a b = true -> dle b c = true -> dle a c = true.
Proof.
  intros H1 H2. destruct (dle_not_nan _ _ H1) as [Ha Hb], (dle_not_nan _ _ H2) as [_ Hc].
  revert H1 H2. rewrite !dle_dlt, !dlt_key by done. rewrite !negb_true_iff. apply std_less_ntrans.
Qed.
