(* ===== verification/Rounding.v ===== *)
(** * Rounding

    [double_of_decimal] depends on the rational number only, not on the digits and the
    exponent that write it: [std::from_chars] reads "15e-1", "1.5" and "1.50" alike.  The
    quotient [num / den] is followed through the roundings of [SpecFloat] as the record
    [at_exponent]: its integer part at a binary exponent, the next bit, and whether
    anything lies below. *)
From Stdlib Require Import ZArith Lia Floats.SpecFloat.
From stdpp Require Import base numbers.
From S2P Require Import Prelude Doubles.

#[local] Open Scope Z_scope.

Notation Fexp := (fexp 53 1024).

(** ** A quotient at a binary exponent *)
Definition quotient_record (n d : Z) : shr_record :=
  let r := n mod d in
  {| shr_m := n / d; shr_r := d <=? 2 * r;
     shr_s := if d <=? 2 * r then negb (2 * r =? d) else negb (r =? 0) |}.

(** [num / den] scaled by [2 ^ e]. *)
Definition over (num e : Z) : Z := num * 2 ^ Z.max 0 (- e).
Definition under (den e : Z) : Z := den * 2 ^ Z.max 0 e.
Definition at_exponent (num den e : Z) : shr_record := quotient_record (over num e) (under den e).

(** [2 ^ (k - 1) <= num / den < 2 ^ k] *)
Definition has_magnitude (num den k : Z) : Prop :=
  under den (k - 1) <= over num (k - 1) /\ over num k < under den k.

Lemma quotient_record_scale n d k : 0 < d -> 0 < k -> quotient_record (n * k) (d * k) = quotient_record n d.
Proof.
  intros Hd Hk. unfold quotient_record. cbv zeta.
  rewrite Z.div_mul_cancel_r by lia. rewrite Zmult_mod_distr_r. set (r := n mod d).
  assert ((d * k <=? 2 * (r * k)) = (d <=? 2 * r)) as -> by (apply eq_true_iff_eq; rewrite !Z.leb_le; nia).
  assert ((2 * (r * k) =? d * k) = (2 * r =? d)) as -> by (apply eq_true_iff_eq; rewrite !Z.eqb_eq; nia).
  assert ((r * k =? 0) = (r =? 0)) as -> by (apply eq_true_iff_eq; rewrite !Z.eqb_eq; nia).
  done.
Qed.

Lemma shr_1_spec m r s :
  0 <= m -> shr_1 {| shr_m := m; shr_r := r; shr_s := s |}
  = {| shr_m := m / 2; shr_r := Z.odd m; shr_s := r || s |}.
Proof.
  intros Hm. rewrite <- Z.div2_div. destruct m as [|p|p]; [done| |lia]. by destruct p.
Qed.

Lemma quotient_record_halve n d :
  0 <= n -> 0 < d -> shr_1 (quotient_record n d) = quotient_record n (d * 2).
Proof.
  intros Hn Hd. unfold quotient_record at 1. rewrite shr_1_spec by by apply Z.div_pos.
  unfold quotient_record. pose proof (Z.div_mod n d ltac:(lia)) as E. pose proof (Z.mod_pos_bound n d Hd) as Hr.
  rewrite Z.rem_mul_r, <- Z.div_div by lia. set (q := n / d) in *. set (r := n mod d) in *.
  pose proof (Zmod_odd q) as Hq. rewrite Hq. destruct (Z.odd q).
  - rewrite Z.mul_1_r.
    rewrite (proj2 (Z.leb_le (d * 2) (2 * (r + d)))) by lia. f_equal.
    destruct (Z.leb_spec d (2 * r)), (Z.eqb_spec (2 * (r + d)) (d * 2)), (Z.eqb_spec r 0); try lia; try done;
      by destruct (negb _).
  - rewrite Z.mul_0_r, Z.add_0_r. rewrite (proj2 (Z.leb_gt (d * 2) (2 * r))) by lia. f_equal.
    destruct (Z.leb_spec d (2 * r)), (Z.eqb_spec r 0); try lia; try done.
Qed.

(** ** Shifting *)
Lemma step_cases num den e :
  over num (e + 1) = over num e /\ under den (e + 1) = under den e * 2
  \/ over num e = over num (e + 1) * 2 /\ under den (e + 1) = under den e.
Proof.
  unfold over, under. destruct (Z.le_gt_cases 0 e).
  - left. rewrite !Z.max_l by lia. rewrite (Z.max_r 0 (e + 1)), (Z.max_r 0 e) by lia.
    rewrite Z.pow_add_r by lia. lia.
  - right. rewrite !(Z.max_r 0 (- _)) by lia. rewrite !(Z.max_l 0) by lia.
    replace (- e) with (- (e + 1) + 1) by lia. rewrite Z.pow_add_r by lia. lia.
Qed.

Section Ratio.
Context (num den : Z) (Hnum : 0 < num) (Hden : 0 < den).

Lemma over_pos e : 0 < over num e.
Proof using Hnum. unfold over. apply Z.mul_pos_pos; [done|]. apply Z.pow_pos_nonneg; lia. Qed.
Lemma under_pos e : 0 < under den e.
Proof using Hden. unfold under. apply Z.mul_pos_pos; [done|]. apply Z.pow_pos_nonneg; lia. Qed.

Lemma shr_1_at e : shr_1 (at_exponent num den e) = at_exponent num den (e + 1).
Proof using Hnum Hden.
  unfold at_exponent. pose proof (over_pos e). pose proof (under_pos e). pose proof (over_pos (e + 1)).
  rewrite quotient_record_halve by lia. destruct (step_cases num den e) as [[-> ->]|[-> ->]]; [done|].
  by rewrite quotient_record_scale by lia.
Qed.

Lemma iter_shr_at p e : SpecFloat.iter_pos shr_1 p (at_exponent num den e) = at_exponent num den (e + Zpos p).
Proof using Hnum Hden.
  revert e. induction p as [p IH|p IH|]; intros e; cbn [SpecFloat.iter_pos].
  - rewrite shr_1_at, !IH. f_equal. lia.
  - rewrite !IH. f_equal. lia.
  - apply shr_1_at.
Qed.

(** ** The magnitude *)
Lemma shift_le e j : 0 <= j -> 2 ^ j * under den e <= over num e <-> under den (e + j) <= over num (e + j).
Proof using Hnum Hden.
  intros Hj. revert e. pattern j. apply natlike_ind; [|clear j Hj; intros j Hj IH e|done].
  - intros e. rewrite Z.add_0_r. lia.
  - rewrite Z.pow_succ_r by done. replace (e + Z.succ j) with ((e + 1) + j) by lia. rewrite <- IH.
    pose proof (Z.pow_pos_nonneg 2 j ltac:(lia) Hj).
    destruct (step_cases num den e) as [[-> ->]|[-> ->]]; nia.
Qed.

Lemma magnitude_below e k : under den e <= over num e -> k <= e -> under den k <= over num k.
Proof using Hnum Hden.
  intros H Hk. replace e with (k + (e - k)) in H by lia. apply shift_le in H; [|lia].
  pose proof (Z.pow_pos_nonneg 2 (e - k) ltac:(lia) ltac:(lia)). pose proof (under_pos k). nia.
Qed.

Lemma magnitude_unique k k' : has_magnitude num den k -> has_magnitude num den k' -> k = k'.
Proof using Hnum Hden.
  intros [A B] [A' B']. destruct (Z.lt_trichotomy k k') as [?|[?|?]]; [|done|].
  - pose proof (magnitude_below (k' - 1) k A' ltac:(lia)). lia.
  - pose proof (magnitude_below (k - 1) k' A ltac:(lia)). lia.
Qed.

End Ratio.

Lemma digits2_spec p : 2 ^ (Zpos (digits2_pos p) - 1) <= Zpos p < 2 ^ Zpos (digits2_pos p).
Proof.
  assert (digits2_pos p = Pos.size p) as -> by by induction p; simpl; congruence.
  assert (Zpos p < 2 ^ Zpos (Pos.size p)) as H1
    by (change 2 with (Zpos 2); rewrite <- Pos2Z.inj_pow; apply Pos2Z.pos_lt_pos, Pos.size_gt).
  assert (2 ^ Zpos (Pos.size p) <= Zpos p * 2) as H2
    by (change 2 with (Zpos 2); rewrite <- Pos2Z.inj_pow, Z.mul_comm; apply (Pos2Z.pos_le_pos _ (xO p)), Pos.size_le).
  split; [|done]. apply (Z.mul_le_mono_pos_r _ _ 2); [lia|]. rewrite Z.mul_comm, <- Z.pow_succ_r by lia.
  by replace (Z.succ (Zpos (Pos.size p) - 1)) with (Zpos (Pos.size p)) by lia.
Qed.

Lemma Zdigits2_spec m : 0 < m -> 2 ^ (Zdigits2 m - 1) <= m < 2 ^ Zdigits2 m /\ 1 <= Zdigits2 m.
Proof. intros Hm. destruct m as [|p|p]; [lia| |lia]. split; [apply digits2_spec|simpl; lia]. Qed.

Section Magnitude.
Context (num den : Z) (Hnum : 0 < num) (Hden : 0 < den).

(** The digits of the integer part at an exponent give the magnitude. *)
Lemma magnitude_of_digits e m :
  shr_m (at_exponent num den e) = m -> 0 < m -> has_magnitude num den (Zdigits2 m + e).
Proof using Hnum Hden.
  cbn [shr_m at_exponent quotient_record]. intros Em Hm. pose proof (under_pos den Hden e) as HD.
  pose proof (Z.div_mod (over num e) (under den e) ltac:(lia)) as E.
  pose proof (Z.mod_pos_bound (over num e) (under den e) HD) as Hr. rewrite Em in E.
  destruct (Zdigits2_spec m Hm) as [[H1 H2] H3].
  split.
  - replace (Zdigits2 m + e - 1) with (e + (Zdigits2 m - 1)) by lia. apply shift_le; [done..|lia|]. nia.
  - apply Z.nle_gt. rewrite Z.add_comm. intros H. apply shift_le in H; [|done|done|lia]. nia.
Qed.

Lemma magnitude_small e k : shr_m (at_exponent num den e) = 0 -> has_magnitude num den k -> k <= e.
Proof using Hnum Hden.
  cbn [shr_m at_exponent quotient_record]. intros E [H _]. pose proof (under_pos den Hden e) as HD.
  apply Z.div_small_iff in E; [|lia]. apply Z.nlt_ge. intros Hlt.
  pose proof (magnitude_below num den Hnum Hden (k - 1) e H ltac:(lia)). lia.
Qed.

(** The digits of the two numbers bound the magnitude. *)
Lemma magnitude_exists :
  exists k, has_magnitude num den k /\ Zdigits2 num - Zdigits2 den <= k.
Proof using Hnum Hden.
  destruct (Zdigits2_spec num Hnum) as [[N1 N2] N3], (Zdigits2_spec den Hden) as [[D1 D2] D3].
  set (a := Zdigits2 num) in *. set (b := Zdigits2 den) in *.
  assert (under den (a - b - 1) <= over num (a - b - 1)) as L.
  { unfold under, over. destruct (Z.le_gt_cases 0 (a - b - 1)).
    - rewrite Z.max_r, Z.max_l, Z.mul_1_r by lia. assert (2 ^ (a - 1) = 2 ^ b * 2 ^ (a - b - 1)) as E
        by (rewrite <- Z.pow_add_r by lia; f_equal; lia).
      pose proof (Z.pow_pos_nonneg 2 (a - b - 1) ltac:(lia) ltac:(lia)). nia.
    - rewrite Z.max_l, Z.max_r, Z.mul_1_r by lia. assert (2 ^ b = 2 ^ (a - 1) * 2 ^ (- (a - b - 1))) as E
        by (rewrite <- Z.pow_add_r by lia; f_equal; lia).
      pose proof (Z.pow_pos_nonneg 2 (- (a - b - 1)) ltac:(lia) ltac:(lia)). nia. }
  assert (over num (a - b + 1) < under den (a - b + 1)) as U.
  { unfold under, over. destruct (Z.le_gt_cases 0 (a - b + 1)).
    - rewrite (Z.max_l 0 (- _)), Z.max_r, Z.mul_1_r by lia. assert (2 ^ a = 2 ^ (b - 1) * 2 ^ (a - b + 1)) as E
        by (rewrite <- Z.pow_add_r by lia; f_equal; lia).
      pose proof (Z.pow_pos_nonneg 2 (a - b + 1) ltac:(lia) ltac:(lia)). nia.
    - rewrite (Z.max_r 0 (- _)), Z.max_l, Z.mul_1_r by lia.
      assert (2 ^ (b - 1) = 2 ^ a * 2 ^ (- (a - b + 1))) as E
        by (rewrite <- Z.pow_add_r by lia; f_equal; lia).
      pose proof (Z.pow_pos_nonneg 2 (- (a - b + 1)) ltac:(lia) ltac:(lia)). nia. }
  destruct (Z.le_gt_cases (under den (a - b)) (over num (a - b))).
  - exists (a - b + 1). split; [|lia]. split; [|done]. by replace (a - b + 1 - 1) with (a - b) by lia.
  - exists (a - b). by split.
Qed.

(** ** The first rounding step *)
Lemma shr_fexp_at m e l k :
  shr_record_of_loc m l = at_exponent num den e -> has_magnitude num den k ->
  -1074 <= e <= Fexp k -> shr_fexp 53 1024 m e l = (at_exponent num den (Fexp k), Fexp k).
Proof using Hnum Hden.
  intros Hl Hk He. unfold shr_fexp. rewrite Hl.
  assert (m = shr_m (at_exponent num den e)) as Em by (rewrite <- Hl; by destruct l as [|[]]).
  assert (0 <= m) as Hm.
  { rewrite Em. cbn [shr_m at_exponent quotient_record]. apply Z.div_pos.
    - pose proof (over_pos num Hnum e). lia.
    - by apply under_pos. }
  destruct (Z.eq_dec m 0) as [->|Hm0].
  - pose proof (magnitude_small e k (eq_sym Em) Hk) as Hle.
    assert (e = -1074 /\ Fexp k = e) as [E1 E2] by (unfold fexp, emin in *; lia).
    rewrite E2, E1. done.
  - pose proof (magnitude_of_digits e m (eq_sym Em) ltac:(lia)) as Hk'.
    rewrite (magnitude_unique num den Hnum Hden _ _ Hk' Hk). unfold shr.
    destruct (Fexp k - e) as [|p|p] eqn:Ep; [|rewrite iter_shr_at by done|lia].
    + by replace (Fexp k) with e by lia.
    + by replace (e + Zpos p) with (Fexp k) by lia.
Qed.

End Magnitude.

(** ** Rounding a quotient *)

(** The rest of [binary_round_aux] after the first shift. *)
Definition round_record (mrs : shr_record) (e : Z) : double :=
  let '(mrs, e) := shr_fexp 53 1024 (round_nearest_even (shr_m mrs) (loc_of_shr_record mrs)) e loc_Exact in
  match shr_m mrs with
  | Z0 => S754_zero false
  | Zpos m => if e <=? 1024 - 53 then S754_finite false m e else S754_infinity false
  | Zneg _ => S754_nan
  end.

Lemma round_aux_at num den m e l k :
  0 < num -> 0 < den -> shr_record_of_loc m l = at_exponent num den e -> has_magnitude num den k ->
  -1074 <= e <= Fexp k ->
  binary_round_aux 53 1024 false m e l = round_record (at_exponent num den (Fexp k)) (Fexp k).
Proof. intros Hn Hd Hl Hk He. unfold binary_round_aux. by rewrite (shr_fexp_at num den Hn Hd m e l k). Qed.

Lemma new_location_record q r d :
  0 <= r < d -> shr_record_of_loc q (new_location d r) = quotient_record (q * d + r) d.
Proof.
  intros Hr. unfold quotient_record. rewrite (Z.add_comm (q * d)), Z.div_add, Z.mod_add by lia.
  rewrite Z.div_small, Z.mod_small by lia. unfold new_location, new_location_even, new_location_odd.
  destruct (Z.eqb_spec r 0) as [Hr0|Hr0].
  { rewrite (proj2 (Z.leb_gt d (2 * r))) by lia. destruct (Z.even d);
      by rewrite (proj2 (Z.eqb_eq r 0) Hr0). }
  assert (2 * r < d -> {| shr_m := q; shr_r := false; shr_s := true |}
    = {| shr_m := 0 + q; shr_r := d <=? 2 * r;
         shr_s := if d <=? 2 * r then negb (2 * r =? d) else negb false |}) as Hlt
    by (intros; rewrite (proj2 (Z.leb_gt d (2 * r))) by lia; done).
  assert (d < 2 * r -> {| shr_m := q; shr_r := true; shr_s := true |}
    = {| shr_m := 0 + q; shr_r := d <=? 2 * r;
         shr_s := if d <=? 2 * r then negb (2 * r =? d) else negb false |}) as Hgt
    by (intros; rewrite (proj2 (Z.leb_le d (2 * r))), (proj2 (Z.eqb_neq (2 * r) d)) by lia; done).
  destruct (Z.even d) eqn:Ev; rewrite (proj2 (Z.eqb_neq r 0) Hr0).
  - destruct (Z.compare_spec (2 * r) d) as [E|E|E]; cbn [shr_record_of_loc]; [|by apply Hlt|by apply Hgt].
    by rewrite (proj2 (Z.leb_le d (2 * r))), (proj2 (Z.eqb_eq (2 * r) d)) by lia.
  - assert (2 * r <> d) as Hne by (intros <-; rewrite Z.even_mul in Ev; done).
    destruct (Z.compare_spec (2 * r + 1) d) as [E|E|E]; cbn [shr_record_of_loc];
      [apply Hlt; lia..|apply Hgt; lia].
Qed.

(** ** Decimals *)

(** The numerator and the denominator of [d * 10 ^ x]. *)
Definition decimal_num (d x : Z) : Z := d * 10 ^ Z.max 0 x.
Definition decimal_den (x : Z) : Z := 10 ^ Z.max 0 (- x).

Lemma decimal_den_pos x : 0 < decimal_den x.
Proof. apply Z.pow_pos_nonneg; lia. Qed.
Lemma decimal_num_pos d x : 0 < d -> 0 < decimal_num d x.
Proof. intros. apply Z.mul_pos_pos; [done|]. apply Z.pow_pos_nonneg; lia. Qed.

Lemma at_integer z e : e <= 0 -> at_exponent z 1 e = {| shr_m := z * 2 ^ (- e); shr_r := false; shr_s := false |}.
Proof.
  intros He. unfold at_exponent, over, under, quotient_record. rewrite (Z.max_r 0 (- e)), Z.max_l by lia.
  cbn [Z.pow Z.mul]. rewrite Z.div_1_r, Z.mod_1_r. done.
Qed.

Lemma shift_pos_spec p f : Zpos p * 2 ^ Zpos f = Zpos (Pos.iter xO p f).
Proof.
  change 2 with (Zpos 2). rewrite <- Pos2Z.inj_pow, <- Pos2Z.inj_mul. f_equal. unfold Pos.pow.
  revert p. induction f as [|f IH] using Pos.peano_ind; intros p; [by rewrite Pos.mul_comm|].
  rewrite !Pos.iter_succ, <- (IH p). by rewrite Pos.mul_assoc, (Pos.mul_comm p 2), <- Pos.mul_assoc.
Qed.

Lemma normalize_rounds z k :
  0 < z -> has_magnitude z 1 k ->
  binary_normalize 53 1024 z 0 false = round_record (at_exponent z 1 (Fexp k)) (Fexp k).
Proof.
  intros Hz Hk. destruct z as [|p|p]; [lia| |lia]. cbn [binary_normalize]. unfold binary_round.
  assert (has_magnitude (Zpos p) 1 (Zpos (digits2_pos p))) as Hk'.
  { rewrite <- (Z.add_0_r (Zpos (digits2_pos p))).
    apply (magnitude_of_digits (Zpos p) 1 ltac:(lia) ltac:(lia) 0 (Zpos p)); [|done].
    rewrite at_integer by lia. cbn [shr_m]. lia. }
  rewrite Z.add_0_r, (magnitude_unique (Zpos p) 1 Hz ltac:(lia) _ _ Hk' Hk).
  unfold shl_align. rewrite Z.sub_0_r.
  assert (forall m e, -1074 <= e <= Fexp k -> m = Zpos p * 2 ^ (- e) -> e <= 0 ->
    binary_round_aux 53 1024 false m e loc_Exact = round_record (at_exponent (Zpos p) 1 (Fexp k)) (Fexp k)) as Hr.
  { intros m e He -> He0. apply (round_aux_at (Zpos p) 1 _ _ _ k); [done..| |done|done]. by rewrite at_integer. }
  assert (-1074 <= Fexp k) as Hmin by (unfold fexp, emin; lia).
  destruct (Fexp k) as [|f|f] eqn:Ef; [apply (Hr _ 0)..|apply Hr]; try lia.
  symmetry. apply shift_pos_spec.
Qed.

Lemma divide_rounds n d k :
  0 < n -> 0 < d -> has_magnitude n d k ->
  (let '(q, e, l) := SFdiv_core_binary 53 1024 n 0 d 0 in binary_round_aux 53 1024 false q e l)
  = round_record (at_exponent n d (Fexp k)) (Fexp k).
Proof.
  intros Hn Hd Hk. unfold SFdiv_core_binary. cbv zeta. rewrite !Z.add_0_r.
  destruct (magnitude_exists n d Hn Hd) as (k' & Hk' & Hle).
  rewrite (magnitude_unique n d Hn Hd k' k Hk' Hk) in Hle.
  set (e := Z.min (Fexp (Zdigits2 n - Zdigits2 d)) (0 - 0)).
  assert (-1074 <= e <= Fexp k /\ e <= 0) as [He He0] by (unfold e, fexp, emin in *; lia). clearbody e.
  assert (match 0 - 0 - e with Zpos _ => Z.shiftl n (0 - 0 - e) | Z0 => n | Zneg _ => 0 end = over n e) as ->.
  { unfold over. rewrite Z.max_r by lia. replace (0 - 0 - e) with (- e) by lia.
    destruct (- e) as [|s|s] eqn:Es; [by rewrite Z.mul_1_r|by rewrite Z.shiftl_mul_pow2|lia]. }
  pose proof (Z_div_mod (over n e) d ltac:(lia)) as Hqr. destruct (Z.div_eucl (over n e) d) as [q r].
  destruct Hqr as [Eqr Hr]. apply (round_aux_at n d); [done..| |done|done].
  rewrite new_location_record by done. unfold at_exponent. rewrite Eqr. f_equal; [lia|].
  unfold under. rewrite Z.max_l by lia. by rewrite Z.mul_1_r.
Qed.

Lemma decimal_rounds d x k :
  0 < d -> has_magnitude (decimal_num d x) (decimal_den x) k ->
  double_of_decimal false d x
  = round_record (at_exponent (decimal_num d x) (decimal_den x) (Fexp k)) (Fexp k).
Proof.
  intros Hd Hk. pose proof (decimal_num_pos d x Hd) as Hn. pose proof (decimal_den_pos x) as Hdx.
  unfold double_of_decimal. rewrite (proj2 (Z.eqb_neq d 0)) by lia. destruct (Z.leb_spec 0 x) as [Hx|Hx].
  - assert (decimal_den x = 1) as E by (unfold decimal_den; by rewrite Z.max_l by lia).
    assert (decimal_num d x = d * 10 ^ x) as E' by (unfold decimal_num; by rewrite Z.max_r by lia).
    rewrite E, E' in *. by apply normalize_rounds.
  - assert (decimal_den x = 10 ^ - x) as E by (unfold decimal_den; by rewrite Z.max_r by lia).
    assert (decimal_num d x = d) as E' by (unfold decimal_num; rewrite Z.max_l by lia; lia).
    rewrite E, E' in *. by apply divide_rounds.
Qed.

(** ** Only the number counts *)
Lemma over_scale n c e : over (n * c) e = over n e * c.
Proof. unfold over. lia. Qed.
Lemma under_scale n c e : under (n * c) e = under n e * c.
Proof. unfold under. lia. Qed.

Lemma at_exponent_ratio n d n' d' e :
  0 < d -> 0 < d' -> n * d' = n' * d -> at_exponent n d e = at_exponent n' d' e.
Proof.
  intros Hd Hd' E. pose proof (under_pos d Hd e). pose proof (under_pos d' Hd' e). unfold at_exponent.
  rewrite <- (quotient_record_scale (over n e) (under d e) d'), <- (quotient_record_scale (over n' e) (under d' e) d)
    by done.
  rewrite <- !over_scale, <- !under_scale, E. by rewrite (Z.mul_comm d d').
Qed.

Lemma magnitude_ratio n d n' d' k :
  0 < d -> 0 < d' -> n * d' = n' * d -> has_magnitude n d k -> has_magnitude n' d' k.
Proof.
  intros Hd Hd' E [H1 H2]. unfold has_magnitude.
  assert (forall e, over n e * d' = over n' e * d) as Eo by (intros; by rewrite <- !over_scale, E).
  assert (forall e, under d e * d' = under d' e * d) as Eu
    by (intros; by rewrite <- !under_scale, (Z.mul_comm d d')).
  pose proof (Eo (k - 1)). pose proof (Eo k). pose proof (Eu (k - 1)). pose proof (Eu k). nia.
Qed.

(** The decimals [d * 10 ^ x] and [d' * 10 ^ x'] that are the same number read as the same
    double. *)
Lemma double_of_decimal_ratio d x d' x' :
  0 < d -> 0 < d' -> decimal_num d x * decimal_den x' = decimal_num d' x' * decimal_den x ->
  double_of_decimal false d x = double_of_decimal false d' x'.
Proof.
  intros Hd Hd' E.
  destruct (magnitude_exists (decimal_num d x) (decimal_den x)) as (k & Hk & _);
    [by apply decimal_num_pos|apply decimal_den_pos|].
  rewrite (decimal_rounds d x k) by done.
  rewrite (at_exponent_ratio _ _ (decimal_num d' x') (decimal_den x')) by (apply decimal_den_pos || done).
  symmetry. apply decimal_rounds; [done|]. by eapply magnitude_ratio; [apply decimal_den_pos..|exact E|].
Qed.

(** Zeros appended to the digits. *)
Lemma double_of_decimal_zeros d x j :
  0 < d -> 0 <= j -> double_of_decimal false (d * 10 ^ j) (x - j) = double_of_decimal false d x.
Proof.
  intros Hd Hj. pose proof (Z.pow_pos_nonneg 10 j ltac:(lia) Hj) as Hp.
  apply double_of_decimal_ratio; [nia|done|]. unfold decimal_num, decimal_den.
  rewrite <- !Z.mul_assoc. f_equal. rewrite <- !Z.pow_add_r by lia. f_equal. lia.
Qed.

(** ** The exact integers *)
Lemma round_record_exact m e :
  0 < m -> Fexp (Zdigits2 m + e) = e ->
  round_record {| shr_m := m; shr_r := false; shr_s := false |} e
  = match m with
    | Zpos p => if e <=? 1024 - 53 then S754_finite false p e else S754_infinity false
    | _ => S754_nan
    end.
Proof.
  intros Hm He. unfold round_record, shr_fexp. cbn [shr_m loc_of_shr_record round_nearest_even shr_record_of_loc].
  rewrite He, Z.sub_diag. cbn [shr]. cbn [shr_m]. by destruct m.
Qed.

Lemma round_record_exponent mrs k m e : round_record mrs k = S754_finite false m e -> k <= e.
Proof.
  unfold round_record, shr_fexp, shr. destruct (Fexp _ - k) as [|p|p].
  2: set (mrs' := SpecFloat.iter_pos _ _ _); clearbody mrs'.
  all: cbn [shr_m shr_record_of_loc]; match goal with |- context [match ?x with _ => _ end] => destruct x end;
    try done; case_bool; try done; intros [= _ <-]; lia.
Qed.

(** A value that an integer rounds to is written by the digits of an integer that reads
    back as the value. *)
Lemma integer_text z m e :
  0 < z -> valid_binary 53 1024 (S754_finite false m e) = true ->
  double_of_decimal false z 0 = S754_finite false m e ->
  let '(num, den) := scaled (Zpos m) e in
  0 < num / den /\ double_of_decimal false (num / den) 0 = S754_finite false m e.
Proof.
  intros Hz Hv Ev. cbn [valid_binary] in Hv. unfold bounded, canonical_mantissa in Hv.
  apply andb_true_iff in Hv as [Hc Hb]. apply Z.eqb_eq in Hc. unfold scaled.
  destruct (Z.leb_spec 0 e) as [He|He].
  - rewrite Z.div_1_r. pose proof (Z.pow_pos_nonneg 2 e ltac:(lia) He) as Hp. split; [lia|].
    assert (at_exponent (Zpos m * 2 ^ e) 1 e = {| shr_m := Zpos m; shr_r := false; shr_s := false |}) as Ea.
    { unfold at_exponent, over, under. rewrite (Z.max_l 0 (- e)), Z.max_r by lia. rewrite Z.pow_0_r, Z.mul_1_r, Z.mul_1_l.
      unfold quotient_record. rewrite Z.div_mul, Z.mod_mul by lia. by rewrite (proj2 (Z.leb_gt _ _)) by lia. }
    assert (has_magnitude (Zpos m * 2 ^ e) 1 (Zdigits2 (Zpos m) + e)) as Hk
      by (apply magnitude_of_digits; [lia|lia|by rewrite Ea|lia]).
    unfold double_of_decimal. rewrite (proj2 (Z.eqb_neq _ 0)) by lia. cbn [Z.leb Z.compare].
    rewrite Z.pow_0_r, Z.mul_1_r. erewrite normalize_rounds; [|nia|exact Hk].
    change (Zdigits2 (Zpos m)) with (Zpos (digits2_pos m)) in *. rewrite Hc, Ea.
    rewrite round_record_exact by done. by rewrite Hb.
  - pose proof Ev as E0. unfold double_of_decimal in Ev. rewrite (proj2 (Z.eqb_neq z 0)) in Ev by lia. cbn [Z.leb Z.compare] in Ev.
    rewrite Z.pow_0_r, Z.mul_1_r in Ev. destruct (magnitude_exists z 1 Hz ltac:(lia)) as (k & Hk & _).
    rewrite (normalize_rounds z k Hz Hk) in Ev. pose proof (round_record_exponent _ _ _ _ Ev) as Hke.
    set (M := z * 2 ^ (- Fexp k)).
    assert (0 < M) as HM by (unfold M; pose proof (Z.pow_pos_nonneg 2 (- Fexp k) ltac:(lia) ltac:(lia)); nia).
    assert (at_exponent z 1 (Fexp k) = {| shr_m := M; shr_r := false; shr_s := false |}) as Ea by (by apply at_integer; lia).
    assert (Zdigits2 M + Fexp k = k) as Hd.
    { apply (magnitude_unique z 1 Hz ltac:(lia)); [|done]. apply magnitude_of_digits; [done|lia|by rewrite Ea|done]. }
    rewrite Ea, round_record_exact in Ev by (done || by rewrite Hd). unfold M in *. clear Ea Hd.
    destruct (z * 2 ^ (- Fexp k)) as [|p|p] eqn:Ez; [done| |done]. case_bool; [|done]. injection Ev as <- <-.
    rewrite <- Ez, Z.div_mul by (apply Z.pow_nonzero; lia). by split.
Qed.

(** ** The shortest decimal *)
Lemma deq_finite a m e : deq a (S754_finite false m e) = true -> a = S754_finite false m e.
Proof.
  unfold deq, SFeqb, SFcompare. destruct a as [|[]| |[] m' e']; try done.
  destruct (Z.compare_spec e' e) as [->|?|?]; try done.
  destruct (Pos.compare_cont Eq m' m) eqn:E; try done. intros _. f_equal. by apply Pos.compare_eq.
Qed.

Lemma strip_zeros_spec fuel d x :
  0 < d -> exists j, 0 <= j /\ d = (strip_zeros fuel d x).1 * 10 ^ j /\ (strip_zeros fuel d x).2 = x + j
                     /\ 0 < (strip_zeros fuel d x).1.
Proof.
  revert d x. induction fuel as [|fuel IH]; intros d x Hd; cbn [strip_zeros].
  { exists 0. simpl. lia. }
  destruct (Z.eqb_spec (d mod 10) 0) as [E|E]; [|exists 0; simpl; lia].
  pose proof (Z.div_mod d 10 ltac:(lia)) as Ed. destruct (IH (d / 10) (x + 1)) as (j & Hj & E1 & E2 & E3); [lia|].
  exists (j + 1). rewrite Z.pow_add_r by lia. split_and!; [lia| |lia|done].
  rewrite Ed at 1. rewrite E at 1. rewrite E1 at 1. lia.
Qed.

Lemma strip_zeros_reads fuel d x :
  0 < d -> 0 < (strip_zeros fuel d x).1
  /\ double_of_decimal false (strip_zeros fuel d x).1 (strip_zeros fuel d x).2 = double_of_decimal false d x.
Proof.
  intros Hd. destruct (strip_zeros_spec fuel d x Hd) as (j & Hj & E1 & E2 & E3). split; [done|].
  rewrite <- (double_of_decimal_zeros _ _ j), <- E1 by done. f_equal. lia.
Qed.

Lemma shortest_from_reads n fuel num den k m e d x :
  0 <= num -> 0 < den -> shortest_from n fuel num den k (S754_finite false m e) = Some (d, x) ->
  0 < d /\ double_of_decimal false d x = S754_finite false m e.
Proof.
  intros Hn Hd. revert n. induction fuel as [|fuel IH]; intros n; cbn [shortest_from]; [done|]. cbv zeta.
  set (y := k + 1 - Z.of_nat n).
  assert (forall c, 0 <= c -> deq (double_of_decimal false c y) (S754_finite false m e) = true ->
    Some (strip_zeros 20 c y) = Some (d, x) -> 0 < d /\ double_of_decimal false d x = S754_finite false m e) as Hstrip.
  { intros c Hc Hr E%(inj Some). apply deq_finite in Hr.
    assert (0 < c) as Hc' by (destruct (Z.eq_dec c 0) as [->|]; [done|lia]).
    pose proof (strip_zeros_reads 20 c y Hc') as H. rewrite E, Hr in H. exact H. }
  assert (exists a b, (if 0 <=? y then (num, den * 10 ^ y) else (num * 10 ^ (- y), den)) = (a, b) /\ 0 <= a /\ 0 < b)
    as (a & b & -> & Ha & Hb).
  { destruct (Z.leb_spec 0 y).
    - pose proof (Z.pow_pos_nonneg 10 y ltac:(lia) ltac:(lia)). eexists _, _. split; [done|nia].
    - pose proof (Z.pow_pos_nonneg 10 (- y) ltac:(lia) ltac:(lia)). eexists _, _. split; [done|nia]. }
  pose proof (Z.div_pos a b Ha Hb) as Hq. set (q := a / b) in *. clearbody q.
  destruct (deq (double_of_decimal false q y) _) eqn:E1;
    destruct (deq (double_of_decimal false (q + 1) y) _) eqn:E2; cbn [andb orb negb].
  - destruct (2 * (a mod b) <=? b); apply Hstrip; (done || lia).
  - apply Hstrip; (done || lia).
  - apply Hstrip; (done || lia).
  - apply IH.
Qed.

Lemma scaled_pos m e : 0 < (scaled (Zpos m) e).1 /\ 0 < (scaled (Zpos m) e).2.
Proof.
  unfold scaled. destruct (Z.leb_spec 0 e); cbn [fst snd].
  - pose proof (Z.pow_pos_nonneg 2 e ltac:(lia) ltac:(lia)). lia.
  - pose proof (Z.pow_pos_nonneg 2 (- e) ltac:(lia) ltac:(lia)). lia.
Qed.

Lemma shortest_decimal_reads m e d x :
  shortest_decimal m e = Some (d, x) -> 0 < d /\ double_of_decimal false d x = S754_finite false m e.
Proof.
  unfold shortest_decimal. destruct (scaled_pos m e) as [H1 H2]. destruct (scaled (Zpos m) e) as [num den].
  cbn [fst snd] in *. apply shortest_from_reads; [lia|done].
Qed.
