(* ===== verification/Identity.v ===== *)
(** * Identities, generations, incarnations and their text encodings

    Models [include/wnc/identity.hpp], [include/wnc/identity.inl] and
    [src/identity.cpp]: the tagged 64 character identities and their parser, the
    monotonic generation counter, process incarnations, and the hexadecimal and
    base64url codecs.  [random_bytes] and [machine_identity] read the operating
    system and are not modelled: a fresh incarnation takes its bytes as an
    argument. *)
From Stdlib Require Import ZArith Lia Ascii String.
From stdpp Require Import base numbers option list strings.
From S2P Require Import Prelude.

Definition kSha256Bytes : Z := 32.
Definition kSha256HexChars : Z := 64.
Definition kIncarnationBytes : Z := 16.
Definition kSignatureBytes : Z := 64.
Definition kPublicKeyBytes : Z := 32.

(** [std::array<std::uint8_t, 32>]. *)
Notation Digest := (list Z).
Definition zero_digest : Digest := repeat 0 32.

(** ** Hexadecimal digits *)

(** [c >= lo && c <= hi] on characters. *)
Definition char_in (lo hi c : ascii) : bool :=
  (byte_of_ascii lo <=? byte_of_ascii c) && (byte_of_ascii c <=? byte_of_ascii hi).

Definition char_minus (c base : ascii) : Z := byte_of_ascii c - byte_of_ascii base.

(** [digits[i]] for an index below the length of the table. *)
Definition digit_at (digits : string) (i : Z) : ascii :=
  match String.get (Z.to_nat i) digits with Some c => c | None => "000"%char end.

Definition kLowerHexDigits : string := "0123456789abcdef".

Definition hex_digit_value (c : ascii) : Z :=
  if char_in "0" "9" c then char_minus c "0"
  else if char_in "a" "f" c then char_minus c "a" + 10
  else if char_in "A" "F" c then char_minus c "A" + 10
  else -1.

Fixpoint hex_encode (b : bytes) : string :=
  match b with
  | [] => EmptyString
  | byte :: b' =>
      String (digit_at kLowerHexDigits (Z.shiftr byte 4))
        (String (digit_at kLowerHexDigits (Z.land byte 15)) (hex_encode b'))
  end.

(** The loop of [hex_decode_digest] over the pairs of characters. *)
Fixpoint hex_decode_pairs (s : string) : option bytes :=
  match s with
  | String high (String low s') =>
      let high_value := hex_digit_value high in
      let low_value := hex_digit_value low in
      if (high_value <? 0) || (low_value <? 0) then None
      else
        match hex_decode_pairs s' with
        | Some out => Some (Z.lor (Z.shiftl high_value 4) low_value :: out)
        | None => None
        end
  | _ => Some []
  end.

Definition hex_decode_digest (text : string) : option Digest :=
  if negb (size text =? kSha256HexChars) then None else hex_decode_pairs text.

(** ** Identities *)
Record Id (Tag : Type) := mk_id { view : string }.
Arguments mk_id {Tag} _.
Arguments view {Tag} _.

Inductive WorkloadTag := .
Inductive ContractTag := .
Inductive RequirementTag := .
Inductive ScopeTag := .
Inductive PublisherTag := .
Inductive CoordinatorTag := .
Inductive ToolTag := .
Inductive EvidenceTag := .
Inductive PolicyTag := .
Inductive SnapshotTag := .
Inductive ReceiptTag := .

Notation WorkloadId := (Id WorkloadTag).
Notation ContractId := (Id ContractTag).
Notation RequirementId := (Id RequirementTag).
Notation ScopeId := (Id ScopeTag).
Notation PublisherId := (Id PublisherTag).
Notation CoordinatorId := (Id CoordinatorTag).
Notation ToolId := (Id ToolTag).
Notation EvidenceId := (Id EvidenceTag).
Notation PolicyId := (Id PolicyTag).

Fixpoint char_string (n : nat) (c : ascii) : string :=
  match n with O => EmptyString | S n' => String c (char_string n' c) end.

(** The default constructor: 64 characters ['0']. *)
Definition zero_id {Tag} : Id Tag := mk_id (char_string 64 "0").

Fixpoint all_chars (p : ascii -> bool) (s : string) : bool :=
  match s with EmptyString => true | String c s' => p c && all_chars p s' end.

Definition is_zero {Tag} (i : Id Tag) : bool := all_chars (fun c => Ascii.eqb c "0") (view i).

Definition id_eqb {Tag} (a b : Id Tag) : bool := String.eqb (view a) (view b).

#[export] Instance id_std_less {Tag} : StdLess (Id Tag) := fun a b => string_less (view a) (view b).

(** The normalisation loop of [parse_id]. *)
Fixpoint normalise_hex (text : string) : option string :=
  match text with
  | EmptyString => Some EmptyString
  | String c text' =>
      let value := hex_digit_value c in
      if value <? 0 then None
      else
        match normalise_hex text' with
        | Some rest => Some (String (digit_at kLowerHexDigits value) rest)
        | None => None
        end
  end.

Definition parse_id {Tag} (text : string) : option (Id Tag) :=
  if negb (size text =? kSha256HexChars) then None
  else match normalise_hex text with Some chars => Some (mk_id chars) | None => None end.

Fixpoint from_digest_chars (d : Digest) : string :=
  match d with
  | [] => EmptyString
  | byte :: d' =>
      String (digit_at kLowerHexDigits (Z.shiftr byte 4))
        (String (digit_at kLowerHexDigits (Z.land byte 15)) (from_digest_chars d'))
  end.

Definition from_digest {Tag} (d : Digest) : Id Tag := mk_id (from_digest_chars d).

(** ** Generations *)

(** [Gen::advance_to]: the counter after the call and the value returned. *)
Definition advance_to (value successor : Z) : Z * bool :=
  if value <? successor then (successor, true) else (value, false).

Definition format_generation (value : Z) : string := String.append "g" (to_string value).

(** ** base64url *)
Definition kBase64UrlAlphabet : string :=
  "ABCDEFGHIJKLMNOPQRSTUVWXYZabcdefghijklmnopqrstuvwxyz0123456789-_".

Definition base64url_value (c : ascii) : Z :=
  if char_in "A" "Z" c then char_minus c "A"
  else if char_in "a" "z" c then char_minus c "a" + 26
  else if char_in "0" "9" c then char_minus c "0" + 52
  else if Ascii.eqb c "-" then 62
  else if Ascii.eqb c "_" then 63
  else -1.

(** [kBase64UrlAlphabet[(chunk >> shift) & 0x3F]]. *)
Definition sextet (chunk shift : Z) : ascii :=
  digit_at kBase64UrlAlphabet (Z.land (Z.shiftr chunk shift) 63).

Fixpoint base64url_encode (b : bytes) : string :=
  match b with
  | b0 :: b1 :: b2 :: b' =>
      let chunk := Z.lor (Z.lor (Z.shiftl b0 16) (Z.shiftl b1 8)) b2 in
      String (sextet chunk 18) (String (sextet chunk 12)
        (String (sextet chunk 6) (String (sextet chunk 0) (base64url_encode b'))))
  | [b0; b1] =>
      let chunk := Z.lor (Z.shiftl b0 16) (Z.shiftl b1 8) in
      String (sextet chunk 18) (String (sextet chunk 12) (String (sextet chunk 6) EmptyString))
  | [b0] =>
      let chunk := Z.shiftl b0 16 in
      String (sextet chunk 18) (String (sextet chunk 12) EmptyString)
  | [] => EmptyString
  end.

(** [while (!text.empty() && text.back() == '=')]: the text without its trailing
    padding and the number of characters removed. *)
Fixpoint strip_padding (text : string) : string * Z :=
  match text with
  | EmptyString => (EmptyString, 0)
  | String c text' =>
      let '(rest, padding) := strip_padding text' in
      if is_empty rest && Ascii.eqb c "=" then (EmptyString, padding + 1)
      else (String c rest, padding)
  end.

(** The decoding loop: [accumulator] is a [uint32_t], [bits] the number of pending
    bits, [produced] the size of the output so far. *)
Fixpoint base64url_loop (max_bytes accumulator bits produced : Z) (text : string) : option bytes :=
  match text with
  | EmptyString =>
      if (0 <? bits) && negb (Z.land accumulator (Z.shiftl 1 bits - 1) =? 0) then None
      else Some []
  | String c text' =>
      let value := base64url_value c in
      if value <? 0 then None
      else
        let accumulator := Z.lor (u32 (Z.shiftl accumulator 6)) value in
        let bits := bits + 6 in
        if 8 <=? bits then
          let bits := bits - 8 in
          let byte := Z.land (Z.shiftr accumulator bits) 255 in
          if max_bytes <? produced + 1 then None
          else
            match base64url_loop max_bytes accumulator bits (produced + 1) text' with
            | Some out => Some (byte :: out)
            | None => None
            end
        else base64url_loop max_bytes accumulator bits produced text'
  end.

Definition base64url_decode (text : string) (max_bytes : Z) : option bytes :=
  let '(text, padding) := strip_padding text in
  if (2 <? padding) || (size text mod 4 =? 1) then None
  else
    let estimated := size text / 4 * 3 + 3 in
    if max_bytes + 3 <? estimated then None
    else base64url_loop max_bytes 0 0 0 text.

(** ** Incarnations *)
Record Incarnation := mk_incarnation { inc_bytes : bytes }.

Definition zero_incarnation : Incarnation := mk_incarnation (repeat 0 16).

Definition incarnation_is_zero (i : Incarnation) : bool := forallb (fun b => b =? 0) (inc_bytes i).

Definition incarnation_eqb (a b : Incarnation) : bool :=
  bool_decide (inc_bytes a = inc_bytes b).

Definition incarnation_str (i : Incarnation) : string := base64url_encode (inc_bytes i).

Definition incarnation_parse (text : string) : option Incarnation :=
  match base64url_decode text kIncarnationBytes with
  | None => None
  | Some decoded =>
      if negb (zlength decoded =? kIncarnationBytes) then None
      else if incarnation_is_zero (mk_incarnation decoded) then None
      else Some (mk_incarnation decoded)
  end.

(** [new_incarnation] on the 16 bytes the entropy source returned. *)
Definition new_incarnation (random : bytes) : Incarnation :=
  if incarnation_is_zero (mk_incarnation random)
  then mk_incarnation (<[0%nat := 1]> random)
  else mk_incarnation random.

(** ** Lemmas on digits *)
Lemma hex_digit_value_digit_at v : 0 <= v < 16 -> hex_digit_value (digit_at kLowerHexDigits v) = v.
Proof.
  intros Hv. apply Z.eqb_eq.
  apply (range_forall (fun v => hex_digit_value (digit_at kLowerHexDigits v) =? v) 16);
    [by vm_compute|done].
Qed.

Lemma hex_digit_value_range c : -1 <= hex_digit_value c < 16.
Proof.
  enough ((-1 <=? hex_digit_value c) && (hex_digit_value c <? 16) = true) as E.
  { bool_hyps. lia. }
  apply (ascii_forall (fun c => (-1 <=? hex_digit_value c) && (hex_digit_value c <? 16))).
  by vm_compute.
Qed.

Lemma base64url_value_digit_at v :
  0 <= v < 64 -> base64url_value (digit_at kBase64UrlAlphabet v) = v.
Proof.
  intros Hv. apply Z.eqb_eq.
  apply (range_forall (fun v => base64url_value (digit_at kBase64UrlAlphabet v) =? v) 64);
    [by vm_compute|done].
Qed.

Lemma base64url_value_range c : -1 <= base64url_value c < 64.
Proof.
  enough ((-1 <=? base64url_value c) && (base64url_value c <? 64) = true) as E.
  { bool_hyps. lia. }
  apply (ascii_forall (fun c => (-1 <=? base64url_value c) && (base64url_value c <? 64))).
  by vm_compute.
Qed.

(** The alphabet lists the 64 characters the decoder accepts, each at its value. *)
Lemma digit_at_base64url_value c :
  0 <= base64url_value c -> digit_at kBase64UrlAlphabet (base64url_value c) = c.
Proof.
  intros Hv.
  assert ((base64url_value c <? 0) || Ascii.eqb (digit_at kBase64UrlAlphabet (base64url_value c)) c
          = true) as E.
  { apply (ascii_forall (fun c => (base64url_value c <? 0)
      || Ascii.eqb (digit_at kBase64UrlAlphabet (base64url_value c)) c)). by vm_compute. }
  apply orb_true_iff in E as [E|E]; [lia|]. by apply Ascii.eqb_eq.
Qed.

Lemma base64url_value_pad : base64url_value "=" = -1.
Proof. reflexivity. Qed.

(** ** Hexadecimal round trips *)
Lemma byte_nibbles b :
  is_byte b -> 0 <= Z.shiftr b 4 < 16 /\ 0 <= Z.land b 15 < 16
               /\ Z.lor (Z.shiftl (Z.shiftr b 4) 4) (Z.land b 15) = b.
Proof.
  unfold is_byte. intros Hb.
  change 15 with (Z.ones 4). rewrite Z.land_ones, Z.shiftr_div_pow2 by lia.
  split; [|split; [|rewrite lor_shiftl_add]]; Z.to_euclidean_division_equations; lia.
Qed.

Lemma hex_encode_size b : size (hex_encode b) = 2 * zlength b.
Proof.
  unfold size, zlength. induction b as [|x b IH]; [done|].
  cbn [hex_encode String.length length]. lia.
Qed.

Lemma hex_decode_pairs_encode b : Forall is_byte b -> hex_decode_pairs (hex_encode b) = Some b.
Proof.
  induction 1 as [|x b Hx Hb IH]; [done|]. cbn [hex_encode hex_decode_pairs].
  destruct (byte_nibbles x Hx) as (H1 & H2 & H3).
  rewrite !hex_digit_value_digit_at by done. rewrite IH, H3.
  by rewrite (proj2 (Z.ltb_ge _ 0)), (proj2 (Z.ltb_ge _ 0)) by lia.
Qed.

Lemma hex_decode_pairs_ok s d :
  hex_decode_pairs s = Some d -> length d = Nat.div2 (String.length s) /\ Forall is_byte d.
Proof.
  revert d. enough ((forall d, hex_decode_pairs s = Some d -> length d = Nat.div2 (String.length s) /\ Forall is_byte d)
    /\ forall c d, hex_decode_pairs (String c s) = Some d -> length d = Nat.div2 (String.length (String c s)) /\ Forall is_byte d)
    by tauto.
  induction s as [|x s [IH1 IH2]]; [split; intros; simplify_eq/=; by split|]. split; [by apply IH2|].
  intros c d. simpl. destruct (Z.ltb_spec (hex_digit_value c) 0), (Z.ltb_spec (hex_digit_value x) 0); try done.
  destruct (hex_decode_pairs s) as [r|]; [|done]. intros [= <-]. destruct (IH1 r eq_refl) as [Hl Hr].
  split; [by simpl; rewrite Hl|]. constructor; [|done]. pose proof (hex_digit_value_range c). pose proof (hex_digit_value_range x).
  rewrite lor_shiftl_add by lia. unfold is_byte. lia.
Qed.

Lemma hex_decode_digest_ok s d : hex_decode_digest s = Some d -> length d = 32%nat /\ Forall is_byte d.
Proof.
  unfold hex_decode_digest. destruct (Z.eqb_spec (size s) kSha256HexChars) as [E|]; [|done].
  intros H. apply hex_decode_pairs_ok in H as [-> H]. split; [|done].
  unfold size, kSha256HexChars in E. by replace (String.length s) with 64%nat by lia.
Qed.

Lemma from_digest_chars_hex d : from_digest_chars d = hex_encode d.
Proof. induction d; simpl; congruence. Qed.

Lemma normalise_hex_encode b : Forall is_byte b -> normalise_hex (hex_encode b) = Some (hex_encode b).
Proof.
  induction 1 as [|x b Hx Hb IH]; [done|]. cbn [hex_encode normalise_hex].
  destruct (byte_nibbles x Hx) as (H1 & H2 & H3).
  rewrite !hex_digit_value_digit_at by done.
  rewrite !(proj2 (Z.ltb_ge _ 0)) by lia. by rewrite IH.
Qed.

Lemma normalise_hex_idem s t : normalise_hex s = Some t -> normalise_hex t = Some t.
Proof.
  revert t; induction s as [|c s IH]; intros t; simpl; [by intros [= <-]|].
  destruct (hex_digit_value c <? 0) eqn:Hc; [done|].
  destruct (normalise_hex s) as [r|] eqn:Hs; [|done]. intros [= <-]. cbn [normalise_hex].
  pose proof (hex_digit_value_range c). apply Z.ltb_ge in Hc.
  rewrite hex_digit_value_digit_at by lia. rewrite (proj2 (Z.ltb_ge _ 0)) by lia.
  by rewrite (IH r).
Qed.

Lemma normalise_hex_length s t : normalise_hex s = Some t -> String.length t = String.length s.
Proof.
  revert t; induction s as [|c s IH]; intros t; simpl; [by intros [= <-]|].
  destruct (_ <? 0); [done|]. destruct (normalise_hex s) as [r|]; [|done].
  intros [= <-]. simpl. by rewrite (IH r).
Qed.

(** A well-formed identity: 64 lower case hexadecimal digits. *)
Definition id_ok {Tag} (i : Id Tag) : Prop :=
  size (view i) = kSha256HexChars /\ normalise_hex (view i) = Some (view i).

Lemma parse_id_ok {Tag} text (i : Id Tag) : parse_id text = Some i -> id_ok i.
Proof.
  unfold parse_id. destruct (size text =? kSha256HexChars) eqn:Hs; simpl; [|done].
  apply Z.eqb_eq in Hs. destruct (normalise_hex text) as [t|] eqn:Ht; [|done]. intros [= <-].
  split; simpl; [|by eapply normalise_hex_idem].
  unfold size in *. by rewrite (normalise_hex_length _ _ Ht).
Qed.

Lemma parse_id_view {Tag} (i : Id Tag) : id_ok i -> parse_id (view i) = Some i.
Proof. intros [H1 H2]. unfold parse_id. rewrite H1, H2. by destruct i. Qed.

Lemma from_digest_ok {Tag} d :
  length d = 32%nat -> Forall is_byte d -> id_ok (from_digest (Tag := Tag) d).
Proof.
  intros Hl Hd. unfold id_ok, from_digest; cbn [view]. rewrite from_digest_chars_hex. split.
  - rewrite hex_encode_size. unfold zlength. by rewrite Hl.
  - by apply normalise_hex_encode.
Qed.

Lemma zero_id_ok {Tag} : id_ok (zero_id (Tag := Tag)).
Proof. by vm_compute. Qed.

Lemma hex_encode_inj a b :
  Forall is_byte a -> Forall is_byte b -> hex_encode a = hex_encode b -> a = b.
Proof.
  intros Ha Hb E. apply (f_equal hex_decode_pairs) in E.
  rewrite !hex_decode_pairs_encode in E by done. congruence.
Qed.

Lemma from_digest_inj {Tag} a b :
  Forall is_byte a -> Forall is_byte b -> from_digest (Tag := Tag) a = from_digest b -> a = b.
Proof.
  intros Ha Hb [= E]. rewrite !from_digest_chars_hex in E. by apply hex_encode_inj.
Qed.

Lemma id_eqb_eq {Tag} (a b : Id Tag) : id_eqb a b = true <-> a = b.
Proof.
  unfold id_eqb. rewrite String.eqb_eq. destruct a, b; simpl. naive_solver.
Qed.

#[export] Instance Id_eq_dec {Tag} : EqDecision (Id Tag).
Proof. intros [a] [b]. destruct (decide (a = b)); [left|right]; congruence. Defined.

Lemma id_eqb_refl {Tag} (a : Id Tag) : id_eqb a a = true.
Proof. by apply id_eqb_eq. Qed.

#[export] Instance Id_std_less_ok {Tag} : StdLessOk (Id Tag).
Proof.
  split; unfold std_less, id_std_less.
  - intros [k]. apply (std_less_irrefl k).
  - intros [a] [b] [c]. apply (std_less_trans a b c).
  - intros [a] [b] H1 H2. f_equal. by apply (std_less_total a b).
Qed.

(** ** base64url round trips *)
Lemma push6 acc v :
  0 <= v < 64 -> Z.lor (u32 (Z.shiftl acc 6)) v = u32 (acc * 64 + v).
Proof.
  intros Hv. unfold u32. rewrite Z.shiftl_mul_pow2 by lia.
  change (2 ^ 32) with (2 ^ 26 * 2 ^ 6). rewrite Z.mul_mod_distr_r by lia.
  rewrite lor_mul_add by lia. Z.to_euclidean_division_equations; lia.
Qed.

Lemma u32_push acc v : u32 (u32 acc * 64 + v) = u32 (acc * 64 + v).
Proof. unfold u32. by rewrite Z.add_mod, Z.mul_mod_idemp_l, <- Z.add_mod by lia. Qed.

Lemma byte_at acc k :
  0 <= k <= 24 -> Z.land (Z.shiftr (u32 acc) k) 255 = (acc / 2 ^ k) mod 256.
Proof.
  intros Hk. change 255 with (2 ^ 8 - 1). rewrite land_shiftr_mod by lia.
  unfold u32. by rewrite div_mod_pow2 by lia.
Qed.

Lemma leftover acc k : 0 < k <= 24 -> Z.land (u32 acc) (Z.shiftl 1 k - 1) = acc mod 2 ^ k.
Proof.
  intros Hk. rewrite Z.shiftl_1_l. change (Z.land (u32 acc)) with (Z.land (u32 acc)).
  replace (2 ^ k - 1) with (Z.ones k) by (rewrite Z.ones_equiv; lia).
  rewrite Z.land_ones by lia. unfold u32.
  pose proof (div_mod_pow2 acc 0 k 32) as E. rewrite Z.pow_0_r, !Z.div_1_r in E. apply E; lia.
Qed.

Lemma sextet_digit chunk k :
  0 <= k -> sextet chunk k = digit_at kBase64UrlAlphabet ((chunk / 2 ^ k) mod 64).
Proof. intros Hk. unfold sextet. change 63 with (2 ^ 6 - 1). by rewrite land_shiftr_mod by lia. Qed.

(** One round of the decoding loop on a character of the alphabet. *)
Lemma loop_step max acc bits produced c text :
  0 <= base64url_value c -> 0 <= bits <= 6 ->
  base64url_loop max (u32 acc) bits produced (String c text) =
  let acc' := acc * 64 + base64url_value c in
  if 2 <=? bits then
    if max <? produced + 1 then None
    else
      match base64url_loop max (u32 acc') (bits - 2) (produced + 1) text with
      | Some out => Some ((acc' / 2 ^ (bits - 2)) mod 256 :: out)
      | None => None
      end
  else base64url_loop max (u32 acc') (bits + 6) produced text.
Proof.
  intros Hv Hb. cbn [base64url_loop]. pose proof (base64url_value_range c).
  rewrite (proj2 (Z.ltb_ge _ 0)) by lia. rewrite push6, u32_push by lia. cbn zeta.
  replace (bits + 6 - 8) with (bits - 2) by lia.
  destruct (2 <=? bits) eqn:E; [apply Z.leb_le in E|apply Z.leb_gt in E].
  - rewrite (proj2 (Z.leb_le 8 _)) by lia. by rewrite byte_at by lia.
  - by rewrite (proj2 (Z.leb_gt 8 _)) by lia.
Qed.

Lemma loop_end max acc bits produced :
  0 <= bits <= 6 ->
  base64url_loop max (u32 acc) bits produced "" =
  if (0 <? bits) && negb (acc mod 2 ^ bits =? 0) then None else Some [].
Proof.
  intros Hb. cbn [base64url_loop]. destruct (0 <? bits) eqn:E; [|done].
  apply Z.ltb_lt in E. by rewrite leftover by lia.
Qed.

Lemma sextet_value chunk k :
  0 <= k -> base64url_value (sextet chunk k) = (chunk / 2 ^ k) mod 64.
Proof.
  intros Hk. rewrite sextet_digit by done. apply base64url_value_digit_at.
  by apply Z.mod_pos_bound.
Qed.

(** What the encoder writes for 3, 2 and 1 bytes is what the decoder reads. *)
Lemma chunk3 b0 b1 b2 :
  is_byte b0 -> is_byte b1 -> is_byte b2 ->
  Z.lor (Z.lor (Z.shiftl b0 16) (Z.shiftl b1 8)) b2 = b0 * 65536 + b1 * 256 + b2.
Proof.
  unfold is_byte. intros. rewrite (Z.shiftl_mul_pow2 b1 8), lor_shiftl_add by lia.
  replace (b0 * 2 ^ 16 + b1 * 2 ^ 8) with ((b0 * 2 ^ 8 + b1) * 2 ^ 8) by lia.
  rewrite lor_mul_add by lia. lia.
Qed.

Lemma chunk2 b0 b1 :
  is_byte b0 -> is_byte b1 -> Z.lor (Z.shiftl b0 16) (Z.shiftl b1 8) = b0 * 65536 + b1 * 256.
Proof.
  unfold is_byte. intros. rewrite (Z.shiftl_mul_pow2 b1 8), lor_shiftl_add by lia. lia.
Qed.

Ltac loop_steps :=
  repeat (rewrite loop_step; [|rewrite ?sextet_value; Z.to_euclidean_division_equations; lia|lia];
          cbn zeta;
          change (2 <=? 0) with false; change (2 <=? 2) with true; change (2 <=? 4) with true;
          change (2 <=? 6) with true; cbv iota;
          change (0 + 6) with 6; change (6 - 2) with 4; change (4 - 2) with 2;
          change (2 - 2) with 0).

Ltac sextet_values := rewrite ?sextet_value by lia.

Lemma ltb_false_produced max p n : p + 1 + n <= max -> 0 <= n -> (max <? p + 1) = false.
Proof. intros. apply Z.ltb_ge. lia. Qed.

Lemma loop_encode max b acc p :
  Forall is_byte b -> p + zlength b <= max ->
  base64url_loop max (u32 acc) 0 p (base64url_encode b) = Some b.
Proof.
  unfold zlength. remember (length b) as n eqn:Hn. revert b acc p Hn.
  induction n as [n IH] using lt_wf_ind. intros b acc p Hn Hb Hp.
  destruct b as [|b0 [|b1 [|b2 b]]]; cbn [base64url_encode].
  - by rewrite loop_end by lia.
  - inv Hb. unfold is_byte in *. simpl in Hp.
    rewrite Z.shiftl_mul_pow2 by lia. loop_steps. rewrite loop_end by lia. sextet_values.
    rewrite (ltb_false_produced _ _ 0) by lia.
    change (0 <? 4) with true; change (0 <? 2) with true. rewrite (proj2 (Z.eqb_eq _ 0)); simpl; [|Z.to_euclidean_division_equations; lia].
    do 2 f_equal. Z.to_euclidean_division_equations; lia.
  - inv Hb. inv H2. simpl in Hp. rewrite chunk2 by done. unfold is_byte in *.
    loop_steps. rewrite loop_end by lia. sextet_values.
    rewrite (ltb_false_produced _ _ 1), (ltb_false_produced _ _ 0) by lia.
    change (0 <? 4) with true; change (0 <? 2) with true. rewrite (proj2 (Z.eqb_eq _ 0)); simpl; [|Z.to_euclidean_division_equations; lia].
    f_equal. f_equal; [|f_equal]; Z.to_euclidean_division_equations; lia.
  - inv Hb. inv H2. inv H4. simpl in Hp. rewrite chunk3 by done. unfold is_byte in *.
    loop_steps.
    rewrite (IH (length b)) by (simpl in *; (done || lia)). sextet_values.
    rewrite (ltb_false_produced _ _ 2), (ltb_false_produced _ _ 1), (ltb_false_produced _ _ 0) by lia.
    f_equal. f_equal; [|f_equal; [|f_equal]]; Z.to_euclidean_division_equations; lia.
Qed.

Lemma loop_some_value max acc bits p c text b :
  base64url_loop max acc bits p (String c text) = Some b -> 0 <= base64url_value c.
Proof. cbn [base64url_loop]. destruct (_ <? 0) eqn:E; [done|]. by apply Z.ltb_ge in E. Qed.

Lemma sextet_char chunk k c :
  0 <= k -> 0 <= base64url_value c -> (chunk / 2 ^ k) mod 64 = base64url_value c ->
  sextet chunk k = c.
Proof. intros Hk Hc E. rewrite sextet_digit, E by done. by apply digit_at_base64url_value. Qed.

(** Runs the decoding loop of the hypothesis [H] on one more character. *)
Ltac loop_unstep H :=
  let Hv := fresh "Hv" in
  pose proof (loop_some_value _ _ _ _ _ _ _ H) as Hv;
  rewrite loop_step in H by (done || lia); cbn zeta in H;
  change (2 <=? 0) with false in H; change (2 <=? 2) with true in H;
  change (2 <=? 4) with true in H; change (2 <=? 6) with true in H; cbv iota in H;
  change (0 + 6) with 6 in H; change (6 - 2) with 4 in H; change (4 - 2) with 2 in H;
  change (2 - 2) with 0 in H;
  try (let E := fresh "Emax" in destruct (_ <? _) eqn:E in H; [discriminate H|];
       apply Z.ltb_ge in E;
       let L := fresh "Eloop" in destruct (base64url_loop _ _ _ _ _) eqn:L in H;
       [injection H as <-|discriminate H]).

Lemma loop_decode max text acc p b :
  base64url_loop max (u32 acc) 0 p text = Some b ->
  Z.of_nat (String.length text) mod 4 <> 1 ->
  base64url_encode b = text /\ Forall is_byte b /\ (b = [] \/ p + zlength b <= max).
Proof.
  unfold zlength. remember (String.length text) as n eqn:Hn. revert text acc p b Hn.
  induction n as [n IH] using lt_wf_ind. intros text acc p b Hn H Hmod.
  destruct text as [|c0 [|c1 [|c2 [|c3 text]]]]; simpl in Hn; subst n; [| done |..].
  - rewrite loop_end in H by lia. simpl in H. inv H. by split_and!; [..|left].
  - do 2 loop_unstep H. rewrite loop_end in Eloop by lia.
    change (0 <? 4) with true in Eloop. simpl in Eloop. case_bool; [done|]. inv Eloop.
    apply negb_false_iff, Z.eqb_eq in Heqb.
    pose proof (base64url_value_range c0). pose proof (base64url_value_range c1).
    split_and!.
    + cbn [base64url_encode]. rewrite Z.shiftl_mul_pow2 by lia.
      f_equal; [|f_equal]; apply sextet_char; try lia; Z.to_euclidean_division_equations; lia.
    + repeat constructor; apply Z.mod_pos_bound; lia.
    + right. simpl. lia.
  - loop_unstep H. loop_unstep H. loop_unstep Eloop. rewrite loop_end in Eloop0 by lia.
    change (0 <? 2) with true in Eloop0. simpl in Eloop0. case_bool; [done|]. inv Eloop0.
    apply negb_false_iff, Z.eqb_eq in Heqb.
    pose proof (base64url_value_range c0). pose proof (base64url_value_range c1).
    pose proof (base64url_value_range c2).
    split_and!.
    + cbn [base64url_encode]. rewrite chunk2 by (apply Z.mod_pos_bound; lia).
      f_equal; [|f_equal; [|f_equal]]; apply sextet_char; try lia;
        Z.to_euclidean_division_equations; lia.
    + repeat constructor; apply Z.mod_pos_bound; lia.
    + right. simpl. lia.
  - loop_unstep H. loop_unstep H. loop_unstep Eloop. loop_unstep Eloop0.
    pose proof (base64url_value_range c0). pose proof (base64url_value_range c1).
    pose proof (base64url_value_range c2). pose proof (base64url_value_range c3).
    apply (IH (String.length text)) in Eloop as (E & Hb & Hp); [|lia|done|].
    2: { intros Hm. apply Hmod. rewrite <- Hm. clear. Z.to_euclidean_division_equations; lia. }
    split_and!.
    + cbn [base64url_encode]. rewrite chunk3 by (apply Z.mod_pos_bound; lia). rewrite E.
      f_equal; [|f_equal; [|f_equal; [|f_equal]]]; apply sextet_char; try lia;
        Z.to_euclidean_division_equations; lia.
    + repeat constructor; try (apply Z.mod_pos_bound; lia). done.
    + right. simpl. destruct Hp as [->|Hp]; simpl; lia.
Qed.

Lemma strip_padding_app text : exists pad,
  text = String.append (strip_padding text).1 pad /\ size pad = (strip_padding text).2
  /\ all_chars (fun c => Ascii.eqb c "=") pad = true.
Proof.
  unfold size. induction text as [|c text (pad & E & Hs & Hp)]; [by exists EmptyString|]. cbn [strip_padding].
  destruct (strip_padding text) as [rest padding]; simpl in *.
  destruct (is_empty rest && Ascii.eqb c "=") eqn:Hc; simpl.
  - bool_hyps. destruct rest; [|done]. exists (String c pad). simpl in *.
    rewrite H0, E. split_and!; [done|lia|done].
  - exists pad. by rewrite E at 1.
Qed.

Lemma strip_padding_none text :
  all_chars (fun c => 0 <=? base64url_value c) text = true -> strip_padding text = (text, 0).
Proof.
  induction text as [|c text IH]; simpl; [done|]. intros H. bool_hyps. rewrite IH by done.
  destruct (Ascii.eqb c "=") eqn:E; [|by rewrite andb_false_r].
  apply Ascii.eqb_eq in E as ->. done.
Qed.

Lemma encode_alphabet b :
  all_chars (fun c => 0 <=? base64url_value c) (base64url_encode b) = true.
Proof.
  assert (forall x k, 0 <= k -> (0 <=? base64url_value (sextet x k)) = true) as Hs.
  { intros x k Hk. rewrite sextet_value by done. apply Z.leb_le, Z.mod_pos_bound. lia. }
  remember (length b) as n eqn:Hn. revert b Hn.
  induction n as [n IH] using lt_wf_ind. intros b Hn.
  destruct b as [|b0 [|b1 [|b2 b]]]; cbn [base64url_encode all_chars]; rewrite ?Hs by lia;
    [done..|]. simpl in *. by apply (IH (length b)); [lia|].
Qed.

(** The length of the encoding of [n] bytes. *)
Lemma encode_size b : size (base64url_encode b) = (4 * zlength b + 2) / 3.
Proof.
  unfold size, zlength. remember (length b) as n eqn:Hn. revert b Hn.
  induction n as [n IH] using lt_wf_ind. intros b Hn.
  destruct b as [|b0 [|b1 [|b2 b]]]; subst n; cbn [base64url_encode String.length length];
    [reflexivity..|].
  rewrite !Nat2Z.inj_succ, (IH (length b)) by (simpl; lia).
  Z.to_euclidean_division_equations; lia.
Qed.

Lemma base64url_decode_of_encode b max :
  Forall is_byte b -> zlength b <= max -> base64url_decode (base64url_encode b) max = Some b.
Proof.
  intros Hb Hmax. unfold base64url_decode. rewrite strip_padding_none by apply encode_alphabet.
  rewrite encode_size. pose proof (Zle_0_nat (length b)). unfold zlength in *.
  rewrite (proj2 (Z.eqb_neq _ 1)) by (Z.to_euclidean_division_equations; lia). simpl.
  rewrite (proj2 (Z.ltb_ge _ _)) by (Z.to_euclidean_division_equations; lia).
  apply (loop_encode max b 0); [done|]. unfold zlength. lia.
Qed.

Lemma base64url_encode_of_decode text max b :
  0 <= max -> base64url_decode text max = Some b ->
  base64url_encode b = (strip_padding text).1 /\ Forall is_byte b /\ zlength b <= max.
Proof.
  intros Hmax. unfold base64url_decode. destruct (strip_padding text) as [s padding]; simpl.
  destruct (_ || _) eqn:E; [done|]. bool_hyps. case_bool; [done|]. intros Hl.
  apply (loop_decode max s 0 0) in Hl as (H1 & H2 & H3); [|by apply Z.eqb_neq].
  split_and!; [done..|]. destruct H3 as [->|H3]; [done|lia].
Qed.

(** Padding is stripped without being checked against the final group. *)
Lemma base64url_surplus_padding : base64url_decode "AAAA==" 16 = Some [0; 0; 0].
Proof. reflexivity. Qed.

(** ** Properties *)

(** The base64url codec is canonical.  Decoding an encoding of bytes that fit the
    bound gives the bytes back, and whatever the decoder accepts is the encoding of
    its result once the trailing padding is removed, within the bound. *)
Theorem base64url_canonical (max : Z) (text : string) (b : bytes) :
  0 <= max ->
  (Forall is_byte b -> zlength b <= max ->
   base64url_decode (base64url_encode b) max = Some b)
  /\ (base64url_decode text max = Some b ->
      base64url_encode b = (strip_padding text).1 /\ Forall is_byte b /\ zlength b <= max).
Proof.
  intros Hmax. split; [apply base64url_decode_of_encode|by apply base64url_encode_of_decode].
Qed.

Lemma base64url_canonical_witness :
  base64url_decode (base64url_encode [1; 255; 16; 7]) 16 = Some [1; 255; 16; 7]
  /\ base64url_encode [0; 16; 131] = (strip_padding "ABCD=").1.
Proof.
  split.
  - apply (base64url_canonical 16 "" [1; 255; 16; 7]); [lia| |vm_compute; congruence].
    repeat constructor; unfold is_byte; lia.
  - apply (base64url_canonical 16 "ABCD=" [0; 16; 131]); [lia|reflexivity].
Defined.

(** Identities are normalised and faithful to the digests they come from.  What
    [parse] accepts is 64 characters long, is a fixed point of [parse], and two
    spellings that differ in case give one identity; the identity of a digest decodes
    to that digest, and distinct digests have distinct identities. *)
Theorem identity_parse_normalises (text : string) (i : ScopeId) (a b : Digest) :
  length a = 32%nat -> length b = 32%nat -> Forall is_byte a -> Forall is_byte b ->
  (parse_id text = Some i -> size text = 64 /\ parse_id (view i) = Some i)
  /\ hex_decode_digest (view (from_digest (Tag := ScopeTag) a)) = Some a
  /\ parse_id (hex_encode a) = Some (from_digest (Tag := ScopeTag) a)
  /\ (from_digest (Tag := ScopeTag) a = from_digest b -> a = b).
Proof.
  intros Hla Hlb Ha Hb.
  assert (size (hex_encode a) = 64) as Hs by (rewrite hex_encode_size; unfold zlength; lia).
  split_and!.
  - intros Hp. split; [|by apply parse_id_view, (parse_id_ok text)].
    unfold parse_id in Hp. destruct (size text =? kSha256HexChars) eqn:E; [|done].
    by apply Z.eqb_eq in E.
  - unfold hex_decode_digest, from_digest. cbn [view]. rewrite from_digest_chars_hex, Hs.
    by apply hex_decode_pairs_encode.
  - unfold parse_id, from_digest. rewrite Hs, normalise_hex_encode by done.
    reflexivity.
  - by apply from_digest_inj.
Qed.

Lemma identity_parse_normalises_witness :
  parse_id (hex_encode (repeat 171 32)) = Some (from_digest (Tag := ScopeTag) (repeat 171 32)).
Proof.
  apply (identity_parse_normalises "" zero_id (repeat 171 32) (repeat 0 32));
    [reflexivity|reflexivity| |]; simpl; repeat constructor; unfold is_byte; lia.
Defined.
