(* ===== verification/Errors.v ===== *)
(** * Codes and diagnostics

    Models [include/wnc/error.hpp] and [src/codec.cpp]: the denial codes with their
    numeric values, the token table, [Diagnostic] and the bounded [DiagnosticLog]. *)
From Stdlib Require Import ZArith Lia Ascii String.
From stdpp Require Import base numbers option list strings.
From S2P Require Import Prelude Identity.

(** ** Codes *)
Inductive Code : Set :=
| kOk | kBadMagic | kBadVersion | kFrameTooLarge | kTruncatedFrame | kFrameCrcMismatch
| kTrailingGarbage | kUnknownFrameType | kMalformedFrameHeader | kBodyTooLarge
| kUnknownPayloadSchema | kSessionClosed | kBackpressure | kConnectFailed | kBindFailed
| kListenFailed | kIoFailed | kDeadlineExceeded | kJsonSyntax | kJsonDepthExceeded
| kJsonDuplicateKey | kJsonNotAnObject | kJsonNotAnArray | kJsonMissingField
| kJsonWrongType | kJsonInvalidUtf8 | kJsonStringTooLong | kJsonNumberOutOfRange
| kJsonUnknownField | kJsonTooManyElements | kJsonInvalidLiteral | kDocumentTooLarge
| kContractSchema | kEmptyRequirementSet | kDuplicateRequirement | kUnknownScope
| kMissingRequirementKey | kTooManyScopes | kTooManyRequirements | kTooManyRankedScopes
| kInvalidStrength | kInvalidKind | kInvalidValue | kValueOutOfRange | kMissingPublisher
| kZeroIdentity | kEmptyCollective | kDuplicateCollectiveMember | kTooManyAttributes
| kEmptyScopeName | kUnknownContract | kUnknownWorkload | kStaleGeneration | kGenerationGap
| kSuperseded | kContractRetired | kWriterFenced | kPublisherNotTrusted | kSignatureInvalid
| kSignatureMissing | kReplayRejected | kPublisherMismatch | kNotContractOwner
| kContractDigestMismatch | kWrongCoordinatorIncarnation | kDuplicateWorkload
| kRetentionExceeded | kUnknownPolicy | kCompositionConflict | kWeakeningDenied
| kPolicyDenied | kLayerNotFound | kTooManyLayers | kOverlayInvalid | kCompositionCycle
| kIncompatibleMajor | kIncompatibleRequirementRemoved | kIncompatibleRequirementWeakened
| kIncompatibleScopeRemoved | kIncompatibleKindChanged | kContractSchemaVersionUnsupported
| kEvidenceUnknownScope | kEvidenceStale | kEvidenceExpired | kEvidenceGenerationBackwards
| kEvidenceDuplicate | kEvidenceTooManyEntries | kEvaluationNoEvidence
| kEvaluationMissingDimension | kEvidenceNotCurrent | kRevalidationRequired
| kEvidenceRejected | kLedgerCorrupt | kLedgerTruncated | kLedgerOversized
| kLedgerIncompatible | kIndexMismatch | kStateUnavailable | kAtomicReplaceFailed
| kSnapshotInvalid | kLockHeld | kIndexGapDetected | kDirectoryUnavailable | kPathRejected
| kRecoveryRequired | kIdentityReconciled | kTooManyReasons | kInternalInvariant
| kNotImplemented.

(** The enumerator's value, [static_cast<std::uint32_t>(code)]. *)
Definition code_value (c : Code) : Z :=
  match c with
  | kOk => 0 | kBadMagic => 100 | kBadVersion => 101 | kFrameTooLarge => 102
  | kTruncatedFrame => 103 | kFrameCrcMismatch => 104 | kTrailingGarbage => 105
  | kUnknownFrameType => 106 | kMalformedFrameHeader => 107 | kBodyTooLarge => 108
  | kUnknownPayloadSchema => 109 | kSessionClosed => 110 | kBackpressure => 111
  | kConnectFailed => 112 | kBindFailed => 113 | kListenFailed => 114 | kIoFailed => 115
  | kDeadlineExceeded => 116 | kJsonSyntax => 200 | kJsonDepthExceeded => 201
  | kJsonDuplicateKey => 202 | kJsonNotAnObject => 203 | kJsonNotAnArray => 204
  | kJsonMissingField => 205 | kJsonWrongType => 206 | kJsonInvalidUtf8 => 207
  | kJsonStringTooLong => 208 | kJsonNumberOutOfRange => 209 | kJsonUnknownField => 210
  | kJsonTooManyElements => 211 | kJsonInvalidLiteral => 212 | kDocumentTooLarge => 213
  | kContractSchema => 300 | kEmptyRequirementSet => 301 | kDuplicateRequirement => 302
  | kUnknownScope => 303 | kMissingRequirementKey => 304 | kTooManyScopes => 305
  | kTooManyRequirements => 306 | kTooManyRankedScopes => 307 | kInvalidStrength => 308
  | kInvalidKind => 309 | kInvalidValue => 310 | kValueOutOfRange => 311
  | kMissingPublisher => 312 | kZeroIdentity => 313 | kEmptyCollective => 314
  | kDuplicateCollectiveMember => 315 | kTooManyAttributes => 316 | kEmptyScopeName => 317
  | kUnknownContract => 400 | kUnknownWorkload => 401 | kStaleGeneration => 402
  | kGenerationGap => 403 | kSuperseded => 404 | kContractRetired => 405
  | kWriterFenced => 406 | kPublisherNotTrusted => 407 | kSignatureInvalid => 408
  | kSignatureMissing => 409 | kReplayRejected => 410 | kPublisherMismatch => 411
  | kNotContractOwner => 412 | kContractDigestMismatch => 413
  | kWrongCoordinatorIncarnation => 414 | kDuplicateWorkload => 415
  | kRetentionExceeded => 416 | kUnknownPolicy => 417 | kCompositionConflict => 500
  | kWeakeningDenied => 501 | kPolicyDenied => 502 | kLayerNotFound => 503
  | kTooManyLayers => 504 | kOverlayInvalid => 505 | kCompositionCycle => 506
  | kIncompatibleMajor => 600 | kIncompatibleRequirementRemoved => 601
  | kIncompatibleRequirementWeakened => 602 | kIncompatibleScopeRemoved => 603
  | kIncompatibleKindChanged => 604 | kContractSchemaVersionUnsupported => 605
  | kEvidenceUnknownScope => 700 | kEvidenceStale => 701 | kEvidenceExpired => 702
  | kEvidenceGenerationBackwards => 703 | kEvidenceDuplicate => 704
  | kEvidenceTooManyEntries => 705 | kEvaluationNoEvidence => 706
  | kEvaluationMissingDimension => 707 | kEvidenceNotCurrent => 708
  | kRevalidationRequired => 709 | kEvidenceRejected => 710 | kLedgerCorrupt => 800
  | kLedgerTruncated => 801 | kLedgerOversized => 802 | kLedgerIncompatible => 803
  | kIndexMismatch => 804 | kStateUnavailable => 805 | kAtomicReplaceFailed => 806
  | kSnapshotInvalid => 807 | kLockHeld => 808 | kIndexGapDetected => 809
  | kDirectoryUnavailable => 810 | kPathRejected => 811 | kRecoveryRequired => 812
  | kIdentityReconciled => 850 | kTooManyReasons => 900 | kInternalInvariant => 901
  | kNotImplemented => 902
  end.

Record CodeInfo := mk_code_info { info_code : Code; token : string; description : string }.

Definition kCodeTable : list CodeInfo := [
  mk_code_info kOk "ok" "operation accepted";
  mk_code_info kBadMagic "bad_magic" "frame magic does not match this protocol";
  mk_code_info kBadVersion "bad_version" "protocol version is not supported";
  mk_code_info kFrameTooLarge "frame_too_large" "frame exceeds the configured byte bound";
  mk_code_info kTruncatedFrame "truncated_frame" "frame ended before its declared length";
  mk_code_info kFrameCrcMismatch "frame_crc_mismatch" "frame integrity check failed";
  mk_code_info kTrailingGarbage "trailing_garbage" "bytes remained after the complete document";
  mk_code_info kUnknownFrameType "unknown_frame_type" "frame type is not defined by this version";
  mk_code_info kMalformedFrameHeader "malformed_frame_header" "frame header fields are inconsistent";
  mk_code_info kBodyTooLarge "body_too_large" "frame body exceeds the configured byte bound";
  mk_code_info kUnknownPayloadSchema "unknown_payload_schema" "payload schema tag is not supported";
  mk_code_info kSessionClosed "session_closed" "session is closed and cannot carry new work";
  mk_code_info kBackpressure "backpressure" "pending request bound reached; request refused";
  mk_code_info kConnectFailed "connect_failed" "transport connection could not be established";
  mk_code_info kBindFailed "bind_failed" "listening address could not be bound";
  mk_code_info kListenFailed "listen_failed" "listening socket could not be created";
  mk_code_info kIoFailed "io_failed" "transport input or output failed";
  mk_code_info kDeadlineExceeded "deadline_exceeded" "bounded wait elapsed before completion";
  mk_code_info kJsonSyntax "json_syntax" "document is not well formed JSON";
  mk_code_info kJsonDepthExceeded "json_depth_exceeded" "nesting depth exceeds the configured bound";
  mk_code_info kJsonDuplicateKey "json_duplicate_key" "object repeats a key";
  mk_code_info kJsonNotAnObject "json_not_an_object" "value is not a JSON object";
  mk_code_info kJsonNotAnArray "json_not_an_array" "value is not a JSON array";
  mk_code_info kJsonMissingField "json_missing_field" "required field is absent";
  mk_code_info kJsonWrongType "json_wrong_type" "field has the wrong JSON type";
  mk_code_info kJsonInvalidUtf8 "json_invalid_utf8" "string contains an invalid UTF-8 sequence";
  mk_code_info kJsonStringTooLong "json_string_too_long" "string exceeds the configured byte bound";
  mk_code_info kJsonNumberOutOfRange "json_number_out_of_range" "number is not representable exactly";
  mk_code_info kJsonUnknownField "json_unknown_field" "object contains a field this schema forbids";
  mk_code_info kJsonTooManyElements "json_too_many_elements" "array exceeds the configured bound";
  mk_code_info kJsonInvalidLiteral "json_invalid_literal" "literal token is malformed";
  mk_code_info kDocumentTooLarge "document_too_large" "document exceeds the configured byte bound";
  mk_code_info kContractSchema "contract_schema" "contract does not satisfy its schema";
  mk_code_info kEmptyRequirementSet "empty_requirement_set" "contract declares no requirements";
  mk_code_info kDuplicateRequirement "duplicate_requirement" "two requirements share scope, kind and key";
  mk_code_info kUnknownScope "unknown_scope" "requirement references an undeclared scope";
  mk_code_info kMissingRequirementKey "missing_requirement_key" "requirement kind requires an explicit key";
  mk_code_info kTooManyScopes "too_many_scopes" "scope count exceeds the configured bound";
  mk_code_info kTooManyRequirements "too_many_requirements" "requirement count exceeds the configured bound";
  mk_code_info kTooManyRankedScopes "too_many_ranked_scopes" "ranked scope count exceeds the configured bound";
  mk_code_info kInvalidStrength "invalid_strength" "strength token is not required, preferred or informational";
  mk_code_info kInvalidKind "invalid_kind" "requirement kind token is not defined";
  mk_code_info kInvalidValue "invalid_value" "requirement parameters are malformed";
  mk_code_info kValueOutOfRange "value_out_of_range" "requirement parameter is outside its permitted range";
  mk_code_info kMissingPublisher "missing_publisher" "contract carries no publisher identity";
  mk_code_info kZeroIdentity "zero_identity" "identity is the zero identity";
  mk_code_info kEmptyCollective "empty_collective" "collective requirement names no members";
  mk_code_info kDuplicateCollectiveMember "duplicate_collective_member" "collective repeats a member identity";
  mk_code_info kTooManyAttributes "too_many_attributes" "attribute count exceeds the configured bound";
  mk_code_info kEmptyScopeName "empty_scope_name" "scope name is empty";
  mk_code_info kUnknownContract "unknown_contract" "no contract is registered for that identity";
  mk_code_info kUnknownWorkload "unknown_workload" "no contract is registered for that workload";
  mk_code_info kStaleGeneration "stale_generation" "generation is behind the current generation";
  mk_code_info kGenerationGap "generation_gap" "generation skips past the next expected generation";
  mk_code_info kSuperseded "superseded" "object was superseded by a later generation";
  mk_code_info kContractRetired "contract_retired" "workload contract is retired and accepts no update";
  mk_code_info kWriterFenced "writer_fenced" "writer incarnation is fenced by a newer boot";
  mk_code_info kPublisherNotTrusted "publisher_not_trusted" "publisher identity is not in the trust set";
  mk_code_info kSignatureInvalid "signature_invalid" "signature does not verify for the covered bytes";
  mk_code_info kSignatureMissing "signature_missing" "signed submission carries no signature";
  mk_code_info kReplayRejected "replay_rejected" "submission was already applied under this boot";
  mk_code_info kPublisherMismatch "publisher_mismatch" "envelope identity disagrees with the signing key";
  mk_code_info kNotContractOwner "not_contract_owner" "publisher does not own the current generation";
  mk_code_info kContractDigestMismatch "contract_digest_mismatch" "declared digest does not match canonical bytes";
  mk_code_info kWrongCoordinatorIncarnation "wrong_coordinator_incarnation" "request targets a different coordinator incarnation";
  mk_code_info kDuplicateWorkload "duplicate_workload" "workload already has an active contract";
  mk_code_info kRetentionExceeded "retention_exceeded" "retention bound reached; oldest generations must be pruned";
  mk_code_info kUnknownPolicy "unknown_policy" "policy identity or generation is not current";
  mk_code_info kCompositionConflict "composition_conflict" "composed layers disagree on the same requirement key";
  mk_code_info kWeakeningDenied "weakening_denied" "override attempts to weaken a stronger requirement";
  mk_code_info kPolicyDenied "policy_denied" "requirement violates an allowed range or strength floor";
  mk_code_info kLayerNotFound "layer_not_found" "composition layer does not exist";
  mk_code_info kTooManyLayers "too_many_layers" "layer count exceeds the configured bound";
  mk_code_info kOverlayInvalid "overlay_invalid" "overlay is not a valid contract fragment";
  mk_code_info kCompositionCycle "composition_cycle" "layer graph contains a cycle";
  mk_code_info kIncompatibleMajor "incompatible_major" "contract major version differs";
  mk_code_info kIncompatibleRequirementRemoved "incompatible_requirement_removed" "required requirement disappeared";
  mk_code_info kIncompatibleRequirementWeakened "incompatible_requirement_weakened" "required requirement was weakened";
  mk_code_info kIncompatibleScopeRemoved "incompatible_scope_removed" "scope disappeared for a required requirement";
  mk_code_info kIncompatibleKindChanged "incompatible_kind_changed" "requirement key changed kind";
  mk_code_info kContractSchemaVersionUnsupported "contract_schema_version_unsupported" "contract schema version is not supported";
  mk_code_info kEvidenceUnknownScope "evidence_unknown_scope" "evidence references an undeclared scope";
  mk_code_info kEvidenceStale "evidence_stale" "evidence generation or epoch is behind the current one";
  mk_code_info kEvidenceExpired "evidence_expired" "evidence age exceeds the policy maximum";
  mk_code_info kEvidenceGenerationBackwards "evidence_generation_backwards" "evidence generation does not advance";
  mk_code_info kEvidenceDuplicate "evidence_duplicate" "evidence repeats a scope and dimension";
  mk_code_info kEvidenceTooManyEntries "evidence_too_many_entries" "evidence entry count exceeds the configured bound";
  mk_code_info kEvaluationNoEvidence "evaluation_no_evidence" "no evidence covers this requirement dimension";
  mk_code_info kEvaluationMissingDimension "evaluation_missing_dimension" "evidence omits a dimension the requirement needs";
  mk_code_info kEvidenceNotCurrent "evidence_not_current" "evidence is not current under this coordinator incarnation";
  mk_code_info kRevalidationRequired "revalidation_required" "evidence must be re-established by a publisher";
  mk_code_info kEvidenceRejected "evidence_rejected" "evidence failed validation and was refused";
  mk_code_info kLedgerCorrupt "ledger_corrupt" "persisted record fails integrity or structure checks";
  mk_code_info kLedgerTruncated "ledger_truncated" "persisted record ends before its declared length";
  mk_code_info kLedgerOversized "ledger_oversized" "persisted record exceeds the configured byte bound";
  mk_code_info kLedgerIncompatible "ledger_incompatible" "ledger format version is not supported";
  mk_code_info kIndexMismatch "index_mismatch" "derived index disagrees with durable records";
  mk_code_info kStateUnavailable "state_unavailable" "state directory is missing or unusable";
  mk_code_info kAtomicReplaceFailed "atomic_replace_failed" "atomic file replacement did not complete";
  mk_code_info kSnapshotInvalid "snapshot_invalid" "snapshot does not satisfy its schema";
  mk_code_info kLockHeld "lock_held" "another live holder owns the state directory";
  mk_code_info kIndexGapDetected "index_gap_detected" "durable sequence has a gap; recovery is required";
  mk_code_info kDirectoryUnavailable "directory_unavailable" "required directory could not be created or read";
  mk_code_info kPathRejected "path_rejected" "path escapes the state root or is otherwise refused";
  mk_code_info kRecoveryRequired "recovery_required" "state must be recovered before serving";
  mk_code_info kIdentityReconciled "identity_reconciled" "a submitted identity disagreed with the canonical bytes and was recomputed from them";
  mk_code_info kTooManyReasons "too_many_reasons" "diagnostic list was truncated at its bound";
  mk_code_info kInternalInvariant "internal_invariant" "internal invariant violated";
  mk_code_info kNotImplemented "not_implemented" "capability is not implemented in this build"
].

Definition kUnknownCode : CodeInfo :=
  mk_code_info kInternalInvariant "unknown_code" "unrecognised code".

Definition code_eqb (a b : Code) : bool := code_value a =? code_value b.

Fixpoint lookup_in (table : list CodeInfo) (code : Code) : CodeInfo :=
  match table with
  | [] => kUnknownCode
  | info :: table' => if code_eqb (info_code info) code then info else lookup_in table' code
  end.

Definition lookup_code (code : Code) : CodeInfo := lookup_in kCodeTable code.

Definition code_token (code : Code) : string := token (lookup_code code).
Definition code_description (code : Code) : string := description (lookup_code code).

(** ** Diagnostics *)
Record Diagnostic := mk_diagnostic {
  diag_code : Code;
  message : string;
  diag_scope : ScopeId;
  diag_requirement : RequirementId
}.

(** The constructors of [Diagnostic]. *)
Definition diag (code : Code) (text : string) : Diagnostic := mk_diagnostic code text zero_id zero_id.
Definition diag_at (code : Code) (text : string) (scope : ScopeId) : Diagnostic :=
  mk_diagnostic code text scope zero_id.

Definition diag_ok (d : Diagnostic) : bool := code_eqb (diag_code d) kOk.

Definition render (d : Diagnostic) : string :=
  (code_token (diag_code d) ++ ": " ++ message d
   ++ (if negb (is_zero (diag_scope d)) then " [scope=" ++ view (diag_scope d) ++ "]" else "")
   ++ (if negb (is_zero (diag_requirement d))
       then " [requirement=" ++ view (diag_requirement d) ++ "]" else ""))%string.

(** ** The bounded log *)
Record DiagnosticLog := mk_log { entries : list Diagnostic; limit : Z; truncated : bool }.

Definition new_log (limit : Z) : DiagnosticLog :=
  mk_log [] (if limit =? 0 then 1 else limit) false.

Definition empty_log : DiagnosticLog := new_log 64.

Definition log_add (log : DiagnosticLog) (d : Diagnostic) : DiagnosticLog :=
  if limit log <=? zlength (entries log) then mk_log (entries log) (limit log) true
  else mk_log (entries log ++ [d]) (limit log) (truncated log).

(** A sequence of [add] calls. *)
Definition log_adds (log : DiagnosticLog) (ds : list Diagnostic) : DiagnosticLog :=
  fold_left log_add ds log.

Definition has_errors (log : DiagnosticLog) : bool :=
  existsb (fun entry => negb (diag_ok entry)) (entries log).

Definition reasons (log : DiagnosticLog) : list string :=
  map render (entries log)
  ++ (if truncated log then [render (diag kTooManyReasons "diagnostic bound reached")] else []).

Fixpoint first_error_in (l : list Diagnostic) : Code :=
  match l with
  | [] => kOk
  | entry :: l' => if negb (diag_ok entry) then diag_code entry else first_error_in l'
  end.

Definition first_error_code (log : DiagnosticLog) : Code := first_error_in (entries log).

(** ** Lemmas on codes *)
Definition code_of_value (v : Z) : option Code :=
  info_code <$> List.find (fun info => code_value (info_code info) =? v) kCodeTable.

Lemma code_of_value_value c : code_of_value (code_value c) = Some c.
Proof. destruct c; reflexivity. Qed.

Lemma code_value_inj a b : code_value a = code_value b -> a = b.
Proof.
  intros E. apply (f_equal code_of_value) in E. rewrite !code_of_value_value in E. congruence.
Qed.

Lemma code_eqb_eq a b : code_eqb a b = true <-> a = b.
Proof.
  unfold code_eqb. rewrite Z.eqb_eq. split; [apply code_value_inj|by intros ->].
Qed.

#[export] Instance Code_eq_dec : EqDecision Code.
Proof.
  intros a b. destruct (code_eqb a b) eqn:E; [left; by apply code_eqb_eq|].
  right. intros ->. by rewrite (proj2 (code_eqb_eq b b)) in E.
Defined.

Lemma code_eqb_refl a : code_eqb a a = true.
Proof. by apply code_eqb_eq. Qed.

Definition code_of_token (t : string) : option Code :=
  info_code <$> List.find (fun info => String.eqb (token info) t) kCodeTable.

Lemma code_of_token_token c : code_of_token (code_token c) = Some c.
Proof. destruct c; reflexivity. Qed.

Lemma lookup_code_row c : info_code (lookup_code c) = c /\ lookup_code c ∈ kCodeTable.
Proof.
  split; [destruct c; reflexivity|].
  enough (existsb (fun info => code_eqb (info_code info) c) kCodeTable = true) as E.
  { unfold lookup_code. induction kCodeTable as [|i l IH]; [done|]. simpl in *.
    destruct (code_eqb (info_code i) c); [left|right; by apply IH]. }
  destruct c; reflexivity.
Qed.

(** ** Lemmas on the log *)
Lemma log_adds_entries log ds :
  0 < limit log -> zlength (entries log) <= limit log ->
  entries (log_adds log ds) =
    entries log ++ take (Z.to_nat (limit log) - length (entries log)) ds
  /\ limit (log_adds log ds) = limit log
  /\ truncated (log_adds log ds) =
     (truncated log || (limit log <? zlength (entries log) + zlength ds)).
Proof.
  unfold zlength. revert log; induction ds as [|d ds IH]; intros log Hl Hle; unfold log_adds; simpl.
  - rewrite take_nil, app_nil_r. rewrite (proj2 (Z.ltb_ge _ _)) by lia. by rewrite orb_false_r.
  - assert (fold_left log_add ds (log_add log d) = log_adds (log_add log d) ds) as -> by done.
    unfold log_add, zlength.
    destruct (limit log <=? Z.of_nat (length (entries log))) eqn:E.
    + apply Z.leb_le in E. edestruct (IH (mk_log (entries log) (limit log) true)) as (H1 & H2 & H3);
        [done..|]. simpl in *. rewrite H1, H2, H3.
      replace (Z.to_nat (limit log) - length (entries log))%nat with 0%nat by lia. simpl.
      rewrite (proj2 (Z.ltb_lt (limit log) _)) by lia. by rewrite orb_true_r.
    + apply Z.leb_gt in E.
      edestruct (IH (mk_log (entries log ++ [d]) (limit log) (truncated log))) as (H1 & H2 & H3);
        simpl; [done|rewrite length_app; simpl; lia|]. simpl in *. rewrite H1, H2, H3.
      rewrite <- app_assoc, length_app; simpl.
      replace (Z.to_nat (limit log) - length (entries log))%nat
        with (S (Z.to_nat (limit log) - (length (entries log) + 1))) by lia. simpl.
      split_and!; [done..|]. f_equal. f_equal. lia.
Qed.

Lemma log_adds_empty ds :
  entries (log_adds empty_log ds) = take 64 ds
  /\ truncated (log_adds empty_log ds) = (64 <? zlength ds).
Proof.
  destruct (log_adds_entries empty_log ds) as (H1 & _ & H3); [done..|].
  simpl in *. by rewrite H1, H3.
Qed.

(** A log that was not truncated reports an error exactly when one was added. *)
Lemma has_errors_adds ds :
  zlength ds <= 64 ->
  has_errors (log_adds empty_log ds) = existsb (fun d => negb (diag_ok d)) ds.
Proof.
  unfold zlength. intros Hlen. unfold has_errors. destruct (log_adds_empty ds) as [-> _].
  rewrite take_ge; [done|lia].
Qed.

(** The bound hides no error behind fewer than 64 entries of code [kOk]. *)
Lemma has_errors_few ds :
  (length (filter (fun d => diag_ok d = true) ds) < 64)%nat ->
  has_errors (log_adds empty_log ds) = existsb (fun d => negb (diag_ok d)) ds.
Proof.
  unfold has_errors. destruct (log_adds_empty ds) as [-> _]. generalize 64%nat as n.
  induction ds as [|d ds IH]; intros n Hn; [by rewrite take_nil|].
  destruct n as [|n]; [lia|]. simpl. destruct (diag_ok d) eqn:E; simpl; [|done].
  rewrite filter_cons_True in Hn by done. simpl in Hn. apply IH. lia.
Qed.

Lemma first_error_code_ok log : has_errors log = false <-> first_error_code log = kOk.
Proof.
  unfold has_errors, first_error_code. induction (entries log) as [|d l IH]; simpl; [done|].
  unfold diag_ok at 1 3. destruct (code_eqb (diag_code d) kOk) eqn:E; simpl; [done|].
  split; [done|]. intros H. rewrite H, code_eqb_refl in E. done.
Qed.

(** ** Lists of errors

    A pass that only reports errors leaves a log without errors exactly when it reports
    nothing, whatever the bound of the log. *)
Definition errors_only (ds : list Diagnostic) : Prop := Forall (fun d => diag_ok d = false) ds.

Lemma errors_only_app a b : errors_only (a ++ b) <-> errors_only a /\ errors_only b.
Proof. apply Forall_app. Qed.

Lemma errors_only_concat {A} (f : A -> list Diagnostic) l :
  (forall x, errors_only (f x)) -> errors_only (concat (map f l)).
Proof. intros Hf. induction l; simpl; [constructor|]. by apply errors_only_app. Qed.

Lemma errors_only_one code text s r :
  code <> kOk -> errors_only [mk_diagnostic code text s r].
Proof.
  intros H. repeat constructor. unfold diag_ok. simpl. apply not_true_is_false.
  by rewrite code_eqb_eq.
Qed.

Lemma errors_only_log ds :
  errors_only ds -> has_errors (log_adds empty_log ds) = false <-> ds = [].
Proof.
  intros He. unfold has_errors. destruct (log_adds_empty ds) as [-> _].
  destruct He as [|d ds Hd Hds]; [done|]. simpl. by rewrite Hd.
Qed.

Lemma concat_map_nil {A B} (f : A -> list B) l :
  concat (map f l) = [] <-> Forall (fun x => f x = []) l.
Proof.
  induction l as [|x l IH]; simpl; [split; [constructor|done]|].
  rewrite Forall_cons, <- IH. destruct (f x); simpl; [tauto|]. split; [done|]. by intros [? _].
Qed.
