(* ===== verification/Hash.v ===== *)
(** * Digests and integrity checks

    Models [include/wnc/hash.hpp], [src/hash.cpp] and [src/hash512.cpp]: the buffered
    SHA-256 and SHA-512 objects, the length prefixed [sha256_parts], HMAC, the constant
    time comparison, the table driven CRC-32 and the domain separated digests.

    The rest of the development uses hashing through the class [Hashing]; the instance
    [wnc_hashing] is the code of this file. *)
From Stdlib Require Import ZArith Lia Ascii String.
From stdpp Require Import base numbers option list strings.
From S2P Require Import Prelude Identity.

(** ** Big endian integers *)

(** [write_be32], [write_be64]: the [n] bytes of a value, most significant first. *)
Fixpoint write_be (n : nat) (value : Z) : bytes :=
  match n with
  | O => []
  | S n' => Z.land (Z.shiftr value (8 * Z.of_nat n')) 255 :: write_be n' value
  end.

Definition write_be32 (value : Z) : bytes := write_be 4 value.
Definition write_be64 (value : Z) : bytes := write_be 8 value.

(** [read_be32], [read_be64]: the shift and or loop over the bytes. *)
Definition read_be (b : bytes) : Z := fold_left (fun value x => Z.lor (Z.shiftl value 8) x) b 0.

(** ** The buffered block hash

    [Sha256] and [Sha512] keep the same state machine around their compression
    function: the chaining words, the bytes of an incomplete block, the byte count and
    the finished flag.  [buffer] is [buffer_[0, buffered_)]. *)
Record hash_state := mk_hash_state {
  state_ : list Z;
  buffer_ : bytes;
  total_bytes_ : Z;
  finished_ : bool
}.

Section BlockHash.
Context (block_bytes : nat) (compress : list Z -> bytes -> list Z).

(** [while (offset + kBlockBytes <= bytes.size())]; each round consumes a block, so the
    number of bytes is enough fuel. *)
Fixpoint compress_blocks (fuel : nat) (state : list Z) (data : bytes) : list Z * bytes :=
  match fuel with
  | O => (state, data)
  | S fuel' =>
      if (block_bytes <=? length data)%nat
      then compress_blocks fuel' (compress state (take block_bytes data)) (drop block_bytes data)
      else (state, data)
  end.

Definition block_update (h : hash_state) (data : bytes) : hash_state :=
  if finished_ h then h
  else
    let total := u64 (total_bytes_ h + zlength data) in
    let '(state, buffer, rest) :=
      if (0 <? length (buffer_ h))%nat then
        let want := (block_bytes - length (buffer_ h))%nat in
        let taken := (if length data <? want then length data else want)%nat in
        let buffer := buffer_ h ++ take taken data in
        if (length buffer =? block_bytes)%nat
        then (compress (state_ h) buffer, [], drop taken data)
        else (state_ h, buffer, drop taken data)
      else (state_ h, buffer_ h, data) in
    let '(state, rest) := compress_blocks (length rest) state rest in
    let buffer := if (0 <? length rest)%nat then rest else buffer in
    mk_hash_state state buffer total false.

End BlockHash.

(** ** SHA-256 *)
Module Sha256.

Definition kBlockBytes : nat := 64.

(** The words of the source's table, in decimal. *)
Definition kSha256RoundConstants : list Z := [
  1116352408; 1899447441; 3049323471; 3921009573; 961987163; 1508970993;
  2453635748; 2870763221; 3624381080; 310598401; 607225278; 1426881987;
  1925078388; 2162078206; 2614888103; 3248222580; 3835390401; 4022224774;
  264347078; 604807628; 770255983; 1249150122; 1555081692; 1996064986;
  2554220882; 2821834349; 2952996808; 3210313671; 3336571891; 3584528711;
  113926993; 338241895; 666307205; 773529912; 1294757372; 1396182291;
  1695183700; 1986661051; 2177026350; 2456956037; 2730485921; 2820302411;
  3259730800; 3345764771; 3516065817; 3600352804; 4094571909; 275423344;
  430227734; 506948616; 659060556; 883997877; 958139571; 1322822218;
  1537002063; 1747873779; 1955562222; 2024104815; 2227730452; 2361852424;
  2428436474; 2756734187; 3204031479; 3329325298
].

Definition rotate_right (value shift : Z) : Z :=
  Z.lor (Z.shiftr value shift) (u32 (Z.shiftl value (32 - shift))).

Definition choose (x y z : Z) : Z := Z.lxor (Z.land x y) (Z.land (Z.lnot x) z).
Definition majority (x y z : Z) : Z := Z.lxor (Z.lxor (Z.land x y) (Z.land x z)) (Z.land y z).

Definition init : hash_state := mk_hash_state [   1779033703; 3144134277; 1013904242; 2773480762;   1359893119; 2600822924; 528734635; 1541459225 ] [] 0 false.

(** The first 16 words of the schedule. *)
Definition block_words (block : bytes) : list Z :=
  map (fun i => read_be (slice (i * 4) 4 block)) (seq 0 16).

(** The next word, [w[i]] for [i = length w]. *)
Definition next_word (w : list Z) : Z :=
  let i := length w in
  let w15 := nth (i - 15) w 0 in
  let w2 := nth (i - 2) w 0 in
  let s0 := Z.lxor (Z.lxor (rotate_right w15 7) (rotate_right w15 18)) (Z.shiftr w15 3) in
  let s1 := Z.lxor (Z.lxor (rotate_right w2 17) (rotate_right w2 19)) (Z.shiftr w2 10) in
  u32 (nth (i - 16) w 0 + s0 + nth (i - 7) w 0 + s1).

Fixpoint extend_words (n : nat) (w : list Z) : list Z :=
  match n with O => w | S n' => extend_words n' (w ++ [next_word w]) end.

(** One of the 64 rounds on the working variables. *)
Definition round (v : list Z) (kw : Z * Z) : list Z :=
  match v with
  | [a; b; c; d; e; f; g; h] =>
      let s1 := Z.lxor (Z.lxor (rotate_right e 6) (rotate_right e 11)) (rotate_right e 25) in
      let ch := choose e f g in
      let temp1 := u32 (h + s1 + ch + kw.1 + kw.2) in
      let s0 := Z.lxor (Z.lxor (rotate_right a 2) (rotate_right a 13)) (rotate_right a 22) in
      let maj := majority a b c in
      let temp2 := u32 (s0 + maj) in
      [u32 (temp1 + temp2); a; b; c; u32 (d + temp1); e; f; g]
  | _ => v
  end.

Definition compress (state : list Z) (block : bytes) : list Z :=
  let w := extend_words 48 (block_words block) in
  let v := fold_left round (zip kSha256RoundConstants w) state in
  zip_with (fun s x => u32 (s + x)) state v.

Definition update (h : hash_state) (data : bytes) : hash_state :=
  block_update kBlockBytes compress h data.

(** [update(std::string_view)]. *)
Definition update_text (h : hash_state) (text : string) : hash_state :=
  update h (bytes_of_string text).

Definition pad_len (buffered : nat) : nat := if (buffered <? 56)%nat then 56 - buffered else 120 - buffered.

Definition finish (h : hash_state) : hash_state * Digest :=
  let h :=
    if negb (finished_ h) then
      let bit_length := u64 (total_bytes_ h * 8) in
      let padding := 128 :: repeat 0 (pad_len (length (buffer_ h)) - 1) in
      let h := update h padding in
      let h := update h (write_be64 bit_length) in
      mk_hash_state (state_ h) (buffer_ h) (total_bytes_ h) true
    else h in
  (h, concat (map write_be32 (state_ h))).

Definition digest (h : hash_state) : Digest := (finish h).2.

Definition sha256 (data : bytes) : Digest := digest (update init data).
Definition sha256_text (text : string) : Digest := digest (update_text init text).

(** One iteration of the loop of [sha256_parts]. *)
Definition update_part (h : hash_state) (part : string) : hash_state :=
  if 4294967295 <? size part then
    update (update h [255; 255; 255; 255]) (sha256_text part)
  else update_text (update h (write_be32 (size part))) part.

Definition sha256_parts (parts : list string) : Digest := digest (fold_left update_part parts init).

Definition hmac_sha256 (key message : bytes) : Digest :=
  let padded_key :=
    if (kBlockBytes <? length key)%nat
    then sha256 key ++ repeat 0 (kBlockBytes - length (sha256 key))
    else key ++ repeat 0 (kBlockBytes - length key) in
  let inner := map (fun k => Z.lxor k 54) padded_key in
  let outer := map (fun k => Z.lxor k 92) padded_key in
  let inner_digest := digest (update (update init inner) message) in
  digest (update (update init outer) inner_digest).

End Sha256.

(** ** SHA-512 *)
Module Sha512.

Definition kBlockBytes : nat := 128.

Definition kSha512RoundConstants : list Z := [
  0x428a2f98d728ae22; 0x7137449123ef65cd; 0xb5c0fbcfec4d3b2f; 0xe9b5dba58189dbbc;
  0x3956c25bf348b538; 0x59f111f1b605d019; 0x923f82a4af194f9b; 0xab1c5ed5da6d8118;
  0xd807aa98a3030242; 0x12835b0145706fbe; 0x243185be4ee4b28c; 0x550c7dc3d5ffb4e2;
  0x72be5d74f27b896f; 0x80deb1fe3b1696b1; 0x9bdc06a725c71235; 0xc19bf174cf692694;
  0xe49b69c19ef14ad2; 0xefbe4786384f25e3; 0x0fc19dc68b8cd5b5; 0x240ca1cc77ac9c65;
  0x2de92c6f592b0275; 0x4a7484aa6ea6e483; 0x5cb0a9dcbd41fbd4; 0x76f988da831153b5;
  0x983e5152ee66dfab; 0xa831c66d2db43210; 0xb00327c898fb213f; 0xbf597fc7beef0ee4;
  0xc6e00bf33da88fc2; 0xd5a79147930aa725; 0x06ca6351e003826f; 0x142929670a0e6e70;
  0x27b70a8546d22ffc; 0x2e1b21385c26c926; 0x4d2c6dfc5ac42aed; 0x53380d139d95b3df;
  0x650a73548baf63de; 0x766a0abb3c77b2a8; 0x81c2c92e47edaee6; 0x92722c851482353b;
  0xa2bfe8a14cf10364; 0xa81a664bbc423001; 0xc24b8b70d0f89791; 0xc76c51a30654be30;
  0xd192e819d6ef5218; 0xd69906245565a910; 0xf40e35855771202a; 0x106aa07032bbd1b8;
  0x19a4c116b8d2d0c8; 0x1e376c085141ab53; 0x2748774cdf8eeb99; 0x34b0bcb5e19b48a8;
  0x391c0cb3c5c95a63; 0x4ed8aa4ae3418acb; 0x5b9cca4f7763e373; 0x682e6ff3d6b2b8a3;
  0x748f82ee5defb2fc; 0x78a5636f43172f60; 0x84c87814a1f0ab72; 0x8cc702081a6439ec;
  0x90befffa23631e28; 0xa4506cebde82bde9; 0xbef9a3f7b2c67915; 0xc67178f2e372532b;
  0xca273eceea26619c; 0xd186b8c721c0c207; 0xeada7dd6cde0eb1e; 0xf57d4f7fee6ed178;
  0x06f067aa72176fba; 0x0a637dc5a2c898a6; 0x113f9804bef90dae; 0x1b710b35131c471b;
  0x28db77f523047d84; 0x32caab7b40c72493; 0x3c9ebe0a15c9bebc; 0x431d67c49c100d4c;
  0x4cc5d4becb3e42b6; 0x597f299cfc657e2a; 0x5fcb6fab3ad6faec; 0x6c44198c4a475817
].

Definition rotate_right64 (value shift : Z) : Z :=
  Z.lor (Z.shiftr value shift) (u64 (Z.shiftl value (64 - shift))).

Definition init : hash_state := mk_hash_state [   0x6a09e667f3bcc908; 0xbb67ae8584caa73b; 0x3c6ef372fe94f82b; 0xa54ff53a5f1d36f1;   0x510e527fade682d1; 0x9b05688c2b3e6c1f; 0x1f83d9abfb41bd6b; 0x5be0cd19137e2179 ] [] 0 false.

Definition block_words (block : bytes) : list Z :=
  map (fun i => read_be (slice (i * 8) 8 block)) (seq 0 16).

Definition next_word (w : list Z) : Z :=
  let i := length w in
  let w15 := nth (i - 15) w 0 in
  let w2 := nth (i - 2) w 0 in
  let s0 := Z.lxor (Z.lxor (rotate_right64 w15 1) (rotate_right64 w15 8)) (Z.shiftr w15 7) in
  let s1 := Z.lxor (Z.lxor (rotate_right64 w2 19) (rotate_right64 w2 61)) (Z.shiftr w2 6) in
  u64 (nth (i - 16) w 0 + s0 + nth (i - 7) w 0 + s1).

Fixpoint extend_words (n : nat) (w : list Z) : list Z :=
  match n with O => w | S n' => extend_words n' (w ++ [next_word w]) end.

Definition round (v : list Z) (kw : Z * Z) : list Z :=
  match v with
  | [a; b; c; d; e; f; g; h] =>
      let s1 := Z.lxor (Z.lxor (rotate_right64 e 14) (rotate_right64 e 18)) (rotate_right64 e 41) in
      let ch := Z.lxor (Z.land e f) (Z.land (Z.lnot e) g) in
      let temp1 := u64 (h + s1 + ch + kw.1 + kw.2) in
      let s0 := Z.lxor (Z.lxor (rotate_right64 a 28) (rotate_right64 a 34)) (rotate_right64 a 39) in
      let maj := Z.lxor (Z.lxor (Z.land a b) (Z.land a c)) (Z.land b c) in
      let temp2 := u64 (s0 + maj) in
      [u64 (temp1 + temp2); a; b; c; u64 (d + temp1); e; f; g]
  | _ => v
  end.

Definition compress (state : list Z) (block : bytes) : list Z :=
  let w := extend_words 64 (block_words block) in
  let v := fold_left round (zip kSha512RoundConstants w) state in
  zip_with (fun s x => u64 (s + x)) state v.

Definition update (h : hash_state) (data : bytes) : hash_state :=
  block_update kBlockBytes compress h data.

Definition pad_len (buffered : nat) : nat :=
  if (buffered <? 112)%nat then 112 - buffered else 240 - buffered.

Definition finish (h : hash_state) : hash_state * bytes :=
  let h :=
    if negb (finished_ h) then
      let bit_length := u64 (total_bytes_ h * 8) in
      let padding := 128 :: repeat 0 (pad_len (length (buffer_ h)) - 1) in
      let h := update h padding in
      let h := update h (repeat 0 8 ++ write_be64 bit_length) in
      mk_hash_state (state_ h) (buffer_ h) (total_bytes_ h) true
    else h in
  (h, concat (map write_be64 (state_ h))).

Definition digest (h : hash_state) : bytes := (finish h).2.

Definition sha512 (data : bytes) : bytes := digest (update init data).

(** The size is masked to 32 bits, with no marker for larger parts. *)
Definition update_part (h : hash_state) (part : string) : hash_state :=
  update (update h (write_be32 (Z.land (size part) 4294967295))) (bytes_of_string part).

Definition sha512_parts (parts : list string) : bytes := digest (fold_left update_part parts init).

End Sha512.

(** ** Comparison and CRC-32 *)

(** The accumulation loop over two spans of equal size. *)
Definition constant_time_equal (a b : bytes) : bool :=
  if negb (length a =? length b)%nat then false
  else
    let difference := fold_left (fun d (p : Z * Z) => u8 (Z.lor d (Z.lxor p.1 p.2))) (zip a b) 0 in
    difference =? 0.

(** The body of the bit loop that fills the table. *)
Definition crc_bit (value : Z) : Z :=
  if negb (Z.land value 1 =? 0) then Z.lxor 3988292384 (Z.shiftr value 1) else Z.shiftr value 1.

Definition crc_entry (i : Z) : Z := Nat.iter 8 crc_bit i.

Definition crc_table : list Z := map crc_entry (seqZ 0 256).

Definition crc_byte (crc byte : Z) : Z :=
  Z.lxor (nth (Z.to_nat (Z.land (Z.lxor crc byte) 255)) crc_table 0) (Z.shiftr crc 8).

Definition crc32_continued (state : Z) (data : bytes) : Z := fold_left crc_byte data state.

Definition crc32 (data : bytes) : Z := Z.lxor (crc32_continued 4294967295 data) 4294967295.

(** ** The hashing interface *)
Class Hashing := {
  sha256 : bytes -> Digest;
  sha256_parts : list string -> Digest;
  hmac_sha256 : bytes -> bytes -> Digest
}.

(** What the clients rely on: digests are 32 bytes. *)
Class HashingOk `{Hashing} : Prop := {
  sha256_length : forall data, length (sha256 data) = 32%nat;
  sha256_bytes : forall data, Forall is_byte (sha256 data);
  sha256_parts_length : forall parts, length (sha256_parts parts) = 32%nat;
  sha256_parts_bytes : forall parts, Forall is_byte (sha256_parts parts);
  hmac_sha256_bytes : forall key data, Forall is_byte (hmac_sha256 key data)
}.

(** The code's own hashing; not declared as an instance, so that a client names the
    implementation it runs with. *)
Definition wnc_hashing : Hashing := {|
  sha256 := Sha256.sha256;
  sha256_parts := Sha256.sha256_parts;
  hmac_sha256 := Sha256.hmac_sha256
|}.

Section Domains.
Context `{Hashing}.

Definition digest_domain (domain payload : string) : Digest :=
  sha256_parts ["wnc/v1"%string; domain; payload].

Definition digest_domain_generation (domain payload : string) (generation : Z) : Digest :=
  sha256_parts ["wnc/v1"%string; domain; payload; string_of_bytes (write_be64 generation)].

Definition tool_identity (name : string) : ToolId :=
  from_digest (sha256_parts ["wnc/tool"%string; name]).

End Domains.

(** ** The buffered block hash computes the fold over the blocks *)
Section BlockHashFacts.
Context (B : nat) (compress : list Z -> bytes -> list Z) (HB : (0 < B)%nat).

Definition absorb (s : list Z) (data : bytes) : list Z * bytes :=
  compress_blocks B compress (length data) s data.

Lemma compress_blocks_fuel fuel s data :
  (length data <= fuel)%nat -> compress_blocks B compress fuel s data = absorb s data.
Proof.
  unfold absorb. remember (length data) as n eqn:Hn.
  assert (n <= n)%nat as Hn' by lia. rewrite Hn in Hn' at 1. clear Hn. intros Hf.
  assert (length data <= fuel)%nat as Hf' by lia. clear Hf. revert n fuel s data Hn' Hf'.
  induction n as [|n IH]; intros [|fuel] s data H1 H2; simpl; try done.
  - by rewrite (proj2 (Nat.leb_gt B (length data))) by lia.
  - by rewrite (proj2 (Nat.leb_gt B (length data))) by lia.
  - destruct (B <=? length data)%nat eqn:E; [|done]. apply Nat.leb_le in E.
    apply IH; rewrite length_drop; lia.
Qed.

Lemma absorb_unfold s data :
  absorb s data =
  if (B <=? length data)%nat then absorb (compress s (take B data)) (drop B data) else (s, data).
Proof.
  unfold absorb at 1. destruct data as [|x data].
  - simpl. by rewrite (proj2 (Nat.leb_gt B 0)) by lia.
  - cbn [length compress_blocks]. destruct (B <=? S (length data))%nat eqn:E; [|done].
    apply compress_blocks_fuel. rewrite length_drop. simpl. lia.
Qed.

Lemma absorb_short s data : (length data < B)%nat -> absorb s data = (s, data).
Proof. intros H. rewrite absorb_unfold. by rewrite (proj2 (Nat.leb_gt B _)). Qed.

Lemma absorb_rest s data : (length (absorb s data).2 < B)%nat.
Proof.
  remember (length data) as n eqn:Hn. revert s data Hn.
  induction n as [n IH] using lt_wf_ind. intros s data Hn. rewrite absorb_unfold.
  destruct (B <=? length data)%nat eqn:E.
  - apply Nat.leb_le in E. apply (IH (length (drop B data))); [rewrite length_drop; lia|done].
  - by apply Nat.leb_gt in E.
Qed.

Lemma absorb_app s a b :
  absorb s (a ++ b) = absorb (absorb s a).1 ((absorb s a).2 ++ b).
Proof.
  remember (length a) as n eqn:Hn. revert s a Hn.
  induction n as [n IH] using lt_wf_ind. intros s a Hn. rewrite (absorb_unfold s a).
  destruct (B <=? length a)%nat eqn:E; [|done]. apply Nat.leb_le in E.
  rewrite absorb_unfold, length_app, (proj2 (Nat.leb_le B _)) by lia.
  rewrite take_app_le, drop_app_le by lia.
  apply (IH (length (drop B a))); [rewrite length_drop; lia|done].
Qed.

(** The invariant of a hash object that is still open. *)
Definition hash_open (h : hash_state) : Prop := finished_ h = false /\ (length (buffer_ h) < B)%nat.

Lemma block_update_absorb h data :
  hash_open h ->
  block_update B compress h data =
  mk_hash_state (absorb (state_ h) (buffer_ h ++ data)).1 (absorb (state_ h) (buffer_ h ++ data)).2
    (u64 (total_bytes_ h + zlength data)) false.
Proof.
  intros [Hf Hb]. unfold block_update. rewrite Hf.
  destruct (0 <? length (buffer_ h))%nat eqn:E0.
  - apply Nat.ltb_lt in E0. destruct (length data <? B - length (buffer_ h))%nat eqn:E1.
    + apply Nat.ltb_lt in E1. rewrite take_ge, drop_ge by lia.
      rewrite length_app. rewrite (proj2 (Nat.eqb_neq _ B)) by lia. simpl.
      by rewrite absorb_short by (rewrite length_app; lia).
    + apply Nat.ltb_ge in E1. rewrite length_app, length_take, Nat.min_l by lia.
      rewrite (proj2 (Nat.eqb_eq _ B)) by lia. cbn zeta iota beta.
      set (k := (B - length (buffer_ h))%nat).
      fold (absorb (compress (state_ h) (buffer_ h ++ take k data)) (drop k data)).
      assert (absorb (state_ h) (buffer_ h ++ data)
              = absorb (compress (state_ h) (buffer_ h ++ take k data)) (drop k data)) as ->.
      { rewrite absorb_unfold, length_app, (proj2 (Nat.leb_le B _)) by lia.
        by rewrite take_app_ge, drop_app_ge by lia. }
      destruct (absorb _ _) as [s r]; simpl. by destruct r.
  - apply Nat.ltb_ge in E0. destruct (buffer_ h) as [|]; simpl in *; [|lia].
    fold (absorb (state_ h) data). destruct (absorb _ _) as [s r]; simpl. by destruct r.
Qed.

Lemma block_update_open h data : hash_open h -> hash_open (block_update B compress h data).
Proof. intros H. rewrite block_update_absorb by done. split; [done|]. apply absorb_rest. Qed.

(** Updates compose: the split of the message into updates is not observable. *)
Lemma block_update_app h a b :
  hash_open h ->
  block_update B compress (block_update B compress h a) b = block_update B compress h (a ++ b).
Proof.
  intros H. rewrite (block_update_absorb _ b) by by apply block_update_open.
  rewrite !block_update_absorb by done. cbn [state_ buffer_ total_bytes_].
  rewrite app_assoc, (absorb_app (state_ h) (buffer_ h ++ a) b). f_equal.
  unfold u64, zlength. rewrite length_app, Z.add_mod_idemp_l by lia. f_equal. lia.
Qed.

Lemma block_updates_concat h ms :
  hash_open h ->
  fold_left (block_update B compress) ms h = block_update B compress h (concat ms)
  \/ ms = [].
Proof.
  revert h. induction ms as [|m ms IH]; intros h H; [by right|]. left. simpl.
  destruct (IH (block_update B compress h m)) as [->| ->]; [by apply block_update_open|..].
  - by apply block_update_app.
  - simpl. by rewrite app_nil_r.
Qed.

(** The blocks of a padded message. *)
Definition blocks (data : bytes) : list bytes := reshape (replicate (length data / B) B) data.

Lemma absorb_blocks s data n :
  length data = (n * B)%nat ->
  absorb s data = (fold_left compress (reshape (replicate n B) data) s, []).
Proof.
  revert s data; induction n as [|n IH]; intros s data Hl; simpl.
  - destruct data; [|done]. by apply absorb_short.
  - rewrite absorb_unfold, (proj2 (Nat.leb_le B _)) by lia.
    apply IH. rewrite length_drop. lia.
Qed.

Lemma absorb_rest_length s data : length (absorb s data).2 = (length data mod B)%nat.
Proof.
  remember (length data) as n eqn:Hn. revert s data Hn.
  induction n as [n IH] using lt_wf_ind. intros s data Hn. rewrite absorb_unfold.
  destruct (B <=? length data)%nat eqn:E.
  - apply Nat.leb_le in E. rewrite (IH (length (drop B data))); [|rewrite length_drop; lia|done].
    rewrite length_drop, <- (Nat.Div0.mod_add (length data - B) 1 B). f_equal. lia.
  - apply Nat.leb_gt in E. simpl. rewrite Nat.mod_small; lia.
Qed.

(** Feeding [m], then a padding that completes the last block, folds over the blocks. *)
Lemma block_update_padded init ms pad1 pad2 :
  hash_open init -> buffer_ init = [] ->
  (length (concat ms ++ pad1 ++ pad2) mod B = 0)%nat ->
  state_ (block_update B compress (block_update B compress
            (fold_left (block_update B compress) ms init) pad1) pad2)
  = fold_left compress (blocks (concat ms ++ pad1 ++ pad2)) (state_ init).
Proof.
  intros Ho Hb Hmod.
  assert (forall d, block_update B compress (fold_left (block_update B compress) ms init) d
                    = block_update B compress init (concat ms ++ d)) as E.
  { intros d. destruct (block_updates_concat init ms Ho) as [->| ->]; [|done].
    by apply block_update_app. }
  rewrite E, block_update_app, block_update_absorb by done. rewrite Hb, <- app_assoc. simpl.
  unfold blocks. apply Nat.Div0.div_exact in Hmod. rewrite (absorb_blocks _ _ _ (eq_trans Hmod (Nat.mul_comm _ _))).
  done.
Qed.

End BlockHashFacts.

(** The length of the buffer after any sequence of updates. *)
Lemma updates_buffer_length B compress init ms :
  (0 < B)%nat -> hash_open B init -> buffer_ init = [] ->
  length (buffer_ (fold_left (block_update B compress) ms init)) = (length (concat ms) mod B)%nat
  /\ hash_open B (fold_left (block_update B compress) ms init).
Proof.
  intros HB Ho Hb. destruct (block_updates_concat B compress HB init ms Ho) as [->| ->].
  - split; [|by apply block_update_open]. rewrite block_update_absorb by done. simpl.
    by rewrite Hb, absorb_rest_length.
  - simpl. rewrite Hb. split; [|done]. simpl. by rewrite Nat.Div0.mod_0_l.
Qed.

Lemma updates_total B compress init ms :
  (0 < B)%nat -> hash_open B init -> total_bytes_ init = 0 ->
  total_bytes_ (fold_left (block_update B compress) ms init) = u64 (zlength (concat ms)).
Proof.
  intros HB Ho Ht. destruct (block_updates_concat B compress HB init ms Ho) as [->| ->].
  - rewrite block_update_absorb by done. simpl. by rewrite Ht.
  - simpl. by rewrite Ht.
Qed.

Lemma write_be_mod n k z : (8 * Z.of_nat n <= k) -> write_be n (z mod 2 ^ k) = write_be n z.
Proof.
  induction n as [|n IH]; intros Hk; simpl; [done|]. rewrite IH by lia. f_equal.
  change 255 with (2 ^ 8 - 1). rewrite !land_shiftr_mod by lia. apply div_mod_pow2; lia.
Qed.

Lemma write_be_length n z : length (write_be n z) = n.
Proof. induction n; simpl; auto. Qed.

Lemma write_be_bytes n z : Forall is_byte (write_be n z).
Proof.
  induction n; simpl; constructor; [|done]. unfold is_byte. change 255 with (2 ^ 8 - 1).
  rewrite land_shiftr_mod by lia. apply Z.mod_pos_bound. lia.
Qed.

(** FIPS 180-4: the message, a one bit, zeros up to [block - 8 - lenbytes] and the
    length in bits; then the compression function folded over the blocks. *)
Definition fips_pad (block : nat) (lenbytes : nat) (m : bytes) : bytes :=
  m ++ (128 :: repeat 0 (Z.to_nat ((Z.of_nat block - Z.of_nat lenbytes - 1 - zlength m)
                                   mod Z.of_nat block)))
    ++ write_be lenbytes (8 * zlength m).

Definition sha256_spec (m : bytes) : Digest :=
  concat (map write_be32
    (fold_left Sha256.compress (blocks 64 (fips_pad 64 8 m)) (state_ Sha256.init))).

Definition sha512_spec (m : bytes) : bytes :=
  concat (map write_be64
    (fold_left Sha512.compress (blocks 128 (fips_pad 128 16 m)) (state_ Sha512.init))).

Lemma pad_zeros (block len r : nat) :
  (0 < len < block)%nat -> (r < block)%nat ->
  forall L : Z, L mod Z.of_nat block = Z.of_nat r ->
  Z.to_nat ((Z.of_nat block - Z.of_nat len - 1 - L) mod Z.of_nat block)
  = ((if r <? block - len then block - len - r else 2 * block - len - r) - 1)%nat.
Proof.
  intros Hlen Hr L HL.
  assert ((Z.of_nat block - Z.of_nat len - 1 - L) mod Z.of_nat block
          = (Z.of_nat block - Z.of_nat len - 1 - Z.of_nat r) mod Z.of_nat block) as ->.
  { rewrite <- HL, Zminus_mod_idemp_r. done. }
  destruct (r <? block - len)%nat eqn:E.
  - apply Nat.ltb_lt in E. rewrite Z.mod_small; lia.
  - apply Nat.ltb_ge in E.
    replace (Z.of_nat block - Z.of_nat len - 1 - Z.of_nat r)
      with (2 * Z.of_nat block - Z.of_nat len - 1 - Z.of_nat r + -1 * Z.of_nat block) by lia.
    rewrite Z.mod_add by lia. rewrite Z.mod_small; lia.
Qed.

Lemma fips_pad_length block len m :
  (0 < len < block)%nat -> (length (fips_pad block len m) mod block = 0)%nat.
Proof.
  intros Hlen. unfold fips_pad, zlength. rewrite !length_app. simpl.
  rewrite repeat_length, write_be_length.
  set (x := Z.of_nat block - Z.of_nat len - 1 - Z.of_nat (length m)).
  apply Nat2Z.inj. rewrite Nat2Z.inj_mod. simpl.
  pose proof (Z.mod_pos_bound x (Z.of_nat block)).
  replace (Z.of_nat (length m + S (Z.to_nat (x mod Z.of_nat block) + len)))
    with (Z.of_nat (length m) + x mod Z.of_nat block + 1 + Z.of_nat len) by lia.
  replace (Z.of_nat (length m)) with (Z.of_nat block - Z.of_nat len - 1 - x) by lia.
  rewrite <- (Z.mod_add _ 0) by lia.
  pose proof (Z.div_mod x (Z.of_nat block)) as Hx.
  replace (_ + 0 * _) with ((1 - x / Z.of_nat block) * Z.of_nat block) by lia.
  apply Z.mod_mul. lia.
Qed.

Lemma mod_of_nat (n b : nat) : Z.of_nat n mod Z.of_nat b = Z.of_nat (n mod b).
Proof. by rewrite Nat2Z.inj_mod. Qed.

Lemma sha256_updates ms :
  Sha256.digest (fold_left Sha256.update ms Sha256.init) = sha256_spec (concat ms).
Proof.
  unfold Sha256.digest, Sha256.finish, sha256_spec. cbn [snd].
  change Sha256.update with (block_update 64 Sha256.compress).
  assert (hash_open 64 Sha256.init) as Ho by (split; [done|simpl; lia]).
  destruct (updates_buffer_length 64 Sha256.compress Sha256.init ms) as [Hl [Hf _]];
    [lia|done|done|].
  rewrite Hf. cbn [negb state_ snd]. do 2 f_equal.
  rewrite Hl, (updates_total 64) by (done || lia).
  assert (forall z, write_be64 (u64 (u64 z * 8)) = write_be 8 (8 * z)) as ->.
  { intros z. unfold write_be64, u64. rewrite Z.mul_mod_idemp_l, write_be_mod by lia.
    by rewrite Z.mul_comm. }
  assert (Sha256.pad_len (length (concat ms) mod 64) - 1
          = Z.to_nat ((Z.of_nat 64 - Z.of_nat 8 - 1 - zlength (concat ms)) mod Z.of_nat 64))%nat as ->.
  { unfold Sha256.pad_len. symmetry. apply (pad_zeros 64 8); [lia| |apply mod_of_nat].
    apply Nat.mod_upper_bound. lia. }
  apply block_update_padded; [lia|done|done|]. apply (fips_pad_length 64 8). lia.
Qed.

Lemma sha512_updates ms :
  zlength (concat ms) < 2 ^ 61 ->
  Sha512.digest (fold_left Sha512.update ms Sha512.init) = sha512_spec (concat ms).
Proof.
  intros Hsize. unfold Sha512.digest, Sha512.finish, sha512_spec. cbn [snd].
  change Sha512.update with (block_update 128 Sha512.compress).
  assert (hash_open 128 Sha512.init) as Ho by (split; [done|simpl; lia]).
  destruct (updates_buffer_length 128 Sha512.compress Sha512.init ms) as [Hl [Hf _]];
    [lia|done|done|].
  rewrite Hf. cbn [negb state_ snd]. do 2 f_equal.
  rewrite Hl, (updates_total 128) by (done || lia).
  assert (repeat 0 8 ++ write_be64 (u64 (u64 (zlength (concat ms)) * 8))
          = write_be 16 (8 * zlength (concat ms))) as ->.
  { assert (0 <= zlength (concat ms)) by (unfold zlength; lia).
    rewrite !u64_small by (rewrite ?u64_small; lia). rewrite (Z.mul_comm _ 8).
    set (z := 8 * zlength (concat ms)). change 16%nat with (8 + 8)%nat.
    assert (0 <= z < 2 ^ 64) as Hz by (unfold z; lia).
    change (write_be (8 + 8) z) with
      ([Z.land (Z.shiftr z 120) 255; Z.land (Z.shiftr z 112) 255; Z.land (Z.shiftr z 104) 255;
        Z.land (Z.shiftr z 96) 255; Z.land (Z.shiftr z 88) 255; Z.land (Z.shiftr z 80) 255;
        Z.land (Z.shiftr z 72) 255; Z.land (Z.shiftr z 64) 255] ++ write_be64 z).
    by rewrite !(Z.shiftr_div_pow2 z), !Z.div_small by lia. }
  assert (Sha512.pad_len (length (concat ms) mod 128) - 1
          = Z.to_nat ((Z.of_nat 128 - Z.of_nat 16 - 1 - zlength (concat ms)) mod Z.of_nat 128))%nat
    as ->.
  { unfold Sha512.pad_len. symmetry. apply (pad_zeros 128 16); [lia| |apply mod_of_nat].
    apply Nat.mod_upper_bound. lia. }
  apply block_update_padded; [lia|done|done|]. apply (fips_pad_length 128 16). lia.
Qed.

(** ** Digest lengths *)
Lemma concat_words_length (f : Z -> bytes) n l :
  (forall z, length (f z) = n) -> length (concat (map f l)) = (length l * n)%nat.
Proof. intros Hf. induction l; simpl; [done|]. rewrite length_app, Hf. lia. Qed.

Lemma concat_words_bytes (f : Z -> bytes) l :
  (forall z, Forall is_byte (f z)) -> Forall is_byte (concat (map f l)).
Proof. intros Hf. induction l; simpl; [constructor|]. by apply Forall_app. Qed.

Lemma sha256_round_length l v : length v = 8%nat -> length (fold_left Sha256.round l v) = 8%nat.
Proof.
  revert v. induction l as [|x l IH]; intros v Hv; simpl; [done|]. apply IH.
  destruct v as [|? [|? [|? [|? [|? [|? [|? [|? [|]]]]]]]]]; done.
Qed.

Lemma sha256_fold_length l s :
  length s = 8%nat -> length (fold_left Sha256.compress l s) = 8%nat.
Proof.
  revert s. induction l as [|b l IH]; intros s Hs; simpl; [done|]. apply IH.
  unfold Sha256.compress. cbn zeta. rewrite length_zip_with, sha256_round_length; lia.
Qed.

Lemma sha256_spec_length m : length (sha256_spec m) = 32%nat.
Proof.
  unfold sha256_spec. rewrite (concat_words_length _ 4) by (intros; apply write_be_length).
  by rewrite sha256_fold_length.
Qed.

Lemma sha256_one_shot data : Sha256.sha256 data = sha256_spec data.
Proof.
  change (Sha256.sha256 data)
    with (Sha256.digest (fold_left Sha256.update [data] Sha256.init)).
  rewrite sha256_updates. simpl. by rewrite app_nil_r.
Qed.

(** ** The material of [sha256_parts] *)
Definition part_updates (part : string) : list bytes :=
  if 4294967295 <? size part then [[255; 255; 255; 255]; sha256_spec (bytes_of_string part)]
  else [write_be32 (size part); bytes_of_string part].

Definition parts_material (parts : list string) : bytes := concat (concat (map part_updates parts)).

Lemma sha256_parts_material parts :
  Sha256.sha256_parts parts = sha256_spec (parts_material parts).
Proof.
  unfold Sha256.sha256_parts, parts_material. rewrite <- sha256_updates. f_equal.
  generalize Sha256.init. induction parts as [|p parts IH]; intros h; [done|]. cbn [map concat].
  rewrite fold_left_app, <- IH. simpl. f_equal. unfold Sha256.update_part, part_updates.
  destruct (_ <? _); simpl; [|done].
  change (Sha256.sha256_text p) with (Sha256.sha256 (bytes_of_string p)).
  by rewrite sha256_one_shot.
Qed.

Lemma write_be_read n z : 0 <= z < 256 ^ Z.of_nat n -> read_be (write_be n z) = z.
Proof.
  unfold read_be.
  enough (forall acc, 0 <= acc -> 0 <= z ->
    fold_left (fun v x => Z.lor (Z.shiftl v 8) x) (write_be n z) acc
    = acc * 256 ^ Z.of_nat n + z mod 256 ^ Z.of_nat n) as E.
  { intros Hz. rewrite E by lia. rewrite Z.mod_small by lia. lia. }
  induction n as [|n IH]; intros acc Hacc Hz.
  - simpl. rewrite Z.mod_1_r. lia.
  - cbn [write_be fold_left]. change 255 with (2 ^ 8 - 1). rewrite land_shiftr_mod by lia.
    assert (0 <= (z / 2 ^ (8 * Z.of_nat n)) mod 2 ^ 8 < 2 ^ 8) by (apply Z.mod_pos_bound; lia).
    rewrite lor_shiftl_add by lia. rewrite IH by lia.
    rewrite Nat2Z.inj_succ, Z.pow_succ_r by lia.
    replace (2 ^ (8 * Z.of_nat n)) with (256 ^ Z.of_nat n) by by rewrite Z.pow_mul_r by lia.
    change (2 ^ 8) with 256. rewrite (Z.mul_comm 256), Z.rem_mul_r by lia. lia.
Qed.

Lemma write_be_inj n a b :
  0 <= a < 256 ^ Z.of_nat n -> 0 <= b < 256 ^ Z.of_nat n -> write_be n a = write_be n b -> a = b.
Proof. intros Ha Hb E. apply (f_equal read_be) in E. by rewrite !write_be_read in E. Qed.

Lemma parts_material_cons p parts :
  size p <= 4294967295 ->
  parts_material (p :: parts) = write_be32 (size p) ++ bytes_of_string p ++ parts_material parts.
Proof.
  intros Hp. unfold parts_material at 1. cbn [map concat]. unfold part_updates at 1.
  rewrite (proj2 (Z.ltb_ge _ _)) by lia. reflexivity.
Qed.

Lemma parts_material_inj a b :
  Forall (fun p => size p <= 4294967295) a -> Forall (fun p => size p <= 4294967295) b ->
  parts_material a = parts_material b -> a = b.
Proof.
  intros Ha. revert b. induction Ha as [|p a Hp Ha IH]; intros b Hb E.
  - destruct Hb as [|q b Hq Hb]; [done|]. by rewrite parts_material_cons in E.
  - destruct Hb as [|q b Hq Hb]; [by rewrite parts_material_cons in E|].
    rewrite !parts_material_cons in E by done.
    apply app_inj_1 in E as [E1 E2]; [|by rewrite !(write_be_length 4)].
    apply write_be_inj in E1; [|unfold size in *; lia..].
    apply app_inj_1 in E2 as [E2 E3]; [|rewrite !bytes_of_string_length; unfold size in *; lia].
    apply bytes_of_string_inj in E2 as ->. f_equal. by apply IH.
Qed.

Lemma digest_bytes h : Forall is_byte (Sha256.digest h).
Proof. apply concat_words_bytes. intros. apply write_be_bytes. Qed.

#[export] Instance wnc_hashing_ok : @HashingOk wnc_hashing.
Proof.
  split; intros; unfold sha256, sha256_parts, hmac_sha256; cbv [wnc_hashing].
  - rewrite sha256_one_shot. apply sha256_spec_length.
  - rewrite sha256_one_shot. apply concat_words_bytes. intros. apply write_be_bytes.
  - rewrite sha256_parts_material. apply sha256_spec_length.
  - rewrite sha256_parts_material. apply concat_words_bytes. intros. apply write_be_bytes.
  - apply digest_bytes.
Qed.

(** ** Comparison *)
Lemma lxor_byte a b : is_byte a -> is_byte b -> is_byte (Z.lxor a b).
Proof.
  unfold is_byte. intros Ha Hb. assert (0 <= Z.lxor a b) by (apply Z.lxor_nonneg; lia).
  split; [done|]. destruct (decide (Z.lxor a b = 0)) as [->|]; [lia|].
  change 256 with (2 ^ 8). apply Z.log2_lt_pow2; [lia|].
  pose proof (Z.log2_lxor a b). pose proof (Z.log2_le_mono a 255).
  pose proof (Z.log2_le_mono b 255). change (Z.log2 255) with 7 in *. lia.
Qed.

Lemma lor_byte a b : is_byte a -> is_byte b -> is_byte (Z.lor a b).
Proof.
  unfold is_byte. intros Ha Hb. assert (0 <= Z.lor a b) by (apply Z.lor_nonneg; lia).
  split; [done|]. destruct (decide (Z.lor a b = 0)) as [->|]; [lia|].
  change 256 with (2 ^ 8). apply Z.log2_lt_pow2; [lia|].
  rewrite Z.log2_lor by lia. pose proof (Z.log2_le_mono a 255).
  pose proof (Z.log2_le_mono b 255). change (Z.log2 255) with 7 in *. lia.
Qed.

Lemma constant_time_equal_eq a b :
  Forall is_byte a -> Forall is_byte b -> constant_time_equal a b = true <-> a = b.
Proof.
  intros Ha Hb. unfold constant_time_equal.
  destruct (length a =? length b)%nat eqn:El; simpl;
    [apply Nat.eqb_eq in El|apply Nat.eqb_neq in El; split; [done|by intros ->]].
  rewrite Z.eqb_eq.
  enough (forall d, is_byte d ->
    fold_left (fun d (p : Z * Z) => u8 (Z.lor d (Z.lxor p.1 p.2))) (zip a b) d = 0 <-> d = 0 /\ a = b)
    as E by (rewrite E by (unfold is_byte; lia); naive_solver).
  revert b Hb El. induction Ha as [|x a Hx Ha IH]; intros b Hb El d Hd.
  - destruct Hb; [|done]. simpl. naive_solver.
  - destruct Hb as [|y b Hy Hb]; [done|]. simpl in *.
    assert (is_byte (Z.lor d (Z.lxor x y))) as Hl by auto using lor_byte, lxor_byte.
    assert (u8 (Z.lor d (Z.lxor x y)) = Z.lor d (Z.lxor x y)) as -> by (apply Z.mod_small; apply Hl).
    rewrite IH by (done || lia). rewrite Z.lor_eq_0_iff, Z.lxor_eq_0_iff. naive_solver.
Qed.

(** ** CRC-32 *)
Lemma crc_table_nth i : 0 <= i < 256 -> nth (Z.to_nat i) crc_table 0 = crc_entry i.
Proof.
  intros Hi. unfold crc_table. rewrite (nth_indep _ 0 (crc_entry 0)).
  - rewrite map_nth. f_equal. apply nth_lookup_Some with (d := 0).
    apply lookup_seqZ. lia.
  - rewrite length_map, length_seqZ. lia.
Qed.

Lemma crc_entry_facts :
  forallb (fun i => (0 <=? crc_entry i) && (crc_entry i <? 2 ^ 32)) (seqZ 0 256) = true
  /\ forallb (fun i => match List.find (fun j => Z.shiftr (crc_entry j) 24 =? Z.shiftr (crc_entry i) 24)
                               (seqZ 0 256) with Some j => j =? i | None => false end)
       (seqZ 0 256) = true.
Proof. split; vm_compute; reflexivity. Qed.

Lemma crc_entry_range i : 0 <= i < 256 -> 0 <= crc_entry i < 2 ^ 32.
Proof.
  intros Hi. pose proof (range_forall _ 256 (proj1 crc_entry_facts) i Hi) as E.
  cbv beta in E. bool_hyps. lia.
Qed.

(** The top bytes of the table entries are pairwise distinct. *)
Lemma crc_entry_top_inj i j :
  0 <= i < 256 -> 0 <= j < 256 ->
  Z.shiftr (crc_entry i) 24 = Z.shiftr (crc_entry j) 24 -> i = j.
Proof.
  intros Hi Hj E.
  pose proof (range_forall _ 256 (proj2 crc_entry_facts) i Hi) as Fi.
  pose proof (range_forall _ 256 (proj2 crc_entry_facts) j Hj) as Fj.
  cbv beta in Fi, Fj. rewrite E in Fi. destruct (List.find _ _); [|done].
  apply Z.eqb_eq in Fi, Fj. congruence.
Qed.

Definition is_u32 (z : Z) : Prop := 0 <= z < 2 ^ 32.

Lemma low_byte z : 0 <= z -> 0 <= Z.land z 255 < 256.
Proof.
  intros. change 255 with (Z.ones 8). rewrite Z.land_ones by lia. apply Z.mod_pos_bound. lia.
Qed.

Lemma crc_byte_entry crc byte :
  0 <= crc -> is_byte byte ->
  crc_byte crc byte = Z.lxor (crc_entry (Z.land (Z.lxor crc byte) 255)) (Z.shiftr crc 8).
Proof.
  intros Hc Hb. unfold crc_byte. rewrite crc_table_nth; [done|]. apply low_byte.
  apply Z.lxor_nonneg. unfold is_byte in Hb. lia.
Qed.

Lemma lxor_range a b k : 0 <= k -> 0 <= a < 2 ^ k -> 0 <= b < 2 ^ k -> 0 <= Z.lxor a b < 2 ^ k.
Proof.
  intros Hk Ha Hb. assert (0 <= Z.lxor a b) by (apply Z.lxor_nonneg; lia). split; [done|].
  destruct (decide (Z.lxor a b = 0)) as [->|]; [lia|]. destruct (decide (k = 0)) as [->|].
  { simpl in *. assert (a = 0) as -> by lia. assert (b = 0) as -> by lia. done. }
  apply Z.log2_lt_pow2; [lia|]. pose proof (Z.log2_lxor a b).
  assert (Z.log2 a < k) by (destruct (decide (a = 0)) as [->|]; [simpl; lia|apply Z.log2_lt_pow2; lia]).
  assert (Z.log2 b < k) by (destruct (decide (b = 0)) as [->|]; [simpl; lia|apply Z.log2_lt_pow2; lia]).
  lia.
Qed.

Lemma crc_byte_u32 crc byte : is_u32 crc -> is_byte byte -> is_u32 (crc_byte crc byte).
Proof.
  unfold is_u32. intros Hc Hb. rewrite crc_byte_entry by (done || lia). apply lxor_range; [lia|..].
  - apply crc_entry_range, low_byte, Z.lxor_nonneg. unfold is_byte in Hb. lia.
  - rewrite Z.shiftr_div_pow2 by lia. Z.to_euclidean_division_equations; lia.
Qed.

(** The step determines the register and the table index it came from. *)
Lemma crc_byte_inj c1 b1 c2 b2 :
  is_u32 c1 -> is_u32 c2 -> is_byte b1 -> is_byte b2 -> crc_byte c1 b1 = crc_byte c2 b2 ->
  Z.land (Z.lxor c1 b1) 255 = Z.land (Z.lxor c2 b2) 255 /\ Z.shiftr c1 8 = Z.shiftr c2 8.
Proof.
  unfold is_u32. intros H1 H2 Hb1 Hb2. rewrite !crc_byte_entry by (done || lia). intros E.
  assert (forall c b, 0 <= c -> is_byte b -> 0 <= Z.land (Z.lxor c b) 255 < 256) as Hr.
  { intros c b Hc Hb. apply low_byte, Z.lxor_nonneg. unfold is_byte in Hb. lia. }
  assert (Z.land (Z.lxor c1 b1) 255 = Z.land (Z.lxor c2 b2) 255) as Ei.
  { apply crc_entry_top_inj; [apply Hr; (done || lia)..|].
    apply (f_equal (fun z => Z.shiftr z 24)) in E.
    rewrite !Z.shiftr_lxor, !(Z.shiftr_shiftr _ 8 24) in E by lia.
    change (8 + 24) with 32 in E. rewrite !(Z.shiftr_div_pow2 _ 32), !(Z.div_small _ (2 ^ 32)) in E by lia.
    by rewrite !Z.lxor_0_r in E. }
  split; [done|]. rewrite Ei in E.
  apply (f_equal (Z.lxor (crc_entry (Z.land (Z.lxor c2 b2) 255)))) in E.
  by rewrite <- !Z.lxor_assoc, !Z.lxor_nilpotent, !Z.lxor_0_l in E.
Qed.

Lemma u32_split c1 c2 :
  is_u32 c1 -> is_u32 c2 -> Z.land c1 255 = Z.land c2 255 -> Z.shiftr c1 8 = Z.shiftr c2 8 -> c1 = c2.
Proof.
  intros _ _. change 255 with (Z.ones 8). rewrite !Z.land_ones, !Z.shiftr_div_pow2 by lia.
  intros. Z.to_euclidean_division_equations; lia.
Qed.

Lemma land_lxor_255 a b : Z.land (Z.lxor a b) 255 = Z.lxor (Z.land a 255) (Z.land b 255).
Proof.
  apply Z.bits_inj'. intros i Hi. rewrite !Z.land_spec, !Z.lxor_spec, !Z.land_spec.
  destruct (Z.testbit a i), (Z.testbit b i), (Z.testbit 255 i); done.
Qed.

Lemma land_byte b : is_byte b -> Z.land b 255 = b.
Proof.
  unfold is_byte. intros. change 255 with (Z.ones 8). rewrite Z.land_ones by lia.
  apply Z.mod_small. lia.
Qed.

Lemma crc_byte_inj_state c1 c2 b :
  is_u32 c1 -> is_u32 c2 -> is_byte b -> crc_byte c1 b = crc_byte c2 b -> c1 = c2.
Proof.
  intros H1 H2 Hb E. apply crc_byte_inj in E as [Ei Es]; [|done..].
  rewrite !land_lxor_255 in Ei. apply u32_split; [done..| |done].
  apply (f_equal (fun z => Z.lxor z (Z.land b 255))) in Ei.
  by rewrite !Z.lxor_assoc, !Z.lxor_nilpotent, !Z.lxor_0_r in Ei.
Qed.

Lemma crc_byte_inj_byte c b1 b2 :
  is_u32 c -> is_byte b1 -> is_byte b2 -> crc_byte c b1 = crc_byte c b2 -> b1 = b2.
Proof.
  intros Hc H1 H2 E. apply crc_byte_inj in E as [Ei _]; [|done..].
  rewrite !land_lxor_255, !(land_byte b1), !(land_byte b2) in Ei by done.
  apply (f_equal (Z.lxor (Z.land c 255))) in Ei.
  by rewrite <- !Z.lxor_assoc, !Z.lxor_nilpotent, !Z.lxor_0_l in Ei.
Qed.

Lemma crc32_continued_u32 c l : is_u32 c -> Forall is_byte l -> is_u32 (crc32_continued c l).
Proof.
  intros Hc Hl. unfold crc32_continued. revert c Hc. induction Hl as [|b l Hb Hl IH]; intros c Hc; [done|].
  simpl. by apply IH, crc_byte_u32.
Qed.

Lemma crc32_continued_inj c1 c2 l :
  is_u32 c1 -> is_u32 c2 -> Forall is_byte l ->
  crc32_continued c1 l = crc32_continued c2 l -> c1 = c2.
Proof.
  intros H1 H2 Hl. unfold crc32_continued. revert c1 c2 H1 H2.
  induction Hl as [|b l Hb Hl IH]; intros c1 c2 H1 H2; simpl; [done|]. intros E.
  apply IH in E; [|by apply crc_byte_u32..]. by eapply crc_byte_inj_state.
Qed.

Lemma crc32_u32 l : Forall is_byte l -> is_u32 (crc32 l).
Proof.
  intros Hl. unfold crc32, is_u32. apply lxor_range; [lia| |lia].
  apply crc32_continued_u32; [unfold is_u32; lia|done].
Qed.

Lemma crc32_change_byte (pre post : bytes) (x y : Z) :
  Forall is_byte pre -> Forall is_byte post -> is_byte x -> is_byte y -> x <> y ->
  crc32 (pre ++ x :: post) <> crc32 (pre ++ y :: post).
Proof.
  intros Hpre Hpost Hx Hy Hne E. unfold crc32 in E.
  apply (f_equal (fun z => Z.lxor z 4294967295)) in E.
  rewrite !Z.lxor_assoc, !Z.lxor_nilpotent, !Z.lxor_0_r in E.
  assert (is_u32 4294967295) as Hinit by (unfold is_u32; lia).
  assert (is_u32 (crc32_continued 4294967295 pre)) as Hc by by apply crc32_continued_u32.
  unfold crc32_continued in *. rewrite !fold_left_app in E. simpl in E.
  apply crc32_continued_inj in E; [|by apply crc_byte_u32..|done].
  by apply crc_byte_inj_byte in E.
Qed.

(** ** Known answers *)
Example sha256_abc :
  hex_encode (Sha256.sha256_text "abc")
  = "ba7816bf8f01cfea414140de5dae2223b00361a396177a9cb410ff61f20015ad"%string.
Proof. vm_compute. reflexivity. Qed.

Example sha512_abc :
  take 8 (Sha512.sha512 (bytes_of_string "abc"))
  = [221; 175; 53; 161; 147; 97; 122; 186].
Proof. vm_compute. reflexivity. Qed.

Example crc32_check : crc32 (bytes_of_string "123456789") = 3421780262.
Proof. vm_compute. reflexivity. Qed.

(** ** A cheap hashing instance

    Satisfies the interface's laws; used where a concrete run of a component does not
    depend on which hash function it is. *)
Definition toy_mix (acc byte : Z) : Z := (acc * 31 + byte + 7) mod 2 ^ 64.

Definition toy_digest (data : bytes) : Digest :=
  write_be 32 (fold_left toy_mix data 5381).

Definition toy_hashing : Hashing := {|
  sha256 := toy_digest;
  sha256_parts := fun parts =>
    toy_digest (concat (map (fun p => write_be32 (size p) ++ bytes_of_string p) parts));
  hmac_sha256 := fun key data => toy_digest (key ++ toy_digest data)
|}.

Lemma toy_hashing_ok : @HashingOk toy_hashing.
Proof.
  split; intros; unfold sha256, sha256_parts, hmac_sha256; cbv [toy_hashing toy_digest];
    try apply write_be_length; apply write_be_bytes.
Qed.

(** ** Properties *)

(** C37: the buffered SHA-256 object computes FIPS 180-4 whatever the split of the message
    into updates: the digest after any sequence of updates is the compression function
    folded over the 64 byte blocks of the padded concatenation.  [sha256_parts] is the
    digest of the length prefixed concatenation of its parts. *)
Theorem sha256_incremental (ms : list bytes) (parts : list string) :
  Sha256.digest (fold_left Sha256.update ms Sha256.init) = sha256_spec (concat ms)
  /\ Sha256.sha256_parts parts = sha256_spec (parts_material parts).
Proof. split; [apply sha256_updates|apply sha256_parts_material]. Qed.

(** The same for the SHA-512 object behind the signatures, for messages shorter than
    2^61 bytes, for which the 64 bit length the code writes is the whole bit length. *)
Theorem sha512_incremental (ms : list bytes) :
  zlength (concat ms) < 2 ^ 61 ->
  Sha512.digest (fold_left Sha512.update ms Sha512.init) = sha512_spec (concat ms).
Proof. apply sha512_updates. Qed.

Lemma sha512_incremental_witness :
  Sha512.digest (fold_left Sha512.update [[1; 2]; []; [3]] Sha512.init) = sha512_spec [1; 2; 3].
Proof. apply (sha512_incremental [[1; 2]; []; [3]]). vm_compute. reflexivity. Defined.

(** Domain separation is unambiguous.  Two domain separated digests that differ in
    domain, payload or generation are the SHA-256 digests of two different byte strings,
    so they can agree only by a collision of the hash function: the length prefixed
    encoding itself never maps two inputs to the same bytes. *)
Theorem digest_domain_unambiguous (d1 d2 p1 p2 : string) (g1 g2 : Z) :
  size d1 < 2 ^ 32 -> size d2 < 2 ^ 32 -> size p1 < 2 ^ 32 -> size p2 < 2 ^ 32 ->
  0 <= g1 < 2 ^ 64 -> 0 <= g2 < 2 ^ 64 -> (d1, p1, g1) <> (d2, p2, g2) ->
  exists m1 m2, m1 <> m2
    /\ @digest_domain_generation wnc_hashing d1 p1 g1 = sha256_spec m1
    /\ @digest_domain_generation wnc_hashing d2 p2 g2 = sha256_spec m2.
Proof.
  intros Hd1 Hd2 Hp1 Hp2 Hg1 Hg2 Hne. unfold digest_domain_generation, sha256_parts. cbv [wnc_hashing].
  rewrite !sha256_parts_material. eexists _, _. split; [|by split].
  intros Hm. apply parts_material_inj in Hm.
  - pose proof (f_equal (fun l => nth 1 l EmptyString) Hm) as E1.
    pose proof (f_equal (fun l => nth 2 l EmptyString) Hm) as E2.
    pose proof (f_equal (fun l => nth 3 l EmptyString) Hm) as E3. cbn [nth] in E1, E2, E3.
    apply Hne. apply (f_equal bytes_of_string) in E3.
    rewrite !bytes_of_string_of_bytes in E3 by apply write_be_bytes.
    apply write_be_inj in E3; [congruence|done..].
  - repeat constructor; try lia; by vm_compute.
  - repeat constructor; try lia; by vm_compute.
Qed.

Lemma digest_domain_unambiguous_witness :
  exists m1 m2, m1 <> m2
    /\ @digest_domain_generation wnc_hashing "a" "bc" 1 = sha256_spec m1
    /\ @digest_domain_generation wnc_hashing "ab" "c" 1 = sha256_spec m2.
Proof. apply (digest_domain_unambiguous "a" "ab" "bc" "c" 1 1); done. Defined.

(** The CRC that guards frame, journal and snapshot headers detects every change of a
    single byte, wherever it is, whatever the rest of the data. *)
Theorem crc32_detects_byte (pre post : bytes) (x y : Z) :
  Forall is_byte pre -> Forall is_byte post -> is_byte x -> is_byte y -> x <> y ->
  crc32 (pre ++ x :: post) <> crc32 (pre ++ y :: post).
Proof. apply crc32_change_byte. Qed.

Lemma crc32_detects_byte_witness : crc32 ([87; 78] ++ 67 :: [49]) <> crc32 ([87; 78] ++ 66 :: [49]).
Proof.
  apply crc32_detects_byte; [| | | |lia]; repeat constructor; unfold is_byte; lia.
Defined.
