(* ===== verification/Json.v ===== *)
(** * Canonical JSON: values, serialization, field readers

    Models [include/wnc/json.hpp] and the first, third and last parts of
    [src/json.cpp]: the value type and its accessors, the canonical writer, the
    canonical format of reals, equality, and the field readers.  The decoder is in
    [JsonParser]. *)
From Stdlib Require Import ZArith Lia Ascii String.
From stdpp Require Import base numbers option list strings sets.
From S2P Require Import Prelude Doubles Identity Errors.

(** ** Values

    [std::map<std::string, Json>] is the list of its members in key order. *)
Inductive Json : Type :=
| JNull
| JBool (b : bool)
| JInt (i : Z)
| JReal (d : double)
| JString (s : string)
| JArray (items : list Json)
| JObject (members : list (string * Json)).

Notation JsonArray := (list Json).
Notation JsonObject := (list (string * Json)).

(** The constructors from a [double], which has no negative zero, and from an unsigned
    64-bit integer, which is stored as a signed one. *)
Definition json_real (value : double) : Json := JReal (if deq value d_zero then d_zero else value).
Definition json_uint (value : Z) : Json := JInt (to_int64 value).

(** ** Accessors

    Every member of the C++ object has its default where the kind has no such value. *)
Definition is_object (v : Json) : bool := match v with JObject _ => true | _ => false end.
Definition is_array (v : Json) : bool := match v with JArray _ => true | _ => false end.
Definition is_string (v : Json) : bool := match v with JString _ => true | _ => false end.
Definition is_bool (v : Json) : bool := match v with JBool _ => true | _ => false end.
Definition is_int (v : Json) : bool := match v with JInt _ => true | _ => false end.
Definition is_number (v : Json) : bool := match v with JInt _ | JReal _ => true | _ => false end.

Definition as_bool (v : Json) : bool := match v with JBool b => b | _ => false end.
Definition as_int (v : Json) : Z := match v with JInt i => i | _ => 0 end.
Definition as_real (v : Json) : double :=
  match v with JInt i => double_of_int i | JReal d => d | _ => d_zero end.
Definition as_string (v : Json) : string := match v with JString s => s | _ => EmptyString end.

Definition array (v : Json) : JsonArray := match v with JArray l => l | _ => [] end.
Definition object (v : Json) : JsonObject := match v with JObject m => m | _ => [] end.

Definition json_size (v : Json) : Z :=
  match v with
  | JArray l => zlength l | JObject m => zlength m | JString s => size s | _ => 0
  end.

Definition find (v : Json) (key : string) : option Json :=
  match v with JObject m => map_find key m | _ => None end.

(** A value of another kind is replaced by an empty object, or array, first. *)
Definition set (v : Json) (key : string) (x : Json) : Json := JObject (map_insert key x (object v)).
Definition push (v : Json) (x : Json) : Json := JArray (array v ++ [x]).

(** A fresh object with a sequence of [set] calls. *)
Definition set_all (v : Json) (l : list (string * Json)) : Json :=
  fold_left (fun v p => set v p.1 p.2) l v.

(** ** Equality *)
Section JsonEq.
Context (eqb : Json -> Json -> bool).

Fixpoint items_eqb (a b : JsonArray) : bool :=
  match a, b with
  | [], [] => true
  | x :: a', y :: b' => eqb x y && items_eqb a' b'
  | _, _ => false
  end.

Fixpoint members_eqb (a b : JsonObject) : bool :=
  match a, b with
  | [], [] => true
  | (k, x) :: a', (l, y) :: b' => String.eqb k l && eqb x y && members_eqb a' b'
  | _, _ => false
  end.

End JsonEq.

Fixpoint json_eqb (a b : Json) {struct a} : bool :=
  match a, b with
  | JNull, JNull => true
  | JBool x, JBool y => Bool.eqb x y
  | JInt x, JInt y => x =? y
  | JReal x, JReal y => deq x y
  | JString x, JString y => String.eqb x y
  | JArray x, JArray y => items_eqb json_eqb x y
  | JObject x, JObject y => members_eqb json_eqb x y
  | _, _ => false
  end.

(** ** Reals *)

(** [text.find(c)] and [text.find_first_of(chars, from)]. *)
Fixpoint find_char (p : ascii -> bool) (s : string) : option nat :=
  match s with
  | EmptyString => None
  | String c s' => if p c then Some 0%nat else S <$> find_char p s'
  end.

Definition drop_string (n : nat) (s : string) : string := substring n (String.length s - n) s.

Definition is_digit (c : ascii) : bool := char_in "0" "9" c.

(** The digits before and after the point. *)
Fixpoint split_point (digits : string) (seen_point : bool) : string * string :=
  match digits with
  | EmptyString => (EmptyString, EmptyString)
  | String c rest =>
      if Ascii.eqb c "." then split_point rest true
      else
        let '(integer_part, fraction_part) := split_point rest seen_point in
        if seen_point then (integer_part, String c fraction_part)
        else (String c integer_part, fraction_part)
  end.

(** [while (last > point_index + 2 && out[last - 1] == '0')] *)
Fixpoint trim_zeros (last point_index : nat) (out : string) : nat :=
  match last with
  | O => O
  | S last' =>
      if (point_index + 2 <? last)%nat
         && match String.get last' out with Some c => Ascii.eqb c "0" | None => false end
      then trim_zeros last' point_index out
      else last
  end.

Definition expand_exponent (digits : string) (exponent : Z) : option string :=
  if (40 <? exponent) || (exponent <? -400) then None
  else
    let '(integer_part, fraction_part) := split_point digits false in
    let combined := String.append integer_part fraction_part in
    let point := size integer_part + exponent in
    let out :=
      if point <=? 0 then
        String.append "0." (String.append (char_string (Z.to_nat (- point)) "0") combined)
      else if size combined <=? point then
        String.append combined
          (String.append (char_string (Z.to_nat (point - size combined)) "0") ".0")
      else
        String.append (substring 0 (Z.to_nat point) combined)
          (String "." (drop_string (Z.to_nat point) combined)) in
    match find_char (Ascii.eqb ".") out with
    | Some point_index =>
        Some (substring 0 (trim_zeros (String.length out) point_index out) out)
    | None => Some out
    end.

(** The digits of the exponent; [None] for another character or a value above 100000
    before the last digit. *)
Fixpoint read_exponent (exponent : Z) (text : string) : option Z :=
  match text with
  | EmptyString => Some exponent
  | String c text' =>
      if negb (is_digit c) then None
      else if 100000 <? exponent then None
      else read_exponent (exponent * 10 + char_minus c "0") text'
  end.

Definition format_canonical_real (value : double) : option string :=
  if negb (is_finite value) then None
  else if deq value d_zero then Some "0.0"%string
  else
    match to_chars_double value with
    | None => None
    | Some text =>
        let negative := match text with String c _ => Ascii.eqb c "-" | _ => false end in
        let start := if negative then 1%nat else 0%nat in
        let body := drop_string start text in
        match find_char (fun c => Ascii.eqb c "e" || Ascii.eqb c "E") body with
        | None =>
            Some (match find_char (Ascii.eqb ".") body with
                  | None => String.append body ".0"
                  | Some _ => body
                  end)
        | Some exponent_pos =>
            let mantissa := substring 0 exponent_pos body in
            let tail := drop_string (exponent_pos + 1) body in
            let '(exponent_negative, tail) :=
              match tail with
              | String c tail' =>
                  if Ascii.eqb c "+" || Ascii.eqb c "-" then (Ascii.eqb c "-", tail')
                  else (false, tail)
              | EmptyString => (false, tail)
              end in
            if is_empty tail then None
            else
              match read_exponent 0 tail with
              | None => None
              | Some e =>
                  match expand_exponent mantissa (if exponent_negative then - e else e) with
                  | None => None
                  | Some expanded =>
                      Some (if negative then String "-" expanded else expanded)
                  end
              end
        end
    end.

(** ** The canonical writer *)
Definition quote_char : ascii := "034".
Definition backslash : ascii := "092".

Definition escape_for (c : ascii) : option ascii :=
  let b := byte_of_ascii c in
  if b =? 8 then Some "b"%char
  else if b =? 9 then Some "t"%char
  else if b =? 10 then Some "n"%char
  else if b =? 12 then Some "f"%char
  else if b =? 13 then Some "r"%char
  else None.

(** What one character of a string is written as. *)
Definition escape_char (c : ascii) : string :=
  if Ascii.eqb c quote_char then String backslash (String quote_char EmptyString)
  else if Ascii.eqb c backslash then String backslash (String backslash EmptyString)
  else if byte_of_ascii c <? 32 then
    match escape_for c with
    | Some letter => String backslash (String letter EmptyString)
    | None =>
        String backslash (String "u" (String "0" (String "0"
          (String (digit_at kLowerHexDigits (Z.land (Z.shiftr (byte_of_ascii c) 4) 15))
            (String (digit_at kLowerHexDigits (Z.land (byte_of_ascii c) 15)) EmptyString)))))
    end
  else String c EmptyString.

Fixpoint escape_body (value : string) : string :=
  match value with
  | EmptyString => EmptyString
  | String c value' => String.append (escape_char c) (escape_body value')
  end.

(** The text [write_escaped_string] appends. *)
Definition escaped_string (value : string) : string :=
  String quote_char (String.append (escape_body value) (String quote_char EmptyString)).

Definition format_int (value : Z) : string := to_string value.

Section Dump.
Context (budget : Z).

Definition over (out : string) : bool := budget <? size out.

Section Loops.
Context (dump_impl : Json -> string -> string).

Fixpoint dump_items (first : bool) (items : JsonArray) (out : string) : string :=
  match items with
  | [] => String.append out "]"
  | x :: items' =>
      let out := if first then out else String.append out "," in
      let out := dump_impl x out in
      if over out then out else dump_items false items' out
  end.

Fixpoint dump_members (first : bool) (members : JsonObject) (out : string) : string :=
  match members with
  | [] => String.append out "}"
  | (key, x) :: members' =>
      let out := if first then out else String.append out "," in
      let out := String.append out (escaped_string key) in
      let out := String.append out ":" in
      let out := dump_impl x out in
      if over out then out else dump_members false members' out
  end.

End Loops.

Fixpoint dump_impl (value : Json) (out : string) {struct value} : string :=
  if over out then out
  else
    match value with
    | JNull => String.append out "null"
    | JBool b => String.append out (if b then "true" else "false")
    | JInt i => String.append out (format_int i)
    | JReal d =>
        match format_canonical_real d with Some text => String.append out text | None => out end
    | JString s => String.append out (escaped_string s)
    | JArray items => dump_items dump_impl true items (String.append out "[")
    | JObject members => dump_members dump_impl true members (String.append out "{")
    end.

End Dump.

Definition kMaxFrameBytes : Z := 1024 * 1024.
Definition kMaxDocumentBytes : Z := 512 * 1024.
Definition kMaxJsonDepth : Z := 32.
Definition kMaxStringBytes : Z := 4096.

Definition dump (v : Json) : string := dump_impl (kMaxDocumentBytes * 2) v EmptyString.

Definition dump_line (v : Json) : string := String.append (dump v) (String "010" EmptyString).

(** ** Field readers

    The error of a reader is the code and the message it assigns. *)
Notation field A := (result (Code * string) A).

Definition qualify (path key : string) : string :=
  String.append (if is_empty path then path else String.append path ".") key.

Definition missing_field_message (path key : string) : string :=
  String.append (qualify path key) " is required".

Definition wrong_type_message (path key expected : string) : string :=
  String.append (qualify path key) (String.append " must be " expected).

Section FieldReader.
Context (obj : Json) (path : string).

Definition has (key : string) : bool := match find obj key with Some _ => true | None => false end.

(** The shape the readers share: present, then of the kind [p]. *)
Definition require_kind (p : Json -> bool) (expected key : string) : field Json :=
  match find obj key with
  | None => Err (kJsonMissingField, missing_field_message path key)
  | Some value =>
      if negb (p value) then Err (kJsonWrongType, wrong_type_message path key expected)
      else Ok value
  end.

Definition require_object (key : string) : field Json := require_kind is_object "an object" key.
Definition require_array (key : string) : field Json := require_kind is_array "an array" key.

Definition require_string (key : string) : field string :=
  value ← require_kind is_string "a string" key; Ok (as_string value).

Definition require_bool (key : string) : field bool :=
  value ← require_kind is_bool "a boolean" key; Ok (as_bool value).

Definition require_int (key : string) : field Z :=
  value ← require_kind is_int "an integer" key; Ok (as_int value).

Definition require_uint (key : string) : field Z :=
  raw ← require_int key;
  if raw <? 0
  then Err (kValueOutOfRange, wrong_type_message path key "a non negative integer")
  else Ok (u64 raw).

Definition require_real (key : string) : field double :=
  value ← require_kind is_number "a number" key; Ok (as_real value).

End FieldReader.

(** ** Decoders

    The decoders of the document types return a code and a message. *)
Notation decoding A := (result (Code * string) A).

Definition refuse {A} (code : Code) (text : string) : decoding A := Err (code, text).

(** ** Induction *)
Section JsonInd.
Context (P : Json -> Prop)
  (Hnull : P JNull) (Hbool : forall b, P (JBool b)) (Hint : forall i, P (JInt i))
  (Hreal : forall d, P (JReal d)) (Hstring : forall s, P (JString s))
  (Harray : forall l, Forall P l -> P (JArray l))
  (Hobject : forall m, Forall (fun p => P p.2) m -> P (JObject m)).

Fixpoint json_rect (v : Json) : P v :=
  match v with
  | JNull => Hnull
  | JBool b => Hbool b
  | JInt i => Hint i
  | JReal d => Hreal d
  | JString s => Hstring s
  | JArray l =>
      Harray l ((fix go l : Forall P l :=
        match l with
        | [] => Forall_nil_2 P
        | x :: l' => Forall_cons_2 P x l' (json_rect x) (go l')
        end) l)
  | JObject m =>
      Hobject m ((fix go m : Forall (fun p => P p.2) m :=
        match m with
        | [] => Forall_nil_2 _
        | p :: m' => Forall_cons_2 (fun p => P p.2) p m' (json_rect p.2) (go m')
        end) m)
  end.

End JsonInd.

(** ** The text of a value

    What [dump] writes when no prefix passes the budget. *)
Fixpoint join_items (text : Json -> string) (first : bool) (l : JsonArray) : string :=
  match l with
  | [] => "]"
  | x :: l' =>
      String.append (if first then EmptyString else ",")
        (String.append (text x) (join_items text false l'))
  end.

Fixpoint join_members (text : Json -> string) (first : bool) (m : JsonObject) : string :=
  match m with
  | [] => "}"
  | (key, x) :: m' =>
      String.append (if first then EmptyString else ",")
        (String.append (escaped_string key)
          (String ":" (String.append (text x) (join_members text false m'))))
  end.

Fixpoint text_of (v : Json) : string :=
  match v with
  | JNull => "null"
  | JBool b => if b then "true" else "false"
  | JInt i => format_int i
  | JReal d => match format_canonical_real d with Some text => text | None => EmptyString end
  | JString s => escaped_string s
  | JArray l => String "[" (join_items text_of true l)
  | JObject m => String "{" (join_members text_of true m)
  end.

#[global] Arguments String.append : simpl nomatch.

Lemma append_assoc (a b c : string) :
  String.append (String.append a b) c = String.append a (String.append b c).
Proof. induction a; cbn [String.append]; congruence. Qed.

Lemma append_nil_r (a : string) : String.append a EmptyString = a.
Proof. induction a; cbn [String.append]; congruence. Qed.

Lemma size_append (a b : string) : size (String.append a b) = size a + size b.
Proof. unfold size. induction a as [|c a IH]; cbn [String.append String.length] in *; lia. Qed.

Lemma size_String c s : size (String c s) = 1 + size s.
Proof. unfold size. simpl. lia. Qed.

Lemma size_nonneg s : 0 <= size s.
Proof. unfold size. lia. Qed.

Lemma size_nil : size EmptyString = 0.
Proof. done. Qed.

#[export] Hint Rewrite size_append size_String size_nil append_nil_r : sizes.

Lemma dump_items_text (f : Json -> string) l first out budget (g : Json -> string -> string) :
  Forall (fun v => forall out, size (String.append out (f v)) <= budget ->
                   g v out = String.append out (f v)) l ->
  size (String.append out (join_items f first l)) <= budget ->
  dump_items budget g first l out = String.append out (join_items f first l).
Proof.
  intros HF. revert first out. induction HF as [|x l Hx HF IH]; intros first out; [done|].
  cbn [dump_items join_items]. autorewrite with sizes. intros Hs.
  pose proof (size_nonneg (join_items f false l)).
  assert ((if first then out else String.append out ",") =
          String.append out (if first then EmptyString else ",")) as ->.
  { destruct first; by rewrite ?append_nil_r. }
  rewrite Hx by (autorewrite with sizes; lia).
  unfold over. rewrite (proj2 (Z.ltb_ge _ _)) by (autorewrite with sizes; lia).
  rewrite IH by (autorewrite with sizes; lia). by rewrite !append_assoc.
Qed.

Lemma dump_members_text (f : Json -> string) m first out budget (g : Json -> string -> string) :
  Forall (fun p => forall out, size (String.append out (f p.2)) <= budget ->
                   g p.2 out = String.append out (f p.2)) m ->
  size (String.append out (join_members f first m)) <= budget ->
  dump_members budget g first m out = String.append out (join_members f first m).
Proof.
  intros HF. revert first out. induction HF as [|[k x] m Hx HF IH]; intros first out; [done|].
  cbn [dump_members join_members snd] in *. autorewrite with sizes. intros Hs.
  pose proof (size_nonneg (join_members f false m)).
  assert ((if first then out else String.append out ",") =
          String.append out (if first then EmptyString else ",")) as ->.
  { destruct first; by rewrite ?append_nil_r. }
  rewrite Hx by (autorewrite with sizes; lia).
  unfold over. rewrite (proj2 (Z.ltb_ge _ _)) by (autorewrite with sizes; lia).
  rewrite IH by (autorewrite with sizes; lia). by rewrite !append_assoc.
Qed.

(** Below the budget the writer appends the text of the value. *)
Lemma dump_impl_text budget v out :
  size (String.append out (text_of v)) <= budget ->
  dump_impl budget v out = String.append out (text_of v).
Proof.
  revert out. induction v as [|b|i|d|s|l IH|m IH] using json_rect; intros out Hs;
    (assert (size out <= budget) as Hle by
       (rewrite size_append in Hs;
        match type of Hs with _ + size ?t <= _ => pose proof (size_nonneg t) end; lia));
    cbn [dump_impl text_of] in *; unfold over at 1; rewrite (proj2 (Z.ltb_ge _ _) Hle).
  all: try done.
  - destruct (format_canonical_real d); [done|]. by rewrite append_nil_r.
  - rewrite dump_items_text with (f := text_of); [by rewrite append_assoc|done|].
    by rewrite append_assoc.
  - rewrite dump_members_text with (f := text_of); [by rewrite append_assoc|done|].
    by rewrite append_assoc.
Qed.

Lemma dump_text v : size (text_of v) <= kMaxDocumentBytes * 2 -> dump v = text_of v.
Proof. intros Hs. unfold dump. by rewrite dump_impl_text. Qed.

(** ** Reading back what was set *)

(** The last value a sequence of [set] calls gives the key. *)
Fixpoint last_set (k : string) (l : list (string * Json)) : option Json :=
  match l with
  | [] => None
  | p :: l' =>
      match last_set k l' with
      | Some x => Some x
      | None => if String.eqb k p.1 then Some p.2 else None
      end
  end.

Lemma last_set_app k l1 l2 :
  last_set k (l1 ++ l2) = match last_set k l2 with Some x => Some x | None => last_set k l1 end.
Proof.
  induction l1 as [|p l1 IH]; simpl; [|rewrite IH]; by destruct (last_set k l2).
Qed.

Lemma find_object v key : find v key = map_find key (object v).
Proof. by destruct v. Qed.

Lemma find_set_all v l k :
  map_find k (object (set_all v l)) =
  match last_set k l with Some x => Some x | None => map_find k (object v) end.
Proof.
  revert v; induction l as [|p l IH]; intros v; [done|].
  assert (set_all v (p :: l) = set_all (set v p.1 p.2) l) as -> by done. rewrite IH.
  simpl. destruct (last_set k l); [done|]. destruct (String.eqb_spec k p.1) as [->|Hne].
  - by rewrite map_find_insert_eq.
  - by rewrite map_find_insert_ne.
Qed.

Lemma set_all_object l p : is_object (set_all JNull (l ++ [p])) = true.
Proof. unfold set_all. by rewrite fold_left_app. Qed.

(** One step of a decoder whose reader's result is known. *)
Ltac read_by H := rewrite H by done; cbn [mbind result_bind].


(** The reals a decoder bounds by [maximum], as the writer stores them: no negative zero. *)
Definition real_within (maximum : Z) (d : double) : Prop :=
  is_finite d = true /\ dlt d d_zero = false /\ dlt (double_of_int maximum) d = false
  /\ (deq d d_zero = true -> d = d_zero).

Lemma json_real_ok maximum d : real_within maximum d -> json_real d = JReal d.
Proof.
  intros (_ & _ & _ & H). unfold json_real. destruct (deq d d_zero); [|done]. by rewrite H.
Qed.
