(* ===== verification/JsonParser.v ===== *)
(** * The bounded JSON decoder

    Models the [Parser] class of [src/json.cpp], [json_decode] and
    [JsonStreamingDecoder].  The parser position is the unread suffix of the text; the
    offset of an error is the number of bytes before it.  The recursion of the three
    mutually recursive member functions is on the depth that is left, the loops over
    members and items on the number of unread bytes, since every round consumes one;
    [decoder_never_out_of_fuel] shows that neither is ever used up. *)
From Stdlib Require Import ZArith Lia Floats.SpecFloat Ascii String.
From stdpp Require Import base numbers option list strings pretty sets.
From S2P Require Import Prelude Doubles Identity Errors Json.

Record JsonError := mk_json_error { err_code : Code; err_offset : Z; err_message : string }.

Record JsonDecodeOptions := mk_options {
  max_bytes : Z;
  max_depth_option : Z;
  max_string_bytes : Z;
  require_object_option : bool;
  allow_trailing_whitespace : bool
}.

(** The default member initialisers. *)
Definition default_options : JsonDecodeOptions := mk_options (512 * 1024) 32 4096 false true.

Definition is_ws (c : ascii) : bool :=
  Ascii.eqb c " " || Ascii.eqb c "009" || Ascii.eqb c "010" || Ascii.eqb c "013".

(** ** UTF-8 *)

(** The continuation bytes: [value = (value << 6) | (bk & 0x3F)]. *)
Fixpoint utf8_tail (n : nat) (value : Z) (text : string) : option Z :=
  match n with
  | O => Some value
  | S n' =>
      match text with
      | EmptyString => None
      | String c text' =>
          let bk := byte_of_ascii c in
          if negb (Z.land bk 192 =? 128) then None
          else utf8_tail n' (Z.lor (Z.shiftl value 6) (Z.land bk 63)) text'
      end
  end.

(** The length, the payload and the smallest code point a lead byte announces. *)
Definition utf8_lead (b0 : Z) : option (nat * Z * Z) :=
  if Z.land b0 224 =? 192 then Some (2%nat, Z.land b0 31, 128)
  else if Z.land b0 240 =? 224 then Some (3%nat, Z.land b0 15, 2048)
  else if Z.land b0 248 =? 240 then Some (4%nat, Z.land b0 7, 65536)
  else None.

(** The checks on the decoded value: overlong forms, surrogates, the maximum. *)
Definition utf8_value_ok (value minimum : Z) : bool :=
  negb (value <? minimum) && negb ((55296 <=? value) && (value <=? 57343)) && negb (1114111 <? value).

(** The length of the sequence at the head of the text and its code point. *)
Definition decode_utf8 (text : string) : option (nat * Z) :=
  match text with
  | EmptyString => None
  | String c tail =>
      let b0 := byte_of_ascii c in
      if b0 <? 128 then Some (1%nat, b0)
      else
        match utf8_lead b0 with
        | None => None
        | Some (len, value, minimum) =>
            if (String.length text <? len)%nat then None
            else
              match utf8_tail (len - 1) value tail with
              | None => None
              | Some value => if utf8_value_ok value minimum then Some (len, value) else None
              end
        end
  end.

Definition chars_of (l : list Z) : string := string_of_bytes l.

Definition append_utf8 (codepoint : Z) : string :=
  if codepoint <? 128 then chars_of [codepoint]
  else if codepoint <? 2048 then
    chars_of [Z.lor 192 (Z.shiftr codepoint 6); Z.lor 128 (Z.land codepoint 63)]
  else if codepoint <? 65536 then
    chars_of [Z.lor 224 (Z.shiftr codepoint 12);
              Z.lor 128 (Z.land (Z.shiftr codepoint 6) 63); Z.lor 128 (Z.land codepoint 63)]
  else
    chars_of [Z.lor 240 (Z.shiftr codepoint 18);
              Z.lor 128 (Z.land (Z.shiftr codepoint 12) 63);
              Z.lor 128 (Z.land (Z.shiftr codepoint 6) 63); Z.lor 128 (Z.land codepoint 63)].

(** ** Scanners *)
Fixpoint skip_ws (rest : string) : string :=
  match rest with
  | String c rest' => if is_ws c then skip_ws rest' else rest
  | EmptyString => EmptyString
  end.

(** [while (pos_ < text_.size() && is_digit(text_[pos_]))] *)
Fixpoint scan_digits (rest : string) : string * string :=
  match rest with
  | String c rest' =>
      if is_digit c then let '(digits, r) := scan_digits rest' in (String c digits, r)
      else (EmptyString, rest)
  | EmptyString => (EmptyString, EmptyString)
  end.

Definition starts_with (p : ascii -> bool) (rest : string) : bool :=
  match rest with String c _ => p c | EmptyString => false end.

Definition tail_of (rest : string) : string :=
  match rest with String _ rest' => rest' | EmptyString => EmptyString end.

Fixpoint digits_value_from (acc : Z) (digits : string) : Z :=
  match digits with
  | EmptyString => acc
  | String c digits' => digits_value_from (acc * 10 + char_minus c "0") digits'
  end.
Definition digits_value (digits : string) : Z := digits_value_from 0 digits.

(** The magnitude loop, refusing a digit that would pass the 64-bit maximum. *)
Fixpoint read_magnitude (magnitude : Z) (digits : string) : option Z :=
  match digits with
  | EmptyString => Some magnitude
  | String c digits' =>
      let digit := char_minus c "0" in
      if (18446744073709551615 - digit) / 10 <? magnitude then None
      else read_magnitude (magnitude * 10 + digit) digits'
  end.

Section Parser.
Context (options : JsonDecodeOptions) (total : Z).

Definition max_depth : Z := if max_depth_option options =? 0 then 1 else max_depth_option options.

Notation parsed A := (result JsonError (A * string)).

(** [fail] at the position whose unread text is [rest]. *)
Definition fail {A} (code : Code) (text : string) (rest : string) : parsed A :=
  Err (mk_json_error code (total - size rest) text).

Definition literal (token rest : string) : parsed unit :=
  if size rest <? size token then fail kJsonInvalidLiteral "literal is truncated" rest
  else if negb (String.prefix token rest) then fail kJsonInvalidLiteral "literal is malformed" rest
  else Ok (tt, drop_string (String.length token) rest).

(** ** Numbers

    The token is kept as its parts: sign, integer digits, fraction digits if there is a
    point, sign and digits of the exponent if there is one. *)
Record number_token := mk_token {
  negative : bool;
  int_digits : string;
  fraction : option string;
  exponent : option (bool * string)
}.

Definition scan_fraction (rest : string) : parsed (option string) :=
  if starts_with (Ascii.eqb ".") rest then
    let rest := tail_of rest in
    if negb (starts_with is_digit rest) then fail kJsonSyntax "fraction has no digits" rest
    else let '(digits, rest) := scan_digits rest in Ok (Some digits, rest)
  else Ok (None, rest).

Definition scan_exponent (rest : string) : parsed (option (bool * string)) :=
  if starts_with (fun c => Ascii.eqb c "e" || Ascii.eqb c "E") rest then
    let rest := tail_of rest in
    let minus := starts_with (Ascii.eqb "-") rest in
    let rest :=
      if starts_with (fun c => Ascii.eqb c "+" || Ascii.eqb c "-") rest then tail_of rest else rest in
    if negb (starts_with is_digit rest) then fail kJsonSyntax "exponent has no digits" rest
    else let '(digits, rest) := scan_digits rest in Ok (Some (minus, digits), rest)
  else Ok (None, rest).

Definition scan_number (rest : string) : parsed number_token :=
  let negative := starts_with (Ascii.eqb "-") rest in
  let rest := if negative then tail_of rest else rest in
  if negb (starts_with is_digit rest) then fail kJsonSyntax "number has no integer digits" rest
  else
    '(int_digits, rest) ←
      (if starts_with (Ascii.eqb "0") rest then
         let rest := tail_of rest in
         if starts_with is_digit rest then fail kJsonSyntax "number has a leading zero" rest
         else Ok ("0"%string, rest)
       else Ok (scan_digits rest));
    '(fraction, rest) ← scan_fraction rest;
    '(exponent, rest) ← scan_exponent rest;
    Ok (mk_token negative int_digits fraction exponent, rest).

Definition kInt64Max : Z := 9223372036854775807.

(** The value of an integer token; [rest] is the position after it. *)
Definition integer_value (t : number_token) (rest : string) : parsed Json :=
  match read_magnitude 0 (int_digits t) with
  | None => fail kJsonNumberOutOfRange "integer magnitude is not representable" rest
  | Some magnitude =>
      if negative t then
        if kInt64Max + 1 <? magnitude
        then fail kJsonNumberOutOfRange "integer is below the representable minimum" rest
        else Ok (JInt (- magnitude), rest)
      else if kInt64Max <? magnitude
      then fail kJsonNumberOutOfRange "integer exceeds the representable maximum" rest
      else Ok (JInt magnitude, rest)
  end.

(** The decimal the token denotes, handed to [std::from_chars]. *)
Definition real_value (t : number_token) (rest : string) : parsed Json :=
  let fraction_digits := default EmptyString (fraction t) in
  let e := match exponent t with
           | Some (minus, digits) => if minus then - digits_value digits else digits_value digits
           | None => 0
           end in
  match from_chars_double (negative t)
          (digits_value (String.append (int_digits t) fraction_digits)) (e - size fraction_digits) with
  | None => fail kJsonNumberOutOfRange "real number is not representable as a double" rest
  | Some value =>
      if negb (is_finite value) then fail kJsonNumberOutOfRange "real number is not finite" rest
      else Ok (json_real value, rest)
  end.

Definition parse_number (start : string) : parsed Json :=
  '(t, rest) ← scan_number start;
  if 64 <? size start - size rest
  then fail kJsonNumberOutOfRange "number literal is longer than 64 characters" rest
  else
    match fraction t, exponent t with
    | None, None => integer_value t rest
    | _, _ => real_value t rest
    end.

(** ** Strings *)
Definition parse_hex4 (rest : string) : parsed Z :=
  match rest with
  | String c0 (String c1 (String c2 (String c3 rest'))) =>
      let d0 := hex_digit_value c0 in let d1 := hex_digit_value c1 in
      let d2 := hex_digit_value c2 in let d3 := hex_digit_value c3 in
      if (d0 <? 0) || (d1 <? 0) || (d2 <? 0) || (d3 <? 0)
      then fail kJsonSyntax "unicode escape contains a non hex digit" rest
      else Ok (Z.lor (Z.shiftl (Z.lor (Z.shiftl (Z.lor (Z.shiftl d0 4) d1) 4) d2) 4) d3, rest')
  | _ => fail kJsonSyntax "unicode escape is truncated" rest
  end.

(** The escape after the letter u. *)
Definition parse_unicode (rest : string) : parsed string :=
  '(first, rest) ← parse_hex4 rest;
  if (55296 <=? first) && (first <=? 56319) then
    match rest with
    | String c0 (String c1 rest') =>
        if (size rest <? 6) || negb (Ascii.eqb c0 backslash) || negb (Ascii.eqb c1 "u")
        then fail kJsonSyntax "high surrogate is not followed by a low surrogate" rest
        else
          '(second, rest) ← parse_hex4 rest';
          if (second <? 56320) || (57343 <? second)
          then fail kJsonSyntax "low surrogate is out of range" rest
          else Ok (append_utf8 (65536 + Z.shiftl (first - 55296) 10 + (second - 56320)), rest)
    | _ => fail kJsonSyntax "high surrogate is not followed by a low surrogate" rest
    end
  else if (56320 <=? first) && (first <=? 57343)
  then fail kJsonSyntax "lone low surrogate in escape sequence" rest
  else Ok (append_utf8 first, rest).

Definition one (c : ascii) : string := String c EmptyString.

(** The escape sequence whose letter is the first character of [rest]. *)
Definition parse_escape (rest : string) : parsed string :=
  match rest with
  | EmptyString => fail kJsonSyntax "escape sequence is truncated" rest
  | String e rest' =>
      if Ascii.eqb e quote_char then Ok (one quote_char, rest')
      else if Ascii.eqb e backslash then Ok (one backslash, rest')
      else if Ascii.eqb e "/" then Ok (one "/", rest')
      else if Ascii.eqb e "b" then Ok (one "008", rest')
      else if Ascii.eqb e "f" then Ok (one "012", rest')
      else if Ascii.eqb e "n" then Ok (one "010", rest')
      else if Ascii.eqb e "r" then Ok (one "013", rest')
      else if Ascii.eqb e "t" then Ok (one "009", rest')
      else if Ascii.eqb e "u" then parse_unicode rest'
      else fail kJsonSyntax "unknown escape sequence" rest
  end.

(** One character of the body: the bytes appended to the output. *)
Definition parse_char (c : ascii) (rest' : string) : parsed string :=
  let rest := String c rest' in
  if byte_of_ascii c <? 32 then fail kJsonSyntax "string contains a raw control character" rest
  else if Ascii.eqb c backslash then parse_escape rest'
  else
    match decode_utf8 rest with
    | None => fail kJsonInvalidUtf8 "string contains an invalid UTF-8 sequence" rest
    | Some (len, _) => Ok (substring 0 len rest, drop_string len rest)
    end.

Definition out_of_fuel {A} (rest : string) : parsed A := fail kInternalInvariant EmptyString rest.

Fixpoint parse_string_body (fuel : nat) (out : string) (rest : string) : parsed string :=
  match fuel with
  | O => out_of_fuel rest
  | S fuel' =>
      match rest with
      | EmptyString => fail kJsonSyntax "string is not terminated" rest
      | String c rest' =>
          if Ascii.eqb c quote_char then Ok (out, rest')
          else
            '(piece, rest) ← parse_char c rest';
            let out := String.append out piece in
            if max_string_bytes options <? size out
            then fail kJsonStringTooLong "string exceeds the configured byte bound" rest
            else parse_string_body fuel' out rest
      end
  end.

Definition parse_string (rest : string) : parsed string :=
  if negb (starts_with (Ascii.eqb quote_char) rest)
  then fail kJsonSyntax "string must start with a quote" rest
  else parse_string_body (S (String.length rest)) EmptyString (tail_of rest).

(** ** Containers and values *)
Section Containers.
Context (parse_value : string -> parsed Json).

Fixpoint parse_members (fuel : nat) (members : JsonObject) (rest : string) : parsed Json :=
  match fuel with
  | O => out_of_fuel rest
  | S fuel' =>
      '(key, rest) ← parse_string (skip_ws rest);
      let rest := skip_ws rest in
      if negb (starts_with (Ascii.eqb ":") rest)
      then fail kJsonSyntax "object member is missing its colon" rest
      else
        '(value, rest) ← parse_value (skip_ws (tail_of rest));
        if map_has key members
        then fail kJsonDuplicateKey
               (String.append "object repeats key '" (String.append key "'")) rest
        else
          let members := map_insert key value members in
          let rest := skip_ws rest in
          match rest with
          | EmptyString => fail kJsonSyntax "object is not terminated" rest
          | String c rest' =>
              if Ascii.eqb c "," then parse_members fuel' members rest'
              else if Ascii.eqb c "}" then Ok (JObject members, rest')
              else fail kJsonSyntax "expected ',' or '}' in object" rest
          end
  end.

Definition parse_object (rest : string) : parsed Json :=
  let rest := skip_ws (tail_of rest) in
  if starts_with (Ascii.eqb "}") rest then Ok (JObject [], tail_of rest)
  else parse_members (S (String.length rest)) [] rest.

Fixpoint parse_items (fuel : nat) (items : JsonArray) (rest : string) : parsed Json :=
  match fuel with
  | O => out_of_fuel rest
  | S fuel' =>
      '(value, rest) ← parse_value (skip_ws rest);
      let items := items ++ [value] in
      let rest := skip_ws rest in
      match rest with
      | EmptyString => fail kJsonSyntax "array is not terminated" rest
      | String c rest' =>
          if Ascii.eqb c "," then parse_items fuel' items rest'
          else if Ascii.eqb c "]" then Ok (JArray items, rest')
          else fail kJsonSyntax "expected ',' or ']' in array" rest
      end
  end.

Definition parse_array (rest : string) : parsed Json :=
  let rest := skip_ws (tail_of rest) in
  if starts_with (Ascii.eqb "]") rest then Ok (JArray [], tail_of rest)
  else parse_items (S (String.length rest)) [] rest.

End Containers.

Definition parse_literal (token : string) (value : Json) (rest : string) : parsed Json :=
  '(_, rest) ← literal token rest; Ok (value, rest).

Fixpoint parse_value (fuel : nat) (depth : Z) (rest : string) : parsed Json :=
  match fuel with
  | O => out_of_fuel rest
  | S fuel' =>
      match rest with
      | EmptyString => fail kJsonSyntax "value expected but input ended" rest
      | String c _ =>
          if max_depth <? depth
          then fail kJsonDepthExceeded "nesting depth exceeds the configured bound" rest
          else if Ascii.eqb c "{" then parse_object (parse_value fuel' (depth + 1)) rest
          else if Ascii.eqb c "[" then parse_array (parse_value fuel' (depth + 1)) rest
          else if Ascii.eqb c quote_char then
            '(value, rest) ← parse_string rest; Ok (JString value, rest)
          else if Ascii.eqb c "t" then parse_literal "true" (JBool true) rest
          else if Ascii.eqb c "f" then parse_literal "false" (JBool false) rest
          else if Ascii.eqb c "n" then parse_literal "null" JNull rest
          else if Ascii.eqb c "-" || is_digit c then parse_number rest
          else fail kJsonSyntax "unexpected character where a value was expected" rest
      end
  end.

Definition depth_fuel : nat := Z.to_nat (max_depth + 2).

Definition parse_document (text : string) : result JsonError Json :=
  let rest := skip_ws text in
  if is_empty rest then Err (mk_json_error kJsonSyntax (total - size rest) "document is empty")
  else
    match parse_value depth_fuel 0 rest with
    | Err e => Err e
    | Ok (out, rest) =>
        let rest := skip_ws rest in
        if negb (is_empty rest)
        then Err (mk_json_error kTrailingGarbage (total - size rest)
                    "bytes remain after the top level value")
        else if require_object_option options && negb (is_object out)
        then Err (mk_json_error kJsonNotAnObject (total - size rest)
                    "top level value must be an object")
        else Ok out
    end.

End Parser.

(** [JsonDecodeResult]: the value, or the code, offset and message. *)
Definition json_decode (text : string) (options : JsonDecodeOptions) : result JsonError Json :=
  if max_bytes options <? size text then
    Err (mk_json_error kDocumentTooLarge 0
           (String.append "document of " (String.append (to_string (size text))
              (String.append " bytes exceeds the "
                 (String.append (to_string (max_bytes options)) " byte bound")))))
  else parse_document options (size text) text.

(** ** The streaming decoder *)
Record JsonStreamingDecoder := mk_streaming { stream_options : JsonDecodeOptions; stream_buffer : string }.

Definition feed (d : JsonStreamingDecoder) (text : string) : JsonStreamingDecoder * bool :=
  if max_bytes (stream_options d) <? size (stream_buffer d) + size text then (d, false)
  else (mk_streaming (stream_options d) (String.append (stream_buffer d) text), true).

Definition stream_finish (d : JsonStreamingDecoder) : result JsonError Json :=
  json_decode (stream_buffer d) (stream_options d).

(** ** Well-formed values

    What the decoder produces under its options: bounded depth, integers of 64 bits,
    finite reals other than negative zero, well-formed UTF-8 within the string bound,
    members in strictly ascending key order. *)
Inductive utf8 : string -> Prop :=
| utf8_nil : utf8 EmptyString
| utf8_cons chunk cp s :
    decode_utf8 chunk = Some (String.length chunk, cp) -> utf8 s -> utf8 (String.append chunk s).

Section WellFormed.
Context (options : JsonDecodeOptions).

Definition str_ok (s : string) : Prop := utf8 s /\ size s <= max_string_bytes options.

Section Lists.
Context (P : Json -> Prop).
Fixpoint all_items (l : JsonArray) : Prop :=
  match l with [] => True | x :: l' => P x /\ all_items l' end.
Fixpoint all_members (m : JsonObject) : Prop :=
  match m with [] => True | (k, x) :: m' => str_ok k /\ P x /\ all_members m' end.
End Lists.

Fixpoint json_wf (depth : Z) (v : Json) {struct v} : Prop :=
  depth <= max_depth options /\
  match v with
  | JNull | JBool _ => True
  | JInt i => - 2 ^ 63 <= i < 2 ^ 63
  | JReal d => is_finite d = true /\ d <> S754_zero true
  | JString s => str_ok s
  | JArray l => all_items (json_wf (depth + 1)) l
  | JObject m => keys_sorted m /\ all_members (json_wf (depth + 1)) m
  end.

End WellFormed.

(** ** UTF-8 facts *)
Lemma utf8_app a b : utf8 a -> utf8 b -> utf8 (String.append a b).
Proof. induction 1; intros; [done|]. rewrite append_assoc. econstructor; eauto. Qed.

Lemma utf8_one chunk cp : decode_utf8 chunk = Some (String.length chunk, cp) -> utf8 chunk.
Proof. intros H. rewrite <- (append_nil_r chunk). econstructor; [done|constructor]. Qed.

Lemma utf8_tail_app n value s t :
  (n <= String.length s)%nat -> utf8_tail n value (String.append s t) = utf8_tail n value s.
Proof.
  revert value s; induction n as [|n IH]; intros value [|c s]; simpl; try done; try lia.
  intros. case_bool; [done|]. apply IH. lia.
Qed.

Lemma length_append (a b : string) :
  String.length (String.append a b) = (String.length a + String.length b)%nat.
Proof. induction a; simpl; congruence. Qed.

Lemma substring_0_append a b : substring 0 (String.length a) (String.append a b) = a.
Proof. induction a as [|c a IH]; simpl; [by destruct b|]. congruence. Qed.

Lemma substring_0_all a : substring 0 (String.length a) a = a.
Proof. rewrite <- (append_nil_r a) at 2. apply substring_0_append. Qed.

Lemma drop_string_app a b : drop_string (String.length a) (String.append a b) = b.
Proof.
  unfold drop_string. rewrite length_append.
  replace (String.length a + String.length b - String.length a)%nat with (String.length b) by lia.
  induction a as [|c a IH]; simpl; [apply substring_0_all|]. done.
Qed.

Lemma split_at n (s : string) :
  (n <= String.length s)%nat ->
  s = String.append (substring 0 n s) (drop_string n s) /\ String.length (substring 0 n s) = n.
Proof.
  intros Hn. unfold drop_string. revert s Hn; induction n as [|n IH]; intros [|c s]; simpl; intros Hn.
  - done.
  - rewrite substring_0_all. done.
  - lia.
  - destruct (IH s) as [E1 E2]; [lia|]. split; [f_equal|]; congruence.
Qed.

Lemma utf8_lead_len b0 len value minimum :
  utf8_lead b0 = Some (len, value, minimum) -> (2 <= len <= 4)%nat.
Proof. unfold utf8_lead. repeat case_bool; intros [=]; lia. Qed.

(** The decoder looks at the sequence only. *)
Lemma decode_utf8_head s len cp :
  decode_utf8 s = Some (len, cp) ->
  (1 <= len <= String.length s)%nat
  /\ decode_utf8 (substring 0 len s) = Some (String.length (substring 0 len s), cp).
Proof.
  destruct s as [|c s]; [done|]. cbn [decode_utf8].
  destruct (byte_of_ascii c <? 128) eqn:Eb.
  { intros [= <- <-]. split; [simpl; lia|]. simpl. destruct s; simpl; by rewrite Eb. }
  destruct (utf8_lead (byte_of_ascii c)) as [[[n value] minimum]|] eqn:El; [|done].
  pose proof (utf8_lead_len _ _ _ _ El) as Hn.
  destruct (_ <? n)%nat eqn:Hlen; [done|]. apply Nat.ltb_ge in Hlen.
  destruct (utf8_tail _ _ _) as [v|] eqn:Et; [|done].
  destruct (utf8_value_ok v minimum) eqn:Eok; [|done]. intros [= <- <-]. split; [lia|].
  destruct n as [|n]; [lia|]. simpl in Hlen. destruct (split_at n s) as [Es E2]; [lia|].
  cbn [substring decode_utf8 String.length]. rewrite Eb, El, E2, Nat.ltb_irrefl.
  rewrite Es, utf8_tail_app in Et by (rewrite E2; lia). by rewrite Et, Eok.
Qed.

Lemma decode_utf8_app a b cp :
  decode_utf8 a = Some (String.length a, cp) ->
  decode_utf8 (String.append a b) = Some (String.length a, cp).
Proof.
  destruct a as [|c a]; [done|]. cbn [decode_utf8 String.append].
  destruct (byte_of_ascii c <? 128); [done|].
  destruct (utf8_lead (byte_of_ascii c)) as [[[n value] minimum]|] eqn:El; [|done].
  destruct (_ <? n)%nat eqn:Hlen; [done|]. apply Nat.ltb_ge in Hlen. simpl in Hlen.
  rewrite (proj2 (Nat.ltb_ge _ _)) by (simpl; rewrite length_append; lia).
  pose proof (utf8_lead_len _ _ _ _ El) as Hn. rewrite utf8_tail_app by lia. done.
Qed.

(** ** The encoder of escapes produces sequences the decoder accepts *)
Definition valid_codepoint (cp : Z) : Prop := 0 <= cp <= 1114111 /\ ~ (55296 <= cp <= 57343).

Lemma continuation_byte x :
  0 <= x < 64 ->
  Z.land (byte_of_ascii (ascii_of_byte (Z.lor 128 x))) 192 = 128
  /\ Z.land (byte_of_ascii (ascii_of_byte (Z.lor 128 x))) 63 = x.
Proof.
  intros Hx. pose (p := fun x =>
    (Z.land (byte_of_ascii (ascii_of_byte (Z.lor 128 x))) 192 =? 128)
    && (Z.land (byte_of_ascii (ascii_of_byte (Z.lor 128 x))) 63 =? x)).
  assert (p x = true) as E by (apply (range_forall p 64); [by vm_compute|done]).
  unfold p in E. bool_hyps. lia.
Qed.

Lemma lead_byte base n minimum bound x :
  (base, n, minimum, bound) ∈ [(192, 2%nat, 128, 32); (224, 3%nat, 2048, 16); (240, 4%nat, 65536, 8)] ->
  0 <= x < bound ->
  (byte_of_ascii (ascii_of_byte (Z.lor base x)) <? 128) = false
  /\ utf8_lead (byte_of_ascii (ascii_of_byte (Z.lor base x))) = Some (n, x, minimum).
Proof.
  intros Hin Hx. pose (p := fun base n minimum x =>
    negb (byte_of_ascii (ascii_of_byte (Z.lor base x)) <? 128)
    && bool_decide (utf8_lead (byte_of_ascii (ascii_of_byte (Z.lor base x))) = Some (n, x, minimum))).
  enough (p base n minimum x = true) as E.
  { unfold p in E. bool_hyps. by apply bool_decide_eq_true in H0. }
  rewrite !elem_of_cons, elem_of_nil in Hin.
  destruct Hin as [E|[E|[E|[]]]]; injection E as -> -> -> ->;
    (refine (range_forall (p _ _ _) _ _ x Hx); vm_compute; reflexivity).
Qed.

Lemma utf8_tail_cons n v x (rest : string) :
  0 <= x < 64 ->
  utf8_tail (S n) v (String (ascii_of_byte (Z.lor 128 x)) rest) = utf8_tail n (v * 64 + x) rest.
Proof.
  intros Hx. destruct (continuation_byte x Hx) as [E1 E2]. cbn [utf8_tail].
  rewrite E1, E2. cbn [negb Z.eqb]. rewrite lor_shiftl_add by lia. done.
Qed.

Lemma land63 z : Z.land z 63 = z mod 64.
Proof. change 63 with (Z.ones 6). by rewrite Z.land_ones by lia. Qed.

Lemma utf8_value_ok_spec cp minimum :
  valid_codepoint cp -> minimum <= cp -> utf8_value_ok cp minimum = true.
Proof.
  unfold valid_codepoint, utf8_value_ok. intros [H1 H2] Hm.
  rewrite (proj2 (Z.ltb_ge _ _)), (proj2 (Z.ltb_ge 1114111 _)) by lia. simpl.
  destruct (55296 <=? cp) eqn:E1, (cp <=? 57343) eqn:E2; try done. lia.
Qed.

Lemma append_utf8_decodes cp :
  valid_codepoint cp ->
  decode_utf8 (append_utf8 cp) = Some (String.length (append_utf8 cp), cp).
Proof.
  intros Hv. pose proof Hv as [Hr Hs]. unfold append_utf8, chars_of.
  rewrite !land63, !Z.shiftr_div_pow2 by lia.
  destruct (cp <? 128) eqn:E1; [|destruct (cp <? 2048) eqn:E2; [|destruct (cp <? 65536) eqn:E3]];
    cbn [string_of_bytes decode_utf8].
  - rewrite byte_of_ascii_of_byte by (unfold is_byte; lia). by rewrite E1.
  - destruct (lead_byte 192 2 128 32 (cp / 2 ^ 6)) as [-> ->]; [rewrite !elem_of_cons; tauto| |].
    { Z.to_euclidean_division_equations; lia. }
    cbn [String.length Nat.sub Nat.ltb Nat.leb]. rewrite utf8_tail_cons by (apply Z.mod_pos_bound; lia).
    replace (cp / 2 ^ 6 * 64 + cp mod 64) with cp by (Z.to_euclidean_division_equations; lia).
    simpl. by rewrite utf8_value_ok_spec by (done || lia).
  - destruct (lead_byte 224 3 2048 16 (cp / 2 ^ 12)) as [-> ->]; [rewrite !elem_of_cons; tauto| |].
    { Z.to_euclidean_division_equations; lia. }
    cbn [String.length Nat.sub Nat.ltb Nat.leb]. rewrite !utf8_tail_cons by (apply Z.mod_pos_bound; lia).
    replace ((cp / 2 ^ 12 * 64 + (cp / 2 ^ 6) mod 64) * 64 + cp mod 64) with cp
      by (Z.to_euclidean_division_equations; lia).
    simpl. by rewrite utf8_value_ok_spec by (done || lia).
  - destruct (lead_byte 240 4 65536 8 (cp / 2 ^ 18)) as [-> ->]; [rewrite !elem_of_cons; tauto| |].
    { Z.to_euclidean_division_equations; lia. }
    cbn [String.length Nat.sub Nat.ltb Nat.leb]. rewrite !utf8_tail_cons by (apply Z.mod_pos_bound; lia).
    replace (((cp / 2 ^ 18 * 64 + (cp / 2 ^ 12) mod 64) * 64 + (cp / 2 ^ 6) mod 64) * 64 + cp mod 64)
      with cp by (Z.to_euclidean_division_equations; lia).
    simpl. by rewrite utf8_value_ok_spec by (done || lia).
Qed.

(** ** Outcomes

    [good P k r]: the run did not exhaust its fuel, and if it succeeded the value
    satisfies [P] and at most [k] bytes are unread. *)
Definition good {A} (P : A -> Prop) (k : nat) (r : result JsonError (A * string)) : Prop :=
  match r with
  | Ok (a, rest) => P a /\ (String.length rest <= k)%nat
  | Err e => err_code e <> kInternalInvariant
  end.

Lemma good_bind {A B} (P : A -> Prop) (Q : B -> Prop) k k' r (f : A * string -> result JsonError (B * string)) :
  good P k r -> (forall a rest, P a -> (String.length rest <= k)%nat -> good Q k' (f (a, rest))) ->
  good Q k' (r ≫= f).
Proof. destruct r as [[a rest]|e]; simpl; [intros [Ha Hk] Hf; by apply Hf|done]. Qed.

Lemma good_fail {A} (P : A -> Prop) k total code text rest :
  code <> kInternalInvariant -> good P k (fail (A := A) total code text rest).
Proof. done. Qed.

Lemma good_weaken {A} (P Q : A -> Prop) k k' r :
  good P k r -> (forall a, P a -> Q a) -> (k <= k')%nat -> good Q k' r.
Proof. destruct r as [[a rest]|e]; simpl; [|done]. intros [Ha Hk] HPQ ?. split; [auto|lia]. Qed.

Ltac good_fail := apply good_fail; discriminate.

(** ** The scanners *)
Lemma skip_ws_length rest : (String.length (skip_ws rest) <= String.length rest)%nat.
Proof. induction rest as [|c rest IH]; simpl; [done|]. case_bool; simpl; lia. Qed.

Lemma tail_of_length p rest :
  starts_with p rest = true -> (S (String.length (tail_of rest)) = String.length rest)%nat.
Proof. by destruct rest. Qed.

Lemma tail_of_le rest : (String.length (tail_of rest) <= String.length rest)%nat.
Proof. destruct rest; simpl; lia. Qed.

Lemma scan_digits_length rest :
  (String.length (scan_digits rest).1 + String.length (scan_digits rest).2 = String.length rest)%nat.
Proof.
  induction rest as [|c rest IH]; simpl; [done|]. case_bool; [|done].
  destruct (scan_digits rest); simpl in *. lia.
Qed.

Lemma scan_digits_pos rest :
  starts_with is_digit rest = true -> (0 < String.length (scan_digits rest).1)%nat.
Proof.
  destruct rest as [|c rest]; [done|]. simpl. intros ->. destruct (scan_digits rest); simpl. lia.
Qed.

Section ParserFacts.
Context (options : JsonDecodeOptions) (total : Z).
Notation trivial := (fun _ => True).

Lemma scan_fraction_good rest :
  good trivial (String.length rest) (scan_fraction total rest).
Proof.
  unfold scan_fraction. destruct (starts_with _ rest) eqn:E; [|by split].
  destruct (starts_with is_digit _); [|good_fail]. simpl.
  pose proof (scan_digits_length (tail_of rest)). pose proof (tail_of_length _ _ E).
  destruct (scan_digits _); simpl in *. split; [done|lia].
Qed.

Lemma scan_exponent_good rest :
  good trivial (String.length rest) (scan_exponent total rest).
Proof.
  unfold scan_exponent. destruct (starts_with _ rest) eqn:E; [|by split].
  set (r := if starts_with _ (tail_of rest) then _ else _).
  destruct (starts_with is_digit r); [|good_fail]. simpl.
  pose proof (scan_digits_length r). pose proof (tail_of_length _ _ E).
  pose proof (tail_of_le (tail_of rest)).
  assert (String.length r <= String.length (tail_of rest))%nat by (unfold r; case_bool; lia).
  destruct (scan_digits r); simpl in *. split; [done|lia].
Qed.

Lemma scan_digits_digits rest : all_chars is_digit (scan_digits rest).1 = true.
Proof.
  induction rest as [|c rest IH]; simpl; [done|]. case_bool; [|done].
  destruct (scan_digits rest); simpl in *. by rewrite Heqb.
Qed.

Lemma scan_number_good rest :
  good (fun t => all_chars is_digit (int_digits t) = true) (String.length rest - 1)
    (scan_number total rest).
Proof.
  unfold scan_number. set (r := if starts_with _ rest then _ else _).
  assert (String.length r <= String.length rest)%nat by
    (pose proof (tail_of_le rest); unfold r; case_bool; lia).
  destruct (starts_with is_digit r) eqn:Ed; [|good_fail]. simpl.
  apply (good_bind (fun ds => all_chars is_digit ds = true) _ (String.length r - 1)).
  - destruct (starts_with (Ascii.eqb "0") r) eqn:E0.
    + destruct (starts_with _ (tail_of r)); [good_fail|].
      pose proof (tail_of_length _ _ E0). split; [done|lia].
    + pose proof (scan_digits_length r). pose proof (scan_digits_pos r Ed).
      pose proof (scan_digits_digits r). destruct (scan_digits r); simpl in *. split; [done|lia].
  - intros id r1 Hid Hr1. eapply good_bind; [apply scan_fraction_good|].
    intros fr r2 _ Hr2. eapply good_bind; [apply scan_exponent_good|].
    intros ex r3 _ Hr3. split; [done|lia].
Qed.

Lemma is_digit_value c : is_digit c = true -> 0 <= char_minus c "0" <= 9.
Proof.
  intros Hc. assert (negb (is_digit c) || ((0 <=? char_minus c "0") && (char_minus c "0" <=? 9)) = true)
    as E by (apply (ascii_forall (fun c => negb (is_digit c)
      || ((0 <=? char_minus c "0") && (char_minus c "0" <=? 9)))); by vm_compute).
  rewrite Hc in E. simpl in E. bool_hyps. lia.
Qed.

Lemma read_magnitude_range ds m m' :
  all_chars is_digit ds = true -> 0 <= m -> read_magnitude m ds = Some m' -> 0 <= m'.
Proof.
  revert m. induction ds as [|c ds IH]; intros m Hd Hm; simpl; [by intros [= <-]|].
  simpl in Hd. bool_hyps. pose proof (is_digit_value c H). case_bool; [done|]. apply IH; [done|lia].
Qed.

Lemma json_real_wf depth d :
  depth <= max_depth options -> is_finite d = true -> json_wf options depth (json_real d).
Proof.
  intros Hd Hf. unfold json_real. split; [done|]. destruct (deq d d_zero) eqn:E; [done|].
  split; [done|]. intros ->. done.
Qed.

Lemma integer_value_good depth k t rest :
  depth <= max_depth options -> all_chars is_digit (int_digits t) = true ->
  (String.length rest <= k)%nat ->
  good (json_wf options depth) k (integer_value total t rest).
Proof.
  intros Hd Ht Hr. unfold integer_value, kInt64Max.
  destruct (read_magnitude 0 _) as [m|] eqn:Em; [|good_fail].
  apply read_magnitude_range in Em; [|done..].
  destruct (negative t); case_bool; try good_fail; apply Z.ltb_ge in Heqb;
    (split; [split; [done|lia]|done]).
Qed.

Lemma real_value_good depth k t rest :
  depth <= max_depth options -> (String.length rest <= k)%nat ->
  good (json_wf options depth) k (real_value total t rest).
Proof.
  intros Hd Hr. unfold real_value. destruct (from_chars_double _ _ _) as [d|]; [|good_fail].
  destruct (is_finite d) eqn:Ef; [|good_fail]. split; [by apply json_real_wf|done].
Qed.

Lemma parse_number_good depth rest :
  depth <= max_depth options ->
  good (json_wf options depth) (String.length rest - 1) (parse_number total rest).
Proof.
  intros Hd. unfold parse_number. eapply good_bind; [apply scan_number_good|].
  intros t r Ht Hr. case_bool; [good_fail|].
  destruct (fraction t); [by apply real_value_good|].
  destruct (exponent t); [by apply real_value_good|by apply integer_value_good].
Qed.

(** *** Strings *)
Lemma hex_nibbles d0 d1 d2 d3 :
  0 <= d0 < 16 -> 0 <= d1 < 16 -> 0 <= d2 < 16 -> 0 <= d3 < 16 ->
  0 <= Z.lor (Z.shiftl (Z.lor (Z.shiftl (Z.lor (Z.shiftl d0 4) d1) 4) d2) 4) d3 < 65536.
Proof. intros. rewrite !lor_shiftl_add by lia. lia. Qed.

Lemma parse_hex4_good rest :
  good (fun z => 0 <= z < 65536) (String.length rest - 4) (parse_hex4 total rest).
Proof.
  destruct rest as [|c0 [|c1 [|c2 [|c3 rest]]]]; try good_fail. unfold parse_hex4.
  destruct (_ || _) eqn:E; [good_fail|]. bool_hyps. rewrite !Z.ltb_ge in *.
  pose proof (hex_digit_value_range c0). pose proof (hex_digit_value_range c1).
  pose proof (hex_digit_value_range c2). pose proof (hex_digit_value_range c3).
  split; [apply hex_nibbles; lia|simpl; lia].
Qed.

Lemma append_utf8_ok cp : valid_codepoint cp -> utf8 (append_utf8 cp).
Proof. intros. by eapply utf8_one, append_utf8_decodes. Qed.

Lemma parse_unicode_good rest : good utf8 (String.length rest) (parse_unicode total rest).
Proof.
  unfold parse_unicode. eapply good_bind; [apply parse_hex4_good|]. intros first r Hf Hr. simpl in Hr.
  destruct ((55296 <=? first) && (first <=? 56319)) eqn:E1.
  - destruct r as [|c0 [|c1 r]]; [good_fail..|]. case_bool; [good_fail|].
    eapply good_bind; [apply parse_hex4_good|]. intros second r2 Hs Hr2.
    case_bool; [good_fail|]. bool_hyps. simpl in Hr. split; [|lia].
    rewrite !Z.leb_le, !Z.ltb_ge in *. apply append_utf8_ok.
    rewrite Z.shiftl_mul_pow2 by lia. unfold valid_codepoint. lia.
  - case_bool; [good_fail|]. split; [|lia]. apply append_utf8_ok. unfold valid_codepoint.
    apply andb_false_iff in E1, Heqb. rewrite !Z.leb_gt in E1, Heqb. cbv beta in Hf. lia.
Qed.

Lemma utf8_ascii c : byte_of_ascii c <? 128 = true -> utf8 (one c).
Proof. intros H. apply (utf8_one _ (byte_of_ascii c)). simpl. by rewrite H. Qed.

Lemma parse_escape_good rest : good utf8 (String.length rest - 1) (parse_escape total rest).
Proof.
  destruct rest as [|e rest]; [good_fail|]. unfold parse_escape.
  repeat (match goal with |- good _ _ (if ?b then _ else _) => destruct b end;
          [first [split; [by apply utf8_ascii|simpl; lia]
                 |simpl; rewrite Nat.sub_0_r; apply parse_unicode_good]|]).
  good_fail.
Qed.

Lemma parse_char_good c rest : good utf8 (String.length rest) (parse_char total c rest).
Proof.
  unfold parse_char. case_bool; [good_fail|].
  destruct (Ascii.eqb c backslash).
  { eapply good_weaken; [apply parse_escape_good|done|lia]. }
  destruct (decode_utf8 (String c rest)) as [[len cp]|] eqn:E; [|good_fail].
  apply decode_utf8_head in E as [Hlen E]. destruct (split_at len (String c rest)) as [Es El]; [lia|].
  split; [by eapply utf8_one|]. apply (f_equal String.length) in Es.
  rewrite length_append, El in Es. simpl in Es. lia.
Qed.

Lemma parse_string_body_good fuel out rest :
  (String.length rest < fuel)%nat -> str_ok options out ->
  good (str_ok options) (String.length rest - 1) (parse_string_body options total fuel out rest).
Proof.
  revert out rest. induction fuel as [|fuel IH]; intros out rest Hf Hout; [lia|].
  destruct rest as [|c rest]; [good_fail|]. cbn [parse_string_body].
  destruct (Ascii.eqb c quote_char); [split; [done|simpl; lia]|].
  eapply good_bind; [apply parse_char_good|]. intros piece r Hp Hr. simpl in Hf.
  case_bool; [good_fail|]. apply Z.ltb_ge in Heqb.
  eapply good_weaken; [apply IH; [lia|]|done|simpl; lia].
  split; [apply utf8_app; [apply Hout|done]|done].
Qed.

Lemma parse_string_good rest :
  0 <= max_string_bytes options ->
  good (str_ok options) (String.length rest - 1) (parse_string options total rest).
Proof.
  intros Hm. unfold parse_string. destruct (starts_with _ rest) eqn:E; [|good_fail].
  pose proof (tail_of_length _ _ E). cbn [negb].
  eapply good_weaken; [apply parse_string_body_good; [lia|]|done|lia].
  split; [constructor|done].
Qed.

(** *** Containers *)
Section ContainerFacts.
Context (depth : Z) (parse : string -> result JsonError (Json * string)).
Context (Hdepth : depth <= max_depth options) (Hms : 0 <= max_string_bytes options).
Context (Hparse : forall rest,
  good (json_wf options (depth + 1)) (String.length rest - 1) (parse rest)).

Lemma all_items_app P l v : all_items P (l ++ [v]) <-> all_items P l /\ P v.
Proof. induction l; simpl; naive_solver. Qed.

Lemma all_members_insert P m k v :
  str_ok options k -> P v -> all_members options P m -> all_members options P (map_insert k v m).
Proof.
  intros Hk Hv. induction m as [|[k' v'] m IH]; simpl; [naive_solver|]. intros (H1 & H2 & H3).
  repeat case_bool; simpl; naive_solver.
Qed.

Lemma parse_items_good fuel items rest :
  (String.length rest < fuel)%nat -> all_items (json_wf options (depth + 1)) items ->
  good (json_wf options depth) (String.length rest) (parse_items total parse fuel items rest).
Proof using Hparse Hdepth.
  revert items rest. induction fuel as [|fuel IH]; intros items rest Hf Hi; [lia|]. cbn [parse_items].
  eapply good_bind; [apply Hparse|]. intros v r Hv Hr. pose proof (skip_ws_length rest).
  pose proof (skip_ws_length r). destruct (skip_ws r) as [|c r']; [good_fail|].
  simpl in *. destruct (Ascii.eqb c ",").
  - eapply good_weaken; [apply IH; [lia|]|done|lia]. by apply all_items_app.
  - destruct (Ascii.eqb c "]"); [|good_fail]. split; [|lia]. split; [done|]. by apply all_items_app.
Qed.

Lemma parse_members_good fuel members rest :
  (String.length rest < fuel)%nat ->
  keys_sorted members -> all_members options (json_wf options (depth + 1)) members ->
  good (json_wf options depth) (String.length rest) (parse_members options total parse fuel members rest).
Proof using Hparse Hdepth Hms.
  revert members rest. induction fuel as [|fuel IH]; intros members rest Hf Hs Hm; [lia|].
  cbn [parse_members]. eapply good_bind; [by apply parse_string_good|]. intros key r Hk Hr.
  pose proof (skip_ws_length rest). pose proof (skip_ws_length r).
  destruct (starts_with _ (skip_ws r)) eqn:E; [|good_fail]. cbn [negb].
  eapply good_bind; [apply Hparse|]. intros v r2 Hv Hr2.
  pose proof (tail_of_length _ _ E). pose proof (skip_ws_length (tail_of (skip_ws r))).
  pose proof (skip_ws_length r2). case_bool; [good_fail|].
  destruct (skip_ws r2) as [|c r']; [good_fail|]. simpl in *.
  assert (keys_sorted (map_insert key v members)) by by apply map_insert_sorted.
  assert (all_members options (json_wf options (depth + 1)) (map_insert key v members))
    by by apply all_members_insert.
  destruct (Ascii.eqb c ",").
  - eapply good_weaken; [apply IH; [lia|done..]|done|lia].
  - destruct (Ascii.eqb c "}"); [|good_fail]. split; [by split|lia].
Qed.

Lemma parse_array_good rest :
  starts_with (Ascii.eqb "[") rest = true ->
  good (json_wf options depth) (String.length rest - 1) (parse_array total parse rest).
Proof using Hparse Hdepth.
  intros E. unfold parse_array. pose proof (tail_of_length _ _ E).
  pose proof (skip_ws_length (tail_of rest)). pose proof (tail_of_le (skip_ws (tail_of rest))).
  destruct (starts_with (Ascii.eqb "]") _); [split; [by split|lia]|].
  eapply good_weaken; [apply parse_items_good; [lia|done]|done|lia].
Qed.

Lemma parse_object_good rest :
  starts_with (Ascii.eqb "{") rest = true ->
  good (json_wf options depth) (String.length rest - 1) (parse_object options total parse rest).
Proof using Hparse Hdepth Hms.
  intros E. unfold parse_object. pose proof (tail_of_length _ _ E).
  pose proof (skip_ws_length (tail_of rest)). pose proof (tail_of_le (skip_ws (tail_of rest))).
  destruct (starts_with (Ascii.eqb "}") _); [split; [by split|lia]|].
  eapply good_weaken; [apply parse_members_good; [lia|done..]|done|lia].
Qed.

End ContainerFacts.

Lemma literal_good token rest :
  token <> EmptyString -> good trivial (String.length rest - 1) (literal total token rest).
Proof.
  intros Ht. unfold literal. case_bool; [good_fail|]. case_bool; [good_fail|].
  apply Z.ltb_ge in Heqb. unfold size in Heqb. split; [done|].
  destruct (split_at (String.length token) rest) as [E El]; [lia|].
  apply (f_equal String.length) in E. rewrite length_append, El in E.
  destruct token; [done|]. simpl in *. lia.
Qed.

Lemma parse_literal_good depth token v rest :
  token <> EmptyString -> json_wf options depth v ->
  good (json_wf options depth) (String.length rest - 1) (parse_literal total token v rest).
Proof.
  intros Ht Hv. unfold parse_literal. eapply good_bind; [by apply literal_good|].
  intros u r _ Hr. by split.
Qed.

Lemma parse_value_good fuel depth rest :
  0 <= max_string_bytes options ->
  depth <= max_depth options + 1 -> max_depth options + 2 - depth <= Z.of_nat fuel ->
  good (json_wf options depth) (String.length rest - 1) (parse_value options total fuel depth rest).
Proof.
  intros Hm. revert depth rest. induction fuel as [|fuel IH]; intros depth rest Hd Hf; [lia|].
  destruct rest as [|c rest]; [good_fail|]. cbn [parse_value].
  case_bool; [good_fail|]. apply Z.ltb_ge in Heqb.
  assert (forall r, good (json_wf options (depth + 1)) (String.length r - 1)
                      (parse_value options total fuel (depth + 1) r)) as Hp.
  { intros r. apply IH; lia. }
  destruct (Ascii.eqb c "{") eqn:E1.
  { apply parse_object_good; [done..|]. apply Ascii.eqb_eq in E1 as ->. done. }
  destruct (Ascii.eqb c "[") eqn:E2.
  { apply parse_array_good; [done..|]. apply Ascii.eqb_eq in E2 as ->. done. }
  destruct (Ascii.eqb c quote_char).
  { eapply good_bind; [by apply parse_string_good|]. intros s r Hs Hr. by split. }
  destruct (Ascii.eqb c "t"); [by apply parse_literal_good|].
  destruct (Ascii.eqb c "f"); [by apply parse_literal_good|].
  destruct (Ascii.eqb c "n"); [by apply parse_literal_good|].
  destruct (_ || _); [by apply parse_number_good|good_fail].
Qed.

End ParserFacts.

(** What a run of the decoder can give. *)
Lemma json_decode_outcome text options :
  0 <= max_string_bytes options -> 0 <= max_depth_option options ->
  match json_decode text options with
  | Ok v => json_wf options 0 v
  | Err e => err_code e <> kInternalInvariant
  end.
Proof.
  intros Hm Hd. unfold json_decode, parse_document. case_bool; [done|]. case_bool; [done|].
  assert (1 <= max_depth options \/ max_depth options = max_depth_option options) as Hdepth
    by (unfold max_depth; case_bool; lia).
  pose proof (parse_value_good options (size text) (depth_fuel options) 0 (skip_ws text) Hm) as Hg.
  unfold depth_fuel in *. destruct (parse_value _ _ _ _ _) as [[v r]|e]; simpl in Hg.
  - destruct (negb (is_empty (skip_ws r))); [done|]. case_bool; [done|]. apply Hg; lia.
  - apply Hg; lia.
Qed.

(** ** Representable values

    What holds of every value a document decodes to, whatever the options: integers of
    64 bits and no negative zero. *)
Inductive representable : Json -> Prop :=
| rep_null : representable JNull
| rep_bool b : representable (JBool b)
| rep_int i : - 2 ^ 63 <= i < 2 ^ 63 -> representable (JInt i)
| rep_real d : d <> S754_zero true -> representable (JReal d)
| rep_string s : representable (JString s)
| rep_array l : Forall representable l -> representable (JArray l)
| rep_object m : Forall (fun p => representable p.2) m -> representable (JObject m).

Definition representable_object (m : JsonObject) : Prop := Forall (fun p => representable p.2) m.

Lemma json_wf_representable options v depth : json_wf options depth v -> representable v.
Proof.
  revert depth. induction v as [|b|i|d|s|l IH|m IH] using json_rect; intros depth [_ Hv]; constructor.
  - done.
  - apply Hv.
  - induction IH as [|x l Hx _ IHl]; constructor; destruct Hv as [H1 H2]; [by eapply Hx|by apply IHl].
  - destruct Hv as [_ Hv]. induction IH as [|[k x] m Hx _ IHm]; constructor; destruct Hv as (_ & H1 & H2);
      [by eapply Hx|by apply IHm].
Qed.

Lemma representable_find m k v : representable_object m -> map_find k m = Some v -> representable v.
Proof.
  intros Hm Hf. apply map_find_Some_in in Hf. unfold representable_object in Hm.
  rewrite Forall_forall in Hm. by apply (Hm (k, v)).
Qed.

Lemma as_real_not_negative_zero v : representable v -> as_real v <> S754_zero true.
Proof. destruct 1; simpl; try done. apply double_of_int_sign. Qed.

Lemma representable_members v : representable v -> representable_object (object v).
Proof. destruct 1; try constructor. done. Qed.

Lemma representable_items v : representable v -> Forall representable (array v).
Proof. destruct 1; try constructor. done. Qed.

(** ** Properties *)

(** C40: the decoder is total and accepts only documents within its bounds.  For every
    text, it neither exhausts the depth nor the byte budget the recursion runs on, and
    what it accepts has bounded depth, 64 bit integers, finite reals, well-formed UTF-8
    strings within the bound, and strictly ascending keys. *)
Theorem json_decode_wellformed (text : string) (options : JsonDecodeOptions) :
  0 <= max_string_bytes options -> 0 <= max_depth_option options ->
  match json_decode text options with
  | Ok v => json_wf options 0 v /\ size text <= max_bytes options
  | Err e => err_code e <> kInternalInvariant
  end.
Proof.
  intros Hm Hd. pose proof (json_decode_outcome text options Hm Hd) as H.
  destruct (json_decode text options) as [v|e] eqn:E; [|done]. split; [done|].
  unfold json_decode in E. case_bool; [done|]. by apply Z.ltb_ge.
Qed.

Lemma json_decode_wellformed_witness :
  match json_decode "[1,2" default_options with
  | Ok v => json_wf default_options 0 v /\ size "[1,2" <= max_bytes default_options
  | Err e => err_code e <> kInternalInvariant
  end.
Proof. apply (json_decode_wellformed "[1,2" default_options); vm_compute; discriminate. Defined.
