(* ===== verification/RealText.v ===== *)
(** * Decimal text

    The text of an integer and of a canonical real as digits: what [std::to_string] and
    [format_canonical_real] write denotes the number that was written. *)
From Stdlib Require Import ZArith Lia Floats.SpecFloat Ascii String.
From stdpp Require Import base numbers option list strings pretty.
From S2P Require Import Prelude Doubles Rounding Identity Errors Json JsonParser.

(** ** Digits *)
Lemma all_chars_append p a b : all_chars p (String.append a b) = all_chars p a && all_chars p b.
Proof. induction a; simpl; [done|]. by rewrite IHa, andb_assoc. Qed.

Lemma digits_value_from_append acc a b :
  digits_value_from acc (String.append a b) = digits_value_from (digits_value_from acc a) b.
Proof. revert acc. induction a as [|c a IH]; intros acc; [done|]. apply IH. Qed.

Lemma digits_value_from_zeros acc n : digits_value_from acc (zeros n) = acc * 10 ^ Z.of_nat n.
Proof.
  revert acc. induction n as [|n IH]; intros acc; cbn [zeros digits_value_from]; [lia|].
  change (char_minus "0" "0") with 0. rewrite IH, Nat2Z.inj_succ, Z.pow_succ_r by lia. lia.
Qed.

Lemma zeros_digits n : all_chars is_digit (zeros n) = true.
Proof. by induction n. Qed.

Lemma zeros_length n : String.length (zeros n) = n.
Proof. induction n; simpl; congruence. Qed.

Lemma char_string_zeros n : char_string n "0" = zeros n.
Proof. induction n; simpl; congruence. Qed.

(** ** Decimal text of integers *)
Lemma read_magnitude_app m a b :
  read_magnitude m (String.append a b) =
  match read_magnitude m a with Some m' => read_magnitude m' b | None => None end.
Proof. revert m. induction a as [|c a IH]; intros m; simpl; [done|]. by case_bool. Qed.

Lemma pretty_N_char_digit r :
  (r < 10)%N -> is_digit (pretty_N_char r) = true /\ char_minus (pretty_N_char r) "0" = Z.of_N r
               /\ (Ascii.eqb "0" (pretty_N_char r) = true <-> r = 0%N).
Proof.
  intros H. assert (r = 0 \/ r = 1 \/ r = 2 \/ r = 3 \/ r = 4 \/ r = 5 \/ r = 6 \/ r = 7 \/ r = 8
    \/ r = 9)%N as Hr by lia.
  repeat (destruct Hr as [->|Hr]; [by vm_compute|]). subst. by vm_compute.
Qed.

(** The digits of a positive number: no leading zero, and the magnitude loop reads the
    number back when it fits 64 bits. *)
Lemma pretty_digits x s :
  (0 < x)%N -> exists ds, pretty_N_go x s = String.append ds s
    /\ all_chars is_digit ds = true /\ starts_with (Ascii.eqb "0") ds = false
    /\ starts_with is_digit ds = true
    /\ digits_value ds = Z.of_N x
    /\ (Z.of_N x <= 18446744073709551615 -> read_magnitude 0 ds = Some (Z.of_N x))
    /\ (forall k, (x < 10 ^ N.of_nat k)%N -> (String.length ds <= k)%nat).
Proof.
  revert s. induction (N.lt_wf_0 x) as [x _ IH]. intros s Hx. rewrite pretty_N_go_step by done.
  assert (x mod 10 < 10)%N as Hr by (apply N.mod_lt; done).
  destruct (pretty_N_char_digit _ Hr) as (D1 & D2 & D3).
  pose proof (N.div_mod x 10 ltac:(done)) as Hdm.
  assert (Hstep : forall m, m * 10 + Z.of_N (x mod 10) <= 18446744073709551615 ->
    read_magnitude m (one (pretty_N_char (x mod 10))) = Some (m * 10 + Z.of_N (x mod 10))).
  { intros m Hm. unfold one. cbn [read_magnitude]. rewrite D2.
    rewrite (proj2 (Z.ltb_ge _ _)); [done|]. apply Z.div_le_lower_bound; lia. }
  assert (forall k, (x < 10 ^ N.succ k)%N -> (x / 10 < 10 ^ k)%N) as Hdiv.
  { intros k Hk. rewrite N.pow_succ_r' in Hk. apply N.Div0.div_lt_upper_bound. lia. }
  assert (x / 10 < x)%N as Hlt by (apply N.div_lt; lia).
  set (q := (x / 10)%N) in *. set (r := (x mod 10)%N) in *. clearbody q r.
  destruct (decide (q = 0)%N) as [Hq|Hq].
  - exists (one (pretty_N_char (r))). rewrite Hq, pretty_N_go_0. unfold one at 2 3.
    simpl. rewrite D1. split_and!; try done.
    + apply not_true_is_false. rewrite D3. lia.
    + unfold digits_value, one. cbn [digits_value_from]. rewrite D2. lia.
    + intros Hle. etransitivity; [apply (Hstep 0); lia|f_equal; lia].
    + intros [|k] Hk; [simpl in Hk; lia|lia].
  - destruct (IH q) with (s := String (pretty_N_char (r)) s)
      as (ds & E & A1 & A2 & A3 & A6 & A4 & A5); [done|lia|].
    exists (String.append ds (one (pretty_N_char (r)))).
    rewrite E, append_assoc. split_and!; [done|..].
    + rewrite all_chars_append, A1. simpl. by rewrite D1.
    + destruct ds; [done|]. exact A2.
    + destruct ds; [done|]. exact A3.
    + unfold digits_value in *. rewrite digits_value_from_append, A6. unfold one. cbn [digits_value_from]. rewrite D2. lia.
    + intros Hle. rewrite read_magnitude_app, A4 by lia. rewrite Hstep by lia. f_equal. lia.
    + intros [|k] Hk; [simpl in Hk; lia|]. rewrite length_append. simpl.
      enough (String.length ds <= k)%nat by lia. apply A5.
      apply Hdiv. by rewrite <- Nat2N.inj_succ.
Qed.

Lemma to_string_pos p :
  Zpos p <= 18446744073709551615 -> exists ds, to_string (Zpos p) = ds
    /\ to_string (Zneg p) = String "-" ds
    /\ all_chars is_digit ds = true /\ starts_with (Ascii.eqb "0") ds = false
    /\ starts_with is_digit ds = true /\ read_magnitude 0 ds = Some (Zpos p)
    /\ (String.length ds <= 20)%nat.
Proof.
  intros Hp. destruct (pretty_digits (Npos p) EmptyString) as (ds & E & A1 & A2 & A3 & _ & A4 & A5); [done|].
  rewrite append_nil_r in E. exists ds.
  split_and!; try done.
  - unfold to_string, pretty, pretty_Z, pretty, pretty_positive, pretty, pretty_N.
    rewrite decide_False by done. by rewrite E.
  - by apply A4.
  - apply A5. simpl. lia.
Qed.


(** ** Plain decimals *)
Lemma to_string_nonneg z :
  0 <= z -> all_chars is_digit (to_string z) = true /\ digits_value (to_string z) = z
  /\ to_string z <> EmptyString
  /\ (starts_with (Ascii.eqb "0") (to_string z) = false \/ to_string z = "0"%string /\ z = 0).
Proof.
  intros Hz. destruct z as [|p|p]; [split_and!; try done; by right| |lia].
  destruct (pretty_digits (Npos p) EmptyString) as (ds & E & A1 & A2 & A3 & A4 & _); [done|].
  rewrite append_nil_r in E. change (to_string (Zpos p)) with (pretty_N_go (Npos p) EmptyString). rewrite E.
  split_and!; [done|done| |by left]. by destruct ds.
Qed.

(** The digits before and after the point of a text that reads as [v]. *)
Record plain (I F : string) (v : double) : Prop := {
  pl_int : all_chars is_digit I = true;
  pl_frac : all_chars is_digit F = true;
  pl_head : I <> EmptyString /\ (starts_with (Ascii.eqb "0") I = false \/ I = "0"%string);
  pl_some : F <> EmptyString;
  pl_positive : 0 < digits_value (String.append I F);
  pl_reads : double_of_decimal false (digits_value (String.append I F)) (- size F) = v
}.

Definition plain_text (t : string) (v : double) : Prop :=
  exists I F, t = String.append I (String "." F) /\ plain I F v.

Lemma find_char_skip (q p : ascii -> bool) a c b :
  all_chars q a = true -> (forall d, q d = true -> p d = false) -> p c = true ->
  find_char p (String.append a (String c b)) = Some (String.length a).
Proof.
  intros Ha Hp Hc. induction a as [|d a IH]; simpl in *; [by rewrite Hc|]. bool_hyps. by rewrite Hp, IH by done.
Qed.

Lemma find_char_none (q p : ascii -> bool) a :
  all_chars q a = true -> (forall d, q d = true -> p d = false) -> find_char p a = None.
Proof. intros Ha Hp. induction a as [|d a IH]; simpl in *; [done|]. bool_hyps. by rewrite Hp, IH by done. Qed.

Definition is_point (c : ascii) : bool := Ascii.eqb "." c.
Definition is_exponent (c : ascii) : bool := Ascii.eqb c "e" || Ascii.eqb c "E".

Lemma digit_tests d : is_digit d = true -> is_point d = false /\ is_exponent d = false /\ Ascii.eqb d "." = false.
Proof.
  intros H. assert (negb (is_digit d) || (negb (is_point d) && negb (is_exponent d) && negb (Ascii.eqb d "."))
    = true) as E by (apply (ascii_forall (fun d => negb (is_digit d) || (negb (is_point d) && negb (is_exponent d)
      && negb (Ascii.eqb d ".")))); by vm_compute).
  rewrite H in E. simpl in E. bool_hyps. by rewrite H0, H1, H2.
Qed.

Lemma digit_not_point d : is_digit d = true -> is_point d = false.
Proof. apply digit_tests. Qed.
Lemma digit_not_exponent d : is_digit d = true -> is_exponent d = false.
Proof. apply digit_tests. Qed.

(** ** Splitting a text *)
Lemma string_split n s :
  (n <= String.length s)%nat ->
  exists a b, s = String.append a b /\ String.length a = n /\ substring 0 n s = a
    /\ substring n (String.length s - n) s = b.
Proof.
  revert n. induction s as [|c s IH]; intros n Hn.
  - simpl in Hn. assert (n = 0%nat) as -> by lia. by exists EmptyString, EmptyString.
  - destruct n as [|n].
    + exists EmptyString, (String c s). split_and!; try done.
      exact (substring_0_all (String c s)).
    + simpl in Hn. destruct (IH n) as (a & b & E & E1 & E2 & E3); [lia|].
      exists (String c a), b. cbn [String.append String.length substring Nat.sub]. rewrite E2, E3.
      split_and!; congruence.
Qed.

(** ** The trailing zeros *)
Lemma get_append a c b : String.get (String.length a) (String.append a (String c b)) = Some c.
Proof. induction a; simpl; [done|exact IHa]. Qed.

Lemma zeros_snoc k : String.append (zeros k) "0" = zeros (S k).
Proof. induction k; [done|]. cbn [zeros String.append]. by rewrite IHk. Qed.

Lemma trim_zeros_spec n I F R :
  String.length F = S n ->
  exists F' k, F = String.append F' (zeros k) /\ F' <> EmptyString
    /\ trim_zeros (String.length I + 1 + S n) (String.length I)
         (String.append I (String "." (String.append F R))) = (String.length I + 1 + String.length F')%nat.
Proof.
  revert F R. induction n as [|n IH]; intros F R HF.
  - exists F, 0%nat. rewrite append_nil_r, HF. split_and!; [done|by intros ->|].
    rewrite Nat.add_1_r. cbn [trim_zeros Nat.add]. rewrite Nat.add_succ_r. cbn [trim_zeros].
    rewrite (proj2 (Nat.ltb_ge _ _)) by lia. cbn [andb]. lia.
  - destruct (string_split (S n) F) as (a & b & -> & Ha & _); [lia|]. rewrite length_append in HF.
    destruct b as [|c [|? ?]]; simpl in HF; try lia. rewrite !append_assoc. cbn [String.append].
    rewrite Nat.add_succ_r. cbn [trim_zeros]. rewrite (proj2 (Nat.ltb_lt _ _)) by lia. cbn [andb].
    assert (String.get (String.length I + 1 + S n) (String.append I (String "." (String.append a (String c R))))
            = Some c) as ->.
    { pose proof (get_append (String.append I (String "." a)) c R) as E. rewrite length_append in E.
      rewrite append_assoc in E. cbn [String.append String.length] in E. rewrite <- E. f_equal. lia. }
    destruct (Ascii.eqb c "0") eqn:Ec.
    + apply Ascii.eqb_eq in Ec as ->. destruct (IH a (String "0" R) Ha) as (F' & k & -> & HF' & E).
      exists F', (S k). by rewrite append_assoc, zeros_snoc.
    + exists (String.append a (String c EmptyString)), 0%nat. rewrite append_nil_r, length_append. cbn [String.length].
      split_and!; [done|by destruct a|lia].
Qed.

Lemma digits_value_from_nonneg acc s : 0 <= acc -> all_chars is_digit s = true -> 0 <= digits_value_from acc s.
Proof.
  revert acc. induction s as [|c s IH]; intros acc Ha Hs; [done|]. simpl in Hs. bool_hyps. apply IH; [|done].
  assert (negb (is_digit c) || (0 <=? char_minus c "0") = true) as E
    by (apply (ascii_forall (fun c => negb (is_digit c) || (0 <=? char_minus c "0"))); by vm_compute).
  rewrite H in E. simpl in E. apply Z.leb_le in E. lia.
Qed.

(** Dropping the trailing zeros keeps the number. *)
Lemma plain_trim I F k v :
  F <> EmptyString -> plain I (String.append F (zeros k)) v -> plain I F v.
Proof.
  intros HF [H1 H2 H3 _ H5 H6]. rewrite all_chars_append in H2. bool_hyps.
  rewrite <- append_assoc in H5, H6. unfold digits_value in *. rewrite digits_value_from_append, digits_value_from_zeros in *.
  pose proof (Z.pow_pos_nonneg 10 (Z.of_nat k) ltac:(lia) ltac:(lia)).
  assert (0 < digits_value_from 0 (String.append I F)) as Hp.
  { assert (0 <= digits_value_from 0 (String.append I F)); [|nia].
    apply digits_value_from_nonneg; [done|]. rewrite all_chars_append, H1. by simpl. }
  split; try done. rewrite <- H6. rewrite size_append, (f_equal Z.of_nat (zeros_length k) : size (zeros k) = _).
  replace (- (size F + Z.of_nat k)) with (- size F - Z.of_nat k) by lia.
  symmetry. apply double_of_decimal_zeros; [exact Hp|lia].
Qed.

(** The text [expand_exponent] trims. *)
Lemma trimmed_plain I F v :
  plain I F v ->
  let out := String.append I (String "." F) in
  exists t, substring 0 (trim_zeros (String.length out) (String.length I) out) out = t /\ plain_text t v.
Proof.
  intros Hp. cbv zeta. destruct F as [|c F0] eqn:EF; [by destruct (pl_some _ _ _ Hp)|]. rewrite <- EF in *.
  destruct (trim_zeros_spec (String.length F0) I F EmptyString) as (F' & k & E & HF' & Et); [by rewrite EF|].
  rewrite append_nil_r in Et.
  assert (String.length (String.append I (String "." F)) = (String.length I + 1 + S (String.length F0))%nat) as ->
    by (rewrite length_append, EF; simpl; lia).
  rewrite Et. exists (String.append I (String "." F')). split.
  - rewrite E. pose proof (substring_0_append (String.append I (String "." F')) (zeros k)) as Es.
    rewrite length_append, append_assoc in Es. cbn [String.append String.length] in Es. rewrite <- Es. f_equal. lia.
  - exists I, F'. split; [done|]. apply (plain_trim I F' k); [done|]. by rewrite <- E.
Qed.

(** ** The two notations of [std::to_chars] *)
Lemma split_point_digits s : all_chars is_digit s = true ->
  split_point s false = (s, EmptyString) /\ split_point s true = (EmptyString, s).
Proof.
  induction s as [|c s IH]; intros H; [done|]. simpl in H. bool_hyps. destruct (IH H0) as [E1 E2].
  destruct (digit_tests c H) as (_ & _ & E). simpl. by rewrite E, E1, E2.
Qed.

Lemma split_point_spec a b : all_chars is_digit a = true -> all_chars is_digit b = true ->
  split_point (String.append a (String "." b)) false = (a, b).
Proof.
  intros Ha Hb. induction a as [|c a IH].
  - simpl. by apply split_point_digits.
  - simpl in Ha. bool_hyps. destruct (digit_tests c H) as (_ & _ & E). simpl. by rewrite E, IH.
Qed.

(** The digits of a positive number. *)
Record digits_of (text : string) (d : Z) : Prop := {
  do_digits : all_chars is_digit text = true;
  do_value : digits_value text = d;
  do_head : text <> EmptyString /\ starts_with (Ascii.eqb "0") text = false
}.

Lemma to_string_digits_of d : 0 < d -> digits_of (to_string d) d.
Proof.
  intros Hd. destruct (to_string_nonneg d ltac:(lia)) as (H1 & H2 & H3 & [H4|[_ ?]]); [done|lia].
Qed.

Lemma plain_zero_point text d x v n :
  digits_of text d -> 0 < d -> double_of_decimal false d x = v -> size text + Z.of_nat n = - x ->
  plain "0" (String.append (zeros n) text) v.
Proof.
  intros [H1 H2 [H3 _]] Hd Hv Hx.
  assert (digits_value (String.append "0" (String.append (zeros n) text)) = d) as E.
  { unfold digits_value in *. cbn [String.append digits_value_from]. change (char_minus "0" "0") with 0.
    rewrite digits_value_from_append, digits_value_from_zeros. exact H2. }
  split.
  - done.
  - by rewrite all_chars_append, zeros_digits.
  - split; [done|by right].
  - intros E0. apply H3. destruct n; simpl in E0; [exact E0|done].
  - by rewrite E.
  - rewrite E, <- Hv. f_equal. rewrite size_append. unfold size at 1. rewrite zeros_length. lia.
Qed.

Lemma plain_split a b d x v :
  digits_of (String.append a b) d -> 0 < d -> double_of_decimal false d x = v -> size b = - x ->
  a <> EmptyString -> b <> EmptyString -> plain a b v.
Proof.
  intros [H1 H2 [H3 H4]] Hd Hv Hx Ha Hb. rewrite all_chars_append in H1. bool_hyps.
  split; try done.
  - split; [done|]. left. by destruct a.
  - by rewrite H2.
  - rewrite H2, <- Hv. f_equal. lia.
Qed.

Lemma plain_integer text d v :
  digits_of text d -> 0 < d -> double_of_decimal false d 0 = v -> plain text "0" v.
Proof.
  intros [H1 H2 [H3 H4]] Hd Hv.
  assert (digits_value (String.append text "0") = d * 10 ^ 1) as E.
  { unfold digits_value in *. rewrite digits_value_from_append, H2. change "0"%string with (zeros 1).
    by rewrite digits_value_from_zeros. }
  split; try done.
  - split; [done|by left].
  - rewrite E. lia.
  - rewrite E, <- Hv. apply (double_of_decimal_zeros d 0 1); lia.
Qed.

Lemma expand_plain text d x v t mantissa :
  digits_of text d -> 0 < d -> double_of_decimal false d x = v ->
  split_point mantissa false = (substring 0 1 text, substring 1 (String.length text - 1) text) ->
  expand_exponent mantissa (x + size text - 1) = Some t -> plain_text t v.
Proof.
  intros Hd0 Hd Hv Hm. unfold expand_exponent. case_bool; [done|]. rewrite Hm.
  pose proof (do_head _ _ Hd0) as [Hne _].
  destruct (string_split 1 text) as (a & b & E & Ha & -> & ->); [destruct text; simpl; [done|lia]|].
  rewrite <- E. cbv zeta. assert (size a + (x + size text - 1) = x + size text) as -> by (unfold size at 1; lia).
  set (point := x + size text). intros Ht.
  assert (exists I F, plain I F v /\ (if point <=? 0 then String.append "0." (String.append (char_string (Z.to_nat (- point)) "0") text)
     else if size text <=? point
          then String.append text (String.append (char_string (Z.to_nat (point - size text)) "0") ".0")
          else String.append (substring 0 (Z.to_nat point) text) (String "." (drop_string (Z.to_nat point) text)))
     = String.append I (String "." F)) as (I & F & HP & Eo).
  { destruct (Z.leb_spec point 0) as [Hp|Hp]; [|destruct (Z.leb_spec (size text) point) as [Hp'|Hp']].
    - exists "0"%string, (String.append (zeros (Z.to_nat (- point))) text). split.
      + apply (plain_zero_point text d x); try done. unfold point. lia.
      + by rewrite char_string_zeros.
    - exists (String.append text (zeros (Z.to_nat (point - size text)))), "0"%string. split.
      + apply (plain_integer _ (d * 10 ^ x)).
        * destruct Hd0 as [H1 H2 [H3 H4]]. split.
          -- by rewrite all_chars_append, H1, zeros_digits.
          -- unfold digits_value in *. rewrite digits_value_from_append, H2, digits_value_from_zeros. f_equal. f_equal.
             unfold point in *. lia.
          -- by destruct text.
        * pose proof (Z.pow_pos_nonneg 10 x ltac:(lia) ltac:(unfold point in *; lia)). nia.
        * rewrite <- Hv. rewrite <- (double_of_decimal_zeros d x x) by (unfold point in *; lia). f_equal. lia.
      + by rewrite char_string_zeros, append_assoc.
    - destruct (string_split (Z.to_nat point) text) as (a' & b' & E' & Ha' & Es & Eb); [unfold size in *; lia|].
      exists a', b'. unfold drop_string. rewrite Es, Eb. split; [|done]. rewrite E' in Hd0.
      assert (size text = size a' + size b') as Esz by (rewrite E'; apply size_append).
      assert (size a' = point) as Esa by (unfold size; rewrite Ha'; lia).
      apply (plain_split a' b' d x); try done.
      + unfold point in *. lia.
      + intros ->. unfold size in Esa. simpl in Esa. lia.
      + intros ->. unfold size at 3 in Esz. simpl in Esz. lia. }
  rewrite Eo in Ht. rewrite (find_char_skip is_digit (Ascii.eqb ".")) in Ht by (try apply (pl_int _ _ _ HP); try exact digit_not_point; done).
  injection Ht as <-. destruct (trimmed_plain I F v HP) as (t & <- & Hpt). exact Hpt.
Qed.

Lemma read_exponent_value e s n : read_exponent e s = Some n -> n = digits_value_from e s.
Proof.
  revert e. induction s as [|c s IH]; intros e; simpl; [by intros [= <-]|].
  destruct (negb (is_digit c)); [done|]. case_bool; [done|]. apply IH.
Qed.

Lemma drop_string_0 s : drop_string 0 s = s.
Proof. unfold drop_string. rewrite Nat.sub_0_r. apply substring_0_all. Qed.

(** Digits and points. *)
Definition is_decimal (c : ascii) : bool := is_digit c || is_point c.

Lemma decimal_not_exponent c : is_decimal c = true -> is_exponent c = false.
Proof.
  unfold is_decimal. destruct (is_digit c) eqn:E; [intros _; by apply digit_not_exponent|].
  unfold is_point. cbn [orb]. intros H. apply Ascii.eqb_eq in H as <-. done.
Qed.

Lemma digits_decimal s : all_chars is_digit s = true -> all_chars is_decimal s = true.
Proof.
  induction s as [|c s IH]; simpl; [done|]. intros H. bool_hyps. unfold is_decimal at 1. by rewrite H, IH.
Qed.

(** A positive text has no sign. *)
Lemma decimal_head s : all_chars is_decimal s = true ->
  match s with String c _ => Ascii.eqb c "-" | EmptyString => false end = false.
Proof.
  destruct s as [|c s]; [done|]. simpl. intros H. bool_hyps. destruct (Ascii.eqb c "-") eqn:E; [|done].
  apply Ascii.eqb_eq in E as ->. done.
Qed.

Lemma fixed_plain m e d x :
  let v := S754_finite false m e in
  0 < d -> valid_binary 53 1024 v = true -> double_of_decimal false d x = v ->
  let text := fixed_notation m e d x in
  (all_chars is_digit text = true /\ plain text "0" v) \/ (all_chars is_decimal text = true /\ plain_text text v).
Proof.
  intros v Hd Hv Hr text. unfold text, fixed_notation. cbv zeta.
  pose proof (to_string_digits_of d Hd) as Hds. destruct (Z.leb_spec 0 x) as [Hx|Hx].
  - left. pose proof (Z.pow_pos_nonneg 10 x ltac:(lia) Hx) as Hp.
    assert (double_of_decimal false (d * 10 ^ x) 0 = v) as Hi.
    { rewrite <- Hr, <- (double_of_decimal_zeros d x x) by lia. f_equal. lia. }
    pose proof (integer_text (d * 10 ^ x) m e ltac:(nia) Hv Hi) as H. destruct (scaled (Zpos m) e) as [num den].
    destruct H as [H1 H2]. pose proof (to_string_digits_of (num / den) H1) as Ht.
    split; [by destruct Ht|]. by apply (plain_integer _ (num / den)).
  - right. set (text' := to_string d) in *. fold (size text').
    destruct (Z.leb_spec (size text' + x) 0) as [Hp|Hp].
    + split.
      * cbn [String.append all_chars]. change (is_decimal "0") with true.
        change (is_decimal ".") with true. cbn [andb]. rewrite all_chars_append.
        rewrite !digits_decimal; [done|by destruct Hds|apply zeros_digits].
      * exists "0"%string, (String.append (zeros (Z.to_nat (- (size text' + x)))) text'). split; [done|].
        apply (plain_zero_point text' d x); try done. lia.
    + destruct (string_split (Z.to_nat (size text' + x)) text') as (a & b & E & Ha & Es & Eb); [unfold size in *; lia|].
      assert (Z.to_nat (- x) = (String.length text' - Z.to_nat (size text' + x))%nat) as -> by (unfold size in *; lia).
      rewrite Es, Eb. assert (size text' = size a + size b) as Esz by (rewrite E; apply size_append).
      assert (size a = size text' + x) as Esa by (unfold size at 1; rewrite Ha; lia).
      split.
      * rewrite E in Hds. destruct Hds as [H _ _]. rewrite all_chars_append in H. bool_hyps.
        rewrite all_chars_append, digits_decimal by done. cbn [all_chars String.append].
        by rewrite digits_decimal.
      * exists a, b. split; [done|]. rewrite E in Hds. apply (plain_split a b d x); try done.
        -- lia.
        -- intros ->. unfold size at 1 in Esa. simpl in Esa. lia.
        -- intros ->. unfold size at 3 in Esz. simpl in Esz. lia.
Qed.

(** The mantissa and the exponent of the scientific notation. *)
Lemma scientific_parts d x :
  0 < d ->
  exists mantissa sign tail,
    scientific_notation d x = String.append mantissa (String "e" (String sign tail))
    /\ all_chars is_decimal mantissa = true /\ all_chars is_digit tail = true
    /\ split_point mantissa false
       = (substring 0 1 (to_string d), substring 1 (String.length (to_string d) - 1) (to_string d))
    /\ (sign = "-"%char /\ - digits_value tail = x + size (to_string d) - 1
        \/ sign = "+"%char /\ digits_value tail = x + size (to_string d) - 1).
Proof.
  intros Hd. pose proof (to_string_digits_of d Hd) as Hds. unfold scientific_notation. cbv zeta.
  set (text := to_string d) in *. fold (size text). set (y := x + size text - 1).
  destruct (to_string_nonneg (Z.abs y) ltac:(lia)) as (A1 & A2 & _).
  assert (forall w, all_chars is_digit (pad_left w (to_string (Z.abs y))) = true
    /\ digits_value (pad_left w (to_string (Z.abs y))) = Z.abs y) as Htail.
  { intros w. unfold pad_left. rewrite all_chars_append, zeros_digits. split; [done|].
    unfold digits_value in *. by rewrite digits_value_from_append, digits_value_from_zeros. }
  destruct (Htail 2%nat) as [T1 T2]. clear Htail. set (tail := pad_left 2 (to_string (Z.abs y))) in *. clearbody tail.
  destruct Hds as [H1 _ [H3 _]].
  destruct (string_split 1 text) as (a & b & E & Ha & Es & Eb); [destruct text; simpl; [done|lia]|].
  rewrite E in H1. rewrite all_chars_append in H1. bool_hyps.
  replace (x + size text - 1) with y in * by done.
  assert (exists mantissa, (if size text =? 1 then text
     else String.append (substring 0 1 text) (String.append "." (substring 1 (String.length text - 1) text))) = mantissa
     /\ all_chars is_decimal mantissa = true /\ split_point mantissa false = (a, b)) as (mantissa & -> & M1 & M2).
  { rewrite Es, Eb. destruct (Z.eqb_spec (size text) 1) as [E1|E1].
    - exists text. rewrite E. assert (b = EmptyString) as ->.
      { rewrite E, size_append in E1. unfold size in E1. rewrite Ha in E1. destruct b; simpl in *; [done|lia]. }
      rewrite append_nil_r. split_and!; [done|by apply digits_decimal|by apply split_point_digits].
    - exists (String.append a (String "." b)). split_and!; [done| |by apply split_point_spec].
      rewrite all_chars_append, digits_decimal by done. cbn [all_chars]. by rewrite digits_decimal. }
  rewrite Es, Eb. destruct (Z.ltb_spec y 0).
  - exists mantissa, "-"%char, tail. split_and!; try done. left. split; [done|lia].
  - exists mantissa, "+"%char, tail. split_and!; try done. right. split; [done|lia].
Qed.

(** What [format_canonical_real] writes of a positive value denotes the value. *)
Lemma format_real_plain m e t :
  valid_binary 53 1024 (S754_finite false m e) = true ->
  format_canonical_real (S754_finite false m e) = Some t -> plain_text t (S754_finite false m e).
Proof.
  intros Hv. unfold format_canonical_real. change (deq (S754_finite false m e) d_zero) with false.
  cbn [is_finite negb to_chars_double]. destruct (shortest_decimal m e) as [[d x]|] eqn:Es; [|done].
  apply shortest_decimal_reads in Es as [Hd Hr]. cbv zeta.
  destruct (String.length (fixed_notation m e d x) <=? String.length (scientific_notation d x))%nat.
  - destruct (fixed_plain m e d x Hd Hv Hr) as [[Ha HP]|[Ha HP]].
    + rewrite decimal_head by by apply digits_decimal. rewrite drop_string_0.
      change (fun c => Ascii.eqb c "e" || Ascii.eqb c "E") with is_exponent.
      rewrite (find_char_none is_digit is_exponent) by (done || exact digit_not_exponent).
      rewrite (find_char_none is_digit (Ascii.eqb ".")) by (done || exact digit_not_point).
      intros [= <-]. by eexists _, _.
    + rewrite decimal_head by done. rewrite drop_string_0.
      change (fun c => Ascii.eqb c "e" || Ascii.eqb c "E") with is_exponent.
      rewrite (find_char_none is_decimal is_exponent) by (done || exact decimal_not_exponent).
      destruct HP as (I & F & E & HP). rewrite E in *.
      rewrite (find_char_skip is_digit (Ascii.eqb ".")) by (try apply (pl_int _ _ _ HP); try exact digit_not_point; done).
      intros [= <-]. by eexists _, _.
  - destruct (scientific_parts d x Hd) as (mantissa & sign & tail & -> & M1 & T1 & M2 & Hs).
    assert (match String.append mantissa (String "e" (String sign tail)) with String c _ => Ascii.eqb c "-" | _ => false end
            = false) as -> by (pose proof (decimal_head mantissa M1); by destruct mantissa).
    rewrite drop_string_0. change (fun c => Ascii.eqb c "e" || Ascii.eqb c "E") with is_exponent.
    rewrite (find_char_skip is_decimal is_exponent) by (done || exact decimal_not_exponent).
    rewrite substring_0_append.
    assert (drop_string (String.length mantissa + 1) (String.append mantissa (String "e" (String sign tail))) = String sign tail) as ->.
    { pose proof (drop_string_app (String.append mantissa "e") (String sign tail)) as E.
      rewrite length_append, append_assoc in E. exact E. }
    assert (exists n, (sign = "-"%char \/ sign = "+"%char)
      /\ (forall k, read_exponent 0 tail = Some k -> (if Ascii.eqb sign "-" then - k else k) = n)
      /\ n = x + size (to_string d) - 1) as (n & Hsign & Hn & En).
    { exists (x + size (to_string d) - 1). split_and!; [destruct Hs as [[-> _]|[-> _]]; auto| |done].
      intros k Hk. apply read_exponent_value in Hk as ->. by destruct Hs as [[-> ?]|[-> ?]]. }
    assert (Ascii.eqb sign "+" || Ascii.eqb sign "-" = true) as -> by (by destruct Hsign as [-> | ->]).
    destruct (is_empty tail); [done|]. destruct (read_exponent 0 tail) as [k|] eqn:Ek; [|done].
    rewrite (Hn k eq_refl), En. destruct (expand_exponent _ _) as [expanded|] eqn:Ee; [|done].
    intros [= <-]. eapply expand_plain; [by apply to_string_digits_of|done|exact Hr|exact M2|exact Ee].
Qed.
