(* ===== verification/JsonText.v ===== *)
(** * Canonical JSON reads back

    The round trip of the writer of [Json.v] and the decoder of [JsonParser.v]: numbers,
    strings and containers as they are written are read back, whatever follows them.  The
    reals are the non-negative ones of at most 64 characters; two lemmas show what happens
    to others. *)
From Stdlib Require Import ZArith Lia Floats.SpecFloat Ascii String.
From stdpp Require Import base numbers option list strings pretty.
From S2P Require Import Prelude Doubles Rounding Identity Errors Json JsonParser RealText.

(** ** Reading numbers back *)
Definition ends_number (tail : string) : bool :=
  negb (starts_with (fun c => is_digit c || Ascii.eqb c "." || Ascii.eqb c "e" || Ascii.eqb c "E") tail).

Lemma scan_digits_append ds tail :
  all_chars is_digit ds = true -> starts_with is_digit tail = false ->
  scan_digits (String.append ds tail) = (ds, tail).
Proof.
  induction ds as [|c ds IH]; simpl.
  - intros _ Ht. destruct tail as [|c tail]; simpl in *; [done|]. by rewrite Ht.
  - intros H Ht. bool_hyps. rewrite H, IH by done. done.
Qed.

Lemma ends_number_spec tail :
  ends_number tail = true ->
  starts_with is_digit tail = false /\ starts_with (Ascii.eqb ".") tail = false
  /\ starts_with (fun c => Ascii.eqb c "e" || Ascii.eqb c "E") tail = false.
Proof.
  unfold ends_number. destruct tail as [|c tail]; [done|]. cbn [starts_with].
  rewrite (Ascii.eqb_sym "." c).
  destruct (is_digit c), (Ascii.eqb c "."), (Ascii.eqb c "e"), (Ascii.eqb c "E"); done.
Qed.

Lemma starts_with_append p a b : starts_with p a = true -> starts_with p (String.append a b) = true.
Proof. by destruct a. Qed.

Lemma starts_with_append_false p a b :
  a <> EmptyString -> starts_with p a = false -> starts_with p (String.append a b) = false.
Proof. by destruct a. Qed.

Section RoundTrip.
Context (options : JsonDecodeOptions) (total : Z).

Lemma scan_number_int neg ds tail :
  all_chars is_digit ds = true -> starts_with is_digit ds = true ->
  starts_with (Ascii.eqb "0") ds = false \/ ds = "0"%string -> ends_number tail = true ->
  scan_number total (String.append (if (neg : bool) then "-" else EmptyString) (String.append ds tail))
  = Ok (mk_token neg ds None None, tail).
Proof.
  intros Hd H1 H0 Ht. apply ends_number_spec in Ht as (T1 & T2 & T3).
  unfold scan_number. set (r0 := String.append ds tail).
  assert (Er : starts_with (Ascii.eqb "-") r0 = false).
  { unfold r0. destruct ds as [|c ds]; [done|]. simpl in *. destruct (Ascii.eqb "-" c) eqn:E; [|done].
    apply Ascii.eqb_eq in E as <-. done. }
  assert ((if starts_with (Ascii.eqb "-") (String.append (if neg then "-" else EmptyString) r0)
           then tail_of (String.append (if neg then "-" else EmptyString) r0)
           else String.append (if neg then "-" else EmptyString) r0) = r0) as ->.
  { destruct neg; simpl; [done|]. by rewrite Er. }
  assert (starts_with (Ascii.eqb "-") (String.append (if neg then "-" else EmptyString) r0) = neg) as ->.
  { destruct neg; simpl; [done|]. by rewrite Er. }
  unfold r0. rewrite starts_with_append by done. cbn [negb].
  assert ((if starts_with (Ascii.eqb "0") (String.append ds tail) then
             if starts_with is_digit (tail_of (String.append ds tail))
             then fail total kJsonSyntax "number has a leading zero" (tail_of (String.append ds tail))
             else Ok ("0"%string, tail_of (String.append ds tail))
           else Ok (scan_digits (String.append ds tail))) = Ok (E := JsonError) (ds, tail)) as ->.
  { destruct H0 as [H0| ->].
    - rewrite starts_with_append_false by (by destruct ds). by rewrite scan_digits_append.
    - simpl. by rewrite T1. }
  cbn [mbind result_bind].
  unfold scan_fraction. rewrite T2. cbn [mbind result_bind].
  unfold scan_exponent. rewrite T3. done.
Qed.

Lemma size_diff a tail : size (String.append a tail) - size tail = size a.
Proof. rewrite size_append. lia. Qed.

Lemma parse_int_token (neg : bool) (ds : string) (z : Z) (tail : string) :
  all_chars is_digit ds = true -> starts_with is_digit ds = true ->
  starts_with (Ascii.eqb "0") ds = false \/ ds = "0"%string -> (String.length ds <= 20)%nat ->
  read_magnitude 0 ds = Some z -> (if neg then z <= 2 ^ 63 else z < 2 ^ 63) ->
  ends_number tail = true ->
  parse_number total (String.append (if (neg : bool) then "-" else EmptyString) (String.append ds tail))
  = Ok (JInt (if neg then - z else z), tail).
Proof.
  intros H1 H2 H3 Hl Hz Hb Ht. unfold parse_number. rewrite scan_number_int by done.
  cbn [mbind result_bind].
  rewrite <- append_assoc, size_diff, size_append.
  rewrite (proj2 (Z.ltb_ge 64 _)) by (unfold size; destruct neg; simpl; lia).
  cbn [fraction exponent]. unfold integer_value, kInt64Max. cbn [int_digits negative]. rewrite Hz.
  destruct neg; [rewrite (proj2 (Z.ltb_ge (9223372036854775807 + 1) z)) by lia
                |rewrite (proj2 (Z.ltb_ge 9223372036854775807 z)) by lia]; done.
Qed.

Lemma parse_int i tail :
  - 2 ^ 63 <= i < 2 ^ 63 -> ends_number tail = true ->
  parse_number total (String.append (format_int i) tail) = Ok (JInt i, tail).
Proof.
  intros Hi Ht. unfold format_int. destruct i as [|p|p].
  - apply (parse_int_token false "0" 0); try done; [by right|simpl; lia].
  - destruct (to_string_pos p) as (ds & -> & _ & A1 & A2 & A3 & A4 & A5); [lia|].
    apply (parse_int_token false ds (Zpos p)); first [done|by left|lia].
  - destruct (to_string_pos p) as (ds & _ & -> & A1 & A2 & A3 & A4 & A5); [lia|].
    apply (parse_int_token true ds (Zpos p)); first [done|by left|lia].
Qed.

(** The first character of a written integer. *)
Lemma format_int_head i :
  - 2 ^ 63 <= i < 2 ^ 63 ->
  starts_with (fun c => Ascii.eqb c "-" || is_digit c) (format_int i) = true.
Proof.
  intros Hi. unfold format_int. destruct i as [|p|p]; [done|..];
    destruct (to_string_pos p) as (ds & E1 & E2 & A1 & A2 & A3 & _); try lia; rewrite ?E1, ?E2; [|done].
  destruct ds as [|c ds]; [done|]. simpl in *. by rewrite A3, orb_true_r.
Qed.

(** A real as it is written: digits, a point, digits. *)
Lemma scan_number_real I F tail :
  all_chars is_digit I = true -> all_chars is_digit F = true ->
  I <> EmptyString /\ (starts_with (Ascii.eqb "0") I = false \/ I = "0"%string) -> F <> EmptyString ->
  ends_number tail = true ->
  scan_number total (String.append I (String "." (String.append F tail)))
  = Ok (mk_token false I (Some F) None, tail).
Proof.
  intros H1 H2 [H3 H4] H5 Ht. apply ends_number_spec in Ht as (T1 & _ & T3).
  unfold scan_number. set (r0 := String.append I _).
  assert (starts_with is_digit r0 = true) as Hd.
  { unfold r0. apply starts_with_append. destruct I; [done|]. simpl in *. by bool_hyps. }
  assert (starts_with (Ascii.eqb "-") r0 = false) as ->.
  { destruct r0 as [|c r]; [done|]. simpl in *. destruct (Ascii.eqb "-" c) eqn:E; [|done].
    apply Ascii.eqb_eq in E as <-. done. }
  rewrite Hd. cbn [negb]. unfold r0.
  assert ((if starts_with (Ascii.eqb "0") (String.append I (String "." (String.append F tail))) then
             if starts_with is_digit (tail_of (String.append I (String "." (String.append F tail))))
             then fail total kJsonSyntax "number has a leading zero" (tail_of (String.append I (String "." (String.append F tail))))
             else Ok ("0"%string, tail_of (String.append I (String "." (String.append F tail))))
           else Ok (scan_digits (String.append I (String "." (String.append F tail)))))
          = Ok (E := JsonError) (I, String "." (String.append F tail))) as ->.
  { destruct H4 as [H4| ->]; [|done]. rewrite starts_with_append_false by done. by rewrite scan_digits_append. }
  cbn [mbind result_bind]. unfold scan_fraction. cbn [starts_with tail_of]. change (Ascii.eqb "." ".") with true. cbv iota.
  rewrite starts_with_append by (destruct F; [done|]; simpl in *; by bool_hyps). cbn [negb].
  rewrite scan_digits_append by done. cbn [mbind result_bind]. unfold scan_exponent. by rewrite T3.
Qed.

Lemma parse_plain t m e tail :
  plain_text t (S754_finite false m e) -> size t <= 64 -> ends_number tail = true ->
  parse_number total (String.append t tail) = Ok (JReal (S754_finite false m e), tail).
Proof.
  intros (I & F & -> & HP) Hs Ht. unfold parse_number.
  assert (String.append (String.append I (String "." F)) tail = String.append I (String "." (String.append F tail))) as E
    by by rewrite append_assoc.
  rewrite E, scan_number_real, <- E by (done || apply HP). cbn [mbind result_bind].
  rewrite size_diff, (proj2 (Z.ltb_ge 64 _)) by done. cbn [fraction exponent]. unfold real_value.
  cbn [fraction exponent int_digits negative]. change (default EmptyString (Some F)) with F. unfold from_chars_double.
  replace (0 - size F) with (- size F) by lia. by rewrite (pl_reads _ _ _ HP).
Qed.

(** A non negative real whose text is within the bound of a number literal. *)
Definition readable_real (d : double) : bool :=
  match d with
  | S754_zero negative => negb negative
  | S754_finite negative _ _ =>
      negb negative && valid_binary 53 1024 d
      && match format_canonical_real d with Some t => size t <=? 64 | None => false end
  | _ => false
  end.

Lemma readable_real_text d :
  readable_real d = true ->
  exists t, format_canonical_real d = Some t /\ t <> EmptyString /\ starts_with is_digit t = true
    /\ forall tail, ends_number tail = true -> parse_number total (String.append t tail) = Ok (JReal d, tail).
Proof.
  destruct d as [[]| | |[] m e]; try done.
  - intros _. exists "0.0"%string. split_and!; try done. intros tail Ht.
    pose proof (scan_number_real "0" "0" tail eq_refl eq_refl) as E. cbn [String.append] in *. unfold parse_number.
    rewrite E by first [done | split; [done|by right]]. cbn [mbind result_bind].
    rewrite (proj2 (Z.ltb_ge 64 _)); [done|]. unfold size. cbn [String.length]. lia.
  - cbn [readable_real negb]. intros H. bool_hyps. destruct (format_canonical_real _) as [t|] eqn:Et; [|done].
    apply Z.leb_le in H0. apply format_real_plain in Et; [|done]. exists t. split; [done|].
    pose proof Et as (I & F & E & HP). split_and!.
    + rewrite E. by destruct I.
    + rewrite E. apply starts_with_append. destruct HP as [P1 _ [P3 _] _ _ _]. destruct I; [done|].
      simpl in *. by bool_hyps.
    + intros tail Ht. by apply parse_plain.
Qed.

End RoundTrip.

(** ** Reading strings back *)
Lemma escape_body_app a b : escape_body (String.append a b) = String.append (escape_body a) (escape_body b).
Proof. induction a; simpl; [done|]. by rewrite IHa, append_assoc. Qed.

Lemma escape_char_high c : 128 <= byte_of_ascii c -> escape_char c = one c.
Proof.
  intros Hc. assert ((byte_of_ascii c <? 128) || String.eqb (escape_char c) (one c) = true) as E.
  { apply (ascii_forall (fun c => (byte_of_ascii c <? 128) || String.eqb (escape_char c) (one c))).
    by vm_compute. }
  rewrite (proj2 (Z.ltb_ge _ _)) in E by done. by apply String.eqb_eq in E.
Qed.

Lemma utf8_tail_high n v s v' :
  utf8_tail n v s = Some v' -> String.length s = n ->
  all_chars (fun c => 128 <=? byte_of_ascii c) s = true.
Proof.
  revert v s; induction n as [|n IH]; intros v [|c s]; simpl; try done. intros H [= Hl].
  destruct (Z.land (byte_of_ascii c) 192 =? 128) eqn:E; [|done]. simpl in H.
  apply IH in H; [|done]. rewrite H, andb_true_r.
  assert (negb (Z.land (byte_of_ascii c) 192 =? 128) || (128 <=? byte_of_ascii c) = true) as F
    by (apply (ascii_forall (fun c => negb (Z.land (byte_of_ascii c) 192 =? 128)
          || (128 <=? byte_of_ascii c))); by vm_compute).
  by rewrite E in F.
Qed.

(** A decoded chunk is one ASCII character or bytes above it, written verbatim. *)
Lemma chunk_cases chunk cp :
  decode_utf8 chunk = Some (String.length chunk, cp) ->
  (exists c, chunk = one c /\ byte_of_ascii c < 128)
  \/ (exists c s, chunk = String c s /\ 128 <= byte_of_ascii c /\ escape_body chunk = chunk).
Proof.
  destruct chunk as [|c s]; [done|]. cbn [decode_utf8].
  destruct (byte_of_ascii c <? 128) eqn:Eb.
  - intros [= Hl _]. left. exists c. split; [|lia]. by destruct s.
  - destruct (utf8_lead (byte_of_ascii c)) as [[[n v] minimum]|] eqn:El; [|done].
    destruct (_ <? n)%nat eqn:Hlen; [done|]. destruct (utf8_tail _ _ _) as [v'|] eqn:Et; [|done].
    destruct (utf8_value_ok v' minimum); [|done]. intros [= Hl _]. right. exists c, s.
    apply Z.ltb_ge in Eb. split; [done|]. split; [done|].
    apply utf8_tail_high in Et; [|simpl in *; lia]. cbn [escape_body].
    rewrite escape_char_high by done. simpl. f_equal.
    clear -Et. induction s as [|d s IH]; [done|]. simpl in *. bool_hyps. apply Z.leb_le in H.
    rewrite escape_char_high by done. simpl. by rewrite IH.
Qed.

Section RoundTripStrings.
Context (options : JsonDecodeOptions) (total : Z).

(** The writer's escapes, read back. *)
Lemma parse_escaped_char c R :
  byte_of_ascii c < 128 -> escape_char c <> one c ->
  exists c0 e, escape_char c = String c0 e /\ Ascii.eqb c0 quote_char = false
    /\ parse_char total c0 (String.append e R) = Ok (one c, R).
Proof.
  intros Hc Hne. destruct c as [[] [] [] [] [] [] [] []];
    first [exfalso; revert Hc; vm_compute; discriminate
          |exfalso; apply Hne; reflexivity
          |do 2 eexists; split; [reflexivity|split; reflexivity]].
Qed.

Lemma parse_plain_chunk c s R cp :
  decode_utf8 (String c s) = Some (String.length (String c s), cp) ->
  escape_char c = one c -> byte_of_ascii c <> 34 ->
  Ascii.eqb c quote_char = false
  /\ parse_char total c (String.append s R) = Ok (String c s, R).
Proof.
  intros Hd He Hq.
  assert (Ascii.eqb c quote_char = false) as Eq.
  { destruct (Ascii.eqb c quote_char) eqn:E; [|done]. apply Ascii.eqb_eq in E as ->. done. }
  split; [done|].
  assert (Ascii.eqb c backslash = false /\ (byte_of_ascii c <? 32) = false) as [E1 E2].
  { assert (negb (String.eqb (escape_char c) (one c))
            || (negb (Ascii.eqb c backslash) && negb (byte_of_ascii c <? 32)) = true) as F
      by (apply (ascii_forall (fun c => negb (String.eqb (escape_char c) (one c))
            || (negb (Ascii.eqb c backslash) && negb (byte_of_ascii c <? 32)))); by vm_compute).
    rewrite He, String.eqb_refl in F. simpl in F. bool_hyps. done. }
  unfold parse_char. rewrite E1, E2.
  change (String c (String.append s R)) with (String.append (String c s) R).
  rewrite (decode_utf8_app _ _ cp) by done. by rewrite substring_0_append, drop_string_app.
Qed.

Lemma parse_escaped_body s fuel out tail :
  utf8 s -> size out + size s <= max_string_bytes options ->
  (String.length (escape_body s) < fuel)%nat ->
  parse_string_body options total fuel out
    (String.append (escape_body s) (String quote_char tail)) = Ok (String.append out s, tail).
Proof.
  intros Hs. revert fuel out. induction Hs as [|chunk cp s Hd Hs IH]; intros fuel out Hsize Hf.
  - destruct fuel as [|fuel]; [simpl in Hf; lia|]. simpl. by rewrite append_nil_r.
  - rewrite escape_body_app, append_assoc. rewrite escape_body_app, length_append in Hf.
    rewrite size_append in Hsize. pose proof (size_nonneg s).
    set (R := String.append (escape_body s) (String quote_char tail)).
    enough (exists c0 e, escape_body chunk = String c0 e /\ Ascii.eqb c0 quote_char = false
              /\ parse_char total c0 (String.append e R) = Ok (chunk, R)) as (c0 & e & E1 & E2 & E3).
    { destruct fuel as [|fuel]; [lia|]. rewrite E1. cbn [String.append parse_string_body].
      rewrite E2, E3. cbn [mbind result_bind]. rewrite size_append.
      rewrite (proj2 (Z.ltb_ge _ _)) by lia. unfold R. rewrite IH; [by rewrite append_assoc| |].
      - rewrite size_append. lia.
      - rewrite E1 in Hf. simpl in Hf. lia. }
    destruct (chunk_cases chunk cp Hd) as [(c & -> & Hc)|(c & t & -> & Hc & He)].
    + unfold one. cbn [escape_body]. rewrite append_nil_r.
      destruct (decide (escape_char c = one c)) as [E|E].
      * exists c, EmptyString. split; [done|]. apply (parse_plain_chunk c EmptyString R cp); [done..|].
        intros Hq. assert (c = quote_char) as ->.
        { rewrite <- (ascii_of_byte_of_ascii c), Hq. reflexivity. }
        done.
      * by apply parse_escaped_char.
    + exists c, t. split; [done|]. apply (parse_plain_chunk c t R cp); [done| |lia].
      by apply escape_char_high.
Qed.

Lemma parse_escaped_string s tail :
  str_ok options s ->
  parse_string options total (String.append (escaped_string s) tail) = Ok (s, tail).
Proof.
  intros [Hs Hsize]. unfold parse_string, escaped_string. cbn [String.append starts_with tail_of].
  simpl (Ascii.eqb _ _). cbn [negb]. rewrite append_assoc. cbn [String.append].
  apply parse_escaped_body; [done|done|]. simpl. rewrite length_append. simpl. lia.
Qed.

End RoundTripStrings.

(** ** Reading values back *)
Fixpoint readable_reals (v : Json) : bool :=
  match v with
  | JReal d => readable_real d
  | JArray l => forallb readable_reals l
  | JObject m => forallb (fun p => readable_reals p.2) m
  | _ => true
  end.

Lemma skip_ws_head s : starts_with (fun c => negb (is_ws c)) s = true -> skip_ws s = s.
Proof. destruct s as [|c s]; simpl; [done|]. by destruct (is_ws c). Qed.

Definition head_ok (s : string) : Prop :=
  starts_with (fun c => negb (is_ws c)) s = true
  /\ forall tail, starts_with (Ascii.eqb "]") (String.append s tail) = false.

Lemma digit_head c : is_digit c = true -> negb (is_ws c) = true /\ Ascii.eqb "]" c = false.
Proof.
  intros H. assert (negb (is_digit c) || (negb (is_ws c) && negb (Ascii.eqb "]" c)) = true) as E
    by (apply (ascii_forall (fun c => negb (is_digit c) || (negb (is_ws c) && negb (Ascii.eqb "]" c)))); by vm_compute).
  rewrite H in E. cbn [negb orb] in E. apply andb_true_iff in E as [E1 E2]. split; [done|]. by apply negb_true_iff.
Qed.

Lemma int_head_ok i : - 2 ^ 63 <= i < 2 ^ 63 -> head_ok (format_int i).
Proof.
  intros Hi. pose proof (format_int_head i Hi) as H. unfold head_ok.
  destruct (format_int i) as [|c s]; [done|]. simpl in *.
  assert (negb (Ascii.eqb c "-" || is_digit c) || (negb (is_ws c) && negb (Ascii.eqb "]" c)) = true) as E
    by (apply (ascii_forall (fun c => negb (Ascii.eqb c "-" || is_digit c)
          || (negb (is_ws c) && negb (Ascii.eqb "]" c)))); by vm_compute).
  rewrite H in E. simpl in E. bool_hyps. by rewrite H0, H1.
Qed.

Lemma text_head_ok options depth v :
  json_wf options depth v -> readable_reals v = true -> head_ok (text_of v).
Proof.
  destruct v as [|[]|i|d|s|l|m]; simpl; intros [_ H] Hr; try done; [by apply int_head_ok|].
  destruct (readable_real_text 0 d Hr) as (t & -> & _ & Hd & _). split.
  - destruct t as [|c t]; [done|]. by apply digit_head.
  - intros tail. destruct t as [|c t]; [done|]. by apply digit_head.
Qed.

(** Decides the tests on the punctuation the writer emits. *)
Ltac punct :=
  repeat first [change (is_ws ",") with false | change (is_ws ":") with false
               |change (Ascii.eqb "," ",") with true | change (Ascii.eqb ":" ":") with true];
  cbv iota.

Section RoundTripContainers.
Context (options : JsonDecodeOptions) (total : Z).
Context (parse : string -> result JsonError (Json * string)).

(** What is known of every element of a container. *)
Definition reads_back (v : Json) : Prop :=
  head_ok (text_of v)
  /\ forall tail, ends_number tail = true -> parse (String.append (text_of v) tail) = Ok (v, tail).

Lemma skip_ws_text v tail :
  reads_back v -> skip_ws (String.append (text_of v) tail) = String.append (text_of v) tail.
Proof. intros [[H _] _]. apply skip_ws_head. by apply starts_with_append. Qed.

Lemma parse_items_text l x items fuel tail :
  Forall reads_back (x :: l) -> (String.length (join_items text_of false l) < fuel)%nat ->
  parse_items total parse fuel items
    (String.append (text_of x) (String.append (join_items text_of false l) tail))
  = Ok (JArray (items ++ x :: l), tail).
Proof.
  revert x items fuel. induction l as [|y l IH]; intros x items fuel Hall Hf;
    (destruct fuel as [|fuel]; [lia|]); cbn [parse_items];
    apply Forall_cons in Hall as [Hx Hall]; rewrite skip_ws_text by done;
    destruct Hx as [_ Hx]; rewrite Hx by done; cbn [mbind result_bind join_items].
  - done.
  - cbn [String.append skip_ws]. punct. cbv iota.
    rewrite append_assoc. rewrite IH; [|done|].
    + by rewrite <- app_assoc.
    + simpl in Hf. rewrite !length_append in Hf. lia.
Qed.

Lemma parse_array_text l tail :
  Forall reads_back l ->
  parse_array total parse (String.append (text_of (JArray l)) tail) = Ok (JArray l, tail).
Proof.
  intros Hall. unfold parse_array. cbn [text_of String.append tail_of].
  destruct l as [|x l]; [done|]. cbn [join_items].
  cbn [String.append]. rewrite append_assoc. rewrite skip_ws_text by by inv Hall.
  assert (starts_with (Ascii.eqb "]") (String.append (text_of x)
            (String.append (join_items text_of false l) tail)) = false) as ->.
  { inv Hall. destruct H1 as [[_ H1] _]. apply H1. }
  rewrite parse_items_text; [done|done|]. rewrite !length_append. lia.
Qed.

Lemma parse_members_step k x members fuel r :
  str_ok options k -> reads_back x -> Forall (fun p => std_less p.1 k = true) members ->
  ends_number r = true ->
  parse_members options total parse (S fuel) members
    (String.append (escaped_string k) (String ":" (String.append (text_of x) r)))
  = match skip_ws r with
    | EmptyString => fail total kJsonSyntax "object is not terminated" (skip_ws r)
    | String c rest' =>
        if Ascii.eqb c "," then parse_members options total parse fuel (members ++ [(k, x)]) rest'
        else if Ascii.eqb c "}" then Ok (JObject (members ++ [(k, x)]), rest')
        else fail total kJsonSyntax "expected ',' or '}' in object" (skip_ws r)
    end.
Proof.
  intros Hk Hx Hlt Hr. cbn [parse_members].
  rewrite (skip_ws_head (String.append (escaped_string k) _)) by done.
  rewrite parse_escaped_string by done. cbn [mbind result_bind].
  rewrite (skip_ws_head (String ":" _)) by done. cbn [starts_with tail_of]. punct. cbn [negb].
  rewrite skip_ws_text by done. destruct Hx as [_ Hx]. rewrite Hx by done.
  cbn [mbind result_bind]. by rewrite map_has_below, map_insert_last.
Qed.

Lemma parse_members_text m k x members fuel tail :
  Forall (fun p => str_ok options p.1 /\ reads_back p.2) ((k, x) :: m) ->
  keys_sorted (members ++ (k, x) :: m) ->
  (String.length (join_members text_of false m) < fuel)%nat ->
  parse_members options total parse fuel members
    (String.append (escaped_string k) (String ":" (String.append (text_of x)
      (String.append (join_members text_of false m) tail))))
  = Ok (JObject (members ++ (k, x) :: m), tail).
Proof.
  revert k x members fuel. induction m as [|[k' x'] m IH]; intros k x members fuel Hall Hs Hf;
    (destruct fuel as [|fuel]; [lia|]); apply Forall_cons in Hall as [[Hk Hx] Hall]; cbn [fst snd] in *;
    pose proof (keys_sorted_app_lt _ _ _ _ Hs) as Hlt; rewrite parse_members_step by done;
    cbn [join_members]; [done|].
  rewrite skip_ws_head by done.
  cbn [String.append]. punct. rewrite append_assoc. cbn [String.append]. rewrite append_assoc.
  rewrite IH; [|done| |].
  - by rewrite <- app_assoc.
  - by rewrite <- app_assoc.
  - simpl in Hf. rewrite !length_append in Hf. simpl in Hf. rewrite length_append in Hf. lia.
Qed.

Lemma parse_object_text m tail :
  Forall (fun p => str_ok options p.1 /\ reads_back p.2) m -> keys_sorted m ->
  parse_object options total parse (String.append (text_of (JObject m)) tail) = Ok (JObject m, tail).
Proof.
  intros Hall Hs. unfold parse_object. cbn [text_of String.append tail_of].
  destruct m as [|[k x] m]; [done|]. cbn [join_members]. cbn [String.append].
  rewrite append_assoc. cbn [String.append]. rewrite append_assoc.
  rewrite skip_ws_head by done.
  assert (forall r, starts_with (Ascii.eqb "}") (String.append (escaped_string k) r) = false) as -> by done.
  rewrite parse_members_text; [done|done|done|].
  rewrite !length_append. simpl. rewrite !length_append. lia.
Qed.

End RoundTripContainers.

Lemma all_items_Forall P l : all_items P l <-> Forall P l.
Proof. induction l; simpl; rewrite ?Forall_cons; [split; auto|tauto]. Qed.

Lemma all_members_Forall options P m :
  all_members options P m <-> Forall (fun p => str_ok options p.1 /\ P p.2) m.
Proof. induction m as [|[k x] m IH]; simpl; rewrite ?Forall_cons; [split; auto|simpl; tauto]. Qed.

Lemma prefix_append a b : String.prefix a (String.append a b) = true.
Proof.
  induction a as [|c a IH]; simpl; [by destruct b|]. destruct (ascii_dec c c); [done|congruence].
Qed.

Lemma parse_literal_text total token v tail :
  parse_literal total token v (String.append token tail) = Ok (v, tail).
Proof.
  unfold parse_literal, literal. rewrite size_append.
  rewrite (proj2 (Z.ltb_ge _ _)) by (pose proof (size_nonneg tail); lia).
  rewrite prefix_append. cbn [negb]. by rewrite drop_string_app.
Qed.

Lemma digit_number_head s :
  starts_with is_digit s = true -> starts_with (fun c => Ascii.eqb c "-" || is_digit c) s = true.
Proof. destruct s as [|c s]; [done|]. simpl. intros ->. by rewrite orb_true_r. Qed.

(** A text that starts like a number is parsed as one. *)
Lemma parse_value_number options total fuel depth r :
  depth <= max_depth options -> starts_with (fun c => Ascii.eqb c "-" || is_digit c) r = true ->
  parse_value options total (S fuel) depth r = parse_number total r.
Proof.
  intros Hd. destruct r as [|c s]; [done|]. cbn [parse_value starts_with]. intros Hh.
  rewrite (proj2 (Z.ltb_ge _ _)) by done. rewrite Hh.
  assert (negb (Ascii.eqb c "-" || is_digit c) || negb (Ascii.eqb c "{" || Ascii.eqb c "["
            || Ascii.eqb c quote_char || Ascii.eqb c "t" || Ascii.eqb c "f" || Ascii.eqb c "n") = true) as E
    by (apply (ascii_forall (fun c => negb (Ascii.eqb c "-" || is_digit c)
          || negb (Ascii.eqb c "{" || Ascii.eqb c "[" || Ascii.eqb c quote_char || Ascii.eqb c "t"
                   || Ascii.eqb c "f" || Ascii.eqb c "n"))); by vm_compute).
  rewrite Hh in E. cbn [negb orb] in E.
  destruct (Ascii.eqb c "{"), (Ascii.eqb c "["), (Ascii.eqb c quote_char), (Ascii.eqb c "t"),
    (Ascii.eqb c "f"), (Ascii.eqb c "n"); done.
Qed.

Lemma parse_value_text options total v fuel depth tail :
  json_wf options depth v -> readable_reals v = true -> max_depth options + 1 - depth <= Z.of_nat fuel ->
  ends_number tail = true ->
  parse_value options total fuel depth (String.append (text_of v) tail) = Ok (v, tail).
Proof.
  revert fuel depth tail. induction v as [|b|i|d|s|l IH|m IH] using json_rect;
    intros fuel depth tail Hwf Hr Hfuel Ht; pose proof Hwf as [Hd Hv];
    (destruct fuel as [|fuel]; [lia|]);
    assert ((max_depth options <? depth) = false) as Hdepth by by apply Z.ltb_ge.
  - change (text_of JNull) with "null"%string. cbn [parse_value String.append]. rewrite Hdepth.
    apply (parse_literal_text total "null").
  - destruct b; cbn [text_of parse_value String.append]; rewrite Hdepth.
    + apply (parse_literal_text total "true").
    + apply (parse_literal_text total "false").
  - cbn [text_of]. rewrite parse_value_number; [by apply parse_int|lia|].
    apply starts_with_append. by apply format_int_head.
  - cbn [text_of]. destruct (readable_real_text total d Hr) as (t & -> & _ & Hh & Hp).
    rewrite parse_value_number; [by apply Hp|lia|]. apply starts_with_append. by apply digit_number_head.
  - pose proof (parse_escaped_string options total s tail Hv) as Hp.
    unfold escaped_string in Hp. cbn [text_of]. unfold escaped_string.
    cbn [parse_value String.append] in *. rewrite Hdepth.
    change (Ascii.eqb quote_char "{") with false. change (Ascii.eqb quote_char "[") with false.
    change (Ascii.eqb quote_char quote_char) with true. cbv iota. by rewrite Hp.
  - pose proof (parse_array_text total (parse_value options total fuel (depth + 1)) l tail) as Hp.
    cbn [text_of parse_value String.append] in *. rewrite Hdepth.
    change (Ascii.eqb "[" "{") with false. change (Ascii.eqb "[" "[") with true. cbv iota. apply Hp.
    apply all_items_Forall in Hv. cbn [readable_reals] in Hr. rewrite forallb_forall in Hr.
    rewrite Forall_forall in IH, Hv |- *. intros x Hx.
    assert (readable_reals x = true) as Hrx by (apply Hr; by apply list_elem_of_In).
    split; [by apply (text_head_ok options (depth + 1)); [apply Hv|]|].
    intros t Ht'. apply IH; auto. lia.
  - pose proof (parse_object_text options total (parse_value options total fuel (depth + 1)) m tail) as Hp.
    cbn [text_of parse_value String.append] in *. rewrite Hdepth.
    change (Ascii.eqb "{" "{") with true. cbv iota. destruct Hv as [Hs Hv].
    apply Hp; [|done]. apply all_members_Forall in Hv. cbn [readable_reals] in Hr.
    rewrite forallb_forall in Hr. rewrite Forall_forall in IH, Hv |- *. intros x Hx.
    assert (readable_reals x.2 = true) as Hrx by (apply Hr; by apply list_elem_of_In).
    destruct (Hv x Hx) as [Hk Hw]. split; [done|].
    split; [by apply (text_head_ok options (depth + 1))|]. intros t Ht'. apply IH; auto. lia.
Qed.

(** The text of a value and white space after it. *)
Lemma json_decode_text_then options v space :
  json_wf options 0 v -> readable_reals v = true -> 0 <= max_depth_option options ->
  ends_number space = true -> skip_ws space = EmptyString ->
  size (text_of v) + size space <= max_bytes options -> require_object_option options = false \/ is_object v = true ->
  json_decode (String.append (text_of v) space) options = Ok v.
Proof.
  intros Hwf Hr Hd Hn Hsp Hs Ho. unfold json_decode. rewrite size_append, (proj2 (Z.ltb_ge _ _)) by done.
  unfold parse_document. pose proof (text_head_ok options 0 v Hwf Hr) as [Hh _].
  rewrite skip_ws_head by by apply starts_with_append.
  assert (is_empty (String.append (text_of v) space) = false) as -> by by destruct (text_of v).
  pose proof (parse_value_text options (size (text_of v) + size space) v (depth_fuel options) 0 space Hwf Hr) as Hp.
  rewrite Hp; [|unfold depth_fuel; lia|done]. rewrite Hsp. cbn [is_empty negb].
  destruct Ho as [-> | ->]; [done|]. by rewrite andb_false_r.
Qed.

Lemma json_decode_text options v :
  json_wf options 0 v -> readable_reals v = true -> 0 <= max_depth_option options ->
  size (text_of v) <= max_bytes options -> require_object_option options = false \/ is_object v = true ->
  json_decode (text_of v) options = Ok v.
Proof.
  intros. rewrite <- (append_nil_r (text_of v)). apply json_decode_text_then; try done. unfold size at 2. simpl. lia.
Qed.

(** ** The reals that do not read back

    The branch without an exponent drops the sign it has parsed; and the exponents the
    writer expands give texts the decoder finds too long. *)
Definition minus_one_and_a_half : double := double_of_decimal true 15 (-1).

Lemma negative_real_loses_sign :
  format_canonical_real minus_one_and_a_half = Some "1.5"%string
  /\ dump (json_real minus_one_and_a_half) = dump (json_real (double_of_decimal false 15 (-1))).
Proof. split; vm_compute; reflexivity. Qed.

Lemma small_real_unreadable :
  let d := double_of_decimal false 1 (-70) in
  json_decode "1e-70" default_options = Ok (JReal d)
  /\ size (dump (JReal d)) = 72
  /\ match json_decode (dump (JReal d)) default_options with
     | Ok _ => False | Err e => err_code e = kJsonNumberOutOfRange
     end.
Proof. vm_compute. repeat split. Qed.

(** ** Properties *)

(** C32: canonical serialization round trips.  Every document within the decoder's bounds
    whose reals are not negative and are written in at most 64 characters is decoded,
    from the text the writer gives it, to itself; hence two such documents with the same
    bytes are the same document, and the digest of the bytes identifies the document.
    The shortest decimal of a double, in the notation of the writer, reads back as the
    double. *)
Theorem json_roundtrip (v w : Json) :
  json_wf default_options 0 v -> readable_reals v = true -> size (text_of v) <= kMaxDocumentBytes ->
  json_wf default_options 0 w -> readable_reals w = true -> size (text_of w) <= kMaxDocumentBytes ->
  json_decode (dump v) default_options = Ok v /\ (dump v = dump w -> v = w).
Proof.
  intros Hv Rv Sv Hw Rw Sw.
  rewrite !dump_text by (unfold kMaxDocumentBytes in *; lia).
  assert (forall x, json_wf default_options 0 x -> readable_reals x = true ->
            size (text_of x) <= kMaxDocumentBytes ->
            json_decode (text_of x) default_options = Ok x) as E.
  { intros x Hx Rx Sx. apply json_decode_text; try done. by left. }
  split; [by apply E|]. intros Ht. pose proof (E v Hv Rv Sv) as Ev. rewrite Ht, E in Ev by done.
  congruence.
Qed.

Definition sample_document : Json :=
  set_all (JObject []) [("n"%string, JInt (-42)); ("a"%string, JArray [JBool true; JNull]);
                        ("r"%string, JArray [JReal (double_of_decimal false 15 (-1)); JReal (double_of_decimal false 1 (-7));
                                             JReal (double_of_decimal false 25 15)]);
                        ("s"%string, JString (String quote_char (String "010" "x")))].

Lemma json_roundtrip_witness :
  json_decode (dump sample_document) default_options = Ok sample_document.
Proof.
  assert (json_wf default_options 0 sample_document) as H.
  { vm_compute. repeat split; try discriminate;
      repeat (first [apply utf8_nil | eapply (utf8_cons (String _ EmptyString)); [vm_compute; reflexivity|]]);
      repeat constructor. }
  apply (json_roundtrip sample_document sample_document); first [exact H | vm_compute; reflexivity | vm_compute; discriminate].
Defined.
