(* ===== verification/Signature.v ===== *)
(** * Signatures and the trust set

    Models [include/wnc/signature.hpp] and [src/signature.cpp]: algorithm tokens, key
    and publisher identities, the sorted trust set, signing and verification.  The
    Ed25519 primitives of [src/ed25519.cpp] are the operations of the class [Ed25519], their
    correctness law is the class [Ed25519Ok]; Ed25519Sign.v has the source's instance. *)
From Stdlib Require Import ZArith Lia Ascii String Permutation Sorted.
From stdpp Require Import base numbers option list strings sets.
From S2P Require Import Prelude Identity Errors Hash.

(** ** Algorithms *)
Inductive SignatureAlgorithm : Set := kNone | kEd25519 | kHmacSha256.

#[export] Instance SignatureAlgorithm_eq_dec : EqDecision SignatureAlgorithm.
Proof. solve_decision. Defined.

Definition signature_algorithm_token (algorithm : SignatureAlgorithm) : string :=
  match algorithm with
  | kEd25519 => "ED25519" | kHmacSha256 => "HMAC-SHA256" | kNone => "NONE"
  end.

Definition parse_signature_algorithm (token : string) : option SignatureAlgorithm :=
  if String.eqb token "ED25519" then Some kEd25519
  else if String.eqb token "HMAC-SHA256" then Some kHmacSha256
  else if String.eqb token "NONE" then Some kNone
  else None.

(** ** The Ed25519 interface *)
Class Ed25519 := {
  ed25519_public_key : bytes -> bytes;
  ed25519_sign : bytes -> bytes -> bytes;
  ed25519_verify_strict : bytes -> bytes -> bytes -> bool
}.

Class Ed25519Ok `{Ed25519} : Prop := {
  ed25519_sign_length : forall seed msg, length (ed25519_sign seed msg) = 64%nat;
  ed25519_verify_sign : forall seed msg,
    ed25519_verify_strict (ed25519_public_key seed) msg (ed25519_sign seed msg) = true
}.

Record Issuer := mk_issuer {
  iss_publisher : PublisherId;
  iss_algorithm : SignatureAlgorithm;
  iss_key_id : string;
  ed25519_key : bytes;
  hmac_key : bytes
}.

Notation TrustSet := (list Issuer).

Record LocalSigner := mk_signer { seed : bytes; public_key : bytes; sig_publisher : PublisherId }.

Record SignatureBytes := mk_signature {
  algorithm : SignatureAlgorithm;
  key_id : string;
  sig_bytes : bytes
}.

Record VerifyOutcome := mk_outcome {
  outcome_code : Code;
  outcome_message : string;
  outcome_publisher : PublisherId;
  outcome_key_id : string
}.

Section Signatures.
Context `{Hashing} `{Ed25519}.

Definition issuer_key_id (a : SignatureAlgorithm) (key_bytes : bytes) : string :=
  hex_encode (sha256_parts ["wnc/v1/key"%string; signature_algorithm_token a; string_of_bytes key_bytes]).

Definition publisher_identity (a : SignatureAlgorithm) (key_bytes : bytes) : PublisherId :=
  from_digest (sha256_parts
    ["wnc/v1/publisher"%string; signature_algorithm_token a; string_of_bytes key_bytes]).

(** ** The trust set *)
Definition issuer_key (i : Issuer) : PublisherId * string := (iss_publisher i, iss_key_id i).

(** The comparator of [sort_records]. *)
Definition issuer_less (a b : Issuer) : bool :=
  if negb (id_eqb (iss_publisher a) (iss_publisher b))
  then std_less (iss_publisher a) (iss_publisher b)
  else string_less (iss_key_id a) (iss_key_id b).

Definition same_issuer (a b : Issuer) : bool :=
  id_eqb (iss_publisher a) (iss_publisher b) && String.eqb (iss_key_id a) (iss_key_id b).

(** [std::unique]: drops an element equal to the one kept before it. *)
Fixpoint unique_after (kept : Issuer) (l : list Issuer) : list Issuer :=
  match l with
  | [] => []
  | x :: l' => if same_issuer kept x then unique_after kept l' else x :: unique_after x l'
  end.

Definition unique_issuers (l : list Issuer) : list Issuer :=
  match l with [] => [] | x :: l' => x :: unique_after x l' end.

Definition sort_records (l : TrustSet) : TrustSet := unique_issuers (std_sort issuer_less l).

Definition add_ed25519 (t : TrustSet) (publisher : PublisherId) (key : bytes) : TrustSet :=
  sort_records (t ++ [mk_issuer publisher kEd25519 (issuer_key_id kEd25519 key) key []]).

Definition add_hmac (t : TrustSet) (publisher : PublisherId) (key : bytes) : TrustSet :=
  sort_records (t ++ [mk_issuer publisher kHmacSha256 (issuer_key_id kHmacSha256 key) (repeat 0 32) key]).

Definition find_issuer (t : TrustSet) (publisher : PublisherId) : option Issuer :=
  List.find (fun i => id_eqb (iss_publisher i) publisher) t.

Definition find_key (t : TrustSet) (publisher : PublisherId) (kid : string) : option Issuer :=
  List.find (fun i => id_eqb (iss_publisher i) publisher && String.eqb (iss_key_id i) kid) t.

Definition trust_parts (t : TrustSet) : list string :=
  "wnc/v1/trust"%string
  :: concat (map (fun i => [view (iss_publisher i); signature_algorithm_token (iss_algorithm i);
                            iss_key_id i]) t).

Definition trust_digest (t : TrustSet) : Digest := sha256_parts (trust_parts t).

(** ** Signing *)
Definition signer_key_id (s : LocalSigner) : string := issuer_key_id kEd25519 (public_key s).

Definition signer_issuer (s : LocalSigner) : Issuer :=
  mk_issuer (sig_publisher s) kEd25519 (signer_key_id s) (public_key s) [].

Definition local_signer_from_seed (seed : bytes) : LocalSigner :=
  mk_signer seed (ed25519_public_key seed) (publisher_identity kEd25519 (ed25519_public_key seed)).

Definition signature_subject (domain canonical_bytes : string) : Digest :=
  digest_domain domain canonical_bytes.

Definition bind_claim (publisher : PublisherId) (kid subject_hex : string) : Digest :=
  sha256_parts ["wnc/v1/bind"%string; view publisher; kid; subject_hex].

(** The bytes a signature covers. *)
Definition bound_claim (publisher : PublisherId) (kid domain canonical_bytes : string) : Digest :=
  bind_claim publisher kid (hex_encode (signature_subject domain canonical_bytes)).

Definition sign_with_local_signer (signer : LocalSigner) (domain canonical_bytes : string) : SignatureBytes :=
  mk_signature kEd25519 (signer_key_id signer)
    (ed25519_sign (seed signer)
       (bound_claim (sig_publisher signer) (signer_key_id signer) domain canonical_bytes)).

(** ** Verification

    The error is the outcome with [ok = false], the value the outcome with [ok = true]. *)
Definition verify_signature (trust : TrustSet) (claimed : PublisherId)
    (domain canonical_bytes : string) (signature : SignatureBytes) : result VerifyOutcome VerifyOutcome :=
  let failed code text := Err (mk_outcome code text claimed (key_id signature)) in
  if is_zero claimed then failed kZeroIdentity "submission carries the zero publisher identity"%string
  else if bool_decide (algorithm signature = kNone) || (zlength (sig_bytes signature) =? 0)
  then failed kSignatureMissing "submission carries no signature"%string
  else if negb (size (key_id signature) =? kSha256HexChars)
  then failed kSignatureInvalid "signature key identifier is not a 64 character digest"%string
  else
    match find_key trust claimed (key_id signature) with
    | None =>
        match find_issuer trust claimed with
        | None => failed kPublisherNotTrusted "publisher is not present in the trust set"%string
        | Some _ =>
            failed kPublisherMismatch "trust set holds no key with that identifier for the publisher"%string
        end
    | Some issuer =>
        let bound := bound_claim claimed (key_id signature) domain canonical_bytes in
        let accepted := Ok (mk_outcome kOk EmptyString (iss_publisher issuer) (iss_key_id issuer)) in
        match iss_algorithm issuer with
        | kEd25519 =>
            if negb (zlength (sig_bytes signature) =? kSignatureBytes)
            then failed kSignatureInvalid "ed25519 signature must be 64 bytes"%string
            else if negb (ed25519_verify_strict (ed25519_key issuer) bound (sig_bytes signature))
            then failed kSignatureInvalid "ed25519 signature does not verify for the submitted bytes"%string
            else accepted
        | kHmacSha256 =>
            if negb (constant_time_equal (hmac_sha256 (hmac_key issuer) bound) (sig_bytes signature))
            then failed kSignatureInvalid "hmac does not verify for the submitted bytes"%string
            else accepted
        | kNone => failed kSignatureInvalid "signature algorithm is not verifiable"%string
        end
    end.

End Signatures.

(** ** Lemmas *)
Lemma issuer_less_key a b : issuer_less a b = std_less (issuer_key a) (issuer_key b).
Proof.
  unfold issuer_less, issuer_key. unfold std_less at 2. unfold prod_std_less; simpl.
  destruct (id_eqb (iss_publisher a) (iss_publisher b)) eqn:E; simpl.
  - apply id_eqb_eq in E as ->. by rewrite !std_less_irrefl.
  - destruct (std_less (iss_publisher a) (iss_publisher b)) eqn:E1; [done|].
    destruct (std_less (iss_publisher b) (iss_publisher a)) eqn:E2; [done|].
    assert (iss_publisher a = iss_publisher b) as Eq by by apply std_less_total.
    rewrite Eq, id_eqb_refl in E. done.
Qed.

Lemma same_issuer_key a b : same_issuer a b = true <-> issuer_key a = issuer_key b.
Proof.
  unfold same_issuer, issuer_key. rewrite andb_true_iff, id_eqb_eq, String.eqb_eq.
  split; [by intros [-> ->]|by intros [= -> ->]].
Qed.

Lemma unique_after_none kept l :
  Forall (fun x => issuer_key x <> issuer_key kept) l -> NoDup (issuer_key <$> l) ->
  unique_after kept l = l.
Proof.
  revert kept. induction l as [|x l IH]; intros kept Hne Hnd; simpl; [done|].
  apply Forall_cons in Hne as [Hx Hne].
  destruct (same_issuer kept x) eqn:E; [apply same_issuer_key in E; congruence|].
  simpl in Hnd. apply NoDup_cons in Hnd as [Hnin Hnd]. f_equal. apply IH; [|done].
  apply Forall_forall. intros y Hy Heq. apply Hnin. rewrite <- Heq. by apply list_elem_of_fmap_2.
Qed.

Lemma std_sort_issuers l :
  std_sort issuer_less l = std_sort (fun a b => std_less (issuer_key a) (issuer_key b)) l.
Proof.
  induction l as [|x l IH]; simpl; [done|]. rewrite IH.
  generalize (std_sort (fun a b => std_less (issuer_key a) (issuer_key b)) l). intros m.
  induction m as [|y m IHm]; simpl; [done|]. rewrite issuer_less_key, IHm. done.
Qed.

Lemma sort_records_distinct l :
  NoDup (issuer_key <$> l) ->
  sort_records l = std_sort (fun a b => std_less (issuer_key a) (issuer_key b)) l.
Proof.
  intros Hnd. unfold sort_records. rewrite std_sort_issuers.
  set (s := std_sort _ l).
  assert (NoDup (issuer_key <$> s)) as Hs by (unfold s; by rewrite std_sort_perm).
  destruct s as [|x s]; [done|]. simpl in *. apply NoDup_cons in Hs as [Hnin Hs].
  f_equal. apply unique_after_none; [|done]. apply Forall_forall. intros y Hy Heq. apply Hnin.
  rewrite <- Heq. by apply list_elem_of_fmap_2.
Qed.

Lemma unique_after_elem kept l x : x ∈ unique_after kept l -> x ∈ l.
Proof.
  revert kept. induction l as [|y l IH]; intros kept; simpl; [done|].
  destruct (same_issuer kept y); rewrite ?elem_of_cons; [eauto|]. intros [->|Hx]; eauto.
Qed.

Lemma unique_after_keys kept l k :
  k ∈ issuer_key <$> kept :: unique_after kept l <-> k ∈ issuer_key <$> kept :: l.
Proof.
  revert kept. induction l as [|y l IH]; intros kept; simpl; [done|].
  destruct (same_issuer kept y) eqn:E.
  - apply same_issuer_key in E. specialize (IH kept). rewrite !fmap_cons, !elem_of_cons in *. rewrite <- E. tauto.
  - specialize (IH y). rewrite !fmap_cons, !elem_of_cons in *. tauto.
Qed.

(** Strictly in key order, so no publisher has the same key twice. *)
Notation strictly_sorted := (StronglySorted (fun a b => issuer_less a b = true)).

Lemma unique_after_sorted kept l :
  StronglySorted (fun a b => std_less (issuer_key b) (issuer_key a) = false) (kept :: l) ->
  strictly_sorted (kept :: unique_after kept l).
Proof.
  revert kept. induction l as [|y l IH]; intros kept Hs; simpl; [by repeat constructor|].
  apply StronglySorted_inv in Hs as [Hs Hk]. pose proof Hs as Hs'. apply StronglySorted_inv in Hs' as [Hs' _].
  apply Forall_cons in Hk as [Hky Hk]. destruct (same_issuer kept y) eqn:E.
  - apply IH. by constructor.
  - assert (issuer_less kept y = true) as Hlt.
    { rewrite issuer_less_key. destruct (std_less (issuer_key kept) (issuer_key y)) eqn:El; [done|].
      assert (issuer_key kept = issuer_key y) as Ek by (apply std_less_total; done). by apply same_issuer_key in Ek; congruence. }
    specialize (IH y Hs). constructor; [done|]. apply StronglySorted_inv in IH as [_ IH]. constructor; [done|].
    eapply Forall_impl; [exact IH|]. intros z Hz. cbv beta in Hz |- *. rewrite issuer_less_key in Hlt, Hz |- *. exact (std_less_trans _ _ _ Hlt Hz).
Qed.

Lemma sort_records_sorted l : strictly_sorted (sort_records l).
Proof.
  unfold sort_records. rewrite std_sort_issuers. pose proof (std_sort_sorted issuer_key l) as Hs.
  destruct (std_sort _ l) as [|x m]; [constructor|]. by apply unique_after_sorted.
Qed.

Lemma sort_records_elem l x : x ∈ sort_records l -> x ∈ l.
Proof.
  unfold sort_records. rewrite <- (std_sort_perm issuer_less l) at 2. destruct (std_sort _ l) as [|y m]; [done|].
  cbn [unique_issuers]. rewrite !elem_of_cons. intros [->|Hx%unique_after_elem]; auto.
Qed.

Lemma sort_records_keys l k : k ∈ issuer_key <$> sort_records l <-> k ∈ issuer_key <$> l.
Proof.
  unfold sort_records. rewrite <- (std_sort_perm issuer_less l) at 2. destruct (std_sort _ l) as [|y m]; [done|].
  apply unique_after_keys.
Qed.

Lemma strictly_sorted_distinct l : strictly_sorted l -> NoDup (issuer_key <$> l).
Proof.
  induction 1 as [|x l Hs IH Hx]; [constructor|]. rewrite fmap_cons. constructor; [|done].
  intros (y & Ey & Hy)%list_elem_of_fmap. rewrite Forall_forall in Hx. specialize (Hx y Hy).
  by rewrite issuer_less_key, Ey, std_less_irrefl in Hx.
Qed.

Lemma find_key_spec t publisher kid i :
  find_key t publisher kid = Some i -> i ∈ t /\ iss_publisher i = publisher /\ iss_key_id i = kid.
Proof.
  unfold find_key. intros E. apply List.find_some in E as [Hin E].
  apply andb_true_iff in E as [E1 E2]. apply id_eqb_eq in E1. apply String.eqb_eq in E2.
  split; [by apply list_elem_of_In|done].
Qed.

Lemma find_key_In t publisher kid i :
  NoDup (issuer_key <$> t) -> i ∈ t -> iss_publisher i = publisher -> iss_key_id i = kid ->
  find_key t publisher kid = Some i.
Proof.
  intros Hnd Hin <- <-. unfold find_key. induction t as [|x t IH]; [set_solver|].
  simpl in *. apply NoDup_cons in Hnd as [Hnin Hnd].
  destruct (id_eqb (iss_publisher x) (iss_publisher i) && String.eqb (iss_key_id x) (iss_key_id i)) eqn:E.
  - apply (same_issuer_key x i) in E. apply elem_of_cons in Hin as [->|Hin]; [done|].
    exfalso. apply Hnin. rewrite E. by apply list_elem_of_fmap_2.
  - apply elem_of_cons in Hin as [->|Hin]; [by rewrite id_eqb_refl, String.eqb_refl in E|auto].
Qed.

(** The trust set after adding the issuers of a list one by one. *)
Definition add_issuers (l : list Issuer) : TrustSet :=
  fold_left (fun t i => sort_records (t ++ [i])) l [].

Lemma add_issuers_sorted l :
  NoDup (issuer_key <$> l) ->
  add_issuers l = std_sort (fun a b => std_less (issuer_key a) (issuer_key b)) l.
Proof.
  induction l as [|x l IH] using rev_ind; intros Hnd; [done|].
  unfold add_issuers. rewrite fold_left_app. simpl. fold (add_issuers l).
  rewrite fmap_app in Hnd. pose proof Hnd as Hnd'. apply NoDup_app in Hnd' as (Hl & _ & _).
  rewrite IH by done.
  assert (std_sort (fun a b => std_less (issuer_key a) (issuer_key b)) l ++ [x] ≡ₚ l ++ [x]) as Hp
    by by rewrite std_sort_perm.
  rewrite sort_records_distinct.
  - apply std_sort_permutation; [|done]. by rewrite Hp, fmap_app.
  - by rewrite Hp, fmap_app.
Qed.

(** ** The type of a trust set *)
Section TrustTypes.
Context `{Hashing}.

(** What [add_ed25519] and [add_hmac] append. *)
Definition new_issuer (a : SignatureAlgorithm) (publisher : PublisherId) (key : bytes) : Issuer :=
  match a with
  | kHmacSha256 => mk_issuer publisher a (issuer_key_id a key) (repeat 0 32) key
  | _ => mk_issuer publisher a (issuer_key_id a key) key []
  end.

(** An issuer holds the one key of its algorithm, under the identifier derived from it. *)
Definition issuer_wf (i : Issuer) : Prop :=
  match iss_algorithm i with
  | kNone => False
  | kEd25519 => iss_key_id i = issuer_key_id kEd25519 (ed25519_key i) /\ hmac_key i = []
  | kHmacSha256 => iss_key_id i = issuer_key_id kHmacSha256 (hmac_key i) /\ ed25519_key i = repeat 0 32
  end.

Record trust_wf (t : TrustSet) : Prop := {
  tw_sorted : strictly_sorted t;
  tw_issuers : Forall issuer_wf t
}.

Definition add_issuer (a : SignatureAlgorithm) (t : TrustSet) (publisher : PublisherId) (key : bytes) : TrustSet :=
  sort_records (t ++ [new_issuer a publisher key]).

Lemma add_issuer_wf a t publisher key : a <> kNone -> trust_wf t -> trust_wf (add_issuer a t publisher key).
Proof using.
  intros Ha [_ Hi]. split; [apply sort_records_sorted|]. apply Forall_forall. intros i Hin%sort_records_elem.
  rewrite Forall_forall in Hi. apply elem_of_app in Hin as [Hin| ->%list_elem_of_singleton]; [by apply Hi|]. by destruct a.
Qed.

Lemma add_issuer_elem a t publisher key i :
  i ∈ add_issuer a t publisher key -> i ∈ t \/ i = new_issuer a publisher key.
Proof using. intros Hin%sort_records_elem. by rewrite elem_of_app, list_elem_of_singleton in Hin. Qed.

Lemma add_issuer_keys a t publisher key k :
  k ∈ issuer_key <$> add_issuer a t publisher key
  <-> k ∈ issuer_key <$> t \/ k = (publisher, issuer_key_id a key).
Proof using.
  unfold add_issuer. rewrite sort_records_keys, fmap_app, elem_of_app. cbn [fmap list_fmap].
  rewrite list_elem_of_singleton. by destruct a.
Qed.

End TrustTypes.

Section SignatureFacts.
Context `{HH : Hashing} {HHok : HashingOk} `{EE : Ed25519} {EEok : Ed25519Ok}.

(** When a signature is accepted from an issuer. *)
Definition signature_valid (i : Issuer) (bound sig : bytes) : Prop :=
  match iss_algorithm i with
  | kEd25519 => zlength sig = 64 /\ ed25519_verify_strict (ed25519_key i) bound sig = true
  | kHmacSha256 => sig = hmac_sha256 (hmac_key i) bound
  | kNone => False
  end.

Lemma verify_signature_iff t p d b s o :
  Forall is_byte (sig_bytes s) ->
  verify_signature t p d b s = Ok o <->
  is_zero p = false /\ algorithm s <> kNone /\ sig_bytes s <> [] /\ size (key_id s) = 64
  /\ o = mk_outcome kOk EmptyString p (key_id s)
  /\ exists i, find_key t p (key_id s) = Some i
       /\ signature_valid i (bound_claim p (key_id s) d b) (sig_bytes s).
Proof using HHok.
  intros Hbytes. unfold verify_signature, signature_valid.
  destruct (is_zero p); [naive_solver|].
  destruct (bool_decide (algorithm s = kNone)) eqn:Ea; simpl;
    [apply bool_decide_eq_true in Ea; naive_solver|apply bool_decide_eq_false in Ea].
  destruct (zlength (sig_bytes s) =? 0) eqn:El.
  { apply Z.eqb_eq in El. destruct (sig_bytes s); [naive_solver|discriminate El]. }
  assert (sig_bytes s <> []) as Hne by (intros E; rewrite E in El; done).
  destruct (size (key_id s) =? kSha256HexChars) eqn:Ek; simpl;
    [apply Z.eqb_eq in Ek|apply Z.eqb_neq in Ek; naive_solver].
  destruct (find_key t p (key_id s)) as [i|] eqn:Ei.
  - pose proof (find_key_spec _ _ _ _ Ei) as (_ & Ep & Ekid). rewrite Ep, Ekid.
    destruct (iss_algorithm i) eqn:Ealg.
    + split; [done|]. intros (_ & _ & _ & _ & _ & j & [= <-] & Hj). by rewrite Ealg in Hj.
    + unfold kSignatureBytes. split.
      * destruct (zlength (sig_bytes s) =? 64) eqn:E64; [|done]. simpl.
        destruct (ed25519_verify_strict _ _ _) eqn:Ev; [|done]. simpl. intros [= <-].
        split_and!; try done. exists i. rewrite Ealg. split_and!; try done. by apply Z.eqb_eq.
      * intros (_ & _ & _ & _ & -> & j & [= <-] & Hj). rewrite Ealg in Hj.
        destruct Hj as [-> ->]. done.
    + split.
      * destruct (constant_time_equal _ _) eqn:Ec; [|done]. simpl. intros [= <-].
        apply constant_time_equal_eq in Ec; [|apply hmac_sha256_bytes|done].
        split_and!; try done. exists i. rewrite Ealg. done.
      * intros (_ & _ & _ & _ & -> & j & [= <-] & Hj). rewrite Ealg in Hj.
        rewrite (proj2 (constant_time_equal_eq _ _ (hmac_sha256_bytes _ _) Hbytes)); done.
  - split; [destruct (find_issuer t p); done|]. naive_solver.
Qed.

Lemma issuer_key_id_size a k : size (issuer_key_id a k) = 64.
Proof using HHok.
  unfold issuer_key_id. rewrite hex_encode_size. unfold zlength. by rewrite sha256_parts_length.
Qed.

Lemma add_ed25519_find t p k :
  NoDup (issuer_key <$> t) -> (p, issuer_key_id kEd25519 k) ∉ (issuer_key <$> t) ->
  find_key (add_ed25519 t p k) p (issuer_key_id kEd25519 k)
  = Some (mk_issuer p kEd25519 (issuer_key_id kEd25519 k) k []).
Proof using.
  intros Hnd Hnin. unfold add_ed25519. set (i := mk_issuer _ _ _ _ _).
  assert (NoDup (issuer_key <$> t ++ [i])) as Hnd'.
  { rewrite fmap_app, NoDup_app. split_and!; [done| |apply NoDup_singleton].
    intros x Hx Hx'. apply list_elem_of_singleton in Hx' as ->. done. }
  rewrite sort_records_distinct by done. apply find_key_In; [by rewrite std_sort_perm| |done..].
  rewrite std_sort_perm. apply elem_of_app. right. by apply list_elem_of_singleton.
Qed.

End SignatureFacts.

(** ** Properties *)

(** C26: a signature is accepted exactly when the claimed publisher is not the zero
    identity, the submission carries a signature under a 64 character key identifier,
    the trust set holds an issuer for that publisher and key, and the issuer's own key,
    with the issuer's own algorithm, validates the bytes that bind the publisher, the
    key identifier, the domain and the document.  The verified publisher is the
    issuer's. *)
Theorem verify_signature_exact `{Hashing} `{!HashingOk} `{Ed25519}
    (t : TrustSet) (p : PublisherId) (d b : string) (s : SignatureBytes) (o : VerifyOutcome) :
  Forall is_byte (sig_bytes s) ->
  verify_signature t p d b s = Ok o <->
  is_zero p = false /\ algorithm s <> kNone /\ sig_bytes s <> [] /\ size (key_id s) = 64
  /\ o = mk_outcome kOk EmptyString p (key_id s)
  /\ exists i, find_key t p (key_id s) = Some i
       /\ signature_valid i (bound_claim p (key_id s) d b) (sig_bytes s).
Proof. apply verify_signature_iff. Qed.

(** A signature scheme for concrete runs: the signature is the key and a tag. *)
Definition toy_ed25519 : Ed25519 := {|
  ed25519_public_key := fun seed => seed;
  ed25519_sign := fun seed msg => take 64 (toy_digest (seed ++ msg) ++ toy_digest seed);
  ed25519_verify_strict := fun key msg sig =>
    bool_decide (sig = take 64 (toy_digest (key ++ msg) ++ toy_digest key))
|}.

Definition toy_signer : LocalSigner := @local_signer_from_seed toy_hashing toy_ed25519 (repeat 7 32).

Definition toy_trust : TrustSet :=
  @add_ed25519 toy_hashing [] (sig_publisher toy_signer) (public_key toy_signer).

Lemma toy_ed25519_ok : @Ed25519Ok toy_ed25519.
Proof.
  split; intros; unfold ed25519_sign, ed25519_verify_strict, ed25519_public_key; cbv [toy_ed25519].
  - unfold toy_digest. by rewrite length_take, length_app, !(write_be_length 32).
  - by apply bool_decide_eq_true.
Qed.

Definition toy_signature : SignatureBytes :=
  @sign_with_local_signer toy_hashing toy_ed25519 toy_signer "wnc/v1/test" "{}".

Lemma verify_signature_exact_witness :
  @verify_signature toy_hashing toy_ed25519 toy_trust (sig_publisher toy_signer) "wnc/v1/test" "{}"
    toy_signature
  = Ok (mk_outcome kOk EmptyString (sig_publisher toy_signer) (key_id toy_signature)).
Proof.
  apply (@verify_signature_exact toy_hashing toy_hashing_ok toy_ed25519).
  - apply Forall_take, Forall_app. split; apply write_be_bytes.
  - split_and!; [vm_compute; reflexivity|vm_compute; discriminate|vm_compute; discriminate
                |vm_compute; reflexivity|reflexivity|].
    eexists. split; [vm_compute; reflexivity|]. split; vm_compute; reflexivity.
Defined.

(** What a local signer signs, every trust set that has learnt the signer's key
    accepts, for the same domain and bytes, as the signer's publisher. *)
Theorem sign_then_verify `{Hashing} `{!HashingOk} `{Ed25519} `{!Ed25519Ok}
    (t : TrustSet) (seed : bytes) (d b : string) :
  let signer := local_signer_from_seed seed in
  NoDup (issuer_key <$> t) -> (sig_publisher signer, signer_key_id signer) ∉ (issuer_key <$> t) ->
  is_zero (sig_publisher signer) = false ->
  Forall is_byte (sig_bytes (sign_with_local_signer signer d b)) ->
  verify_signature (add_ed25519 t (sig_publisher signer) (public_key signer)) (sig_publisher signer) d b
    (sign_with_local_signer signer d b)
  = Ok (mk_outcome kOk EmptyString (sig_publisher signer) (signer_key_id signer)).
Proof.
  intros signer Hnd Hnin Hz Hb. apply verify_signature_iff; [done|].
  assert (sig_bytes (sign_with_local_signer signer d b) <> []) as Hne.
  { intros E. apply (f_equal length) in E. simpl in E. by rewrite ed25519_sign_length in E. }
  split_and!; try done; [apply issuer_key_id_size|].
  eexists. split; [by apply add_ed25519_find|]. unfold signature_valid. simpl.
  split; [unfold zlength; by rewrite ed25519_sign_length|apply ed25519_verify_sign].
Qed.

Lemma sign_then_verify_witness :
  @verify_signature toy_hashing toy_ed25519 toy_trust (sig_publisher toy_signer) "wnc/v1/test" "{}"
    toy_signature
  = Ok (mk_outcome kOk EmptyString (sig_publisher toy_signer) (@signer_key_id toy_hashing toy_signer)).
Proof.
  apply (@sign_then_verify toy_hashing toy_hashing_ok toy_ed25519 toy_ed25519_ok [] (repeat 7 32)
           "wnc/v1/test" "{}"); [constructor|apply not_elem_of_nil|vm_compute; reflexivity|].
  apply Forall_take, Forall_app. split; apply write_be_bytes.
Defined.

(** The trust set, and so the digest bound into durable state, is a function of the
    set of issuers: adding issuers with distinct publisher and key pairs in any order
    gives the same records and the same digest. *)
Theorem trust_set_order_independent `{Hashing} (l1 l2 : list Issuer) :
  NoDup (issuer_key <$> l1) -> l1 ≡ₚ l2 ->
  add_issuers l1 = add_issuers l2 /\ trust_digest (add_issuers l1) = trust_digest (add_issuers l2).
Proof.
  intros Hnd Hp. assert (add_issuers l1 = add_issuers l2) as E.
  { rewrite !add_issuers_sorted by (done || by rewrite <- Hp). by apply std_sort_permutation. }
  by rewrite E.
Qed.

Lemma trust_set_order_independent_witness :
  let i1 := mk_issuer (mk_id "b") kEd25519 "k" [1] [] in
  let i2 := mk_issuer (mk_id "a") kHmacSha256 "k" [] [2] in
  add_issuers [i1; i2] = add_issuers [i2; i1]
  /\ @trust_digest toy_hashing (add_issuers [i1; i2]) = @trust_digest toy_hashing (add_issuers [i2; i1]).
Proof.
  intros i1 i2. apply (@trust_set_order_independent toy_hashing [i1; i2] [i2; i1]).
  - apply (bool_decide_unpack _). vm_compute. done.
  - apply Permutation_swap.
Defined.

(** C18: the type of a trust set.  The empty set has it and both ways of adding a key keep it:
    the issuers are strictly in the order of publisher and key identifier, so none is there
    twice; each holds exactly the key of its algorithm, under the identifier derived from
    that key.  Adding a key adds that issuer and no other, keeps the keys that were there,
    and in a set of this type every issuer is the one its publisher and key identifier find. *)
Theorem trust_set_typed `{Hashing} (t : TrustSet) (publisher : PublisherId) (key : bytes) :
  trust_wf t ->
  trust_wf []
  /\ (forall t', t' = add_ed25519 t publisher key \/ t' = add_hmac t publisher key ->
        trust_wf t'
        /\ exists new, (forall i, i ∈ t' -> i ∈ t \/ i = new) /\ issuer_wf new /\ iss_publisher new = publisher
           /\ forall k, k ∈ issuer_key <$> t' <-> k ∈ issuer_key <$> t \/ k = issuer_key new)
  /\ forall i, i ∈ t <-> find_key t (iss_publisher i) (iss_key_id i) = Some i.
Proof.
  intros Hwf. split; [repeat constructor|]. split.
  - assert (forall a, a <> kNone -> let t' := add_issuer a t publisher key in
      trust_wf t' /\ exists new, (forall i, i ∈ t' -> i ∈ t \/ i = new) /\ issuer_wf new /\ iss_publisher new = publisher
      /\ forall k, k ∈ issuer_key <$> t' <-> k ∈ issuer_key <$> t \/ k = issuer_key new) as Hadd.
    { intros a Ha t'. split; [by apply add_issuer_wf|]. exists (new_issuer a publisher key). split_and!.
      - intros i. apply add_issuer_elem.
      - by destruct a.
      - by destruct a.
      - intros k. unfold t'. rewrite add_issuer_keys. by destruct a. }
    intros t' [->| ->]; [by apply (Hadd kEd25519)|by apply (Hadd kHmacSha256)].
  - intros i. split; [|by intros [? _]%find_key_spec].
    intros Hi. apply find_key_In; [|done..]. apply strictly_sorted_distinct, Hwf.
Qed.

Lemma trust_set_typed_witness :
  @trust_wf toy_hashing (@add_hmac toy_hashing (@add_ed25519 toy_hashing [] (mk_id "b") [1]) (mk_id "a") [2]).
Proof.
  destruct (@trust_set_typed toy_hashing [] (mk_id "b") [1]) as (_ & H & _); [repeat constructor|].
  destruct (H _ (or_introl eq_refl)) as [Hwf _].
  destruct (@trust_set_typed toy_hashing _ (mk_id "a") [2] Hwf) as (_ & H' & _).
  exact (proj1 (H' _ (or_intror eq_refl))).
Defined.
