(* ===== verification/Contract.v ===== *)
(** * Contracts: data, tokens, identities, canonical form

    Models [include/wnc/contract.hpp] and, of [src/contract.cpp], the token tables, the
    identity derivation, the serialization and [canonicalize].  The decoder is in
    [ContractDecode], the validation in [ContractValidate]. *)
From Stdlib Require Import ZArith Lia Ascii String Permutation Sorted.
From stdpp Require Import base numbers option list strings sets.
From S2P Require Import Prelude Doubles Identity Errors Hash Json Signature.

(** ** Enumerations *)
Inductive RequirementKind : Set :=
| kMinBandwidth | kMaxLatency | kMaxJitter | kMaxLoss | kLocality | kPathDiversity
| kFailureDomainSeparation | kSecurityClass | kTrafficPriority | kBurstAllowance | kCollective
| kCheckpointIsolation | kDisaggregatedAffinity | kMaintenanceTolerance | kAttribute.

Definition kind_value (k : RequirementKind) : Z :=
  match k with
  | kMinBandwidth => 0 | kMaxLatency => 1 | kMaxJitter => 2 | kMaxLoss => 3 | kLocality => 4
  | kPathDiversity => 5 | kFailureDomainSeparation => 6 | kSecurityClass => 7
  | kTrafficPriority => 8 | kBurstAllowance => 9 | kCollective => 10 | kCheckpointIsolation => 11
  | kDisaggregatedAffinity => 12 | kMaintenanceTolerance => 13 | kAttribute => 14
  end.

Inductive RequirementStrength : Set := kInformational | kPreferred | kRequired.

Definition strength_value (s : RequirementStrength) : Z :=
  match s with kInformational => 0 | kPreferred => 1 | kRequired => 2 end.

Inductive Satisfaction : Set := kSatisfied | kUnsatisfied | kUnknown | kNotApplicable.

Inductive EvidenceFreshness : Set := kCurrent | kStale | kExpired | kRevalidationNeeded.

#[export] Instance RequirementKind_eq_dec : EqDecision RequirementKind.
Proof. solve_decision. Defined.
#[export] Instance RequirementStrength_eq_dec : EqDecision RequirementStrength.
Proof. solve_decision. Defined.
#[export] Instance Satisfaction_eq_dec : EqDecision Satisfaction.
Proof. solve_decision. Defined.
#[export] Instance EvidenceFreshness_eq_dec : EqDecision EvidenceFreshness.
Proof. solve_decision. Defined.

Definition kind_eqb (a b : RequirementKind) : bool := kind_value a =? kind_value b.
Definition strength_eqb (a b : RequirementStrength) : bool := strength_value a =? strength_value b.
Definition satisfaction_eqb (a b : Satisfaction) : bool := bool_decide (a = b).
Definition freshness_eqb (a b : EvidenceFreshness) : bool := bool_decide (a = b).

(** ** Token tables *)
Record KindInfo := mk_kind_info {
  ki_kind : RequirementKind; ki_token : string; ki_numeric : bool; ki_floor : bool
}.

Definition kKindTable : list KindInfo := [
  mk_kind_info kMinBandwidth "min_bandwidth" true true;
  mk_kind_info kMaxLatency "max_latency" true false;
  mk_kind_info kMaxJitter "max_jitter" true false;
  mk_kind_info kMaxLoss "max_loss" true false;
  mk_kind_info kLocality "locality" false false;
  mk_kind_info kPathDiversity "path_diversity" true true;
  mk_kind_info kFailureDomainSeparation "failure_domain_separation" true true;
  mk_kind_info kSecurityClass "security_class" false false;
  mk_kind_info kTrafficPriority "traffic_priority" true true;
  mk_kind_info kBurstAllowance "burst_allowance" true true;
  mk_kind_info kCollective "collective" false false;
  mk_kind_info kCheckpointIsolation "checkpoint_isolation" false false;
  mk_kind_info kDisaggregatedAffinity "disaggregated_affinity" false false;
  mk_kind_info kMaintenanceTolerance "maintenance_tolerance" false false;
  mk_kind_info kAttribute "attribute" false false
].

Definition kStrengthTable : list (RequirementStrength * string) :=
  [(kRequired, "required"%string); (kPreferred, "preferred"%string);
   (kInformational, "informational"%string)].

Definition kSatisfactionTable : list (Satisfaction * string) :=
  [(kSatisfied, "satisfied"%string); (kUnsatisfied, "unsatisfied"%string);
   (kUnknown, "unknown"%string); (kNotApplicable, "not_applicable"%string)].

Definition kFreshnessTable : list (EvidenceFreshness * string) :=
  [(kCurrent, "current"%string); (kStale, "stale"%string); (kExpired, "expired"%string);
   (kRevalidationNeeded, "revalidation_required"%string)].

(** The two linear searches every table is used with. *)
Section Tables.
Context {A : Type} (eqb : A -> A -> bool).

Fixpoint table_token (table : list (A * string)) (a : A) : string :=
  match table with
  | [] => "unknown"
  | (x, token) :: table' => if eqb x a then token else table_token table' a
  end.

Fixpoint table_parse (table : list (A * string)) (token : string) : option A :=
  match table with
  | [] => None
  | (x, t) :: table' => if String.eqb t token then Some x else table_parse table' token
  end.

End Tables.

Definition kind_tokens : list (RequirementKind * string) :=
  map (fun i => (ki_kind i, ki_token i)) kKindTable.

Definition requirement_kind_token (k : RequirementKind) : string := table_token kind_eqb kind_tokens k.
Definition parse_requirement_kind (t : string) : option RequirementKind := table_parse kind_tokens t.
Definition requirement_strength_token (s : RequirementStrength) : string :=
  table_token strength_eqb kStrengthTable s.
Definition parse_requirement_strength (t : string) : option RequirementStrength :=
  table_parse kStrengthTable t.
Definition satisfaction_token (s : Satisfaction) : string :=
  table_token satisfaction_eqb kSatisfactionTable s.
Definition parse_satisfaction (t : string) : option Satisfaction := table_parse kSatisfactionTable t.
Definition freshness_token (f : EvidenceFreshness) : string := table_token freshness_eqb kFreshnessTable f.
Definition parse_freshness (t : string) : option EvidenceFreshness := table_parse kFreshnessTable t.

Fixpoint find_kind (table : list KindInfo) (k : RequirementKind) : option KindInfo :=
  match table with
  | [] => None
  | i :: table' => if kind_eqb (ki_kind i) k then Some i else find_kind table' k
  end.

Definition kind_is_numeric (k : RequirementKind) : bool :=
  match find_kind kKindTable k with Some i => ki_numeric i | None => false end.
Definition kind_is_floor (k : RequirementKind) : bool :=
  match find_kind kKindTable k with Some i => ki_floor i | None => false end.
Definition kind_is_attribute_only (k : RequirementKind) : bool := negb (kind_is_numeric k).

Definition kind_unit (k : RequirementKind) : string :=
  match k with
  | kMinBandwidth => "bits_per_second"
  | kMaxLatency => "microseconds"
  | kMaxJitter => "microseconds"
  | kMaxLoss => "parts_per_million"
  | kPathDiversity => "paths"
  | kFailureDomainSeparation => "domains"
  | kTrafficPriority => "class"
  | kBurstAllowance => "bits"
  | _ => "none"
  end.

(** ** Data *)
Record RequirementKey := mk_key { rk_scope : string; rk_kind : RequirementKind; rk_key : string }.

#[export] Instance RequirementKey_eq_dec : EqDecision RequirementKey.
Proof. solve_decision. Defined.

Record Requirement := mk_requirement {
  req_id : RequirementId;
  scope : string;
  kind : RequirementKind;
  strength : RequirementStrength;
  target : double;
  minimum : double;
  has_numeric : bool;
  value : string;
  preferred_value : string;
  members : list RequirementId;
  attributes : list (string * string);
  req_key : string
}.

(** The default member initialisers. *)
Definition default_requirement : Requirement :=
  mk_requirement zero_id EmptyString kMinBandwidth kRequired d_zero d_zero false EmptyString
    EmptyString [] [] EmptyString.

Definition with_id (r : Requirement) (i : RequirementId) : Requirement :=
  mk_requirement i (scope r) (kind r) (strength r) (target r) (minimum r) (has_numeric r) (value r)
    (preferred_value r) (members r) (attributes r) (req_key r).

Definition with_lists (r : Requirement) (m : list RequirementId) (a : list (string * string)) : Requirement :=
  mk_requirement (req_id r) (scope r) (kind r) (strength r) (target r) (minimum r) (has_numeric r)
    (value r) (preferred_value r) m a (req_key r).

Definition composite_key (r : Requirement) : RequirementKey := mk_key (scope r) (kind r) (req_key r).

Definition key_eqb (a b : RequirementKey) : bool :=
  String.eqb (rk_scope a) (rk_scope b) && kind_eqb (rk_kind a) (rk_kind b)
  && String.eqb (rk_key a) (rk_key b).

(** [operator<] of [RequirementKey]. *)
#[export] Instance key_less : StdLess RequirementKey := fun a b =>
  if negb (String.eqb (rk_scope a) (rk_scope b)) then string_less (rk_scope a) (rk_scope b)
  else if negb (kind_eqb (rk_kind a) (rk_kind b)) then kind_value (rk_kind a) <? kind_value (rk_kind b)
  else string_less (rk_key a) (rk_key b).

Record Scope := mk_scope { sc_name : string; has_rank : bool; rank : Z; parent : string }.

Record Workload := mk_workload { wl_id : WorkloadId; wl_name : string; wl_generation : Z }.

Record ContractEnvelope := mk_envelope {
  publisher : PublisherId;
  env_algorithm : SignatureAlgorithm;
  env_key_id : string;
  signature : bytes;
  issued_millis : Z
}.

Definition default_envelope : ContractEnvelope := mk_envelope zero_id kNone EmptyString [] 0.

Definition is_signed (e : ContractEnvelope) : bool :=
  negb (bool_decide (env_algorithm e = kNone)) && negb (zlength (signature e) =? 0).

Record ContractBody := mk_body {
  schema_version : Z;
  workload : Workload;
  contract_id : ContractId;
  generation : Z;
  policy_generation : Z;
  major : Z;
  minor : Z;
  patch : Z;
  body_description : string;
  scopes : list Scope;
  requirements : list Requirement
}.

Definition with_contract_id (b : ContractBody) (i : ContractId) : ContractBody :=
  mk_body (schema_version b) (workload b) i (generation b) (policy_generation b) (major b) (minor b)
    (patch b) (body_description b) (scopes b) (requirements b).

Definition with_content (b : ContractBody) (s : list Scope) (r : list Requirement) : ContractBody :=
  mk_body (schema_version b) (workload b) (contract_id b) (generation b) (policy_generation b) (major b)
    (minor b) (patch b) (body_description b) s r.

Record Contract := mk_contract {
  body : ContractBody;
  digest : Digest;
  envelope : ContractEnvelope;
  supersedes : Z;
  supersedes_digest : Digest
}.

Definition has_supersedes (c : Contract) : bool := negb (supersedes c =? 0).

Definition digest_eqb (a b : Digest) : bool := bool_decide (a = b).

(** ** Serialization *)
Definition attribute_to_json (a : string * string) : Json :=
  set_all JNull [("name"%string, JString a.1); ("value"%string, JString a.2)].

(** [if (condition) out.set(key, value)]. *)
Definition set_if (condition : bool) (key : string) (v : Json) : list (string * Json) :=
  if condition then [(key, v)] else [].

Definition members_json (r : Requirement) : Json := JArray (map (fun m => JString (view m)) (members r)).
Definition attributes_json (r : Requirement) : Json := JArray (map attribute_to_json (attributes r)).

Definition requirement_to_json (r : Requirement) : Json :=
  set_all JNull
    ([("id"%string, JString (view (req_id r))); ("scope"%string, JString (scope r));
      ("kind"%string, JString (requirement_kind_token (kind r)));
      ("strength"%string, JString (requirement_strength_token (strength r)))]
     ++ set_if (has_numeric r) "target" (json_real (target r))
     ++ set_if (has_numeric r) "minimum" (json_real (minimum r))
     ++ set_if (has_numeric r) "unit" (JString (kind_unit (kind r)))
     ++ set_if (negb (is_empty (value r))) "value" (JString (value r))
     ++ set_if (negb (is_empty (preferred_value r))) "preferred_value" (JString (preferred_value r))
     ++ set_if (negb (zlength (members r) =? 0)) "members" (members_json r)
     ++ set_if (negb (zlength (attributes r) =? 0)) "attributes" (attributes_json r)
     ++ [("key"%string, JString (req_key r))]).

Definition scope_to_json (s : Scope) : Json :=
  set_all JNull
    ([("name"%string, JString (sc_name s))]
     ++ set_if (has_rank s) "rank" (JInt (rank s))
     ++ set_if (negb (is_empty (parent s))) "parent" (JString (parent s))).

Definition contract_body_to_json (b : ContractBody) : Json :=
  let workload_json := set_all JNull
    [("id"%string, JString (view (wl_id (workload b)))); ("name"%string, JString (wl_name (workload b)));
     ("generation"%string, json_uint (wl_generation (workload b)))] in
  let version := set_all JNull
    [("major"%string, JInt (major b)); ("minor"%string, JInt (minor b)); ("patch"%string, JInt (patch b))] in
  set_all JNull
    [("schema_version"%string, JInt (schema_version b));
     ("workload"%string, workload_json);
     ("contract_id"%string, JString (view (contract_id b)));
     ("contract_generation"%string, json_uint (generation b));
     ("policy_generation"%string, json_uint (policy_generation b));
     ("version"%string, version);
     ("description"%string, JString (body_description b));
     ("scopes"%string, JArray (map scope_to_json (scopes b)));
     ("requirements"%string, JArray (map requirement_to_json (requirements b)))].

Definition envelope_to_json (e : ContractEnvelope) : Json :=
  set_all JNull
    ([("publisher"%string, JString (view (publisher e)));
      ("algorithm"%string, JString (signature_algorithm_token (env_algorithm e)));
      ("key_id"%string, JString (env_key_id e));
      ("issued_millis"%string, json_uint (issued_millis e))]
     ++ set_if (negb (zlength (signature e) =? 0)) "signature" (JString (base64url_encode (signature e)))).

Definition contract_to_json (c : Contract) : Json :=
  set_all JNull
    ([("body"%string, contract_body_to_json (body c)); ("digest"%string, JString (hex_encode (digest c)))]
     ++ set_if (has_supersedes c) "supersedes" (json_uint (supersedes c))
     ++ set_if (has_supersedes c) "supersedes_digest" (JString (hex_encode (supersedes_digest c)))
     ++ [("envelope"%string, envelope_to_json (envelope c))]).

(** ** Ordering *)
Definition requirement_precedes (a b : Requirement) : bool :=
  if negb (String.eqb (scope a) (scope b)) then string_less (scope a) (scope b)
  else if negb (kind_eqb (kind a) (kind b)) then kind_value (kind a) <? kind_value (kind b)
  else if negb (String.eqb (req_key a) (req_key b)) then string_less (req_key a) (req_key b)
  else std_less (req_id a) (req_id b).

Definition scope_precedes (a b : Scope) : bool :=
  if negb (String.eqb (sc_name a) (sc_name b)) then string_less (sc_name a) (sc_name b)
  else rank a <? rank b.

Definition attribute_precedes (a b : string * string) : bool := string_less a.1 b.1.

(** ** Identity derivation and canonical form *)
Section Derivation.
Context `{Hashing}.

Definition requirement_material (r : Requirement) : Json :=
  set_all JNull
    ([("scope"%string, JString (scope r)); ("kind"%string, JString (requirement_kind_token (kind r)));
      ("key"%string, JString (req_key r));
      ("strength"%string, JString (requirement_strength_token (strength r)))]
     ++ set_if (has_numeric r) "target" (json_real (target r))
     ++ set_if (has_numeric r) "minimum" (json_real (minimum r))
     ++ set_if (negb (is_empty (value r))) "value" (JString (value r))
     ++ set_if (negb (is_empty (preferred_value r))) "preferred_value" (JString (preferred_value r))
     ++ set_if (negb (zlength (attributes r) =? 0)) "attributes" (attributes_json r)
     ++ set_if (negb (zlength (members r) =? 0)) "members" (members_json r)).

Definition derive_requirement_id (r : Requirement) : RequirementId :=
  from_digest (digest_domain "wnc/v1/requirement" (dump (requirement_material r))).

Definition derive_contract_id (workload : WorkloadId) (digest : Digest) : ContractId :=
  from_digest (sha256_parts ["wnc/v1/contract"%string; view workload; hex_encode digest]).

Definition body_digest_material (b : ContractBody) : Json :=
  set (contract_body_to_json b) "contract_id" (JString (char_string 64 "0")).

Definition body_digest (b : ContractBody) : Digest :=
  digest_domain "wnc/v1/contract-body" (dump (body_digest_material b)).

(** The body of the loop over the requirements: sorted lists, recomputed identity. *)
Definition canonical_requirement (r : Requirement) : Requirement :=
  let r := with_lists r (std_sort std_less (members r)) (std_sort attribute_precedes (attributes r)) in
  with_id r (derive_requirement_id r).

Definition canonical_body (b : ContractBody) : ContractBody :=
  with_content b (std_sort scope_precedes (scopes b))
    (std_sort requirement_precedes (map canonical_requirement (requirements b))).

(** [canonicalize]; it always returns [true]. *)
Definition canonicalize (c : Contract) : Contract :=
  let b := canonical_body (body c) in
  let d := body_digest b in
  let b := with_contract_id b (derive_contract_id (wl_id (workload b)) d) in
  mk_contract b (body_digest b) (envelope c) (supersedes c) (supersedes_digest c).

End Derivation.

(** ** Tokens *)
Lemma kind_eqb_eq a b : kind_eqb a b = true <-> a = b.
Proof. unfold kind_eqb. destruct a, b; split; intros H; try done. Qed.

Lemma strength_eqb_eq a b : strength_eqb a b = true <-> a = b.
Proof. unfold strength_eqb. destruct a, b; split; intros H; try done. Qed.

Lemma last_set_if k c key v l : k <> key -> last_set k (l ++ set_if c key v) = last_set k l.
Proof.
  intros Hne. rewrite last_set_app. unfold set_if. destruct c; simpl; [|done].
  by rewrite (proj2 (String.eqb_neq _ _)).
Qed.

Lemma key_eqb_eq (a b : RequirementKey) : key_eqb a b = true <-> a = b.
Proof.
  unfold key_eqb. rewrite !andb_true_iff, !String.eqb_eq, kind_eqb_eq. destruct a, b; simpl. naive_solver.
Qed.

Lemma kind_value_inj a b : kind_value a = kind_value b -> a = b.
Proof. intros H. apply kind_eqb_eq. by apply Z.eqb_eq. Qed.

Lemma table_parse_some {A} (table : list (A * string)) t a :
  table_parse table t = Some a -> (a, t) ∈ table.
Proof.
  induction table as [|[x s] table IH]; simpl; [done|]. destruct (String.eqb s t) eqn:E.
  - apply String.eqb_eq in E as ->. intros [= ->]. by left.
  - intros H. right. by apply IH.
Qed.

(** ** Orders as orders of keys *)
Definition key_tuple (k : RequirementKey) : string * (Z * string) :=
  (rk_scope k, (kind_value (rk_kind k), rk_key k)).

Lemma key_tuple_inj a b : key_tuple a = key_tuple b -> a = b.
Proof. destruct a, b. intros [= -> H ->]. simpl in H. by apply kind_value_inj in H as ->. Qed.

Lemma string_less_ne (a b : string) :
  (if negb (String.eqb a b) then string_less a b else false) = std_less a b.
Proof.
  destruct (String.eqb a b) eqn:E; [|done]. apply String.eqb_eq in E as ->.
  symmetry. apply (std_less_irrefl b).
Qed.

(** A comparison that moves on when the strings are equal is lexicographic. *)
Lemma lex_string (a b : string) (rest rest' : bool) :
  rest = rest' ->
  (if negb (String.eqb a b) then string_less a b else rest)
  = (if std_less a b then true else if std_less b a then false else rest').
Proof.
  intros ->. destruct (String.eqb a b) eqn:E; simpl.
  - apply String.eqb_eq in E as ->. by rewrite !std_less_irrefl.
  - apply String.eqb_neq in E. change (string_less a b) with (std_less a b).
    destruct (std_less a b) eqn:E1; [done|]. destruct (std_less b a) eqn:E2; [done|].
    exfalso. apply E. by apply std_less_total.
Qed.

Lemma lex_kind (a b : RequirementKind) (rest rest' : bool) :
  rest = rest' ->
  (if negb (kind_eqb a b) then kind_value a <? kind_value b else rest)
  = (if std_less (kind_value a) (kind_value b) then true
     else if std_less (kind_value b) (kind_value a) then false else rest').
Proof.
  intros ->. unfold kind_eqb, std_less, Z_std_less.
  destruct (Z.eqb_spec (kind_value a) (kind_value b)) as [->|E]; simpl; [by rewrite !Z.ltb_irrefl|].
  destruct (Z.ltb_spec (kind_value a) (kind_value b)); [done|].
  by rewrite (proj2 (Z.ltb_lt _ _)) by lia.
Qed.

Lemma key_less_tuple a b : std_less a b = std_less (key_tuple a) (key_tuple b).
Proof.
  unfold std_less at 1, key_less. unfold std_less at 1, prod_std_less; simpl.
  apply lex_string. unfold std_less at 1, prod_std_less; simpl. by apply lex_kind.
Qed.

#[export] Instance key_less_ok : StdLessOk RequirementKey.
Proof.
  split; intros *; rewrite !key_less_tuple.
  - apply std_less_irrefl.
  - apply std_less_trans.
  - intros H1 H2. by apply key_tuple_inj, std_less_total.
Qed.

Definition requirement_tuple (r : Requirement) : string * (Z * (string * RequirementId)) :=
  (scope r, (kind_value (kind r), (req_key r, req_id r))).

Lemma requirement_precedes_tuple a b :
  requirement_precedes a b = std_less (requirement_tuple a) (requirement_tuple b).
Proof.
  unfold requirement_precedes. unfold std_less at 2, prod_std_less; simpl. apply lex_string.
  unfold std_less at 2, prod_std_less; simpl. apply lex_kind.
  unfold std_less at 2, prod_std_less; simpl. by apply lex_string.
Qed.

Definition scope_tuple (s : Scope) : string * Z := (sc_name s, rank s).

Lemma scope_precedes_tuple a b : scope_precedes a b = std_less (scope_tuple a) (scope_tuple b).
Proof. unfold scope_precedes. unfold std_less, prod_std_less; simpl. by apply lex_string. Qed.

Lemma std_sort_ext {A} (f g : A -> A -> bool) l :
  (forall x y, f x y = g x y) -> std_sort f l = std_sort g l.
Proof.
  intros E. induction l as [|x l IH]; simpl; [done|]. rewrite IH. generalize (std_sort g l).
  intros m. induction m as [|y m IHm]; simpl; [done|]. by rewrite E, IHm.
Qed.

Lemma sort_scopes_key l :
  std_sort scope_precedes l = std_sort (fun a b => std_less (scope_tuple a) (scope_tuple b)) l.
Proof. apply std_sort_ext, scope_precedes_tuple. Qed.

Lemma sort_requirements_key l :
  std_sort requirement_precedes l
  = std_sort (fun a b => std_less (requirement_tuple a) (requirement_tuple b)) l.
Proof. apply std_sort_ext, requirement_precedes_tuple. Qed.

Lemma sort_attributes_key l :
  std_sort attribute_precedes l = std_sort (fun a b : string * string => std_less a.1 b.1) l.
Proof. done. Qed.

Lemma sort_attributes_idem l :
  std_sort attribute_precedes (std_sort attribute_precedes l) = std_sort attribute_precedes l.
Proof. apply (std_sort_idem (K := string) fst). Qed.

Section Canonical.
Context {HH : Hashing}.

(** ** Canonical form *)
Lemma body_digest_with_id b i : body_digest (with_contract_id b i) = body_digest b.
Proof. reflexivity. Qed.

Lemma derive_requirement_id_with_id r i : derive_requirement_id (with_id r i) = derive_requirement_id r.
Proof. by destruct r. Qed.

Lemma canonical_requirement_id r :
  req_id (canonical_requirement r) = derive_requirement_id (canonical_requirement r).
Proof. unfold canonical_requirement. by rewrite derive_requirement_id_with_id. Qed.

Lemma canonical_requirement_idem r :
  canonical_requirement (canonical_requirement r) = canonical_requirement r.
Proof.
  unfold canonical_requirement. unfold with_id, with_lists; cbn.
  rewrite (std_sort_idem (fun m : RequirementId => m)).
  by rewrite sort_attributes_idem.
Qed.

Lemma canonical_body_idem b i :
  canonical_body (with_contract_id (canonical_body b) i) = with_contract_id (canonical_body b) i.
Proof.
  unfold canonical_body, with_contract_id, with_content; cbn. f_equal.
  - rewrite !sort_scopes_key. apply std_sort_idem.
  - set (l := map canonical_requirement (requirements b)).
    assert (map canonical_requirement (std_sort requirement_precedes l)
            = std_sort requirement_precedes l) as ->.
    { rewrite <- (map_id (std_sort requirement_precedes l)) at 2. apply map_ext_in.
      intros r Hr. apply list_elem_of_In in Hr. rewrite std_sort_perm in Hr.
      apply list_elem_of_In, in_map_iff in Hr as (r0 & <- & _). apply canonical_requirement_idem. }
    rewrite !sort_requirements_key. apply std_sort_idem.
Qed.

(** Requirements that differ in their identity and the order of their lists only. *)
Record same_requirement (a b : Requirement) : Prop := {
  same_scalars : with_lists (with_id a zero_id) [] [] = with_lists (with_id b zero_id) [] [];
  same_members : members a ≡ₚ members b;
  same_attributes : attributes a ≡ₚ attributes b
}.

Lemma canonical_requirement_same a b :
  same_requirement a b -> NoDup (attributes a).*1 ->
  canonical_requirement a = canonical_requirement b.
Proof.
  intros [Hs Hm Ha] Hnd.
  assert (std_sort std_less (members a) = std_sort std_less (members b)) as Em
    by by apply (std_sort_permutation_inj (fun m : RequirementId => m)).
  assert (std_sort attribute_precedes (attributes a) = std_sort attribute_precedes (attributes b)) as Ea
    by by apply (std_sort_permutation (K := string) fst).
  unfold canonical_requirement. rewrite Em, Ea. clear Hm Ha Hnd Em Ea.
  destruct a, b; unfold with_lists, with_id in *; simpl in *. injection Hs as -> -> -> -> -> -> -> -> ->.
  f_equal.
Qed.

Lemma canonical_requirement_key r : composite_key (canonical_requirement r) = composite_key r.
Proof. done. Qed.

Lemma composite_key_tuple a b :
  requirement_tuple a = requirement_tuple b -> composite_key a = composite_key b.
Proof. unfold composite_key. intros [= -> H -> _]. by apply kind_value_inj in H as ->. Qed.

(** Sorting requirements with distinct composite keys forgets their order. *)
Lemma sort_requirements_perm l1 l2 :
  NoDup (composite_key <$> l1) -> l1 ≡ₚ l2 ->
  std_sort requirement_precedes l1 = std_sort requirement_precedes l2.
Proof.
  intros Hnd Hp. rewrite !sort_requirements_key. apply std_sort_permutation_inj; [|done].
  intros x y Hx Hy E. apply composite_key_tuple in E.
  by apply (NoDup_keys_inj composite_key l1 Hnd).
Qed.

Lemma sort_scopes_perm l1 l2 :
  NoDup (sc_name <$> l1) -> l1 ≡ₚ l2 -> std_sort scope_precedes l1 = std_sort scope_precedes l2.
Proof.
  intros Hnd Hp. rewrite !sort_scopes_key. apply std_sort_permutation_inj; [|done].
  intros x y Hx Hy [= E _]. by apply (NoDup_keys_inj sc_name l1 Hnd).
Qed.

(** Bodies that declare the same scopes and requirements, in whatever order. *)
Record same_body (a b : ContractBody) : Prop := {
  same_header : with_content (with_contract_id a zero_id) [] [] = with_content (with_contract_id b zero_id) [] [];
  same_scopes : scopes a ≡ₚ scopes b;
  same_requirements : exists l, requirements a ≡ₚ l /\ Forall2 same_requirement l (requirements b)
}.

Definition distinct_names (b : ContractBody) : Prop :=
  NoDup (sc_name <$> scopes b) /\ NoDup (composite_key <$> requirements b)
  /\ Forall (fun r => NoDup (attributes r).*1) (requirements b).

Lemma map_canonical_same l1 l2 :
  Forall2 same_requirement l1 l2 -> Forall (fun r => NoDup (attributes r).*1) l1 ->
  map canonical_requirement l1 = map canonical_requirement l2.
Proof.
  induction 1 as [|a b l1 l2 Hab Hl IH]; [done|]. intros Hn. apply Forall_cons in Hn as [Hna Hn].
  simpl. by rewrite (canonical_requirement_same a b), IH.
Qed.

Lemma canonical_body_same a b :
  same_body a b -> distinct_names a ->
  with_contract_id (canonical_body a) zero_id = with_contract_id (canonical_body b) zero_id.
Proof.
  intros [Hh Hs (l & Hl & Hf)] (Hn1 & Hn2 & Hn3).
  assert (std_sort scope_precedes (scopes a) = std_sort scope_precedes (scopes b)) as E1
    by by apply sort_scopes_perm.
  assert (std_sort requirement_precedes (map canonical_requirement (requirements a))
          = std_sort requirement_precedes (map canonical_requirement (requirements b))) as E2.
  { rewrite <- (map_canonical_same l (requirements b)); [|done|by rewrite <- Hl].
    apply sort_requirements_perm; [|by apply Permutation_map].
    rewrite <- list_fmap_compose. exact Hn2. }
  unfold canonical_body, with_content, with_contract_id in *; simpl in *.
  destruct a, b; simpl in *. injection Hh as -> -> -> -> -> -> -> ->. congruence.
Qed.

End Canonical.

(** ** Properties *)

(** Every enumeration has one token per value and parsing accepts exactly those
    tokens: a token parses to the value it was made from, and nothing else parses. *)
Theorem tokens_exact (k : RequirementKind) (s : RequirementStrength) (x : Satisfaction)
    (f : EvidenceFreshness) (t : string) :
  (parse_requirement_kind t = Some k <-> requirement_kind_token k = t)
  /\ (parse_requirement_strength t = Some s <-> requirement_strength_token s = t)
  /\ (parse_satisfaction t = Some x <-> satisfaction_token x = t)
  /\ (parse_freshness t = Some f <-> freshness_token f = t).
Proof.
  split_and!; split; intros H;
    try (rewrite <- H; match goal with |- _ = Some ?v => destruct v end; reflexivity);
    apply table_parse_some in H; repeat (apply elem_of_cons in H as [[= -> ->]|H]; [done|]);
    by apply elem_of_nil in H.
Qed.

(** Canonicalisation forgets the order of a declaration.  Two bodies that declare the
    same scopes, and the same requirements up to the order of members and attributes,
    whatever identities they came with, have the same canonical body, the same digest
    and the same contract identity, provided names and keys are distinct. *)
Theorem canonicalize_order_independent {HH : Hashing} (c1 c2 : Contract) :
  same_body (body c1) (body c2) -> distinct_names (body c1) ->
  digest (canonicalize c1) = digest (canonicalize c2)
  /\ body (canonicalize c1) = body (canonicalize c2).
Proof.
  intros Hs Hn. pose proof (canonical_body_same _ _ Hs Hn) as E. unfold canonicalize. simpl.
  assert (body_digest (canonical_body (body c1)) = body_digest (canonical_body (body c2))) as Ed.
  { rewrite <- (body_digest_with_id _ zero_id), E. apply body_digest_with_id. }
  rewrite !body_digest_with_id, Ed. split; [done|].
  assert (wl_id (workload (body c1)) = wl_id (workload (body c2))) as Ew
    by exact (f_equal (fun b => wl_id (workload b)) E).
  rewrite Ew. exact (f_equal (fun b => with_contract_id b
    (derive_contract_id (wl_id (workload (body c2))) (body_digest (canonical_body (body c2))))) E).
Qed.

(** Canonicalisation is idempotent: a canonical contract is its own canonical form, so
    its digest and its identities describe it. *)
Theorem canonicalize_idempotent {HH : Hashing} (c : Contract) :
  canonicalize (canonicalize c) = canonicalize c
  /\ digest (canonicalize c) = body_digest (body (canonicalize c))
  /\ contract_id (body (canonicalize c))
     = derive_contract_id (wl_id (workload (body c))) (digest (canonicalize c))
  /\ Forall (fun r => req_id r = derive_requirement_id r) (requirements (body (canonicalize c))).
Proof.
  split; [|split_and!].
  - unfold canonicalize; simpl. rewrite canonical_body_idem. done.
  - done.
  - unfold canonicalize; simpl. by rewrite body_digest_with_id.
  - unfold canonicalize; simpl. rewrite std_sort_perm. apply Forall_map, Forall_forall.
    intros r _. apply canonical_requirement_id.
Qed.

Definition sample_scope (name : string) : Scope := mk_scope name false 0 EmptyString.

Definition sample_requirement (scope key : string) (attributes : list (string * string)) : Requirement :=
  mk_requirement zero_id scope kLocality kRequired d_zero d_zero false "rack" EmptyString [] attributes key.

Definition sample_body (s : list Scope) (r : list Requirement) : ContractBody :=
  mk_body 1 (mk_workload (from_digest (repeat 1 32)) "w" 1) zero_id 1 1 1 0 0 EmptyString s r.

Definition sample_contract (b : ContractBody) : Contract :=
  mk_contract b zero_digest default_envelope 0 zero_digest.

Lemma canonicalize_order_independent_witness :
  let a1 := ("zone"%string, "1"%string) in
  let a2 := ("area"%string, "2"%string) in
  let r1 x y := sample_requirement "b" "k" [x; y] in
  let r2 := sample_requirement "a" "k" [] in
  let b1 := sample_body [sample_scope "b"; sample_scope "a"] [r1 a1 a2; r2] in
  let b2 := sample_body [sample_scope "a"; sample_scope "b"] [r2; with_id (r1 a2 a1) (from_digest (repeat 9 32))] in
  digest (@canonicalize toy_hashing (sample_contract b1))
    = digest (@canonicalize toy_hashing (sample_contract b2))
  /\ body (@canonicalize toy_hashing (sample_contract b1))
    = body (@canonicalize toy_hashing (sample_contract b2)).
Proof.
  intros a1 a2 r1 r2 b1 b2. apply (@canonicalize_order_independent toy_hashing).
  - split; [done|apply Permutation_swap|]. exists [r2; r1 a1 a2]. split; [apply Permutation_swap|].
    repeat constructor.
  - split_and!; [apply (bool_decide_unpack _); vm_compute; reflexivity| |].
    + apply (NoDup_fmap_1 key_tuple). apply (bool_decide_unpack _). vm_compute. reflexivity.
    + repeat constructor; simpl; rewrite ?elem_of_cons, ?elem_of_nil; intuition discriminate.
Defined.
