(* ===== verification/ContractValidate.v ===== *)
(** * Contract validation

    Models the validation of [src/contract.cpp]: [validate_body], [validate_contract_body]
    and [validate_contract].  A pass over the body is the list of diagnostics it adds, in
    order; the result's log is the bounded log after those calls. *)
From Stdlib Require Import ZArith Lia Ascii String.
From stdpp Require Import base numbers option list strings sets relations.
From S2P Require Import Prelude Doubles Identity Errors Hash Json Signature Contract.

(** ** Limits *)
Record ContractLimits := mk_limits {
  max_scopes : Z;
  max_requirements : Z;
  max_requirements_per_scope : Z;
  max_ranked_scopes : Z;
  max_attributes : Z;
  max_distinct_kinds_per_scope : Z;
  max_schema_version : Z
}.

Definition default_contract_limits : ContractLimits := mk_limits 1024 4096 256 256 32 32 1.

Definition kMaxNameBytes : Z := 200.

(** [diagnostics.add(code, message)] when the condition holds. *)
Definition add_if (b : bool) (code : Code) (text : string) : list Diagnostic :=
  if b then [diag code text] else [].

Definition add_if_req (b : bool) (code : Code) (text : string) (r : Requirement) : list Diagnostic :=
  if b then [mk_diagnostic code text zero_id (req_id r)] else [].


Section Validate.
Context (limits : ContractLimits) (b : ContractBody).

(** ** Header *)
Definition header_diagnostics : list Diagnostic :=
  (if schema_version b =? 0 then [diag kContractSchema "schema_version must be at least 1"]
   else add_if (max_schema_version limits <? schema_version b) kContractSchemaVersionUnsupported
          ("schema_version " ++ to_string (schema_version b) ++ " exceeds the supported version "
           ++ to_string (max_schema_version limits)))
  ++ add_if (is_zero (wl_id (workload b))) kZeroIdentity "workload identity is the zero identity"
  ++ add_if (wl_generation (workload b) =? 0) kZeroIdentity "workload generation must be at least 1"
  ++ add_if (is_zero (contract_id b)) kZeroIdentity "contract identity is the zero identity"
  ++ add_if (generation b =? 0) kZeroIdentity "contract generation must be at least 1"
  ++ add_if (policy_generation b =? 0) kZeroIdentity "policy generation must be at least 1"
  ++ add_if (is_empty (wl_name (workload b))) kContractSchema "workload name must not be empty"
  ++ add_if (major b =? 0) kContractSchema "contract major version must be at least 1"
  ++ add_if (max_scopes limits <? zlength (scopes b)) kTooManyScopes
       ("scope count " ++ to_string (zlength (scopes b)) ++ " exceeds the bound "
        ++ to_string (max_scopes limits))
  ++ add_if (max_requirements limits <? zlength (requirements b)) kTooManyRequirements
       ("requirement count " ++ to_string (zlength (requirements b)) ++ " exceeds the bound "
        ++ to_string (max_requirements limits))
  ++ add_if (zlength (requirements b) =? 0) kEmptyRequirementSet "contract declares no requirements".

(** ** Scopes *)

(** The first loop: the map from name to scope, the ranked count, the diagnostics. *)
Fixpoint scope_pass (l : list Scope) (m : list (string * Scope)) (ranked : Z)
    : list (string * Scope) * Z * list Diagnostic :=
  match l with
  | [] => (m, ranked, [])
  | s :: l' =>
      if is_empty (sc_name s) then
        let '(m', ranked', ds) := scope_pass l' m ranked in
        (m', ranked', diag kEmptyScopeName "scope name must not be empty" :: ds)
      else
        let ranked := if has_rank s then ranked + 1 else ranked in
        let '(m1, inserted) := map_emplace (sc_name s) s m in
        let '(m', ranked', ds) := scope_pass l' m1 ranked in
        (m', ranked',
         add_if (negb inserted) kDuplicateRequirement
           ("scope '" ++ sc_name s ++ "' is declared twice") ++ ds)%list
  end.

Definition scope_map : list (string * Scope) := (scope_pass (scopes b) [] 0).1.1.
Definition ranked_scopes : Z := (scope_pass (scopes b) [] 0).1.2.

Definition rank_diagnostics : list Diagnostic :=
  add_if (max_ranked_scopes limits <? ranked_scopes) kTooManyRankedScopes
    ("ranked scope count " ++ to_string ranked_scopes ++ " exceeds the bound "
     ++ to_string (max_ranked_scopes limits)).

(** The body of the loop over the parents. *)
Definition parent_diagnostics (m : list (string * Scope)) (s : Scope) : list Diagnostic :=
  if is_empty (parent s) then []
  else
    match map_find (parent s) m with
    | None =>
        [diag kUnknownScope
           ("scope '" ++ sc_name s ++ "' names undeclared parent '" ++ parent s ++ "'")]
    | Some p =>
        if String.eqb (parent s) (sc_name s)
        then [diag kCompositionCycle ("scope '" ++ sc_name s ++ "' is its own parent")]
        else
          add_if (has_rank p && has_rank s && (rank s <=? rank p)) kCompositionConflict
            ("scope '" ++ sc_name s ++ "' parent '" ++ parent s ++ "' must have a strictly lower rank")
    end.

(** The walk from a scope along its parents: the number of steps when the loop stops;
    [fuel] is what is left of [steps <= body.scopes.size()]. *)
Fixpoint walk_parents (m : list (string * Scope)) (fuel : nat) (current : string) : nat :=
  match fuel with
  | O => O
  | S fuel' =>
      if is_empty current then O
      else
        match map_find current m with
        | None => O
        | Some s => S (walk_parents m fuel' (parent s))
        end
  end.

(** The cycle check breaks at the first scope it reports. *)
Fixpoint cycle_pass (m : list (string * Scope)) (count : nat) (l : list Scope) : list Diagnostic :=
  match l with
  | [] => []
  | start :: l' =>
      if (count <? walk_parents m (S count) (sc_name start))%nat
      then [diag kCompositionCycle ("scope '" ++ sc_name start ++ "' participates in a parent cycle")]
      else cycle_pass m count l'
  end.

Definition scope_diagnostics : list Diagnostic :=
  ((scope_pass (scopes b) [] 0).2 ++ rank_diagnostics
   ++ concat (map (parent_diagnostics scope_map) (scopes b))
   ++ cycle_pass scope_map (length (scopes b)) (scopes b))%list.

(** ** Requirements *)

(** The numeric band of one requirement. *)
Definition numeric_diagnostics (r : Requirement) : list Diagnostic :=
  (add_if_req (kind_is_numeric (kind r) && negb (has_numeric r)) kInvalidValue
    ("numeric requirement of kind " ++ requirement_kind_token (kind r)
     ++ " must declare target and minimum") r
  ++ add_if_req (negb (kind_is_numeric (kind r)) && has_numeric r) kInvalidValue
    ("requirement of kind " ++ requirement_kind_token (kind r)
     ++ " must not declare numeric parameters") r
  ++ (if has_numeric r then
        if negb (is_finite (target r)) || negb (is_finite (minimum r))
        then add_if_req true kInvalidValue "numeric parameters must be finite" r
        else if dlt (target r) d_zero || dlt (minimum r) d_zero
        then add_if_req true kValueOutOfRange "numeric parameters must not be negative" r
        else
          let ordered :=
            if kind_is_floor (kind r) then dle (minimum r) (target r) else dle (target r) (minimum r) in
          add_if_req (negb ordered) kValueOutOfRange
            "target must be the strict bound and minimum the weakest acceptable bound for this requirement kind" r
          ++ add_if_req (strength_eqb (strength r) kRequired && negb (deq (target r) (minimum r)))
               kValueOutOfRange
               "a required requirement has no preferred band: target must equal minimum" r
          ++ add_if_req (strength_eqb (strength r) kPreferred && deq (target r) (minimum r))
               kValueOutOfRange
               "a preferred requirement must declare a distinct preferred band" r
      else []))%list.

Definition needs_value (k : RequirementKind) : bool :=
  match k with
  | kLocality | kSecurityClass | kCheckpointIsolation | kDisaggregatedAffinity
  | kMaintenanceTolerance | kAttribute => true
  | _ => false
  end.

Definition value_diagnostics (r : Requirement) : list Diagnostic :=
  (add_if_req (needs_value (kind r) && is_empty (value r)) kInvalidValue
    ("requirement of kind " ++ requirement_kind_token (kind r) ++ " must declare a value") r
  ++ (if negb (is_empty (preferred_value r)) then
        add_if_req (negb (strength_eqb (strength r) kPreferred)) kInvalidValue
          "preferred_value is only permitted on a preferred requirement" r
        ++ add_if_req (String.eqb (preferred_value r) (value r)) kInvalidValue
             "preferred_value must differ from the required value" r
      else [])
  ++ add_if_req ((kMaxNameBytes <? size (req_key r)) || (kMaxStringBytes <? size (value r)))
       kValueOutOfRange "requirement parameter exceeds its byte bound" r)%list.

(** The loops that emplace the names of attributes and the collective members and report
    the ones already present. *)
Fixpoint attribute_pass (r : Requirement) (l : list (string * string)) (seen : list (string * Z))
    : list Diagnostic :=
  match l with
  | [] => []
  | a :: l' =>
      let '(seen', inserted) := map_emplace a.1 0 seen in
      (add_if_req (negb inserted) kDuplicateRequirement
         ("requirement repeats attribute '" ++ a.1 ++ "'") r
       ++ add_if_req ((kMaxNameBytes <? size a.1) || (kMaxStringBytes <? size a.2)) kValueOutOfRange
            "attribute exceeds its byte bound" r
       ++ attribute_pass r l' seen')%list
  end.

Fixpoint member_pass (r : Requirement) (l : list RequirementId) (seen : list (RequirementId * Z))
    : list Diagnostic :=
  match l with
  | [] => []
  | m :: l' =>
      let '(seen', inserted) := map_emplace m 0 seen in
      (add_if_req (is_zero m) kZeroIdentity "collective member is the zero identity" r
       ++ add_if_req (negb inserted) kDuplicateCollectiveMember
            ("collective names member " ++ view m ++ " more than once") r
       ++ member_pass r l' seen')%list
  end.

Definition member_diagnostics (r : Requirement) : list Diagnostic :=
  if kind_eqb (kind r) kCollective then
    (add_if_req (zlength (members r) =? 0) kEmptyCollective "collective requirement names no members" r
     ++ member_pass r (members r) [])%list
  else
    add_if_req (negb (zlength (members r) =? 0)) kInvalidValue
      "only collective requirements may name members" r.

Definition content_diagnostics (r : Requirement) : list Diagnostic :=
  (numeric_diagnostics r ++ value_diagnostics r
   ++ add_if_req (max_attributes limits <? zlength (attributes r)) kTooManyAttributes
        "requirement attribute count exceeds the bound" r
   ++ attribute_pass r (attributes r) [] ++ member_diagnostics r)%list.

(** The accumulators of the loop over the requirements. *)
Record requirement_state := mk_rs {
  rs_keys : list (RequirementKey * RequirementId);
  rs_per_scope : list (string * Z);
  rs_kinds : list (string * list (Z * Z));
  rs_identities : list (RequirementId * Z)
}.

Definition count_of {K} `{StdLess K} (k : K) (m : list (K * Z)) : Z := default 0 (map_find k m).

Definition requirement_step (m : list (string * Scope)) (st : requirement_state) (r : Requirement)
    : requirement_state * list Diagnostic :=
  let '(identities, fresh_id) := map_emplace (req_id r) 0 (rs_identities st) in
  let '(keys, fresh_key) := map_emplace (composite_key r) (req_id r) (rs_keys st) in
  let kinds := default [] (map_find (scope r) (rs_kinds st)) in
  (mk_rs keys (map_insert (scope r) (count_of (scope r) (rs_per_scope st) + 1) (rs_per_scope st))
     (map_insert (scope r)
        (map_insert (kind_value (kind r)) (count_of (kind_value (kind r)) kinds + 1) kinds) (rs_kinds st))
     identities,
   (add_if_req (is_empty (scope r) || negb (map_has (scope r) m)) kUnknownScope
      ("requirement references undeclared scope '" ++ scope r ++ "'") r
    ++ add_if (is_zero (req_id r)) kZeroIdentity "requirement identity is the zero identity"
    ++ add_if_req (negb fresh_id) kDuplicateRequirement "requirement identity is repeated" r
    ++ add_if_req (negb fresh_key) kDuplicateRequirement
         ("requirement key is repeated for scope '" ++ scope r ++ "'") r
    ++ content_diagnostics r)%list).

Fixpoint requirement_pass (m : list (string * Scope)) (st : requirement_state) (l : list Requirement)
    : requirement_state * list Diagnostic :=
  match l with
  | [] => (st, [])
  | r :: l' =>
      let '(st1, ds1) := requirement_step m st r in
      let '(st2, ds2) := requirement_pass m st1 l' in
      (st2, (ds1 ++ ds2)%list)
  end.

Definition count_diagnostics (st : requirement_state) : list Diagnostic :=
  (concat (map (fun e : string * Z =>
     add_if (max_requirements_per_scope limits <? e.2) kTooManyRequirements
       ("scope '" ++ e.1 ++ "' declares " ++ to_string e.2 ++ " requirements, above the bound "
        ++ to_string (max_requirements_per_scope limits))) (rs_per_scope st))
  ++ concat (map (fun e : string * list (Z * Z) =>
       add_if (max_distinct_kinds_per_scope limits <? zlength e.2) kTooManyRequirements
         ("scope '" ++ e.1 ++ "' declares " ++ to_string (zlength e.2)
          ++ " distinct kinds, above the bound " ++ to_string (max_distinct_kinds_per_scope limits)))
       (rs_kinds st)))%list.

Definition validate_body : list Diagnostic :=
  let '(st, ds) := requirement_pass scope_map (mk_rs [] [] [] []) (requirements b) in
  (header_diagnostics ++ scope_diagnostics ++ ds ++ count_diagnostics st)%list.

End Validate.

(** ** Results *)
Record ValidationResult := mk_validation { validation_ok : bool; diagnostics : DiagnosticLog }.

Definition validation_of (ds : list Diagnostic) : ValidationResult :=
  let log := log_adds empty_log ds in mk_validation (negb (has_errors log)) log.

Section Contracts.
Context `{Hashing}.

Definition identity_diagnostics (b : ContractBody) : list Diagnostic :=
  concat (map (fun r =>
    if is_zero (req_id r) then []
    else add_if_req (negb (id_eqb (derive_requirement_id r) (req_id r))) kContractDigestMismatch
           "requirement identity does not match its content" r) (requirements b)).

Definition body_diagnostics (b : ContractBody) : list Diagnostic :=
  (validate_body default_contract_limits b ++ identity_diagnostics b)%list.

Definition validate_contract_body (b : ContractBody) : ValidationResult :=
  validation_of (body_diagnostics b).

(** What [validate_contract] adds to the result of the body. *)
Definition contract_diagnostics (c : Contract) : list Diagnostic :=
  let computed := body_digest (body c) in
  (add_if (negb (digest_eqb computed (digest c))) kContractDigestMismatch
    "contract digest does not match the canonical body bytes"
  ++ (if is_zero (contract_id (body c)) then
        [diag kZeroIdentity "contract identity is not set; canonicalise the body first"]
      else
        add_if (negb (id_eqb (derive_contract_id (wl_id (workload (body c))) computed)
                        (contract_id (body c)))) kContractDigestMismatch
          "contract identity does not match the workload and body digest")
  ++ (if has_supersedes c then
        add_if (generation (body c) <=? supersedes c) kStaleGeneration
          "superseded generation must be below the contract generation"
        ++ add_if (digest_eqb (supersedes_digest c) zero_digest) kContractSchema
             "a superseding contract must carry the superseded digest"
      else
        add_if (negb (digest_eqb (supersedes_digest c) zero_digest)) kContractSchema
          "superseded digest present without a superseded generation"))%list.

Definition validate_contract (c : Contract) : ValidationResult :=
  let log := diagnostics (validate_contract_body (body c)) in
  let log := log_adds log (contract_diagnostics c) in
  mk_validation (negb (has_errors log)) log.

End Contracts.

(** ** What a valid body is *)
Section Spec.
Context `{Hashing}.

(** The edge from a declared scope to the parent it names. *)
Definition parent_edge (b : ContractBody) (x y : string) : Prop :=
  exists s, s ∈ scopes b /\ sc_name s = x /\ parent s = y /\ y <> EmptyString.

Record scopes_valid (b : ContractBody) : Prop := {
  sv_names : Forall (fun s => sc_name s <> EmptyString) (scopes b);
  sv_distinct : NoDup (sc_name <$> scopes b);
  sv_ranked : zlength (filter (fun s => has_rank s = true) (scopes b)) <= 256;
  sv_parents : Forall (fun s => parent s = EmptyString \/
    exists p, p ∈ scopes b /\ sc_name p = parent s /\ parent s <> sc_name s
      /\ (has_rank p = true -> has_rank s = true -> rank p < rank s)) (scopes b);
  sv_acyclic : forall x, ~ tc (parent_edge b) x x
}.

Definition band_valid (r : Requirement) : Prop :=
  is_finite (target r) = true /\ is_finite (minimum r) = true
  /\ dle d_zero (target r) = true /\ dle d_zero (minimum r) = true
  /\ (if kind_is_floor (kind r) then dle (minimum r) (target r) else dle (target r) (minimum r)) = true
  /\ (strength r = kRequired -> deq (target r) (minimum r) = true)
  /\ (strength r = kPreferred -> deq (target r) (minimum r) = false).

Record content_valid (r : Requirement) : Prop := {
  cv_numeric : has_numeric r = kind_is_numeric (kind r);
  cv_band : has_numeric r = true -> band_valid r;
  cv_value : needs_value (kind r) = true -> value r <> EmptyString;
  cv_preferred : preferred_value r <> EmptyString ->
    strength r = kPreferred /\ preferred_value r <> value r;
  cv_sizes : size (req_key r) <= 200 /\ size (value r) <= 4096;
  cv_attributes : zlength (attributes r) <= 32 /\ NoDup (attributes r).*1
    /\ Forall (fun a => size a.1 <= 200 /\ size a.2 <= 4096) (attributes r);
  cv_members : if kind_eqb (kind r) kCollective
    then members r <> [] /\ NoDup (members r) /\ Forall (fun m => is_zero m = false) (members r)
    else members r = []
}.

Record body_valid (b : ContractBody) : Prop := {
  bv_schema : schema_version b <> 0 /\ schema_version b <= 1;
  bv_workload : is_zero (wl_id (workload b)) = false /\ wl_generation (workload b) <> 0
    /\ wl_name (workload b) <> EmptyString;
  bv_contract : is_zero (contract_id b) = false /\ generation b <> 0 /\ policy_generation b <> 0
    /\ major b <> 0;
  bv_counts : zlength (scopes b) <= 1024 /\ requirements b <> [] /\ zlength (requirements b) <= 4096
    /\ forall s, zlength (filter (fun r => scope r = s) (requirements b)) <= 256;
  bv_scopes : scopes_valid b;
  bv_declared : Forall (fun r => scope r ∈ (sc_name <$> scopes b)) (requirements b);
  bv_identities : Forall (fun r => is_zero (req_id r) = false /\ req_id r = derive_requirement_id r)
    (requirements b);
  bv_distinct : NoDup (req_id <$> requirements b) /\ NoDup (composite_key <$> requirements b);
  bv_content : Forall content_valid (requirements b)
}.

End Spec.

(** ** Every diagnostic of the passes is an error *)
Lemma add_if_nil c code text : add_if c code text = [] <-> c = false.
Proof. by destruct c. Qed.

Lemma add_if_req_nil c code text r : add_if_req c code text r = [] <-> c = false.
Proof. by destruct c. Qed.

Lemma add_if_errors c code text : code <> kOk -> errors_only (add_if c code text).
Proof. intros. destruct c; [by apply errors_only_one|constructor]. Qed.

Lemma add_if_req_errors c code text r : code <> kOk -> errors_only (add_if_req c code text r).
Proof. intros. destruct c; [by apply errors_only_one|constructor]. Qed.

Ltac errors :=
  repeat first
    [ progress (rewrite ?errors_only_app)
    | split
    | apply add_if_errors; discriminate
    | apply add_if_req_errors; discriminate
    | apply errors_only_one; discriminate
    | constructor
    | match goal with |- errors_only (if ?c then _ else _) => destruct c end
    | match goal with |- errors_only (match ?c with _ => _ end) => destruct c end ].

Lemma scope_pass_errors l m ranked : errors_only (scope_pass l m ranked).2.
Proof.
  revert m ranked. induction l as [|s l IH]; intros m ranked; simpl; [constructor|].
  destruct (is_empty (sc_name s)).
  - pose proof (IH m ranked). destruct (scope_pass l m ranked) as [[m' r'] ds]; simpl in *.
    constructor; done.
  - destruct (map_emplace (sc_name s) s m) as [m1 ins].
    set (r1 := if has_rank s then ranked + 1 else ranked). pose proof (IH m1 r1).
    destruct (scope_pass l m1 r1) as [[m' r'] ds]; simpl in *. apply errors_only_app. split; [errors|done].
Qed.

Lemma cycle_pass_errors m n l : errors_only (cycle_pass m n l).
Proof. induction l; simpl; [constructor|]. case_bool; [errors|done]. Qed.

Lemma attribute_pass_errors r l seen : errors_only (attribute_pass r l seen).
Proof.
  revert seen. induction l as [|a l IH]; intros seen; simpl; [constructor|].
  destruct (map_emplace a.1 0 seen). rewrite !errors_only_app. split; [errors|]. split; [errors|apply IH].
Qed.

Lemma member_pass_errors r l seen : errors_only (member_pass r l seen).
Proof.
  revert seen. induction l as [|a l IH]; intros seen; simpl; [constructor|].
  destruct (map_emplace a 0 seen). rewrite !errors_only_app. split; [errors|]. split; [errors|apply IH].
Qed.

Lemma content_errors limits r : errors_only (content_diagnostics limits r).
Proof.
  unfold content_diagnostics, numeric_diagnostics, value_diagnostics, member_diagnostics.
  errors; try apply attribute_pass_errors; try apply member_pass_errors.
Qed.

Lemma requirement_pass_errors limits m st l : errors_only (requirement_pass limits m st l).2.
Proof.
  revert st. induction l as [|r l IH]; intros st; simpl; [constructor|].
  unfold requirement_step. destruct (map_emplace (req_id r) 0 _) as [ids f1].
  destruct (map_emplace (composite_key r) _ _) as [keys f2].
  match goal with |- context [requirement_pass limits m ?st' l] => pose proof (IH st') as IH';
    destruct (requirement_pass limits m st' l) as [st2 ds2] end. simpl in *.
  rewrite !errors_only_app. split_and!; try (errors; fail); [apply content_errors|done].
Qed.

Lemma validate_body_errors limits b : errors_only (validate_body limits b).
Proof.
  unfold validate_body. pose proof (requirement_pass_errors limits (scope_map b) (mk_rs [] [] [] [])
    (requirements b)) as Hr.
  destruct (requirement_pass limits (scope_map b) (mk_rs [] [] [] []) (requirements b)) as [st ds]. simpl in Hr.
  unfold header_diagnostics, scope_diagnostics, rank_diagnostics, count_diagnostics.
  rewrite !errors_only_app. split_and!; try (errors; fail);
    auto using scope_pass_errors, cycle_pass_errors; apply errors_only_concat; intros; try (errors; fail).
  unfold parent_diagnostics. errors.
Qed.

(** ** The scope pass *)
Notation ranked_of l := (zlength (filter (fun s => has_rank s = true) l)).

Lemma scope_pass_nil l m ranked :
  (scope_pass l m ranked).2 = [] <->
  Forall (fun s => sc_name s <> EmptyString) l /\ NoDup (sc_name <$> l)
  /\ forall s, s ∈ l -> sc_name s ∉ m.*1.
Proof.
  revert m ranked. induction l as [|s l IH]; intros m ranked; simpl.
  { split; [intros _; split_and!; [constructor|constructor|by intros s ?%elem_of_nil]|done]. }
  destruct (is_empty (sc_name s)) eqn:E.
  - destruct (scope_pass l m ranked) as [[m' r'] ds]. simpl. split; [done|].
    intros (H & _). apply Forall_cons in H as [H _]. by apply is_empty_true in E.
  - pose proof (map_emplace_fresh (sc_name s) s m) as Hfresh.
    pose proof (fun n => map_emplace_keys (sc_name s) n s m) as Hm1.
    destruct (map_emplace (sc_name s) s m) as [m1 ins] eqn:Em. simpl in Hfresh.
    specialize (IH m1 (if has_rank s then ranked + 1 else ranked)).
    destruct (scope_pass l m1 _) as [[m' r'] ds]; simpl in *.
    rewrite app_nil, add_if_nil, negb_false_iff, Hfresh, IH, Forall_cons, NoDup_cons.
    assert (sc_name s <> EmptyString) by (intros Es; rewrite Es in E; done).
    split.
    + intros (H1 & H2 & H3 & H4). split_and!; try done.
      * intros (x & Hx & Hin)%list_elem_of_fmap. apply (H4 x Hin). rewrite Hm1. by left.
      * intros x Hx. apply elem_of_cons in Hx as [->|Hx]; [done|]. intros Hc. apply (H4 x Hx).
        rewrite Hm1. by right.
    + intros ([_ H2] & [H3 H4] & H5). split_and!; try done.
      * apply H5. by left.
      * intros x Hx. rewrite Hm1. intros [Hc|Hc].
        -- apply H3. rewrite <- Hc. by apply list_elem_of_fmap_2.
        -- apply (H5 x); [by right|done].
Qed.

(** What the pass leaves when it reports nothing. *)
Lemma scope_pass_result l m ranked :
  (scope_pass l m ranked).2 = [] ->
  (scope_pass l m ranked).1.2 = ranked + ranked_of l
  /\ forall n s, map_find n (scope_pass l m ranked).1.1 = Some s <->
       map_find n m = Some s \/ (s ∈ l /\ sc_name s = n).
Proof.
  unfold zlength. revert m ranked. induction l as [|s l IH]; intros m ranked Hnil.
  { simpl. split; [lia|]. intros n s. rewrite elem_of_nil. tauto. }
  pose proof (proj1 (scope_pass_nil _ _ _) Hnil) as (H1 & H2 & H3).
  apply Forall_cons in H1 as [Hs H1]. cbn [scope_pass] in *.
  assert (is_empty (sc_name s) = false) as E by by destruct (sc_name s).
  rewrite E in *. unfold map_emplace in *.
  assert (map_has (sc_name s) m = false) as Eh.
  { apply not_true_iff_false. rewrite map_has_spec. apply H3. by left. }
  rewrite Eh in *. set (r1 := if has_rank s then ranked + 1 else ranked) in *.
  specialize (IH (map_insert (sc_name s) s m) r1).
  destruct (scope_pass l _ r1) as [[m' r'] ds]; simpl in *. destruct (IH Hnil) as [IH1 IH2].
  split.
  - rewrite IH1. unfold r1. rewrite filter_cons. destruct (has_rank s) eqn:Er.
    + rewrite decide_True by done. simpl. lia.
    + rewrite decide_False by done. lia.
  - intros n x. rewrite IH2, elem_of_cons. destruct (decide (n = sc_name s)) as [->|Hne].
    + rewrite map_find_insert_eq. rewrite (proj2 (map_find_None (sc_name s) m)) by (apply H3; by left).
      split; [intros [[= <-]|[Hx Hn]]; [right; auto|right; auto]|].
      intros [?|[[->|Hx] Hn]]; [done|by left|by right].
    + rewrite map_find_insert_ne by done. split; [intros [?|[Hx Hn]]; [by left|right; auto]|].
      intros [?|[[->|Hx] Hn]]; [by left|congruence|by right].
Qed.

(** ** The parent walk *)
Section Walk.
Context (b : ContractBody) (m : list (string * Scope)).
Context (Hm : forall n s, map_find n m = Some s <-> s ∈ scopes b /\ sc_name s = n).
Context (Hnames : Forall (fun s => sc_name s <> EmptyString) (scopes b)).

(** A sequence of names, each the parent of the one before. *)
Fixpoint chain (l : list string) : Prop :=
  match l with
  | x :: (y :: _) as l' => parent_edge b x y /\ chain l'
  | _ => True
  end.

Lemma chain_reach x l y : chain (x :: l) -> y ∈ l -> tc (parent_edge b) x y.
Proof using.
  revert x. induction l as [|z l IH]; intros x Hc Hy; [by apply elem_of_nil in Hy|].
  destruct Hc as [Hxz Hc]. apply elem_of_cons in Hy as [->|Hy]; [by apply tc_once|].
  eapply tc_l; [done|]. by apply IH.
Qed.

Lemma chain_nodup l : chain l -> (forall x, ~ tc (parent_edge b) x x) -> NoDup l.
Proof using.
  intros Hc Hac. induction l as [|x l IH]; [constructor|]. constructor.
  - intros Hx. apply (Hac x). by apply (chain_reach x l).
  - apply IH. destruct l; [done|]. apply Hc.
Qed.

(** A walk that uses all its fuel visits that many declared names. *)
Lemma walk_chain fuel x :
  walk_parents m fuel x = fuel -> exists l, length l = fuel /\ chain l
    /\ Forall (fun n => n ∈ (sc_name <$> scopes b)) l /\ (fuel <> 0%nat -> head l = Some x).
Proof using Hm Hnames.
  revert x. induction fuel as [|fuel IH]; intros x Hw; [by exists []|].
  cbn [walk_parents] in Hw. destruct (is_empty x) eqn:Ex; [done|].
  destruct (map_find x m) as [s|] eqn:Es; [|done]. apply Hm in Es as [Hs <-].
  injection Hw as Hw. destruct (IH _ Hw) as (l & Hl & Hc & Hd & Hh). exists (sc_name s :: l).
  split_and!; [simpl; congruence| |constructor; [by apply list_elem_of_fmap_2|done]|done].
  destruct l as [|y l]; [done|]. split; [|done]. simpl in Hl. destruct fuel; [done|].
  specialize (Hh ltac:(done)). injection Hh as ->. exists s. split_and!; try done.
  apply Forall_cons in Hd as [Hd _]. apply list_elem_of_fmap in Hd as (p & Ep & Hp).
  rewrite Ep. rewrite Forall_forall in Hnames. by apply Hnames.
Qed.

(** From a name on a cycle the walk never stops. *)
Lemma walk_cycle fuel x : tc (parent_edge b) x x -> walk_parents m fuel x = fuel.
Proof using Hm Hnames.
  revert x. induction fuel as [|fuel IH]; intros x Hx; [done|]. cbn [walk_parents].
  assert (exists y, parent_edge b x y /\ rtc (parent_edge b) y x) as (y & Hxy & Hyx).
  { inversion Hx as [? ? H|? y ? H H']; subst; [exists x; split; [done|apply rtc_refl]|].
    exists y. split; [done|by apply tc_rtc]. }
  destruct Hxy as (s & Hs & <- & Hp & Hne).
  assert (is_empty (sc_name s) = false) as ->.
  { rewrite Forall_forall in Hnames. specialize (Hnames s Hs). by destruct (sc_name s). }
  rewrite (proj2 (Hm (sc_name s) s)) by done. f_equal. rewrite Hp. apply IH.
  eapply tc_rtc_l; [exact Hyx|]. apply tc_once. by exists s.
Qed.

Lemma cycle_pass_nil l n :
  n = length (scopes b) -> l ⊆ scopes b ->
  NoDup (sc_name <$> scopes b) ->
  (forall x, tc (parent_edge b) x x -> exists s, s ∈ l /\ sc_name s = x) ->
  cycle_pass m n l = [] <-> forall x, ~ tc (parent_edge b) x x.
Proof using Hm Hnames.
  intros Hn _ Hnd Hcover.
  assert (cycle_pass m n l = [] <->
          Forall (fun s => (n <? walk_parents m (S n) (sc_name s))%nat = false) l) as ->.
  { clear Hcover. induction l as [|s l IH]; cbn [cycle_pass]; [split; [constructor|done]|].
    rewrite Forall_cons. destruct (n <? _)%nat; [split; [done|by intros [? _]]|]. rewrite IH. tauto. }
  rewrite Forall_forall. split.
  - intros Hall x Hx. destruct (Hcover x Hx) as (s & Hs & <-). specialize (Hall s Hs).
    rewrite walk_cycle in Hall by done. apply Nat.ltb_ge in Hall. lia.
  - intros Hac s Hs. apply Nat.ltb_ge.
    assert (forall fuel x, walk_parents m fuel x <= fuel)%nat as Hle.
    { induction fuel as [|fuel IH]; intros x; simpl; [done|]. destruct (is_empty x); [lia|].
      destruct (map_find x m); [|lia]. specialize (IH (parent s0)). lia. }
    specialize (Hle (S n) (sc_name s)). destruct (decide (walk_parents m (S n) (sc_name s) = S n)) as [E|];
      [|lia]. exfalso. destruct (walk_chain _ _ E) as (c & Hlen & Hc & Hd & _).
    assert (length c <= length (sc_name <$> scopes b))%nat as Hl.
    { apply NoDup_incl_length.
      - by apply NoDup_ListNoDup, chain_nodup.
      - intros x Hx. apply list_elem_of_In in Hx. rewrite Forall_forall in Hd.
        by apply list_elem_of_In, Hd. }
    rewrite length_fmap in Hl. lia.
Qed.

End Walk.

Lemma parent_diagnostics_nil b m s :
  (forall n s, map_find n m = Some s <-> s ∈ scopes b /\ sc_name s = n) ->
  NoDup (sc_name <$> scopes b) ->
  parent_diagnostics m s = [] <->
  parent s = EmptyString \/
    exists p, p ∈ scopes b /\ sc_name p = parent s /\ parent s <> sc_name s
      /\ (has_rank p = true -> has_rank s = true -> rank p < rank s).
Proof.
  intros Hm Hnd. unfold parent_diagnostics. destruct (is_empty (parent s)) eqn:E.
  { apply is_empty_true in E. tauto. }
  assert (parent s <> EmptyString) as Hne by (intros Ep; by rewrite Ep in E).
  destruct (map_find (parent s) m) as [p|] eqn:Ep.
  - apply Hm in Ep as [Hp Hpn]. destruct (String.eqb (parent s) (sc_name s)) eqn:Eq.
    + apply String.eqb_eq in Eq. split; [done|]. intros [?|(q & _ & _ & ? & _)]; done.
    + apply String.eqb_neq in Eq. rewrite add_if_nil. split.
      * intros Hr. right. exists p. split_and!; try done. intros E1 E2. rewrite E1, E2 in Hr.
        simpl in Hr. by apply Z.leb_gt in Hr.
      * intros [?|(q & Hq & Hqn & _ & Hr)]; [done|].
        assert (p = q) as -> by (apply (NoDup_keys_inj sc_name _ Hnd); [done|done|congruence]).
        destruct (has_rank q), (has_rank s); simpl; try done. apply Z.leb_gt. by apply Hr.
  - split; [done|]. intros [?|(q & Hq & Hqn & _)]; [done|]. exfalso.
    assert (map_find (parent s) m = Some q) as Hf by by apply Hm. congruence.
Qed.

Lemma scope_diagnostics_nil b :
  scope_diagnostics default_contract_limits b = [] <-> scopes_valid b.
Proof.
  unfold scope_diagnostics, rank_diagnostics. rewrite !app_nil, add_if_nil, Z.ltb_ge, concat_map_nil.
  split.
  - intros (Hnil & Hr & Hp & Hc). pose proof (proj1 (scope_pass_nil _ _ _) Hnil) as (H1 & H2 & _).
    destruct (scope_pass_result _ _ _ Hnil) as [R1 R2].
    assert (forall n s, map_find n (scope_map b) = Some s <-> s ∈ scopes b /\ sc_name s = n) as Hm.
    { intros n s. unfold scope_map. rewrite R2. simpl. intuition congruence. }
    split; try done.
    + unfold ranked_scopes in Hr. rewrite R1 in Hr. simpl in Hr. lia.
    + eapply Forall_impl; [exact Hp|]. intros s. by apply (parent_diagnostics_nil b (scope_map b)).
    + apply (cycle_pass_nil b (scope_map b) Hm H1 (scopes b) (length (scopes b))); try done.
      intros x Hx. assert (exists y, parent_edge b x y) as (y & s & Hs & <- & _)
        by (inversion Hx; eauto). by exists s.
  - intros [V1 V2 V3 V4 V5]. assert ((scope_pass (scopes b) [] 0).2 = []) as Hnil.
    { apply scope_pass_nil. split_and!; [done|done|]. intros s _. apply not_elem_of_nil. }
    destruct (scope_pass_result _ _ _ Hnil) as [R1 R2].
    assert (forall n s, map_find n (scope_map b) = Some s <-> s ∈ scopes b /\ sc_name s = n) as Hm.
    { intros n s. unfold scope_map. rewrite R2. simpl. intuition congruence. }
    split_and!; [done| | |].
    + unfold ranked_scopes. rewrite R1. simpl. lia.
    + eapply Forall_impl; [exact V4|]. intros s. by apply (parent_diagnostics_nil b (scope_map b)).
    + apply (cycle_pass_nil b (scope_map b) Hm V1 (scopes b) (length (scopes b))); try done.
      intros x Hx. assert (exists y, parent_edge b x y) as (y & s & Hs & <- & _)
        by (inversion Hx; eauto). by exists s.
Qed.

(** ** One requirement *)
Lemma dlt_zero_false d : is_finite d = true -> dlt d d_zero = false <-> dle d_zero d = true.
Proof. intros H. rewrite dlt_not_dle by done. by rewrite negb_false_iff. Qed.

Lemma numeric_diagnostics_nil r :
  numeric_diagnostics r = [] <->
  has_numeric r = kind_is_numeric (kind r) /\ (has_numeric r = true -> band_valid r).
Proof.
  unfold numeric_diagnostics, band_valid. rewrite !app_nil, !add_if_req_nil.
  assert ((kind_is_numeric (kind r) && negb (has_numeric r) = false
           /\ negb (kind_is_numeric (kind r)) && has_numeric r = false)
          <-> has_numeric r = kind_is_numeric (kind r)) as E
    by (destruct (kind_is_numeric (kind r)), (has_numeric r); simpl; intuition congruence).
  rewrite <- E. clear E.
  destruct (has_numeric r); [|intuition congruence].
  destruct (is_finite (target r)) eqn:Et; simpl; [|intuition congruence].
  destruct (is_finite (minimum r)) eqn:Em; simpl; [|intuition congruence].
  pose proof (dlt_zero_false _ Et) as Zt. pose proof (dlt_zero_false _ Em) as Zm.
  destruct (dlt (target r) d_zero); simpl; [intuition congruence|].
  destruct (dlt (minimum r) d_zero); simpl; [intuition congruence|].
  rewrite !app_nil, !add_if_req_nil, negb_false_iff.
  assert (strength_eqb (strength r) kRequired && negb (deq (target r) (minimum r)) = false
          <-> (strength r = kRequired -> deq (target r) (minimum r) = true)) as ->.
  { destruct (strength_eqb (strength r) kRequired) eqn:E.
    - apply strength_eqb_eq in E. destruct (deq _ _); simpl; intuition congruence.
    - simpl. split; [|done]. intros _ Hs. apply strength_eqb_eq in Hs. congruence. }
  assert (strength_eqb (strength r) kPreferred && deq (target r) (minimum r) = false
          <-> (strength r = kPreferred -> deq (target r) (minimum r) = false)) as ->.
  { destruct (strength_eqb (strength r) kPreferred) eqn:E.
    - apply strength_eqb_eq in E. destruct (deq _ _); simpl; intuition congruence.
    - simpl. split; [|done]. intros _ Hs. apply strength_eqb_eq in Hs. congruence. }
  intuition.
Qed.

Lemma guard_imp (a e : bool) : a && e = false <-> (a = true -> e <> true).
Proof.
  destruct a, e; simpl; split; try done. intros H. exfalso. by apply H.
Qed.

Lemma value_diagnostics_nil r :
  value_diagnostics r = [] <->
  (needs_value (kind r) = true -> value r <> EmptyString)
  /\ (preferred_value r <> EmptyString -> strength r = kPreferred /\ preferred_value r <> value r)
  /\ size (req_key r) <= 200 /\ size (value r) <= 4096.
Proof.
  unfold value_diagnostics. rewrite !app_nil, !add_if_req_nil, orb_false_iff, !Z.ltb_ge.
  assert (needs_value (kind r) && is_empty (value r) = false <->
          (needs_value (kind r) = true -> value r <> EmptyString)) as ->.
  { rewrite <- is_empty_true. apply guard_imp. }
  assert ((if negb (is_empty (preferred_value r)) then
             add_if_req (negb (strength_eqb (strength r) kPreferred)) kInvalidValue
               "preferred_value is only permitted on a preferred requirement" r
             ++ add_if_req (String.eqb (preferred_value r) (value r)) kInvalidValue
                  "preferred_value must differ from the required value" r
           else []) = [] <->
          (preferred_value r <> EmptyString -> strength r = kPreferred /\ preferred_value r <> value r)) as ->.
  { rewrite <- is_empty_true. destruct (is_empty (preferred_value r)); simpl; [tauto|].
    rewrite app_nil, !add_if_req_nil, negb_false_iff, strength_eqb_eq, String.eqb_neq.
    split; [done|]. intros Hp. by apply Hp. }
  done.
Qed.

(** The loops that emplace and report. *)
Lemma attribute_pass_nil r l seen :
  attribute_pass r l seen = [] <->
  NoDup l.*1 /\ (forall a, a ∈ l -> a.1 ∉ seen.*1)
  /\ Forall (fun a => size a.1 <= 200 /\ size a.2 <= 4096) l.
Proof.
  revert seen. induction l as [|a l IH]; intros seen; simpl.
  { split; [intros _; split_and!; [constructor|by intros a ?%elem_of_nil|constructor]|done]. }
  pose proof (map_emplace_fresh a.1 0 seen) as Hf. pose proof (fun n => map_emplace_keys a.1 n 0 seen) as Hk.
  destruct (map_emplace a.1 0 seen) as [seen' ins]; simpl in *.
  rewrite !app_nil, !add_if_req_nil, negb_false_iff, Hf, orb_false_iff, !Z.ltb_ge, IH, NoDup_cons, Forall_cons.
  unfold kMaxNameBytes, kMaxStringBytes. split.
  - intros (H1 & H2 & H3 & H4 & H5). split_and!; try apply H2; try done.
    + intros (x & Hx & Hin)%list_elem_of_fmap. apply (H4 x Hin), Hk. by left.
    + intros x Hx. apply elem_of_cons in Hx as [->|Hx]; [done|]. intros Hc. apply (H4 x Hx), Hk. by right.
  - intros ([H1 H2] & H3 & H4 & H5). split_and!; try apply H4; try done; [apply H3; by left|].
    intros x Hx [Hc|Hc]%Hk; [apply H1; rewrite <- Hc; by apply list_elem_of_fmap_2|].
    apply (H3 x); [by right|done].
Qed.

Lemma member_pass_nil r l seen :
  member_pass r l seen = [] <->
  NoDup l /\ (forall a, a ∈ l -> a ∉ seen.*1) /\ Forall (fun m => is_zero m = false) l.
Proof.
  revert seen. induction l as [|a l IH]; intros seen; simpl.
  { split; [intros _; split_and!; [constructor|by intros a ?%elem_of_nil|constructor]|done]. }
  pose proof (map_emplace_fresh a 0 seen) as Hf. pose proof (fun n => map_emplace_keys a n 0 seen) as Hk.
  destruct (map_emplace a 0 seen) as [seen' ins]; simpl in *.
  rewrite !app_nil, !add_if_req_nil, negb_false_iff, Hf, IH, NoDup_cons, Forall_cons. split.
  - intros (H1 & H2 & H3 & H4 & H5). split_and!; try done.
    + intros Hin. apply (H4 a Hin), Hk. by left.
    + intros x Hx. apply elem_of_cons in Hx as [->|Hx]; [done|]. intros Hc. apply (H4 x Hx), Hk. by right.
  - intros ([H1 H2] & H3 & H4 & H5). split_and!; try done; [apply H3; by left|].
    intros x Hx [Hc|Hc]%Hk; [by rewrite Hc in Hx|]. apply (H3 x); [by right|done].
Qed.

Lemma member_diagnostics_nil r :
  member_diagnostics r = [] <->
  if kind_eqb (kind r) kCollective
  then members r <> [] /\ NoDup (members r) /\ Forall (fun m => is_zero m = false) (members r)
  else members r = [].
Proof.
  unfold member_diagnostics. destruct (kind_eqb (kind r) kCollective).
  - rewrite app_nil, add_if_req_nil, member_pass_nil, zlength_nonzero. simpl.
    assert (forall a, a ∈ members r -> a ∉ ([] : list RequirementId)) by (intros; apply not_elem_of_nil).
    tauto.
  - rewrite add_if_req_nil, negb_false_iff. apply zlength_zero.
Qed.

Lemma content_diagnostics_nil r :
  content_diagnostics default_contract_limits r = [] <-> content_valid r.
Proof.
  unfold content_diagnostics.
  rewrite !app_nil, numeric_diagnostics_nil, value_diagnostics_nil, add_if_req_nil, attribute_pass_nil,
    member_diagnostics_nil, Z.ltb_ge. simpl.
  assert (forall a, a ∈ attributes r -> a.1 ∉ ([] : list string)) by (intros; apply not_elem_of_nil).
  split.
  - intros ((? & ?) & (? & ? & ?) & ? & (? & _ & ?) & ?). by split.
  - intros [? ? ? ? ? (? & ? & ?) ?]. tauto.
Qed.

(** ** The requirement pass *)
Notation in_scope s l := (filter (fun r => scope r = s) l).

Lemma filter_scope_cons s r l :
  zlength (in_scope s (r :: l)) = (if decide (scope r = s) then 1 else 0) + zlength (in_scope s l).
Proof. unfold zlength. rewrite filter_cons. destruct (decide (scope r = s)); simpl; lia. Qed.

(** The invariant of the accumulators: both counting maps are in key order, and the kinds
    counted per scope are values of the enumeration. *)
Record rs_ok (st : requirement_state) : Prop := {
  rs_sorted : keys_sorted (rs_per_scope st);
  rs_kinds_sorted : keys_sorted (rs_kinds st);
  rs_kinds_ok : forall s k, map_find s (rs_kinds st) = Some k ->
    keys_sorted k /\ forall v, v ∈ k.*1 -> 0 <= v < 15
}.

Lemma kind_value_range k : 0 <= kind_value k < 15.
Proof. destruct k; simpl; lia. Qed.

Lemma requirement_step_ok limits m st r :
  rs_ok st ->
  rs_ok (requirement_step limits m st r).1
  /\ (forall s, count_of s (rs_per_scope (requirement_step limits m st r).1)
       = (if decide (scope r = s) then 1 else 0) + count_of s (rs_per_scope st)).
Proof.
  intros [H1 H2 H3]. unfold requirement_step.
  destruct (map_emplace (req_id r) 0 _) as [ids f1]. destruct (map_emplace (composite_key r) _ _) as [ks f2].
  simpl. split.
  - split; simpl; [by apply map_insert_sorted..|]. intros s k.
    destruct (decide (s = scope r)) as [->|Hne].
    + rewrite map_find_insert_eq. intros [= <-].
      assert (keys_sorted (default [] (map_find (scope r) (rs_kinds st)))
              /\ forall v, v ∈ (default [] (map_find (scope r) (rs_kinds st))).*1 -> 0 <= v < 15) as [Hs Hv].
      { destruct (map_find (scope r) (rs_kinds st)) eqn:E; simpl; [by apply H3 in E|].
        split; [done|]. by intros v ?%elem_of_nil. }
      split; [by apply map_insert_sorted|]. intros v [->|Hin]%map_insert_keys; [apply kind_value_range|].
      by apply Hv.
    + rewrite map_find_insert_ne by done. apply H3.
  - intros s. unfold count_of at 1. destruct (decide (scope r = s)) as [<-|Hne].
    + rewrite map_find_insert_eq. simpl. lia.
    + rewrite map_find_insert_ne by done. unfold count_of. lia.
Qed.

Lemma requirement_pass_ok limits m st l :
  rs_ok st ->
  rs_ok (requirement_pass limits m st l).1
  /\ forall s, count_of s (rs_per_scope (requirement_pass limits m st l).1)
       = count_of s (rs_per_scope st) + zlength (in_scope s l).
Proof.
  revert st. induction l as [|r l IH]; intros st Hst.
  { split; [done|]. intros s. unfold zlength. simpl. lia. }
  cbn [requirement_pass]. destruct (requirement_step_ok limits m st r Hst) as [Hok Hc].
  destruct (requirement_step limits m st r) as [st1 ds1]. simpl in *. destruct (IH st1 Hok) as [Hok2 Hc2].
  destruct (requirement_pass limits m st1 l) as [st2 ds2]. simpl in *. split; [done|].
  intros s. rewrite Hc2, Hc, filter_scope_cons. lia.
Qed.

Lemma requirement_pass_nil m st l :
  (requirement_pass default_contract_limits m st l).2 = [] <->
  Forall (fun r => scope r <> EmptyString /\ scope r ∈ m.*1) l
  /\ Forall (fun r => is_zero (req_id r) = false) l
  /\ (NoDup (req_id <$> l) /\ forall r, r ∈ l -> req_id r ∉ (rs_identities st).*1)
  /\ (NoDup (composite_key <$> l) /\ forall r, r ∈ l -> composite_key r ∉ (rs_keys st).*1)
  /\ Forall content_valid l.
Proof.
  revert st. induction l as [|r l IH]; intros st; cbn [requirement_pass].
  { split; [intros _; split_and!; try constructor; by intros r ?%elem_of_nil|done]. }
  unfold requirement_step.
  pose proof (map_emplace_fresh (req_id r) 0 (rs_identities st)) as F1.
  pose proof (fun n => map_emplace_keys (req_id r) n 0 (rs_identities st)) as K1.
  destruct (map_emplace (req_id r) 0 _) as [ids f1].
  pose proof (map_emplace_fresh (composite_key r) (req_id r) (rs_keys st)) as F2.
  pose proof (fun n => map_emplace_keys (composite_key r) n (req_id r) (rs_keys st)) as K2.
  destruct (map_emplace (composite_key r) _ _) as [ks f2]. simpl in F1, K1, F2, K2.
  match goal with |- context [requirement_pass ?lm m ?st' l] => specialize (IH st');
    destruct (requirement_pass lm m st' l) as [st2 ds2] end. cbn [snd rs_identities rs_keys] in *.
  rewrite !app_nil, IH, !add_if_req_nil, add_if_nil, content_diagnostics_nil, !negb_false_iff, F1, F2.
  assert (is_empty (scope r) || negb (map_has (scope r) m) = false
          <-> scope r <> EmptyString /\ scope r ∈ m.*1) as ->.
  { rewrite orb_false_iff, negb_false_iff, map_has_spec, <- is_empty_true.
    destruct (is_empty (scope r)); intuition congruence. }
  rewrite !fmap_cons, !NoDup_cons, !Forall_cons. split.
  - intros ((A1 & A2 & A3 & A4 & A5) & B1 & B2 & (B3 & B4) & (B5 & B6) & B7).
    split_and!; try done; try apply A1.
    + intros (x & Hx & Hin)%list_elem_of_fmap. apply (B4 x Hin), K1. by left.
    + intros x Hx. apply elem_of_cons in Hx as [->|Hx]; [done|]. intros Hc. apply (B4 x Hx), K1. by right.
    + intros (x & Hx & Hin)%list_elem_of_fmap. apply (B6 x Hin), K2. by left.
    + intros x Hx. apply elem_of_cons in Hx as [->|Hx]; [done|]. intros Hc. apply (B6 x Hx), K2. by right.
  - intros ((A1 & B1) & (A2 & B2) & ((N1 & B3) & B4) & ((N2 & B5) & B6) & A5 & B7).
    split_and!; try done; try apply A1; [apply B4; by left|apply B6; by left| |].
    + intros x Hx [Hc|Hc]%K1; [apply N1; rewrite <- Hc; by apply list_elem_of_fmap_2|].
      apply (B4 x); [by right|done].
    + intros x Hx [Hc|Hc]%K2; [apply N2; rewrite <- Hc; by apply list_elem_of_fmap_2|].
      apply (B6 x); [by right|done].
Qed.

Lemma NoDup_bounded_length (l : list Z) (n : Z) :
  NoDup l -> (forall v, v ∈ l -> 0 <= v < n) -> zlength l <= Z.max 0 n.
Proof.
  intros Hnd Hb. unfold zlength.
  assert (length l <= length (seqZ 0 n))%nat as Hl.
  { apply NoDup_incl_length; [by apply NoDup_ListNoDup|]. intros v Hv. apply list_elem_of_In.
    apply list_elem_of_In in Hv. apply elem_of_seqZ. specialize (Hb v Hv). lia. }
  rewrite length_seqZ in Hl. lia.
Qed.

Lemma count_diagnostics_nil st l :
  rs_ok st -> (forall s, count_of s (rs_per_scope st) = zlength (in_scope s l)) ->
  count_diagnostics default_contract_limits st = [] <-> forall s, zlength (in_scope s l) <= 256.
Proof.
  intros [H1 H2 H3] Hc. unfold count_diagnostics. rewrite app_nil, !concat_map_nil, !Forall_forall.
  split.
  - intros [Ha _] s. rewrite <- Hc. unfold count_of. destruct (map_find s (rs_per_scope st)) as [n|] eqn:E;
      [|simpl; lia]. apply map_find_Some_in in E. specialize (Ha _ E). simpl in Ha.
    apply add_if_nil, Z.ltb_ge in Ha. done.
  - intros Hs. split; intros [s e] Hin; simpl; apply add_if_nil, Z.ltb_ge.
    + apply keys_sorted_find in Hin; [|done]. specialize (Hc s). unfold count_of in Hc. rewrite Hin in Hc.
      simpl in Hc. rewrite Hc. apply Hs.
    + apply keys_sorted_find in Hin; [|done]. destruct (H3 _ _ Hin) as [Hk Hv].
      pose proof (NoDup_bounded_length e.*1 15 (keys_sorted_NoDup _ Hk) Hv) as Hl.
      unfold zlength in *. rewrite length_fmap in Hl. lia.
Qed.

Lemma header_diagnostics_nil b :
  header_diagnostics default_contract_limits b = [] <->
  (schema_version b <> 0 /\ schema_version b <= 1)
  /\ (is_zero (wl_id (workload b)) = false /\ wl_generation (workload b) <> 0
      /\ wl_name (workload b) <> EmptyString)
  /\ (is_zero (contract_id b) = false /\ generation b <> 0 /\ policy_generation b <> 0 /\ major b <> 0)
  /\ zlength (scopes b) <= 1024 /\ requirements b <> [] /\ zlength (requirements b) <= 4096.
Proof.
  unfold header_diagnostics. rewrite !app_nil, !add_if_nil, !Z.ltb_ge, zlength_nonzero, !Z.eqb_neq.
  assert ((if schema_version b =? 0 then [diag kContractSchema "schema_version must be at least 1"]
           else add_if (max_schema_version default_contract_limits <? schema_version b)
                  kContractSchemaVersionUnsupported
                  ("schema_version " ++ to_string (schema_version b) ++ " exceeds the supported version "
                   ++ to_string (max_schema_version default_contract_limits))) = []
          <-> schema_version b <> 0 /\ schema_version b <= 1) as ->.
  { destruct (Z.eqb_spec (schema_version b) 0); [intuition congruence|].
    rewrite add_if_nil, Z.ltb_ge. simpl. tauto. }
  assert (is_empty (wl_name (workload b)) = false <-> wl_name (workload b) <> EmptyString) as ->.
  { rewrite <- is_empty_true. destruct (is_empty _); intuition congruence. }
  simpl. tauto.
Qed.

(** The scopes a valid scope pass has in its map. *)
Lemma scope_map_keys b n :
  scopes_valid b -> n ∈ (scope_map b).*1 <-> n ∈ (sc_name <$> scopes b).
Proof.
  intros [V1 V2 _ _ _].
  assert ((scope_pass (scopes b) [] 0).2 = []) as Hnil.
  { apply scope_pass_nil. split_and!; [done|done|]. intros s _. apply not_elem_of_nil. }
  destruct (scope_pass_result _ _ _ Hnil) as [_ R]. rewrite <- map_has_spec. unfold map_has, scope_map.
  rewrite list_elem_of_fmap. split.
  - destruct (map_find n _) as [s|] eqn:E; [|done]. intros _. apply R in E as [E|[Hs Hn]]; [done|].
    exists s. auto.
  - intros (s & -> & Hs).
    assert (map_find (sc_name s) (scope_pass (scopes b) [] 0).1.1 = Some s) as -> by (apply R; auto). done.
Qed.

Section ValidateFacts.
Context {HH : Hashing}.

Lemma identity_diagnostics_nil b :
  Forall (fun r => is_zero (req_id r) = false) (requirements b) ->
  identity_diagnostics b = [] <-> Forall (fun r => req_id r = derive_requirement_id r) (requirements b).
Proof.
  intros Hz. unfold identity_diagnostics. rewrite concat_map_nil, !Forall_forall.
  rewrite Forall_forall in Hz. split; intros Hall r Hr; specialize (Hall r Hr); specialize (Hz r Hr).
  - rewrite Hz in Hall. apply add_if_req_nil, negb_false_iff, id_eqb_eq in Hall. done.
  - rewrite Hz. apply add_if_req_nil, negb_false_iff, id_eqb_eq. done.
Qed.

Lemma body_diagnostics_nil b : body_diagnostics b = [] <-> body_valid b.
Proof.
  unfold body_diagnostics, validate_body.
  pose proof (requirement_pass_nil (scope_map b) (mk_rs [] [] [] []) (requirements b)) as Hreq.
  assert (rs_ok (mk_rs [] [] [] [])) as Hrs by (split; try done; intros s k; done).
  destruct (requirement_pass_ok default_contract_limits (scope_map b) _ (requirements b) Hrs) as [Hok Hc].
  destruct (requirement_pass _ (scope_map b) (mk_rs [] [] [] []) (requirements b)) as [st ds]. cbn [fst snd] in *.
  pose proof (count_diagnostics_nil st (requirements b) Hok Hc) as Hcount.
  rewrite !app_nil, header_diagnostics_nil, scope_diagnostics_nil, Hreq, Hcount. cbn [rs_identities rs_keys].
  assert (forall r, r ∈ requirements b -> req_id r ∉ ([] : list RequirementId)) by (intros; apply not_elem_of_nil).
  assert (forall r, r ∈ requirements b -> composite_key r ∉ ([] : list RequirementKey))
    by (intros; apply not_elem_of_nil).
  split.
  - intros (((? & ? & ? & ? & ? & ?) & Hsv & (Hd & Hz & [? _] & [? _] & ?) & ?) & Hid).
    rewrite identity_diagnostics_nil in Hid by done. split; try done; try (split_and!; try done; tauto).
    + eapply Forall_impl; [exact Hd|]. intros r [_ Hr]. by apply scope_map_keys in Hr.
    + apply Forall_and. by split.
  - intros [B1 B2 B3 (? & ? & ? & ?) B5 B6 B7 [? ?] B9]. apply Forall_and in B7 as [B7 B8].
    split; [|by apply identity_diagnostics_nil].
    split; [tauto|]. split; [done|]. split; [|done]. split; [|tauto].
    eapply Forall_impl; [exact B6|]. intros r Hr. split; [|by apply scope_map_keys].
    destruct B5 as [V1 _ _ _ _]. apply list_elem_of_fmap in Hr as (s & -> & Hs).
    rewrite Forall_forall in V1. by apply V1.
Qed.

Lemma body_diagnostics_errors b : errors_only (body_diagnostics b).
Proof.
  apply errors_only_app. split; [apply validate_body_errors|]. apply errors_only_concat.
  intros r. destruct (is_zero (req_id r)); errors.
Qed.

Lemma contract_diagnostics_errors c : errors_only (contract_diagnostics c).
Proof. unfold contract_diagnostics. errors. Qed.

Lemma validate_contract_nil c :
  validation_ok (validate_contract c) = true <-> body_diagnostics (body c) ++ contract_diagnostics c = [].
Proof.
  unfold validate_contract, validate_contract_body, validation_of. simpl.
  unfold log_adds at 1. unfold log_adds at 1. rewrite <- fold_left_app.
  change (fold_left log_add ?l empty_log) with (log_adds empty_log l). rewrite negb_true_iff.
  apply errors_only_log. apply errors_only_app.
  split; [apply body_diagnostics_errors|apply contract_diagnostics_errors].
Qed.

End ValidateFacts.

(** ** Concrete runs *)
Definition sample_valid : Contract :=
  sample_contract (sample_body
    [mk_scope "root" true 0 EmptyString; mk_scope "leaf" true 3 "root"]
    [sample_requirement "leaf" "a" [("zone"%string, "1"%string)];
     mk_requirement zero_id "root" kMaxLatency kPreferred (double_of_int 10) (double_of_int 20) true
       EmptyString EmptyString [] [] "lat"]).

Example sample_accepted :
  validation_ok (@validate_contract toy_hashing (@canonicalize toy_hashing sample_valid)) = true.
Proof. vm_compute. reflexivity. Qed.

Example cycle_rejected :
  first_error_code (diagnostics (@validate_contract toy_hashing (@canonicalize toy_hashing
    (sample_contract (sample_body
      [mk_scope "a" false 0 "b"; mk_scope "b" false 0 "c"; mk_scope "c" false 0 "a"]
      [sample_requirement "a" "k" []]))))) = kCompositionCycle.
Proof. vm_compute. reflexivity. Qed.

(** A contract whose members and attributes are in the given order, sealed as it is. *)
Definition sealed_in_order (members : list RequirementId) (attributes : list (string * string)) : Contract :=
  let r := mk_requirement zero_id "leaf" kCollective kRequired d_zero d_zero false "supported" EmptyString
    members attributes "c" in
  let b := sample_body [mk_scope "root" true 0 EmptyString; mk_scope "leaf" true 3 "root"]
    [with_id r (@derive_requirement_id toy_hashing r)] in
  let digest := @body_digest toy_hashing b in
  mk_contract (with_contract_id b (@derive_contract_id toy_hashing (wl_id (workload b)) digest)) digest
    default_envelope 0 zero_digest.

(** Validation asks for members and attribute keys without repetition, not for an order:
    both orders are accepted, as contracts with different identities. *)
Theorem unsorted_lists_accepted :
  let m1 := from_digest (repeat 1 32) in
  let m2 := from_digest (repeat 2 32) in
  let c := sealed_in_order [m1; m2] [("area", "1"); ("zone", "2")]%string in
  let c' := sealed_in_order [m2; m1] [("zone", "2"); ("area", "1")]%string in
  validation_ok (@validate_contract toy_hashing c) = true
  /\ validation_ok (@validate_contract toy_hashing c') = true
  /\ id_eqb (contract_id (body c)) (contract_id (body c')) = false.
Proof. vm_compute. repeat split. Qed.

(** ** Properties *)

(** [validate_contract_body] accepts exactly the valid bodies: supported schema, set
    identities and generations, bounded counts, distinct and declared scopes whose
    parents are declared, ranked strictly below and free of cycles (the bounded walk
    finds exactly the cycles of the parent relation), requirements with distinct keys and
    derived identities, and content that fits the kind. *)
Theorem validate_contract_body_exact {HH : Hashing} (b : ContractBody) :
  validation_ok (validate_contract_body b) = true <-> body_valid b.
Proof.
  unfold validate_contract_body, validation_of. simpl. rewrite negb_true_iff.
  rewrite errors_only_log by apply body_diagnostics_errors. apply body_diagnostics_nil.
Qed.

Lemma validate_contract_spec {HH : Hashing} (c : Contract) :
  validation_ok (validate_contract c) = true <->
  body_valid (body c) /\ digest c = body_digest (body c)
  /\ contract_id (body c) = derive_contract_id (wl_id (workload (body c))) (digest c)
  /\ (supersedes c = 0 /\ supersedes_digest c = zero_digest
      \/ supersedes c <> 0 /\ supersedes c < generation (body c) /\ supersedes_digest c <> zero_digest).
Proof.
  rewrite validate_contract_nil, app_nil, body_diagnostics_nil. unfold contract_diagnostics.
  rewrite !app_nil, add_if_nil, negb_false_iff. unfold digest_eqb, has_supersedes.
  rewrite bool_decide_eq_true.
  assert ((if negb (supersedes c =? 0) then
             add_if (generation (body c) <=? supersedes c) kStaleGeneration
               "superseded generation must be below the contract generation"
             ++ add_if (bool_decide (supersedes_digest c = zero_digest)) kContractSchema
                  "a superseding contract must carry the superseded digest"
           else add_if (negb (bool_decide (supersedes_digest c = zero_digest))) kContractSchema
                  "superseded digest present without a superseded generation") = []
          <-> supersedes c = 0 /\ supersedes_digest c = zero_digest
              \/ supersedes c <> 0 /\ supersedes c < generation (body c) /\ supersedes_digest c <> zero_digest)
    as ->.
  { destruct (Z.eqb_spec (supersedes c) 0) as [->|Hne]; simpl.
    - rewrite add_if_nil, negb_false_iff, bool_decide_eq_true. intuition congruence.
    - rewrite app_nil, !add_if_nil, Z.leb_gt, bool_decide_eq_false. intuition congruence. }
  split.
  - intros (Hb & Hd & Hi & Hs). pose proof (bv_contract _ Hb) as (Hz & _). rewrite Hz in Hi.
    apply add_if_nil, negb_false_iff, id_eqb_eq in Hi. rewrite <- Hd. auto.
  - intros (Hb & Hd & Hi & Hs). pose proof (bv_contract _ Hb) as (Hz & _). rewrite Hz, Hi, Hd.
    split_and!; try done. apply add_if_nil, negb_false_iff, id_eqb_eq. done.
Qed.

(** C39: [validate_contract] accepts exactly the contracts with a valid body, the digest of
    that body, the contract identity derived from the workload and the digest, and a
    supersession that is either absent or names a lower generation with its digest.  A valid
    body repeats no member of a collective and no attribute key, but may have them in any
    order ([unsorted_lists_accepted]). *)
Theorem validate_contract_exact {HH : Hashing} (c : Contract) :
  validation_ok (validate_contract c) = true <->
  body_valid (body c) /\ digest c = body_digest (body c)
  /\ contract_id (body c) = derive_contract_id (wl_id (workload (body c))) (digest c)
  /\ (supersedes c = 0 /\ supersedes_digest c = zero_digest
      \/ supersedes c <> 0 /\ supersedes c < generation (body c) /\ supersedes_digest c <> zero_digest).
Proof. apply validate_contract_spec. Qed.
