(* ===== verification/ContractDecode.v ===== *)
(** * The contract decoder

    Models the decoder of [src/contract.cpp]: the bounded field readers, the decoders of
    scopes, requirements and envelopes, and [contract_from_json]. *)
From Stdlib Require Import ZArith Lia Ascii String.
From stdpp Require Import base numbers option list strings.
From S2P Require Import Prelude Doubles Identity Errors Hash Json JsonParser Signature Contract ContractValidate.

(** ** Field readers *)
Definition kMaxNumericParameter : Z := 1000000000000000.
Definition kMaxMemberCount : Z := 4096.
Definition uint64_max : Z := 2 ^ 64 - 1.

Definition path_join (path field : string) : string :=
  (if is_empty path then path else path ++ ".") ++ field.

Definition is_lower_hex (c : ascii) : bool := char_in "0" "9" c || char_in "a" "f" c.

Fixpoint all_lower_hex (s : string) : bool :=
  match s with EmptyString => true | String c s' => is_lower_hex c && all_lower_hex s' end.

Definition read_id (object : JsonObject) (field path : string) : decoding string :=
  match map_find field object with
  | None => refuse kContractSchema (path_join path field ++ " is required")
  | Some v =>
      if negb (is_string v) then refuse kContractSchema (path_join path field ++ " must be a string")
      else
        let text := as_string v in
        if negb (size text =? kSha256HexChars)
        then refuse kContractSchema (path_join path field ++ " must be a 64 character identifier")
        else if negb (all_lower_hex text)
        then refuse kContractSchema (path_join path field ++ " must be lowercase hexadecimal")
        else Ok text
  end.

(** [out] is the value an absent optional field keeps. *)
Definition read_string (object : JsonObject) (field path : string) (max_bytes : Z) (required : bool)
    (out : string) : decoding string :=
  match map_find field object with
  | None => if required then refuse kContractSchema (path_join path field ++ " is required") else Ok out
  | Some v =>
      if negb (is_string v) then refuse kContractSchema (path_join path field ++ " must be a string")
      else if max_bytes <? size (as_string v)
      then refuse kJsonStringTooLong (path_join path field ++ " exceeds the string bound")
      else Ok (as_string v)
  end.

Definition read_uint (object : JsonObject) (field path : string) (maximum : Z) (required : bool)
    (out : Z) : decoding Z :=
  match map_find field object with
  | None => if required then refuse kContractSchema (path_join path field ++ " is required") else Ok out
  | Some v =>
      if negb (is_int v) then refuse kContractSchema (path_join path field ++ " must be an integer")
      else if (as_int v <? 0) || (maximum <? u64 (as_int v))
      then refuse kValueOutOfRange (path_join path field ++ " is outside the permitted range")
      else Ok (u64 (as_int v))
  end.

(** [present] and [out] as a pair. *)
Definition read_real (object : JsonObject) (field path : string) (maximum : Z) (out : double)
    : decoding (bool * double) :=
  match map_find field object with
  | None => Ok (false, out)
  | Some v =>
      if negb (is_number v) then refuse kContractSchema (path_join path field ++ " must be a number")
      else
        let raw := as_real v in
        if negb (is_finite raw) || dlt raw d_zero || dlt (double_of_int maximum) raw
        then refuse kValueOutOfRange (path_join path field ++ " is outside the permitted range")
        else Ok (true, raw)
  end.

(** ** Requirements *)
Fixpoint decode_attribute_items (path : string) (l : JsonArray) : decoding (list (string * string)) :=
  match l with
  | [] => Ok []
  | item :: l' =>
      if negb (is_object item)
      then refuse kContractSchema (path ++ ".attributes entries must be objects")
      else
        name ← read_string (object item) "name" path kMaxNameBytes true EmptyString;
        attribute_value ← read_string (object item) "value" path kMaxStringBytes true EmptyString;
        if is_empty name
        then refuse kMissingRequirementKey (path ++ ".attributes name must not be empty")
        else rest ← decode_attribute_items path l'; Ok ((name, attribute_value) :: rest)
  end.

Definition decode_attributes (v : Json) (path : string) : decoding (list (string * string)) :=
  if negb (is_array v) then refuse kContractSchema (path ++ ".attributes must be an array")
  else if max_attributes default_contract_limits <? json_size v
  then refuse kTooManyAttributes (path ++ ".attributes exceeds the attribute bound")
  else decode_attribute_items path (array v).

Fixpoint decode_member_items (path : string) (l : JsonArray) : decoding (list RequirementId) :=
  match l with
  | [] => Ok []
  | item :: l' =>
      if negb (is_string item) then refuse kContractSchema (path ++ ".members entries must be strings")
      else
        match parse_id (as_string item) with
        | None => refuse kContractSchema (path ++ ".members entries must be 64 character identifiers")
        | Some member => rest ← decode_member_items path l'; Ok (member :: rest)
        end
  end.

Definition decode_members (object : JsonObject) (path : string) : decoding (list RequirementId) :=
  match map_find "members"%string object with
  | None => Ok []
  | Some v =>
      if negb (is_array v) then refuse kContractSchema (path ++ ".members must be an array")
      else if kMaxMemberCount <? json_size v
      then refuse kTooManyAttributes (path ++ ".members exceeds the member bound")
      else decode_member_items path (array v)
  end.

(** The token fields: present, a string, and a token of the enumeration. *)
Definition read_kind (object : JsonObject) (path : string) : decoding RequirementKind :=
  match map_find "kind"%string object with
  | Some (JString token) =>
      match parse_requirement_kind token with
      | None => refuse kInvalidKind (path ++ ".kind is not a defined requirement kind")
      | Some k => Ok k
      end
  | _ => refuse kContractSchema (path ++ ".kind is required and must be a string")
  end.

Definition read_strength_field (object : JsonObject) (path : string) : decoding RequirementStrength :=
  match map_find "strength"%string object with
  | Some (JString token) =>
      match parse_requirement_strength token with
      | None => refuse kInvalidStrength (path ++ ".strength is not required, preferred or informational")
      | Some s => Ok s
      end
  | _ => refuse kContractSchema (path ++ ".strength is required and must be a string")
  end.

(** The numeric band: [has_numeric], [target] and [minimum]. *)
Definition decode_band (object : JsonObject) (path : string) (k : RequirementKind)
    : decoding (bool * double * double) :=
  target ← read_real object "target" path kMaxNumericParameter d_zero;
  minimum ← read_real object "minimum" path kMaxNumericParameter d_zero;
  if negb (Bool.eqb target.1 minimum.1)
  then refuse kInvalidValue (path ++ " must declare target and minimum together")
  else if target.1 && negb (if kind_is_floor k then dle minimum.2 target.2 else dle target.2 minimum.2)
  then refuse kValueOutOfRange
         (path ++ ".target must be the strict bound and minimum the weakest acceptable bound")
  else Ok (target.1, target.2, minimum.2).

Definition read_requirement_id (object : JsonObject) (path : string) : decoding RequirementId :=
  match map_find "id"%string object with
  | None => Ok zero_id
  | Some v =>
      if negb (is_string v) then refuse kContractSchema (path ++ ".id must be a string")
      else
        match parse_id (as_string v) with
        | None => refuse kContractSchema (path ++ ".id must be a 64 character identifier")
        | Some i => Ok i
        end
  end.

Definition decode_requirement (v : Json) (index : Z) : decoding Requirement :=
  let path := ("requirements[" ++ to_string index ++ "]")%string in
  if negb (is_object v) then refuse kContractSchema (path ++ " must be an object")
  else
    let o := object v in
    scope ← read_string o "scope" path kMaxNameBytes true EmptyString;
    kind ← read_kind o path;
    strength ← read_strength_field o path;
    key ← read_string o "key" path kMaxNameBytes false EmptyString;
    value ← read_string o "value" path kMaxStringBytes false EmptyString;
    preferred_value ← read_string o "preferred_value" path kMaxStringBytes false EmptyString;
    band ← decode_band o path kind;
    members ← decode_members o path;
    attributes ← (match map_find "attributes"%string o with
                  | None => Ok []
                  | Some a => decode_attributes a path
                  end);
    id ← read_requirement_id o path;
    Ok (mk_requirement id scope kind strength band.1.2 band.2 band.1.1 value preferred_value
          members attributes key).

(** ** Scopes and envelopes *)
Definition decode_scope (v : Json) (index : Z) : decoding Scope :=
  let path := ("scopes[" ++ to_string index ++ "]")%string in
  if negb (is_object v) then refuse kContractSchema (path ++ " must be an object")
  else
    let o := object v in
    name ← read_string o "name" path kMaxNameBytes true EmptyString;
    if is_empty name then refuse kEmptyScopeName (path ++ ".name must not be empty")
    else
      parent ← read_string o "parent" path kMaxNameBytes false EmptyString;
      match map_find "rank"%string o with
      | None => Ok (mk_scope name false 0 parent)
      | Some _ =>
          parsed ← read_uint o "rank" path 1000000 false 0;
          Ok (mk_scope name true (u32 parsed) parent)
      end.

Definition read_algorithm (object : JsonObject) : decoding SignatureAlgorithm :=
  match map_find "algorithm"%string object with
  | Some (JString token) =>
      match parse_signature_algorithm token with
      | None => refuse kSignatureInvalid "envelope.algorithm is not a supported algorithm"
      | Some a => Ok a
      end
  | _ => refuse kContractSchema "envelope.algorithm is required and must be a string"
  end.

Definition read_signature (object : JsonObject) : decoding bytes :=
  match map_find "signature"%string object with
  | None => Ok []
  | Some v =>
      if negb (is_string v) then refuse kContractSchema "envelope.signature must be a string"
      else
        match base64url_decode (as_string v) 1024 with
        | None => refuse kSignatureInvalid "envelope.signature is not valid base64url"
        | Some s => Ok s
        end
  end.

Definition decode_envelope (v : Json) : decoding ContractEnvelope :=
  if negb (is_object v) then refuse kContractSchema "envelope must be an object"
  else
    let o := object v in
    publisher ← read_id o "publisher" "envelope";
    match parse_id publisher with
    | None => refuse kContractSchema "envelope.publisher is not a valid identifier"
    | Some p =>
        algorithm ← read_algorithm o;
        key_id ← read_string o "key_id" "envelope" kSha256HexChars true EmptyString;
        issued ← read_uint o "issued_millis" "envelope" uint64_max false 0;
        signature ← read_signature o;
        Ok (mk_envelope p algorithm key_id signature issued)
    end.

(** ** Bodies and contracts *)

(** The bounds checked before anything is materialised. *)
Definition precheck (o : JsonObject) (schema_version : Z) : decoding unit :=
  let limits := default_contract_limits in
  let declared_above field bound :=
    match map_find field o with Some v => is_array v && (bound <? json_size v) | None => false end in
  if max_schema_version limits <? schema_version
  then refuse kContractSchemaVersionUnsupported
         ("body.schema_version " ++ to_string schema_version ++ " exceeds the supported version "
          ++ to_string (max_schema_version limits))
  else if declared_above "scopes"%string (max_scopes limits)
  then refuse kTooManyScopes "body.scopes exceeds the scope bound"
  else if declared_above "requirements"%string (max_requirements limits)
  then refuse kTooManyRequirements "body.requirements exceeds the requirement bound"
  else Ok tt.

Definition decode_workload (o : JsonObject) : decoding Workload :=
  match map_find "workload"%string o with
  | Some (JObject w) =>
      id ← read_id w "id" "body.workload";
      match parse_id id with
      | None => refuse kZeroIdentity "body.workload.id must be a non zero identifier"
      | Some i =>
          if is_zero i then refuse kZeroIdentity "body.workload.id must be a non zero identifier"
          else
            name ← read_string w "name" "body.workload" kMaxNameBytes true EmptyString;
            generation ← read_uint w "generation" "body.workload" uint64_max true 0;
            Ok (mk_workload i name generation)
      end
  | _ => refuse kContractSchema "body.workload must be an object"
  end.

Definition decode_contract_id (o : JsonObject) : decoding ContractId :=
  text ← read_id o "contract_id" "body";
  match parse_id text with
  | None => refuse kContractSchema "body.contract_id must be a 64 character identifier"
  | Some i => Ok i
  end.

(** [major], [minor] and [patch]; an absent version keeps the defaults of the structure. *)
Definition decode_version (o : JsonObject) : decoding (Z * Z * Z) :=
  match map_find "version"%string o with
  | None => Ok (1, 0, 0)
  | Some (JObject v) =>
      major ← read_uint v "major" "body.version" 1000000 false 0;
      minor ← read_uint v "minor" "body.version" 1000000 false 0;
      patch ← read_uint v "patch" "body.version" 1000000 false 0;
      Ok (u32 major, u32 minor, u32 patch)
  | Some _ => refuse kContractSchema "body.version must be an object"
  end.

Fixpoint decode_all {A} (decode : Json -> Z -> decoding A) (index : Z) (l : JsonArray) : decoding (list A) :=
  match l with
  | [] => Ok []
  | v :: l' =>
      x ← decode v index;
      rest ← decode_all decode (index + 1) l';
      Ok (x :: rest)
  end.

Definition decode_list {A} (decode : Json -> Z -> decoding A) (o : JsonObject) (field : string)
    (bound : Z) (not_array : string) (too_many : Code) (too_many_text : string) : decoding (list A) :=
  match map_find field o with
  | Some (JArray l) =>
      if bound <? zlength l then refuse too_many too_many_text else decode_all decode 0 l
  | _ => refuse kContractSchema not_array
  end.

Definition decode_body (o : JsonObject) : decoding ContractBody :=
  schema_version ← read_uint o "schema_version" "body" 1000 true 0;
  _ ← precheck o schema_version;
  workload ← decode_workload o;
  contract_id ← decode_contract_id o;
  generation ← read_uint o "contract_generation" "body" uint64_max true 0;
  policy_generation ← read_uint o "policy_generation" "body" uint64_max false 0;
  version ← decode_version o;
  description ← read_string o "description" "body" kMaxStringBytes false EmptyString;
  scopes ← decode_list decode_scope o "scopes" (max_scopes default_contract_limits)
             "body.scopes must be an array" kTooManyScopes "body.scopes exceeds the scope bound";
  requirements ← decode_list decode_requirement o "requirements" (max_requirements default_contract_limits)
             "body.requirements must be an array" kTooManyRequirements
             "body.requirements exceeds the requirement bound";
  Ok (mk_body (u32 schema_version) workload contract_id generation policy_generation
        version.1.1 version.1.2 version.2 description scopes requirements).

Definition decode_supersedes (o : JsonObject) : decoding Z :=
  match map_find "supersedes"%string o with
  | None => Ok 0
  | Some _ => read_uint o "supersedes" EmptyString uint64_max false 0
  end.

(** An optional digest field. *)
Definition read_digest (o : JsonObject) (field not_string not_digest : string) : decoding (option Digest) :=
  match map_find field o with
  | None => Ok None
  | Some v =>
      if negb (is_string v) then refuse kContractSchema not_string
      else
        match hex_decode_digest (as_string v) with
        | None => refuse kContractDigestMismatch not_digest
        | Some d => Ok (Some d)
        end
  end.

Section Decoder.
Context `{Hashing}.

(** The declared digest: a zero digest, like an absent one, asks for the derived one. *)
Definition decode_digest (o : JsonObject) (b : ContractBody) : decoding Digest :=
  declared ← read_digest o "digest" "digest must be a string" "digest is not a 64 character digest";
  match declared with
  | None => Ok (body_digest b)
  | Some parsed =>
      let computed := body_digest b in
      if digest_eqb parsed zero_digest then Ok computed
      else if negb (digest_eqb parsed computed)
      then refuse kContractDigestMismatch "declared digest does not match the canonical body bytes"
      else Ok parsed
  end.

Definition contract_from_json (v : Json) : decoding Contract :=
  if negb (is_object v) then refuse kJsonNotAnObject "contract document must be an object"
  else
    let o := object v in
    match map_find "body"%string o with
    | Some (JObject body_object) =>
        b ← decode_body body_object;
        envelope ← (match map_find "envelope"%string o with
                    | None => Ok default_envelope
                    | Some e => decode_envelope e
                    end);
        supersedes ← decode_supersedes o;
        supersedes_digest ← read_digest o "supersedes_digest" "supersedes_digest must be a string"
                              "supersedes_digest is not a 64 character digest";
        digest ← decode_digest o b;
        Ok (mk_contract b digest envelope supersedes (default zero_digest supersedes_digest))
    | _ => refuse kContractSchema "contract document requires a body object"
    end.

Definition contract_from_text (text : string) (options : JsonDecodeOptions) : decoding Contract :=
  match json_decode text options with
  | Err e => refuse (err_code e) (err_message e)
  | Ok v => contract_from_json v
  end.

End Decoder.

Example sample_decodes :
  let c := @canonicalize toy_hashing sample_valid in
  @contract_from_json toy_hashing (contract_to_json c) = Ok c.
Proof. vm_compute. reflexivity. Qed.

(** ** The contracts the codec transports *)
Definition band_codable (r : Requirement) : Prop :=
  if has_numeric r then
    real_within kMaxNumericParameter (target r) /\ real_within kMaxNumericParameter (minimum r)
    /\ (if kind_is_floor (kind r) then dle (minimum r) (target r) else dle (target r) (minimum r)) = true
  else target r = d_zero /\ minimum r = d_zero.

Record requirement_codable (r : Requirement) : Prop := {
  rq_id : id_ok (req_id r);
  rq_names : size (scope r) <= 200 /\ size (req_key r) <= 200;
  rq_values : size (value r) <= 4096 /\ size (preferred_value r) <= 4096;
  rq_band : band_codable r;
  rq_members : zlength (members r) <= 4096 /\ Forall id_ok (members r);
  rq_attributes : zlength (attributes r) <= 32
    /\ Forall (fun a => a.1 <> EmptyString /\ size a.1 <= 200 /\ size a.2 <= 4096) (attributes r)
}.

Record scope_codable (s : Scope) : Prop := {
  so_name : sc_name s <> EmptyString /\ size (sc_name s) <= 200;
  so_parent : size (parent s) <= 200;
  so_rank : if has_rank s then 0 <= rank s <= 1000000 else rank s = 0
}.

Record envelope_codable (e : ContractEnvelope) : Prop := {
  eo_publisher : id_ok (publisher e);
  eo_key : size (env_key_id e) <= 64;
  eo_issued : 0 <= issued_millis e < 2 ^ 63;
  eo_signature : Forall is_byte (signature e) /\ zlength (signature e) <= 1024
}.

Record body_codable (b : ContractBody) : Prop := {
  bo_schema : 0 <= schema_version b <= 1;
  bo_workload : id_ok (wl_id (workload b)) /\ is_zero (wl_id (workload b)) = false
    /\ size (wl_name (workload b)) <= 200 /\ 0 <= wl_generation (workload b) < 2 ^ 63;
  bo_contract : id_ok (contract_id b);
  bo_generations : 0 <= generation b < 2 ^ 63 /\ 0 <= policy_generation b < 2 ^ 63;
  bo_version : 0 <= major b <= 1000000 /\ 0 <= minor b <= 1000000 /\ 0 <= patch b <= 1000000;
  bo_description : size (body_description b) <= 4096;
  bo_scopes : zlength (scopes b) <= 1024 /\ Forall scope_codable (scopes b);
  bo_requirements : zlength (requirements b) <= 4096 /\ Forall requirement_codable (requirements b)
}.

Definition digest_ok (d : Digest) : Prop := length d = 32%nat /\ Forall is_byte d.

Record contract_codable (c : Contract) : Prop := {
  co_body : body_codable (body c);
  co_envelope : envelope_codable (envelope c);
  co_supersedes : 0 <= supersedes c < 2 ^ 63;
  co_superseded : digest_ok (supersedes_digest c)
    /\ (supersedes c = 0 -> supersedes_digest c = zero_digest);
  co_digest : digest_ok (digest c)
}.

(** ** Reading back what was written *)
Lemma last_set_if_one k c key v :
  last_set k (set_if c key v) = if String.eqb k key then (if c then Some v else None) else None.
Proof. unfold set_if. destruct c; simpl; by destruct (String.eqb k key). Qed.

Lemma some_or_none {A} (o : option A) : match o with Some x => Some x | None => None end = o.
Proof. by destruct o. Qed.

(** The value a constructed object holds for a concrete key. *)
Ltac find_json :=
  rewrite find_set_all, ?last_set_app, ?last_set_if_one;
  cbn [last_set String.eqb Ascii.eqb Bool.eqb fst snd object map_find]; rewrite ?some_or_none; try reflexivity.

Lemma lower_hex_digit c :
  (hex_digit_value c <? 0) || is_lower_hex (digit_at kLowerHexDigits (hex_digit_value c)) = true.
Proof.
  revert c. apply (ascii_forall (fun c => (hex_digit_value c <? 0)
    || is_lower_hex (digit_at kLowerHexDigits (hex_digit_value c)))). by vm_compute.
Qed.

Lemma all_lower_hex_ok s : normalise_hex s = Some s -> all_lower_hex s = true.
Proof.
  enough (forall t, normalise_hex s = Some t -> all_lower_hex t = true) as H by auto.
  induction s as [|c s IH]; intros t; simpl; [by intros [= <-]|].
  pose proof (lower_hex_digit c) as Hc. destruct (hex_digit_value c <? 0); [done|].
  destruct (normalise_hex s) as [r|]; [|done]. intros [= <-]. cbn [all_lower_hex].
  rewrite (IH r) by done. cbn [orb] in Hc. by rewrite Hc.
Qed.

Section ReadSet.
Context (o : JsonObject) (field path : string).

Lemma read_id_set {Tag} (i : Id Tag) :
  map_find field o = Some (JString (view i)) -> id_ok i -> read_id o field path = Ok (view i).
Proof.
  intros Hf [Hs Hn]. unfold read_id. rewrite Hf. cbn [is_string negb as_string]. cbv zeta.
  rewrite Hs, Z.eqb_refl. cbn [negb]. by rewrite all_lower_hex_ok.
Qed.

Lemma read_string_set bound required s out :
  map_find field o = Some (JString s) -> size s <= bound -> read_string o field path bound required out = Ok s.
Proof.
  intros Hf Hs. unfold read_string. rewrite Hf. cbn [is_string negb as_string].
  by rewrite (proj2 (Z.ltb_ge _ _)).
Qed.

Lemma read_string_opt bound s :
  map_find field o = (if negb (is_empty s) then Some (JString s) else None) -> size s <= bound ->
  read_string o field path bound false EmptyString = Ok s.
Proof.
  intros Hf Hs. destruct (is_empty s) eqn:E.
  - apply is_empty_true in E as ->. unfold read_string. by rewrite Hf.
  - by apply read_string_set.
Qed.

Lemma read_uint_set maximum required n out :
  map_find field o = Some (JInt n) -> 0 <= n < 2 ^ 63 -> n <= maximum ->
  read_uint o field path maximum required out = Ok n.
Proof.
  intros Hf Hn Hm. unfold read_uint. rewrite Hf. cbn [is_int negb as_int].
  rewrite (proj2 (Z.ltb_ge n 0)), u64_small, (proj2 (Z.ltb_ge _ _)) by lia. done.
Qed.

Lemma read_real_opt maximum (h : bool) d :
  map_find field o = (if h then Some (json_real d) else None) ->
  (h = true -> real_within maximum d) -> (h = false -> d = d_zero) ->
  read_real o field path maximum d_zero = Ok (h, d).
Proof.
  intros Hf Ht Hz. unfold read_real. rewrite Hf. destruct h; [|by rewrite Hz].
  specialize (Ht eq_refl). rewrite (json_real_ok maximum) by done. destruct Ht as (H1 & H2 & H3 & _).
  cbn [is_number negb as_real]. cbv zeta. by rewrite H1, H2, H3.
Qed.
End ReadSet.

Lemma json_uint_small n : 0 <= n < 2 ^ 63 -> json_uint n = JInt n.
Proof. intros. unfold json_uint. by rewrite to_int64_small. Qed.

Lemma read_uint_json o field path required n out :
  map_find field o = Some (json_uint n) -> 0 <= n < 2 ^ 63 ->
  read_uint o field path uint64_max required out = Ok n.
Proof.
  intros Hf Hn. rewrite json_uint_small in Hf by done. apply read_uint_set; [done..|unfold uint64_max; lia].
Qed.

(** ** Round trip of the parts *)
Lemma attribute_items_roundtrip path l :
  Forall (fun a => a.1 <> EmptyString /\ size a.1 <= 200 /\ size a.2 <= 4096) l ->
  decode_attribute_items path (map attribute_to_json l) = Ok l.
Proof.
  induction 1 as [|[n v] l (Hn & H1 & H2) _ IH]; [done|]. cbn [map decode_attribute_items].
  cbn [fst snd] in *. change (negb (is_object (attribute_to_json (n, v)))) with false. cbv iota.
  read_by (read_string_set (object (attribute_to_json (n, v))) "name" path kMaxNameBytes true n EmptyString eq_refl H1).
  read_by (read_string_set (object (attribute_to_json (n, v))) "value" path kMaxStringBytes true v EmptyString eq_refl H2).
  destruct (is_empty n) eqn:E; [by apply is_empty_true in E|]. by rewrite IH.
Qed.

Lemma member_items_roundtrip path l :
  Forall id_ok l -> decode_member_items path (map (fun m => JString (view m)) l) = Ok l.
Proof.
  induction 1 as [|m l Hm _ IH]; simpl; [done|]. rewrite parse_id_view by done. by rewrite IH.
Qed.

Lemma requirement_object r : is_object (requirement_to_json r) = true.
Proof. unfold requirement_to_json. rewrite !app_assoc. apply set_all_object. Qed.

Lemma decode_band_roundtrip o path r :
  map_find "target"%string o = (if has_numeric r then Some (json_real (target r)) else None) ->
  map_find "minimum"%string o = (if has_numeric r then Some (json_real (minimum r)) else None) ->
  band_codable r -> decode_band o path (kind r) = Ok (has_numeric r, target r, minimum r).
Proof.
  intros Ht Hm Hb. unfold band_codable in Hb. unfold decode_band.
  rewrite (read_real_opt _ _ _ _ _ (target r) Ht) by (destruct (has_numeric r); tauto || done).
  cbn [mbind result_bind].
  rewrite (read_real_opt _ _ _ _ _ (minimum r) Hm) by (destruct (has_numeric r); tauto || done).
  cbn [mbind result_bind fst snd]. rewrite Bool.eqb_reflx. cbn [negb].
  destruct (has_numeric r); [|done]. destruct Hb as (_ & _ & ->). done.
Qed.

Lemma decode_members_roundtrip o path r :
  map_find "members"%string o = (if negb (zlength (members r) =? 0) then Some (members_json r) else None) ->
  zlength (members r) <= 4096 -> Forall id_ok (members r) -> decode_members o path = Ok (members r).
Proof.
  intros Hf Hl Hm. unfold decode_members. rewrite Hf.
  destruct (zlength (members r) =? 0) eqn:E; cbn [negb]; [by apply zlength_zero in E as ->|].
  unfold members_json. cbn [is_array negb json_size array]. unfold zlength in *.
  rewrite length_map, (proj2 (Z.ltb_ge _ _)) by (unfold kMaxMemberCount; lia).
  by apply member_items_roundtrip.
Qed.

Lemma decode_attributes_roundtrip path l :
  zlength l <= 32 ->
  Forall (fun a => a.1 <> EmptyString /\ size a.1 <= 200 /\ size a.2 <= 4096) l ->
  decode_attributes (JArray (map attribute_to_json l)) path = Ok l.
Proof.
  intros Hl Ha. unfold decode_attributes. cbn [is_array negb json_size array]. unfold zlength in *.
  rewrite length_map, (proj2 (Z.ltb_ge _ _)) by (simpl; lia). by apply attribute_items_roundtrip.
Qed.

(** One step of a decoder run on a document the writer made. *)
Ltac read_json L :=
  rewrite L by first
    [ assumption | solve [auto]
    | unfold requirement_to_json, scope_to_json, contract_body_to_json, envelope_to_json, contract_to_json; find_json ];
  cbn [mbind result_bind].

Lemma decode_requirement_roundtrip i r :
  requirement_codable r -> decode_requirement (requirement_to_json r) i = Ok r.
Proof.
  intros [Hid [Hs Hk] [Hv Hp] Hb [Hml Hm] [Hal Ha]]. unfold decode_requirement.
  rewrite requirement_object. cbn [negb]. cbv zeta. set (path := ("requirements[" ++ to_string i ++ "]")%string).
  read_json (read_string_set (object (requirement_to_json r)) "scope" path kMaxNameBytes true (scope r) EmptyString).
  assert (read_kind (object (requirement_to_json r)) path = Ok (kind r)) as ->.
  { unfold read_kind. assert (map_find "kind"%string (object (requirement_to_json r)) = Some (JString (requirement_kind_token (kind r))))
      as -> by (unfold requirement_to_json; find_json). by destruct (kind r). }
  assert (read_strength_field (object (requirement_to_json r)) path = Ok (strength r)) as ->.
  { unfold read_strength_field.
    assert (map_find "strength"%string (object (requirement_to_json r)) = Some (JString (requirement_strength_token (strength r))))
      as -> by (unfold requirement_to_json; find_json). by destruct (strength r). }
  cbn [mbind result_bind].
  read_json (read_string_set (object (requirement_to_json r)) "key" path kMaxNameBytes false (req_key r) EmptyString).
  read_json (read_string_opt (object (requirement_to_json r)) "value" path kMaxStringBytes (value r)).
  read_json (read_string_opt (object (requirement_to_json r)) "preferred_value" path kMaxStringBytes (preferred_value r)).
  read_json (decode_band_roundtrip (object (requirement_to_json r)) path r).
  read_json (decode_members_roundtrip (object (requirement_to_json r)) path r).
  assert (map_find "attributes"%string (object (requirement_to_json r))
          = if negb (zlength (attributes r) =? 0) then Some (attributes_json r) else None) as ->
    by (unfold requirement_to_json; find_json).
  assert (read_requirement_id (object (requirement_to_json r)) path = Ok (req_id r)) as ->.
  { unfold read_requirement_id. assert (map_find "id"%string (object (requirement_to_json r)) = Some (JString (view (req_id r))))
      as -> by (unfold requirement_to_json; find_json). cbn [is_string negb as_string]. by rewrite parse_id_view. }
  destruct (zlength (attributes r) =? 0) eqn:E; cbn [negb].
  - apply zlength_zero in E. cbn. rewrite <- E. by destruct r.
  - unfold attributes_json. rewrite decode_attributes_roundtrip by done. by destruct r.
Qed.

Lemma decode_scope_roundtrip i s : scope_codable s -> decode_scope (scope_to_json s) i = Ok s.
Proof.
  intros [[Hn Hs] Hp Hr]. unfold decode_scope.
  assert (is_object (scope_to_json s) = true) as ->.
  { unfold scope_to_json, set_if. by destruct (has_rank s), (negb (is_empty (parent s))). }
  cbn [negb]. cbv zeta. set (path := ("scopes[" ++ to_string i ++ "]")%string).
  read_json (read_string_set (object (scope_to_json s)) "name" path kMaxNameBytes true (sc_name s) EmptyString).
  destruct (is_empty (sc_name s)) eqn:E; [by apply is_empty_true in E|].
  read_json (read_string_opt (object (scope_to_json s)) "parent" path kMaxNameBytes (parent s)).
  assert (map_find "rank"%string (object (scope_to_json s)) = if has_rank s then Some (JInt (rank s)) else None)
    as Hf by (unfold scope_to_json; find_json).
  rewrite Hf. destruct (has_rank s) eqn:Eh.
  - rewrite (read_uint_set _ _ _ 1000000 _ (rank s) _ Hf) by lia. cbn [mbind result_bind].
    unfold u32. rewrite Z.mod_small by lia. rewrite <- Eh. by destruct s.
  - rewrite <- Eh, <- Hr. by destruct s.
Qed.

Lemma decode_all_roundtrip {A} (decode : Json -> Z -> decoding A) (encode : A -> Json) (ok : A -> Prop) l i :
  (forall i x, ok x -> decode (encode x) i = Ok x) -> Forall ok l -> decode_all decode i (map encode l) = Ok l.
Proof.
  intros Hr Hl; revert i. induction Hl as [|x l Hx _ IH]; intros i; [done|]. simpl.
  rewrite Hr by done. cbn [mbind result_bind]. by rewrite IH.
Qed.

Lemma decode_list_roundtrip {A} (decode : Json -> Z -> decoding A) (encode : A -> Json) (ok : A -> Prop)
    o field bound t1 code t2 l :
  (forall i x, ok x -> decode (encode x) i = Ok x) ->
  map_find field o = Some (JArray (map encode l)) -> zlength l <= bound -> Forall ok l ->
  decode_list decode o field bound t1 code t2 = Ok l.
Proof.
  intros Hr Hf Hl Hok. unfold decode_list. rewrite Hf. unfold zlength in *.
  rewrite length_map, (proj2 (Z.ltb_ge _ _)) by lia. by eapply decode_all_roundtrip.
Qed.

Lemma decode_envelope_roundtrip e : envelope_codable e -> decode_envelope (envelope_to_json e) = Ok e.
Proof.
  intros [Hp Hk Hi [Hb Hl]]. unfold decode_envelope.
  assert (is_object (envelope_to_json e) = true) as ->.
  { unfold envelope_to_json, set_if. by destruct (negb (zlength (signature e) =? 0)). }
  cbn [negb]. cbv zeta.
  read_json (read_id_set (object (envelope_to_json e)) "publisher" "envelope" (publisher e)).
  rewrite parse_id_view by done.
  assert (read_algorithm (object (envelope_to_json e)) = Ok (env_algorithm e)) as ->.
  { unfold read_algorithm. assert (map_find "algorithm"%string (object (envelope_to_json e))
      = Some (JString (signature_algorithm_token (env_algorithm e)))) as -> by (unfold envelope_to_json; find_json).
    by destruct (env_algorithm e). }
  cbn [mbind result_bind].
  read_json (read_string_set (object (envelope_to_json e)) "key_id" "envelope" kSha256HexChars true (env_key_id e) EmptyString).
  read_json (read_uint_json (object (envelope_to_json e)) "issued_millis" "envelope" false (issued_millis e) 0).
  assert (read_signature (object (envelope_to_json e)) = Ok (signature e)) as ->; [|by destruct e].
  unfold read_signature. assert (map_find "signature"%string (object (envelope_to_json e))
    = if negb (zlength (signature e) =? 0) then Some (JString (base64url_encode (signature e))) else None)
    as -> by (unfold envelope_to_json; find_json).
  destruct (zlength (signature e) =? 0) eqn:E; cbn [negb]; [by apply zlength_zero in E as ->|].
  cbn [is_string negb as_string]. by rewrite base64url_decode_of_encode.
Qed.

(** The objects nested in a body document. *)
Definition workload_json (w : Workload) : Json :=
  set_all JNull
    [("id"%string, JString (view (wl_id w))); ("name"%string, JString (wl_name w));
     ("generation"%string, json_uint (wl_generation w))].

Lemma decode_workload_roundtrip o w :
  map_find "workload"%string o = Some (workload_json w) ->
  id_ok (wl_id w) -> is_zero (wl_id w) = false -> size (wl_name w) <= 200 -> 0 <= wl_generation w < 2 ^ 63 ->
  decode_workload o = Ok w.
Proof.
  intros Hf Hi Hz Hn Hg. unfold decode_workload. rewrite Hf.
  assert (exists m, workload_json w = JObject m) as [m Hm] by (by eexists).
  assert (forall k, map_find k m = map_find k (object (workload_json w))) as Hk by (by rewrite Hm).
  rewrite Hm. rewrite (read_id_set m "id" _ (wl_id w)) by (done || by rewrite Hk). cbn [mbind result_bind].
  rewrite parse_id_view, Hz by done.
  rewrite (read_string_set m "name" _ _ _ (wl_name w)) by (done || by rewrite Hk). cbn [mbind result_bind].
  rewrite (read_uint_json m "generation" _ _ (wl_generation w)) by (done || by rewrite Hk).
  cbn [mbind result_bind]. by destruct w.
Qed.

Definition version_json (b : ContractBody) : Json :=
  set_all JNull [("major"%string, JInt (major b)); ("minor"%string, JInt (minor b)); ("patch"%string, JInt (patch b))].

Lemma decode_version_roundtrip o b :
  map_find "version"%string o = Some (version_json b) ->
  0 <= major b <= 1000000 -> 0 <= minor b <= 1000000 -> 0 <= patch b <= 1000000 ->
  decode_version o = Ok (major b, minor b, patch b).
Proof.
  intros Hf H1 H2 H3. unfold decode_version. rewrite Hf. cbv [version_json set_all fold_left fst snd set].
  set (m := map_insert _ _ _).
  assert (forall k, map_find k m = map_find k (object (version_json b))) as Hk by done. clearbody m.
  rewrite (read_uint_set m "major" _ _ _ (major b)) by (lia || by rewrite Hk). cbn [mbind result_bind].
  rewrite (read_uint_set m "minor" _ _ _ (minor b)) by (lia || by rewrite Hk). cbn [mbind result_bind].
  rewrite (read_uint_set m "patch" _ _ _ (patch b)) by (lia || by rewrite Hk). cbn [mbind result_bind].
  unfold u32. by rewrite !Z.mod_small by lia.
Qed.

Lemma precheck_roundtrip b :
  body_codable b -> precheck (object (contract_body_to_json b)) (schema_version b) = Ok tt.
Proof.
  intros Hb. destruct (bo_schema _ Hb), (bo_scopes _ Hb) as [Hs _], (bo_requirements _ Hb) as [Hr _].
  unfold precheck. cbv zeta. rewrite (proj2 (Z.ltb_ge _ _)) by (simpl; lia).
  assert (map_find "scopes"%string (object (contract_body_to_json b)) = Some (JArray (map scope_to_json (scopes b))))
    as -> by (unfold contract_body_to_json; find_json).
  assert (map_find "requirements"%string (object (contract_body_to_json b))
    = Some (JArray (map requirement_to_json (requirements b)))) as -> by (unfold contract_body_to_json; find_json).
  cbn [is_array json_size andb]. unfold zlength in *. rewrite !length_map.
  by rewrite !(proj2 (Z.ltb_ge _ _)) by (simpl; lia).
Qed.

Lemma decode_body_roundtrip b : body_codable b -> decode_body (object (contract_body_to_json b)) = Ok b.
Proof.
  intros Hb. pose proof (precheck_roundtrip b Hb) as Hpre.
  destruct Hb as [Hs (Hw & Hwz & Hwn & Hwg) Hc [Hg Hp] (Hma & Hmi & Hpa) Hd [Hsl Hsc] [Hrl Hrq]].
  unfold decode_body.
  rewrite (read_uint_set (object (contract_body_to_json b)) "schema_version" "body" 1000 true (schema_version b)) by (lia || (unfold contract_body_to_json; find_json)).
  cbn [mbind result_bind]. rewrite Hpre. cbn [mbind result_bind].
  read_json (decode_workload_roundtrip (object (contract_body_to_json b)) (workload b)).
  assert (decode_contract_id (object (contract_body_to_json b)) = Ok (contract_id b)) as ->.
  { unfold decode_contract_id. read_json (read_id_set (object (contract_body_to_json b)) "contract_id" "body" (contract_id b)).
    by rewrite parse_id_view. }
  cbn [mbind result_bind].
  read_json (read_uint_json (object (contract_body_to_json b)) "contract_generation" "body" true (generation b) 0).
  read_json (read_uint_json (object (contract_body_to_json b)) "policy_generation" "body" false (policy_generation b) 0).
  read_json (decode_version_roundtrip (object (contract_body_to_json b)) b).
  read_json (read_string_set (object (contract_body_to_json b)) "description" "body" kMaxStringBytes false
               (body_description b) EmptyString).
  rewrite (decode_list_roundtrip decode_scope scope_to_json scope_codable _ _ _ _ _ _ (scopes b))
    by (done || apply decode_scope_roundtrip || (unfold contract_body_to_json; find_json)).
  cbn [mbind result_bind].
  rewrite (decode_list_roundtrip decode_requirement requirement_to_json requirement_codable _ _ _ _ _ _ (requirements b))
    by (done || apply decode_requirement_roundtrip || (unfold contract_body_to_json; find_json)).
  cbn [mbind result_bind fst snd]. unfold u32. rewrite Z.mod_small by lia. by destruct b.
Qed.

Lemma read_digest_set o field d t1 t2 :
  map_find field o = Some (JString (hex_encode d)) -> digest_ok d -> read_digest o field t1 t2 = Ok (Some d).
Proof.
  intros Hf [Hl Hb]. unfold read_digest. rewrite Hf. cbn [is_string negb as_string].
  assert (hex_decode_digest (hex_encode d) = Some d) as ->; [|done].
  unfold hex_decode_digest. rewrite hex_encode_size. unfold zlength. rewrite Hl. cbn [negb].
  by apply hex_decode_pairs_encode.
Qed.

Section ContractRoundTrip.
Context `{Hashing}.

Lemma decoded_digest v c : contract_from_json v = Ok c -> digest c = body_digest (body c).
Proof.
  unfold contract_from_json. destruct (negb (is_object v)); [done|]. cbv zeta.
  destruct (map_find "body"%string _) as [[| | | | | |m]|]; try done.
  destruct (decode_body m) as [b|]; [|done]. cbn [mbind result_bind].
  destruct (match map_find "envelope"%string _ with Some _ => _ | None => _ end); [|done]. cbn [mbind result_bind].
  destruct (decode_supersedes _); [|done]. cbn [mbind result_bind].
  destruct (read_digest _ "supersedes_digest" _ _); [|done]. cbn [mbind result_bind].
  destruct (decode_digest _ b) as [d|] eqn:E; [|done]. cbn [mbind result_bind]. intros [= <-]. cbn [digest body].
  revert E. unfold decode_digest. destruct (read_digest _ "digest" _ _) as [[p|]|]; [| |done]; cbn [mbind result_bind].
  - destruct (digest_eqb p zero_digest); [by intros [= <-]|].
    destruct (digest_eqb p (body_digest b)) eqn:E; [|done]. intros [= <-]. by apply bool_decide_eq_true in E.
  - by intros [= <-].
Qed.

Lemma contract_decode_encode c :
  contract_codable c -> digest c = body_digest (body c) -> contract_from_json (contract_to_json c) = Ok c.
Proof.
  intros [Hb He Hs [Hsd Hsz] Hd] Hdig. unfold contract_from_json.
  assert (is_object (contract_to_json c) = true) as -> by (unfold contract_to_json, set_if; by destruct (has_supersedes c)).
  cbn [negb]. cbv zeta.
  assert (map_find "body"%string (object (contract_to_json c)) = Some (JObject (object (contract_body_to_json (body c)))))
    as -> by (unfold contract_to_json; find_json).
  rewrite decode_body_roundtrip by done. cbn [mbind result_bind].
  assert (map_find "envelope"%string (object (contract_to_json c)) = Some (envelope_to_json (envelope c)))
    as -> by (unfold contract_to_json; find_json).
  rewrite decode_envelope_roundtrip by done. cbn [mbind result_bind].
  assert (map_find "supersedes"%string (object (contract_to_json c))
    = if has_supersedes c then Some (json_uint (supersedes c)) else None) as Hf1 by (unfold contract_to_json; find_json).
  assert (map_find "supersedes_digest"%string (object (contract_to_json c))
    = if has_supersedes c then Some (JString (hex_encode (supersedes_digest c))) else None) as Hf2
    by (unfold contract_to_json; find_json).
  assert (decode_supersedes (object (contract_to_json c)) = Ok (supersedes c)) as ->.
  { unfold decode_supersedes. rewrite Hf1. unfold has_supersedes in *. destruct (Z.eqb_spec (supersedes c) 0) as [->|]; [done|].
    cbn [negb] in *. by rewrite (read_uint_json _ _ _ _ (supersedes c) _ Hf1). }
  assert (exists x, read_digest (object (contract_to_json c)) "supersedes_digest" "supersedes_digest must be a string"
            "supersedes_digest is not a 64 character digest" = Ok x /\ default zero_digest x = supersedes_digest c)
    as (x & -> & Hx).
  { unfold has_supersedes in *. destruct (Z.eqb_spec (supersedes c) 0) as [E|]; cbn [negb] in *.
    - exists None. unfold read_digest. rewrite Hf2. by rewrite Hsz.
    - eexists. by rewrite (read_digest_set _ _ _ _ _ Hf2). }
  cbn [mbind result_bind]. unfold decode_digest.
  rewrite (read_digest_set _ "digest" (digest c)) by (done || (unfold contract_to_json; find_json)).
  cbn [mbind result_bind]. cbv zeta. unfold digest_eqb.
  rewrite (bool_decide_eq_true_2 (digest c = body_digest (body c))) by done. cbn [negb].
  rewrite Hx, <- Hdig. destruct (bool_decide _); by destruct c.
Qed.
End ContractRoundTrip.

(** ** What is decoded is codable *)
Lemma read_string_ok o field path bound required s :
  0 <= bound -> read_string o field path bound required EmptyString = Ok s -> size s <= bound.
Proof.
  intros Hb. unfold read_string. destruct (map_find field o) as [v|]; [|destruct required; by intros [= <-]].
  destruct (negb (is_string v)); [done|]. destruct (bound <? size (as_string v)) eqn:E; [done|].
  intros [= <-]. by apply Z.ltb_ge.
Qed.

Lemma read_uint_ok o field path maximum required out n :
  representable_object o -> read_uint o field path maximum required out = Ok n ->
  0 <= out <= maximum -> out < 2 ^ 63 -> 0 <= n <= maximum /\ n < 2 ^ 63.
Proof.
  intros Ho. unfold read_uint. destruct (map_find field o) as [v|] eqn:Ef;
    [|destruct required; [done|]; by intros [= <-]].
  apply representable_find in Ef; [|done]. destruct Ef; cbn [is_int negb as_int]; try done.
  destruct (Z.ltb_spec i 0); [done|]. cbn [orb]. rewrite u64_small by lia.
  destruct (Z.ltb_spec maximum i); [done|]. intros [= <-]. lia.
Qed.

Lemma read_real_ok o field path maximum h d :
  representable_object o -> read_real o field path maximum d_zero = Ok (h, d) ->
  if h then real_within maximum d else d = d_zero.
Proof.
  intros Ho. unfold read_real. destruct (map_find field o) as [v|] eqn:Ef; [|by intros [= <- <-]].
  apply representable_find in Ef; [|done]. destruct (negb (is_number v)); [done|]. cbv zeta.
  destruct (is_finite (as_real v)) eqn:E1; [|done]. destruct (dlt (as_real v) d_zero) eqn:E2; [done|].
  destruct (dlt (double_of_int maximum) (as_real v)) eqn:E3; [done|]. intros [= <- <-].
  split_and!; try done. intros Hz. apply deq_zero; [done|]. by apply as_real_not_negative_zero.
Qed.

Lemma attribute_items_ok path l out :
  decode_attribute_items path l = Ok out ->
  length out = length l
  /\ Forall (fun a => a.1 <> EmptyString /\ size a.1 <= 200 /\ size a.2 <= 4096) out.
Proof.
  revert out; induction l as [|v l IH]; intros out; simpl; [by intros [= <-]|].
  destruct (negb (is_object v)); [done|]. intros H.
  apply result_bind_Ok in H as (n & Hn & H). apply result_bind_Ok in H as (x & Hx & H).
  destruct (is_empty n) eqn:E; [done|]. apply result_bind_Ok in H as (rest & Hr & [= <-]).
  apply IH in Hr as [Hl Hr]. split; [by simpl; rewrite Hl|]. constructor; [|done]. split_and!.
  - intros Hne. apply is_empty_true in Hne. simpl in Hne. congruence.
  - by eapply read_string_ok, Hn.
  - by eapply read_string_ok, Hx.
Qed.

Lemma member_items_ok path l out :
  decode_member_items path l = Ok out -> length out = length l /\ Forall id_ok out.
Proof.
  revert out; induction l as [|v l IH]; intros out; simpl; [by intros [= <-]|].
  destruct (negb (is_string v)); [done|]. destruct (parse_id (as_string v)) as [m|] eqn:E; [|done].
  intros H. apply result_bind_Ok in H as (rest & Hr & [= <-]). apply IH in Hr as [Hl Hr].
  split; [by simpl; rewrite Hl|]. constructor; [|done]. by eapply parse_id_ok.
Qed.

Lemma json_size_array v : is_array v = true -> json_size v = zlength (array v).
Proof. by destruct v. Qed.

Lemma decode_band_ok o path k band :
  representable_object o -> decode_band o path k = Ok band ->
  if band.1.1 then
    real_within kMaxNumericParameter band.1.2 /\ real_within kMaxNumericParameter band.2
    /\ (if kind_is_floor k then dle band.2 band.1.2 else dle band.1.2 band.2) = true
  else band.1.2 = d_zero /\ band.2 = d_zero.
Proof.
  intros Ho H. unfold decode_band in H. apply result_bind_Ok in H as ([ht t] & Ht & H).
  apply result_bind_Ok in H as ([hm m] & Hm & H). cbn [fst snd] in *.
  apply read_real_ok in Ht, Hm; try done.
  destruct ht, hm; cbn in H; try done; [|by injection H as [= <-]].
  destruct (if kind_is_floor k then dle m t else dle t m) eqn:E; [|done]. injection H as [= <-]. done.
Qed.

Lemma decode_requirement_ok v i r : representable v -> decode_requirement v i = Ok r -> requirement_codable r.
Proof.
  intros Hv. unfold decode_requirement. destruct (negb (is_object v)); [done|]. cbv zeta.
  apply representable_members in Hv. set (path := ("requirements[" ++ to_string i ++ "]")%string). intros H.
  apply result_bind_Ok in H as (sc & Hsc & H). apply result_bind_Ok in H as (k & _ & H).
  apply result_bind_Ok in H as (st & _ & H). apply result_bind_Ok in H as (key & Hkey & H).
  apply result_bind_Ok in H as (val & Hval & H). apply result_bind_Ok in H as (pref & Hpref & H).
  apply result_bind_Ok in H as (band & Hband & H). apply result_bind_Ok in H as (mem & Hmem & H).
  apply result_bind_Ok in H as (att & Hatt & H). apply result_bind_Ok in H as (rid & Hid & H). injection H as <-.
  apply decode_band_ok in Hband; [|done]. split; simpl.
  - revert Hid. unfold read_requirement_id. destruct (map_find "id"%string _) as [x|]; [|intros H; injection H as <-; apply zero_id_ok].
    destruct (negb _); [done|]. destruct (parse_id _) as [j|] eqn:E; [|done]. intros [= <-]. by eapply parse_id_ok.
  - split; by eapply read_string_ok; [|eassumption].
  - split; by eapply read_string_ok; [|eassumption].
  - exact Hband.
  - revert Hmem. unfold decode_members. destruct (map_find "members"%string _) as [x|]; [|intros [= <-]; by split].
    destruct (is_array x) eqn:Ea; [|done]. cbn [negb]. rewrite json_size_array by done.
    destruct (kMaxMemberCount <? _) eqn:E; [done|]. apply Z.ltb_ge in E. intros Hmem.
    apply member_items_ok in Hmem as [Hl Hok]. unfold zlength in *. by rewrite Hl.
  - revert Hatt. destruct (map_find "attributes"%string _) as [x|]; [|intros [= <-]; by split]. unfold decode_attributes.
    destruct (is_array x) eqn:Ea; [|done]. cbn [negb]. rewrite json_size_array by done.
    destruct (_ <? _) eqn:E; [done|]. apply Z.ltb_ge in E. intros Hatt.
    apply attribute_items_ok in Hatt as [Hl Hok]. unfold zlength in *. by rewrite Hl.
Qed.

Lemma decode_scope_ok v i s : representable v -> decode_scope v i = Ok s -> scope_codable s.
Proof.
  intros Hv. unfold decode_scope. destruct (negb (is_object v)); [done|]. cbv zeta.
  apply representable_members in Hv. set (path := ("scopes[" ++ to_string i ++ "]")%string). intros H.
  apply result_bind_Ok in H as (n & Hn & H). destruct (is_empty n) eqn:E; [done|].
  apply result_bind_Ok in H as (p & Hp & H). apply read_string_ok in Hn, Hp; try done.
  assert (n <> EmptyString) by (intros Hne; apply is_empty_true in Hne; congruence).
  destruct (map_find "rank"%string (object v)); [|by injection H as [= <-]].
  apply result_bind_Ok in H as (k & Hk & [= <-]). apply read_uint_ok in Hk; [|done|lia|lia].
  split; simpl; try done. unfold u32. rewrite Z.mod_small by lia. lia.
Qed.

Lemma decode_envelope_ok v e : representable v -> decode_envelope v = Ok e -> envelope_codable e.
Proof.
  intros Hv. unfold decode_envelope. destruct (negb (is_object v)); [done|]. cbv zeta.
  apply representable_members in Hv. intros H. apply result_bind_Ok in H as (t & _ & H).
  destruct (parse_id t) as [p|] eqn:Ep; [|done]. apply result_bind_Ok in H as (a & _ & H).
  apply result_bind_Ok in H as (key & Hk & H). apply result_bind_Ok in H as (n & Hn & H).
  apply result_bind_Ok in H as (s & Hs & H). injection H as <-.
  apply read_uint_ok in Hn; [|done|unfold uint64_max; lia..]. split; simpl.
  - by eapply parse_id_ok.
  - by eapply read_string_ok, Hk.
  - lia.
  - revert Hs. unfold read_signature. destruct (map_find _ _) as [x|]; [|by intros [= <-]].
    destruct (negb (is_string x)); [done|]. destruct (base64url_decode _ _) as [d|] eqn:E; [|done].
    intros [= <-]. apply base64url_encode_of_decode in E; [|done]. tauto.
Qed.

Lemma decode_all_ok {A} (decode : Json -> Z -> decoding A) (ok : A -> Prop) l i out :
  (forall v i x, representable v -> decode v i = Ok x -> ok x) -> Forall representable l ->
  decode_all decode i l = Ok out -> length out = length l /\ Forall ok out.
Proof.
  intros Hd Hl; revert i out. induction Hl as [|v l Hv _ IH]; intros i out; simpl; [by intros [= <-]|].
  intros H. apply result_bind_Ok in H as (x & Hx & H). apply result_bind_Ok in H as (rest & Hr & [= <-]).
  apply IH in Hr as [Hlen Hr]. split; [by simpl; rewrite Hlen|]. constructor; [|done]. by eapply Hd.
Qed.

Lemma decode_list_ok {A} (decode : Json -> Z -> decoding A) (ok : A -> Prop) o field bound t1 code t2 out :
  (forall v i x, representable v -> decode v i = Ok x -> ok x) -> representable_object o ->
  decode_list decode o field bound t1 code t2 = Ok out -> zlength out <= bound /\ Forall ok out.
Proof.
  intros Hd Ho. unfold decode_list. destruct (map_find field o) as [v|] eqn:E; [|done].
  apply representable_find in E; [|done]. destruct v as [| | | | |l|]; try done.
  apply representable_items in E. destruct (Z.ltb_spec bound (zlength l)); [done|]. intros Hl.
  eapply decode_all_ok in Hl as [Hlen Hl]; [|done..]. unfold zlength in *. by rewrite Hlen.
Qed.

Lemma decode_workload_ok o w :
  representable_object o -> decode_workload o = Ok w ->
  id_ok (wl_id w) /\ is_zero (wl_id w) = false /\ size (wl_name w) <= 200 /\ 0 <= wl_generation w < 2 ^ 63.
Proof.
  intros Ho. unfold decode_workload. destruct (map_find "workload"%string o) as [v|] eqn:E; [|done].
  apply representable_find in E; [|done]. destruct v as [| | | | | |m]; try done.
  apply representable_members in E. intros H. apply result_bind_Ok in H as (t & _ & H).
  destruct (parse_id t) as [i|] eqn:Ei; [|done]. destruct (is_zero i) eqn:Ez; [done|].
  apply result_bind_Ok in H as (n & Hn & H). apply result_bind_Ok in H as (g & Hg & [= <-]).
  apply read_string_ok in Hn; [|done]. apply read_uint_ok in Hg; [|done|unfold uint64_max; lia..].
  apply parse_id_ok in Ei. simpl. split_and!; done || lia.
Qed.

Lemma decode_version_ok o x :
  representable_object o -> decode_version o = Ok x ->
  0 <= x.1.1 <= 1000000 /\ 0 <= x.1.2 <= 1000000 /\ 0 <= x.2 <= 1000000.
Proof.
  intros Ho. unfold decode_version. destruct (map_find "version"%string o) as [v|] eqn:E; [|by intros [= <-]].
  apply representable_find in E; [|done]. destruct v as [| | | | | |m]; try done.
  apply representable_members in E. intros H. apply result_bind_Ok in H as (a & Ha & H).
  apply result_bind_Ok in H as (b & Hb & H). apply result_bind_Ok in H as (c & Hc & [= <-]).
  apply read_uint_ok in Ha, Hb, Hc; try done. simpl. unfold u32. rewrite !Z.mod_small by lia. lia.
Qed.

Lemma decode_body_ok o b : representable_object o -> decode_body o = Ok b -> body_codable b.
Proof.
  intros Ho H. unfold decode_body in H. apply result_bind_Ok in H as (sv & Hsv & H).
  apply result_bind_Ok in H as ([] & Hpre & H). apply result_bind_Ok in H as (w & Hw & H).
  apply result_bind_Ok in H as (cid & Hcid & H). apply result_bind_Ok in H as (g & Hg & H).
  apply result_bind_Ok in H as (pg & Hpg & H). apply result_bind_Ok in H as (ver & Hver & H).
  apply result_bind_Ok in H as (d & Hd & H). apply result_bind_Ok in H as (sc & Hsc & H).
  apply result_bind_Ok in H as (rq & Hrq & H). injection H as <-.
  apply read_uint_ok in Hsv; [|done|lia..]. apply read_uint_ok in Hg; [|done|unfold uint64_max; lia..].
  apply read_uint_ok in Hpg; [|done|unfold uint64_max; lia..]. apply decode_workload_ok in Hw; [|done].
  apply decode_version_ok in Hver; [|done]. apply read_string_ok in Hd; [|done].
  eapply decode_list_ok in Hsc; [|exact decode_scope_ok|done].
  eapply decode_list_ok in Hrq; [|exact decode_requirement_ok|done].
  split; cbn [schema_version workload contract_id generation policy_generation major minor patch
    body_description scopes requirements]; try done.
  - unfold precheck in Hpre. cbv zeta in Hpre.
    destruct (Z.ltb_spec (max_schema_version default_contract_limits) sv); [done|].
    unfold u32. rewrite Z.mod_small by lia. simpl in *. lia.
  - unfold decode_contract_id in Hcid. apply result_bind_Ok in Hcid as (t & _ & Hcid).
    destruct (parse_id t) eqn:E; [|done]. injection Hcid as <-. by eapply parse_id_ok.
  - lia.
Qed.

Lemma read_digest_ok o field t1 t2 d : read_digest o field t1 t2 = Ok (Some d) -> digest_ok d.
Proof.
  unfold read_digest. destruct (map_find field o); [|done]. destruct (negb _); [done|].
  destruct (hex_decode_digest _) as [x|] eqn:E; [|done]. intros [= <-]. by eapply hex_decode_digest_ok.
Qed.

Section ContractSound.
Context `{Hashing} `{!HashingOk}.

Lemma body_digest_ok b : digest_ok (body_digest b).
Proof. split; [apply sha256_parts_length|apply sha256_parts_bytes]. Qed.

(** A decoded contract is within the codec's bounds, but for a superseded digest without
    a superseded generation, which the decoder lets through. *)
Lemma decoded_codable v c :
  representable v -> contract_from_json v = Ok c ->
  (supersedes c = 0 -> supersedes_digest c = zero_digest) -> contract_codable c.
Proof.
  intros Hv Hc Hs. pose proof (decoded_digest v c Hc) as Hd. revert Hc. unfold contract_from_json.
  destruct (negb (is_object v)); [done|]. cbv zeta. apply representable_members in Hv.
  destruct (map_find "body"%string _) as [x|] eqn:Ex; [|done]. apply representable_find in Ex; [|done].
  destruct x as [| | | | | |m]; try done. apply representable_members in Ex. intros E.
  apply result_bind_Ok in E as (b & Hb & E). apply result_bind_Ok in E as (e & He & E).
  apply result_bind_Ok in E as (s & Hsu & E). apply result_bind_Ok in E as (sd & Hsd & E).
  apply result_bind_Ok in E as (d & _ & E). injection E as <-. cbn [body digest supersedes supersedes_digest envelope] in *.
  split; cbn [body digest supersedes supersedes_digest envelope].
  - by eapply decode_body_ok.
  - destruct (map_find "envelope"%string _) as [y|] eqn:Ey.
    + apply representable_find in Ey; [|done]. by eapply decode_envelope_ok.
    + injection He as <-. by split.
  - unfold decode_supersedes in Hsu. destruct (map_find "supersedes"%string _); [|injection Hsu as <-; lia].
    apply read_uint_ok in Hsu; [lia|done|unfold uint64_max; lia..].
  - split; [|done]. destruct sd as [z|]; [by eapply read_digest_ok|]. split; [done|].
    by apply Forall_replicate with (n := 32%nat).
  - rewrite Hd. apply body_digest_ok.
Qed.
End ContractSound.

(** ** Properties *)

(** C38: the document of a contract within the codec's bounds decodes to the contract
    exactly when its digest is the digest of its body: the decoder recomputes it, and
    refuses or replaces any other. *)
Theorem contract_roundtrip {HH : Hashing} (c : Contract) :
  contract_codable c ->
  contract_from_json (contract_to_json c) = Ok c <-> digest c = body_digest (body c).
Proof. intros Hc. split; [apply decoded_digest|by apply contract_decode_encode]. Qed.

Definition sample_text : string := dump (contract_to_json (@canonicalize toy_hashing sample_valid)).
Definition sample_value : Json :=
  match json_decode sample_text default_options with Ok v => v | Err _ => JNull end.

Lemma contract_roundtrip_witness :
  let c := @canonicalize toy_hashing sample_valid in
  @contract_from_json toy_hashing (contract_to_json c) = Ok c.
Proof.
  intros c. apply (@contract_roundtrip toy_hashing c); [|vm_compute; reflexivity].
  apply (@decoded_codable toy_hashing toy_hashing_ok sample_value c); [|vm_compute; reflexivity|reflexivity].
  apply (json_wf_representable default_options sample_value 0).
  pose proof (json_decode_outcome sample_text default_options) as Hwf.
  assert (json_decode sample_text default_options = Ok sample_value) as E by (vm_compute; reflexivity).
  rewrite E in Hwf. apply Hwf; discriminate.
Defined.

(** Whatever text the decoder accepts, it gives a contract within the codec's bounds
    whose digest is that of its body, and writing the contract and decoding it again
    gives the same contract, unless it carries a superseded digest without the
    generation, which the writer drops. *)
Theorem contract_decode_stable `{Hashing} `{!HashingOk} (text : string) (options : JsonDecodeOptions) (c : Contract) :
  0 <= max_string_bytes options -> 0 <= max_depth_option options ->
  contract_from_text text options = Ok c ->
  (supersedes c = 0 -> supersedes_digest c = zero_digest) ->
  contract_codable c /\ digest c = body_digest (body c)
  /\ contract_from_json (contract_to_json c) = Ok c.
Proof.
  intros H1 H2 Hc Hs. unfold contract_from_text in Hc.
  pose proof (json_decode_outcome text options H1 H2) as Hwf.
  destruct (json_decode text options) as [v|]; [|done]. apply json_wf_representable in Hwf.
  pose proof (decoded_digest v c Hc) as Hd. pose proof (decoded_codable v c Hwf Hc Hs) as Hcod.
  split_and!; [done..|]. by apply contract_decode_encode.
Qed.

Lemma contract_decode_stable_witness :
  let c := @canonicalize toy_hashing sample_valid in
  contract_codable c /\ digest c = @body_digest toy_hashing (body c)
  /\ @contract_from_json toy_hashing (contract_to_json c) = Ok c.
Proof.
  intros c. apply (@contract_decode_stable toy_hashing toy_hashing_ok sample_text default_options c);
    [done|done|vm_compute; reflexivity|reflexivity].
Defined.
