(* ===== verification/ContractText.v ===== *)
(** * The text of a contract

    A contract decoded from a well-formed document is written as a well-formed document:
    its strings are UTF-8 within the decoder's bound, its integers and reals are in range,
    its keys ascend.  Hence the decoder reads the text of the contract back
    ([contract_text_decodes]); canonicalisation keeps all of this. *)
From Stdlib Require Import ZArith Lia Floats.SpecFloat Ascii String.
From stdpp Require Import base numbers option list strings.
From S2P Require Import Prelude Doubles Identity Errors Hash Json JsonParser JsonText Signature Contract ContractValidate ContractDecode.

(** ** Strings of a document *)
Inductive utf8_json : Json -> Prop :=
| tx_null : utf8_json JNull
| tx_bool b : utf8_json (JBool b)
| tx_int i : utf8_json (JInt i)
| tx_real d : utf8_json (JReal d)
| tx_string s : utf8 s -> utf8_json (JString s)
| tx_array l : Forall utf8_json l -> utf8_json (JArray l)
| tx_object m : Forall (fun p => utf8_json p.2) m -> utf8_json (JObject m).

Definition utf8_object (m : JsonObject) : Prop := Forall (fun p => utf8_json p.2) m.

Lemma json_wf_utf8 options v depth : json_wf options depth v -> utf8_json v.
Proof.
  revert depth. induction v as [|b|i|d|s|l IH|m IH] using json_rect; intros depth [_ Hv]; constructor.
  - apply Hv.
  - induction IH as [|x l Hx _ IHl]; constructor; destruct Hv as [H1 H2]; [by eapply Hx|by apply IHl].
  - destruct Hv as [_ Hv]. induction IH as [|[k x] m Hx _ IHm]; constructor; destruct Hv as (_ & H1 & H2);
      [by eapply Hx|by apply IHm].
Qed.

Lemma utf8_object_find m k v : utf8_object m -> map_find k m = Some v -> utf8_json v.
Proof.
  intros Hm Hf. apply map_find_Some_in in Hf. unfold utf8_object in Hm.
  rewrite Forall_forall in Hm. by apply (Hm (k, v)).
Qed.

Lemma utf8_members v : utf8_json v -> utf8_object (object v).
Proof. destruct 1; try constructor. done. Qed.

Lemma utf8_items v : utf8_json v -> Forall utf8_json (array v).
Proof. destruct 1; try constructor. done. Qed.

Lemma utf8_string v : utf8_json v -> utf8 (as_string v).
Proof. destruct 1; try constructor. done. Qed.

(** ** Strings of a contract *)
Record requirement_text (r : Requirement) : Prop := {
  rt_scope : utf8 (scope r);
  rt_key : utf8 (req_key r);
  rt_value : utf8 (value r);
  rt_preferred : utf8 (preferred_value r);
  rt_attributes : Forall (fun a : string * string => utf8 a.1 /\ utf8 a.2) (attributes r)
}.

Definition scope_text (s : Scope) : Prop := utf8 (sc_name s) /\ utf8 (parent s).

Record contract_text (c : Contract) : Prop := {
  ct_name : utf8 (wl_name (workload (body c)));
  ct_description : utf8 (body_description (body c));
  ct_scopes : Forall scope_text (scopes (body c));
  ct_requirements : Forall requirement_text (requirements (body c));
  ct_key : utf8 (env_key_id (envelope c))
}.

Lemma read_string_text o field path bound required s :
  utf8_object o -> read_string o field path bound required EmptyString = Ok s -> utf8 s.
Proof.
  intros Ho. unfold read_string. destruct (map_find field o) as [v|] eqn:E.
  - destruct (negb (is_string v)); [done|]. destruct (bound <? _); [done|]. intros [= <-].
    by eapply utf8_string, utf8_object_find.
  - destruct required; [done|]. intros [= <-]. constructor.
Qed.

Lemma attribute_items_text path l out :
  Forall utf8_json l -> decode_attribute_items path l = Ok out ->
  Forall (fun a : string * string => utf8 a.1 /\ utf8 a.2) out.
Proof.
  intros Hl. revert out. induction Hl as [|v l Hv _ IH]; intros out; simpl; [by intros [= <-]|].
  destruct (negb (is_object v)); [done|]. apply utf8_members in Hv. intros H.
  apply result_bind_Ok in H as (n & Hn & H). apply result_bind_Ok in H as (x & Hx & H).
  destruct (is_empty n); [done|]. apply result_bind_Ok in H as (rest & Hr & [= <-]).
  constructor; [|by apply IH]. by split; eapply read_string_text.
Qed.

Lemma decode_requirement_text v i r : utf8_json v -> decode_requirement v i = Ok r -> requirement_text r.
Proof.
  intros Hv. unfold decode_requirement. destruct (negb (is_object v)); [done|]. cbv zeta.
  apply utf8_members in Hv. set (path := ("requirements[" ++ to_string i ++ "]")%string). intros H.
  apply result_bind_Ok in H as (sc & Hsc & H). apply result_bind_Ok in H as (k & _ & H).
  apply result_bind_Ok in H as (st & _ & H). apply result_bind_Ok in H as (key & Hkey & H).
  apply result_bind_Ok in H as (val & Hval & H). apply result_bind_Ok in H as (pref & Hpref & H).
  apply result_bind_Ok in H as (band & _ & H). apply result_bind_Ok in H as (mem & _ & H).
  apply result_bind_Ok in H as (att & Hatt & H). apply result_bind_Ok in H as (rid & _ & H). injection H as <-.
  split; simpl; try by eapply read_string_text.
  destruct (map_find "attributes"%string _) as [x|] eqn:E; [|by injection Hatt as <-].
  unfold decode_attributes in Hatt. destruct (negb (is_array x)); [done|]. destruct (_ <? _); [done|].
  eapply attribute_items_text; [|exact Hatt]. by eapply utf8_items, utf8_object_find.
Qed.

Lemma decode_scope_text v i s : utf8_json v -> decode_scope v i = Ok s -> scope_text s.
Proof.
  intros Hv. unfold decode_scope. destruct (negb (is_object v)); [done|]. cbv zeta.
  apply utf8_members in Hv. set (path := ("scopes[" ++ to_string i ++ "]")%string). intros H.
  apply result_bind_Ok in H as (n & Hn & H). destruct (is_empty n); [done|].
  apply result_bind_Ok in H as (p & Hp & H). apply read_string_text in Hn, Hp; try done.
  destruct (map_find "rank"%string (object v)); [|by injection H as [= <-]].
  by apply result_bind_Ok in H as (k & _ & [= <-]).
Qed.

Lemma decode_all_text {A} (decode : Json -> Z -> decoding A) (ok : A -> Prop) l i out :
  (forall v i x, utf8_json v -> decode v i = Ok x -> ok x) -> Forall utf8_json l ->
  decode_all decode i l = Ok out -> Forall ok out.
Proof.
  intros Hd Hl; revert i out. induction Hl as [|v l Hv _ IH]; intros i out; simpl; [by intros [= <-]|].
  intros H. apply result_bind_Ok in H as (x & Hx & H). apply result_bind_Ok in H as (rest & Hr & [= <-]).
  constructor; [by eapply Hd|by eapply IH].
Qed.

Lemma decode_list_text {A} (decode : Json -> Z -> decoding A) (ok : A -> Prop) o field bound t1 code t2 out :
  (forall v i x, utf8_json v -> decode v i = Ok x -> ok x) -> utf8_object o ->
  decode_list decode o field bound t1 code t2 = Ok out -> Forall ok out.
Proof.
  intros Hd Ho. unfold decode_list. destruct (map_find field o) as [v|] eqn:E; [|done].
  apply utf8_object_find in E; [|done]. destruct v as [| | | | |l|]; try done.
  apply utf8_items in E. destruct (bound <? _); [done|]. by apply decode_all_text.
Qed.

Lemma decoded_text `{Hashing} v c : utf8_json v -> contract_from_json v = Ok c -> contract_text c.
Proof.
  intros Hv. unfold contract_from_json. destruct (negb (is_object v)); [done|]. cbv zeta.
  apply utf8_members in Hv. destruct (map_find "body"%string _) as [x|] eqn:Ex; [|done].
  apply utf8_object_find in Ex; [|done]. destruct x as [| | | | | |m]; try done. apply utf8_members in Ex.
  intros E. apply result_bind_Ok in E as (b & Hb & E). apply result_bind_Ok in E as (e & He & E).
  apply result_bind_Ok in E as (s & _ & E). apply result_bind_Ok in E as (sd & _ & E).
  apply result_bind_Ok in E as (d & _ & E). injection E as <-. cbn [object] in Ex.
  assert (utf8 (env_key_id e)) as Hk.
  { destruct (map_find "envelope"%string _) as [y|] eqn:Ey; [|injection He as <-; constructor].
    apply utf8_object_find in Ey; [|done]. unfold decode_envelope in He. destruct (negb (is_object y)); [done|].
    cbv zeta in He. apply utf8_members in Ey. apply result_bind_Ok in He as (t & _ & He).
    destruct (parse_id t); [|done]. apply result_bind_Ok in He as (a & _ & He).
    apply result_bind_Ok in He as (key & Hk & He). apply result_bind_Ok in He as (n & _ & He).
    apply result_bind_Ok in He as (sig & _ & [= <-]). by eapply read_string_text, Hk. }
  unfold decode_body in Hb. apply result_bind_Ok in Hb as (sv & _ & Hb).
  apply result_bind_Ok in Hb as ([] & _ & Hb). apply result_bind_Ok in Hb as (w & Hw & Hb).
  apply result_bind_Ok in Hb as (cid & _ & Hb). apply result_bind_Ok in Hb as (g & _ & Hb).
  apply result_bind_Ok in Hb as (pg & _ & Hb). apply result_bind_Ok in Hb as (ver & _ & Hb).
  apply result_bind_Ok in Hb as (de & Hde & Hb). apply result_bind_Ok in Hb as (sc & Hsc & Hb).
  apply result_bind_Ok in Hb as (rq & Hrq & Hb). injection Hb as <-.
  split; cbn [body workload body_description scopes requirements envelope].
  - unfold decode_workload in Hw. destruct (map_find "workload"%string m) as [y|] eqn:Ey; [|done].
    apply utf8_object_find in Ey; [|done]. destruct y as [| | | | | |wo]; try done. apply utf8_members in Ey.
    apply result_bind_Ok in Hw as (t & _ & Hw). destruct (parse_id t) as [i|]; [|done].
    destruct (is_zero i); [done|]. apply result_bind_Ok in Hw as (n & Hn & Hw).
    apply result_bind_Ok in Hw as (gn & _ & [= <-]). by eapply read_string_text, Hn.
  - by eapply read_string_text, Hde.
  - by eapply decode_list_text; [exact decode_scope_text|exact Ex|exact Hsc].
  - by eapply decode_list_text; [exact decode_requirement_text|exact Ex|exact Hrq].
  - done.
Qed.

(** ** ASCII *)
Definition is_ascii (c : ascii) : bool := byte_of_ascii c <? 128.

Lemma ascii_utf8 s : all_chars is_ascii s = true -> utf8 s.
Proof.
  induction s as [|c s IH]; [constructor|]. simpl. intros H. bool_hyps.
  assert (negb (is_ascii c) || match decode_utf8 (String c EmptyString) with
                               | Some (n, _) => Nat.eqb n 1 | None => false end = true) as E
    by (apply (ascii_forall (fun c => negb (is_ascii c) || match decode_utf8 (String c EmptyString) with
                               | Some (n, _) => Nat.eqb n 1 | None => false end)); by vm_compute).
  rewrite H in E. cbn [negb orb] in E. destruct (decode_utf8 (String c EmptyString)) as [[n cp]|] eqn:D; [|done].
  apply Nat.eqb_eq in E as ->. apply (utf8_cons (String c EmptyString) cp); [done|by apply IH].
Qed.

Lemma all_chars_impl (p q : ascii -> bool) s :
  (forall c, p c = true -> q c = true) -> all_chars p s = true -> all_chars q s = true.
Proof. intros Hpq. induction s as [|c s IH]; simpl; [done|]. intros H. bool_hyps. by rewrite Hpq, IH by done. Qed.

(** Decides a property of one character below a hypothesis on it. *)
Lemma char_impl (p q : ascii -> bool) :
  (forall c, implb (p c) (q c) = true) -> forall c, p c = true -> q c = true.
Proof. intros H c Hc. specialize (H c). by rewrite Hc in H. Qed.

Lemma hex_ascii s t : normalise_hex s = Some t -> all_chars is_ascii s = true.
Proof.
  revert t. induction s as [|c s IH]; intros t; simpl; [done|].
  destruct (hex_digit_value c <? 0) eqn:E; [done|]. destruct (normalise_hex s) as [r|]; [|done]. intros _.
  rewrite (IH r) by done. rewrite andb_true_r.
  apply (char_impl (fun c => negb (hex_digit_value c <? 0))); [|by rewrite E].
  apply ascii_forall. by vm_compute.
Qed.

Lemma base64url_ascii b : all_chars is_ascii (base64url_encode b) = true.
Proof.
  eapply all_chars_impl; [|apply encode_alphabet]. apply char_impl. apply ascii_forall. by vm_compute.
Qed.

(** ** Writing a well-formed document *)
Section Writing.
Context (options : JsonDecodeOptions) (Hdepth : 6 <= max_depth options) (Hstr : 4096 <= max_string_bytes options).

Notation wf := (json_wf options).

Lemma ascii_ok s : all_chars is_ascii s = true -> size s <= 4096 -> str_ok options s.
Proof using Hstr. intros H1 H2. split; [by apply ascii_utf8|lia]. Qed.

Lemma id_str_ok {Tag} (i : Id Tag) : id_ok i -> str_ok options (view i).
Proof using Hstr. intros [H1 H2]. apply ascii_ok; [by eapply hex_ascii|]. unfold kSha256HexChars in H1. lia. Qed.

Lemma digest_str_ok (d : Digest) : digest_ok d -> str_ok options (hex_encode d).
Proof using Hstr.
  intros [H1 H2]. apply ascii_ok; [by eapply hex_ascii, normalise_hex_encode|].
  rewrite hex_encode_size. unfold zlength. rewrite H1. lia.
Qed.

Lemma wf_string depth s : depth <= 6 -> str_ok options s -> wf depth (JString s).
Proof using Hdepth. intros. split; [lia|done]. Qed.

Lemma wf_uint depth z : depth <= 6 -> 0 <= z < 2 ^ 63 -> wf depth (json_uint z).
Proof using Hdepth. intros. split; [lia|]. unfold json_uint, to_int64. rewrite Z.mod_small by lia. lia. Qed.

Lemma wf_int depth z : depth <= 6 -> 0 <= z < 2 ^ 63 -> wf depth (JInt z).
Proof using Hdepth. intros. split; [lia|]. lia. Qed.

Lemma wf_real depth d : depth <= 6 -> is_finite d = true -> wf depth (json_real d).
Proof using Hdepth.
  intros. split; [lia|]. destruct (deq d d_zero) eqn:E; [by split|]. split; [done|]. intros ->. done.
Qed.

Lemma wf_array {A} depth (encode : A -> Json) l :
  depth <= 6 -> Forall (fun x => wf (depth + 1) (encode x)) l -> wf depth (JArray (map encode l)).
Proof using Hdepth. intros Hd Hl. split; [lia|]. apply all_items_Forall. by apply Forall_map. Qed.

(** A field is a literal key and a well-formed value. *)
Definition field_ok (depth : Z) (p : string * Json) : Prop := str_ok options p.1 /\ wf (depth + 1) p.2.

Lemma field_key depth key v :
  all_chars is_ascii key = true -> size key <= 4096 -> wf (depth + 1) v -> field_ok depth (key, v).
Proof using Hstr. intros. split; [by apply ascii_ok|done]. Qed.

Lemma set_if_ok depth c key v :
  all_chars is_ascii key = true -> size key <= 4096 -> (c = true -> wf (depth + 1) v) ->
  Forall (field_ok depth) (set_if c key v).
Proof using Hstr. intros H1 H2 H3. unfold set_if. destruct c; [|done]. constructor; [|done]. by apply field_key; auto. Qed.

Lemma Forall_map_insert (P : string * Json -> Prop) k v m :
  Forall P m -> P (k, v) -> Forall P (map_insert k v m).
Proof using.
  intros Hm Hp. induction Hm as [|[k' v'] m Hk Hm IH]; simpl; [by constructor|].
  destruct (std_less k k') eqn:E1; [by repeat constructor|]. destruct (std_less k' k) eqn:E2; [by constructor|].
  rewrite <- (std_less_total k k' E1 E2). by constructor.
Qed.

Lemma set_all_wf depth l : depth <= 6 -> Forall (field_ok depth) l -> wf depth (set_all JNull l).
Proof using Hdepth.
  intros Hd Hl. unfold set_all.
  assert (forall v, depth <= max_depth options -> keys_sorted (object v) -> Forall (field_ok depth) (object v) ->
    (v = JNull \/ is_object v = true) ->
    wf depth (fold_left (fun v p => set v p.1 p.2) l v)) as H; [|by apply H; (lia || constructor)].
  induction Hl as [|p l Hp Hl IH]; intros v Hdv Hs Hv Hk; simpl.
  - destruct Hk as [->|Hk]; [by split|]. destruct v; try done. split; [lia|]. simpl in *. split; [done|].
    apply all_members_Forall. eapply Forall_impl; [exact Hv|]. by intros [k x] [H1 H2].
  - apply IH; [done| | |by right].
    + simpl. by apply map_insert_sorted.
    + simpl. apply Forall_map_insert; [done|by destruct p].
Qed.

(** Splits the fields of an object and checks their names. *)
Ltac each_field :=
  repeat first
    [ apply Forall_app; split | apply Forall_cons; split | apply Forall_nil_2
    | apply set_if_ok; [reflexivity|vm_compute; discriminate|]
    | apply field_key; [reflexivity|vm_compute; discriminate|] ].

Lemma text_str_ok s : utf8 s -> size s <= 4096 -> str_ok options s.
Proof using Hstr. intros. split; [done|lia]. Qed.

Lemma token_str_ok s : all_chars is_ascii s = true -> (size s <=? 64) = true -> str_ok options s.
Proof using Hstr. intros H1 H2%Z.leb_le. apply ascii_ok; [done|lia]. Qed.

Lemma members_wf r : requirement_codable r -> wf 4 (members_json r).
Proof using Hdepth Hstr.
  intros Hr. apply wf_array; [lia|]. destruct (rq_members _ Hr) as [_ Hm].
  eapply Forall_impl; [exact Hm|]. intros i Hi. apply wf_string; [lia|]. by apply id_str_ok.
Qed.

Lemma attributes_wf r : requirement_codable r -> requirement_text r -> wf 4 (attributes_json r).
Proof using Hdepth Hstr.
  intros Hr Ht. apply wf_array; [lia|]. destruct (rq_attributes _ Hr) as [_ Ha].
  pose proof (rt_attributes _ Ht) as Hx. rewrite Forall_forall in Ha, Hx. apply Forall_forall. intros a Hin.
  destruct (Ha a Hin) as (_ & H1 & H2), (Hx a Hin) as [U1 U2]. apply set_all_wf; [lia|]. each_field.
  - apply wf_string; [lia|]. apply text_str_ok; [done|lia].
  - apply wf_string; [lia|]. by apply text_str_ok.
Qed.

Lemma requirement_wf r : requirement_codable r -> requirement_text r -> wf 3 (requirement_to_json r).
Proof using Hdepth Hstr.
  intros Hr Ht. pose proof Hr as [Hid [Hn1 Hn2] [Hv1 Hv2] Hb _ _]. pose proof Ht as [T1 T2 T3 T4 _].
  apply set_all_wf; [lia|]. each_field.
  - apply wf_string; [lia|]. by apply id_str_ok.
  - apply wf_string; [lia|]. apply text_str_ok; [done|lia].
  - apply wf_string; [lia|]. destruct (kind r); by apply token_str_ok.
  - apply wf_string; [lia|]. destruct (strength r); by apply token_str_ok.
  - intros En. unfold band_codable in Hb. rewrite En in Hb. apply wf_real; [lia|]. apply Hb.
  - intros En. unfold band_codable in Hb. rewrite En in Hb. apply wf_real; [lia|]. apply Hb.
  - intros _. apply wf_string; [lia|]. destruct (kind r); by apply token_str_ok.
  - intros _. apply wf_string; [lia|]. by apply text_str_ok.
  - intros _. apply wf_string; [lia|]. by apply text_str_ok.
  - intros _. by apply members_wf.
  - intros _. by apply attributes_wf.
  - apply wf_string; [lia|]. apply text_str_ok; [done|lia].
Qed.

Lemma scope_wf s : scope_codable s -> scope_text s -> wf 3 (scope_to_json s).
Proof using Hdepth Hstr.
  intros [[_ H1] H2 H3] [T1 T2]. apply set_all_wf; [lia|]. each_field.
  - apply wf_string; [lia|]. apply text_str_ok; [done|lia].
  - intros Er. rewrite Er in H3. apply wf_int; lia.
  - intros _. apply wf_string; [lia|]. apply text_str_ok; [done|lia].
Qed.

Lemma body_wf b :
  body_codable b -> utf8 (wl_name (workload b)) -> utf8 (body_description b) ->
  Forall scope_text (scopes b) -> Forall requirement_text (requirements b) -> wf 1 (contract_body_to_json b).
Proof using Hdepth Hstr.
  intros [H1 (W1 & _ & W2 & W3) H3 [H4 H4'] (H5 & H6 & H7) H8 [_ H9] [_ H10]] T1 T2 T3 T4.
  apply set_all_wf; [lia|]. each_field.
  - apply wf_int; lia.
  - apply set_all_wf; [lia|]. each_field.
    + apply wf_string; [lia|]. by apply id_str_ok.
    + apply wf_string; [lia|]. apply text_str_ok; [done|lia].
    + by apply wf_uint.
  - apply wf_string; [lia|]. by apply id_str_ok.
  - by apply wf_uint.
  - by apply wf_uint.
  - apply set_all_wf; [lia|]. each_field; apply wf_int; lia.
  - apply wf_string; [lia|]. by apply text_str_ok.
  - apply wf_array; [lia|]. rewrite Forall_forall in H9, T3. apply Forall_forall. intros s Hs. apply scope_wf; auto.
  - apply wf_array; [lia|]. rewrite Forall_forall in H10, T4. apply Forall_forall. intros r Hr.
    apply requirement_wf; auto.
Qed.

Lemma envelope_wf e : envelope_codable e -> utf8 (env_key_id e) -> wf 1 (envelope_to_json e).
Proof using Hdepth Hstr.
  intros [H1 H2 H3 [H4 H5]] T. apply set_all_wf; [lia|]. each_field.
  - apply wf_string; [lia|]. by apply id_str_ok.
  - apply wf_string; [lia|]. destruct (env_algorithm e); by apply token_str_ok.
  - apply wf_string; [lia|]. apply text_str_ok; [done|lia].
  - by apply wf_uint.
  - intros _. apply wf_string; [lia|]. apply ascii_ok; [apply base64url_ascii|]. rewrite encode_size.
    apply Z.div_le_upper_bound; lia.
Qed.

(** A contract within the codec's bounds, with UTF-8 strings, is written as a well-formed
    document. *)
Lemma contract_wf c : contract_codable c -> contract_text c -> wf 0 (contract_to_json c).
Proof using Hdepth Hstr.
  intros [H1 H2 H3 [H4 _] H5] [T1 T2 T3 T4 T5]. apply set_all_wf; [lia|]. each_field.
  - by apply body_wf.
  - apply wf_string; [lia|]. by apply digest_str_ok.
  - intros _. by apply wf_uint.
  - intros _. apply wf_string; [lia|]. by apply digest_str_ok.
  - by apply envelope_wf.
Qed.

End Writing.

(** ** Canonical contracts *)
Section Canonical.
Context `{HH : Hashing} {HHok : HashingOk}.

Lemma canonical_requirement_codable r : requirement_codable r -> requirement_codable (canonical_requirement r).
Proof using HHok.
  intros [H1 H2 H3 H4 [H5 H6] [H7 H8]]. split; cbn; try done.
  - apply from_digest_ok; [apply sha256_parts_length|apply sha256_parts_bytes].
  - split; [|by rewrite std_sort_perm]. unfold zlength in *. by rewrite std_sort_perm.
  - split; [|by rewrite std_sort_perm]. unfold zlength in *. by rewrite std_sort_perm.
Qed.

Lemma canonical_requirement_text r : requirement_text r -> requirement_text (canonical_requirement r).
Proof using. intros [H1 H2 H3 H4 H5]. split; cbn; try done. by rewrite std_sort_perm. Qed.

Lemma canonicalize_codable c : contract_codable c -> contract_codable (canonicalize c).
Proof using HHok.
  intros [[B1 B2 B3 B4 B5 B6 [B7 B7'] [B8 B8']] H2 H3 H4 H5]. split; cbn; try done; [|apply body_digest_ok].
  split; cbn; try done.
  - apply from_digest_ok; [apply sha256_parts_length|apply sha256_parts_bytes].
  - split; [|by rewrite std_sort_perm]. unfold zlength in *. by rewrite std_sort_perm.
  - split; [unfold zlength in *; by rewrite std_sort_perm, length_map|]. rewrite std_sort_perm. apply Forall_map.
    eapply Forall_impl; [exact B8'|]. apply canonical_requirement_codable.
Qed.

Lemma canonicalize_text c : contract_text c -> contract_text (canonicalize c).
Proof using.
  intros [T1 T2 T3 T4 T5]. split; cbn; try done; rewrite std_sort_perm; [done|].
  apply Forall_map. eapply Forall_impl; [exact T4|]. apply canonical_requirement_text.
Qed.

(** ** The text is read back *)

(** A contract as a text of the decoder's size bound, with reals that read back. *)
Definition contract_fits (c : Contract) : Prop :=
  readable_reals (contract_to_json c) = true /\ size (text_of (contract_to_json c)) < kMaxDocumentBytes.

Lemma contract_text_decodes c :
  contract_codable c -> contract_text c -> digest c = body_digest (body c) -> contract_fits c ->
  dump (contract_to_json c) = text_of (contract_to_json c)
  /\ json_decode (String.append (dump (contract_to_json c)) (String "010" EmptyString)) default_options
     = Ok (contract_to_json c)
  /\ contract_from_text (String.append (dump (contract_to_json c)) (String "010" EmptyString)) default_options = Ok c.
Proof using HHok.
  intros Hc Ht Hd [Hr Hs].
  assert (dump (contract_to_json c) = text_of (contract_to_json c)) as E
    by (apply dump_text; unfold kMaxDocumentBytes in *; lia).
  assert (json_decode (String.append (text_of (contract_to_json c)) (String "010" EmptyString)) default_options
          = Ok (contract_to_json c)) as Ej.
  { apply json_decode_text_then; try done; [by apply contract_wf| |by left].
    unfold kMaxDocumentBytes in Hs. unfold size at 2. cbn [String.length default_options max_bytes]. lia. }
  rewrite E. split_and!; [done|done|]. unfold contract_from_text. rewrite Ej. by apply contract_decode_encode.
Qed.

(** What a decoded document gives. *)
Lemma decoded_contract options text v c :
  0 <= max_string_bytes options -> 0 <= max_depth_option options ->
  json_decode text options = Ok v -> contract_from_json v = Ok c ->
  (supersedes c = 0 -> supersedes_digest c = zero_digest) -> contract_codable c /\ contract_text c.
Proof using HHok.
  intros H1 H2 Hj Hc Hs. pose proof (json_decode_outcome text options H1 H2) as Hwf. rewrite Hj in Hwf.
  split; [|by eapply decoded_text; [eapply json_wf_utf8|]].
  by eapply decoded_codable; [eapply json_wf_representable|..].
Qed.

End Canonical.
