(* ===== verification/Evaluation.v ===== *)
(** * Evidence and evaluation

    Models [include/wnc/evaluation.hpp] and [src/evaluation.cpp]: evidence sets and their
    codec, the freshness stamps of [validate_evidence], the decision table of
    [decide_requirement], and the evaluation of a contract. *)
From Stdlib Require Import ZArith Lia Ascii String Sorted.
From stdpp Require Import base numbers option list strings sets.
From S2P Require Import Prelude Doubles Identity Errors Hash Json JsonParser Signature Contract ContractValidate ContractDecode.

(** ** Data *)
Record Candidate := mk_candidate {
  min_bandwidth : option double;
  max_latency : option double;
  max_jitter : option double;
  max_loss : option double;
  locality : option string;
  path_diversity : option double;
  failure_domain_separation : option double;
  security_class : option string;
  traffic_priority : option double;
  burst_allowance : option double;
  collective_supported : option bool;
  checkpoint_isolation : option bool;
  disaggregated_affinity : option string;
  maintenance_tolerance : option string;
  cand_attributes : list (string * string)
}.

Definition empty_candidate : Candidate :=
  mk_candidate None None None None None None None None None None None None None None [].

(** [Candidate::attribute]. *)
Fixpoint attribute_in (l : list (string * string)) (name : string) : option string :=
  match l with
  | [] => None
  | a :: l' => if String.eqb a.1 name then Some a.2 else attribute_in l' name
  end.

Definition attribute (c : Candidate) (name : string) : option string := attribute_in (cand_attributes c) name.

Definition is_some {A} (o : option A) : bool := match o with Some _ => true | None => false end.

Definition has_any_dimension (c : Candidate) : bool :=
  is_some (min_bandwidth c) || is_some (max_latency c) || is_some (max_jitter c) || is_some (max_loss c)
  || is_some (locality c) || is_some (path_diversity c) || is_some (failure_domain_separation c)
  || is_some (security_class c) || is_some (traffic_priority c) || is_some (burst_allowance c)
  || is_some (collective_supported c) || is_some (checkpoint_isolation c)
  || is_some (disaggregated_affinity c) || is_some (maintenance_tolerance c)
  || negb (zlength (cand_attributes c) =? 0).

Record EvidenceEntry := mk_entry {
  ent_scope : string;
  ent_id : EvidenceId;
  ent_publisher : PublisherId;
  ent_generation : Z;
  captured_by : Incarnation;
  ent_epoch : Z;
  ent_produced : Z;
  candidate : Candidate;
  freshness : EvidenceFreshness
}.

Definition with_freshness (e : EvidenceEntry) (f : EvidenceFreshness) : EvidenceEntry :=
  mk_entry (ent_scope e) (ent_id e) (ent_publisher e) (ent_generation e) (captured_by e) (ent_epoch e)
    (ent_produced e) (candidate e) f.

Record EvidenceSet := mk_evidence {
  evidence_id : EvidenceId;
  ev_generation : Z;
  ev_epoch : Z;
  ev_publisher : PublisherId;
  ev_produced : Z;
  ev_entries : list EvidenceEntry
}.

Definition with_evidence_id (e : EvidenceSet) (i : EvidenceId) : EvidenceSet :=
  mk_evidence i (ev_generation e) (ev_epoch e) (ev_publisher e) (ev_produced e) (ev_entries e).

Definition with_entries (e : EvidenceSet) (l : list EvidenceEntry) : EvidenceSet :=
  mk_evidence (evidence_id e) (ev_generation e) (ev_epoch e) (ev_publisher e) (ev_produced e) l.

(** [EvidenceSet::find] and [EvidenceSet::all_current]. *)
Definition find_entry (e : EvidenceSet) (scope : string) : option EvidenceEntry :=
  List.find (fun entry => String.eqb (ent_scope entry) scope) (ev_entries e).

Definition all_current (e : EvidenceSet) : bool :=
  forallb (fun entry => freshness_eqb (freshness entry) kCurrent) (ev_entries e).

(** ** Validation *)
Record EvidenceValidationResult := mk_evidence_result {
  evidence_ok : bool;
  stale_scopes : list string;
  evidence_log : DiagnosticLog
}.

(** The stamp of one entry, and whether its scope is reported stale. *)
Definition stamp (epoch : Z) (current : Incarnation) (now_millis max_age_millis : Z) (e : EvidenceEntry)
    : EvidenceEntry * bool :=
  if negb (incarnation_eqb (captured_by e) current) || negb (ent_epoch e =? epoch)
  then (with_freshness e kRevalidationNeeded, true)
  else if (0 <? max_age_millis) && (ent_produced e <? now_millis)
          && (max_age_millis <? u64 (now_millis - ent_produced e))
  then (with_freshness e kExpired, true)
  else (with_freshness e kCurrent, false).

Definition entry_diagnostics (scopes : list (string * Scope)) (fresh : bool) (e : EvidenceEntry) : list Diagnostic :=
  ((if negb (map_has (ent_scope e) scopes)
    then [diag kEvidenceUnknownScope ("evidence references undeclared scope '" ++ ent_scope e ++ "'")] else [])
   ++ (if negb fresh then [diag kEvidenceDuplicate ("evidence repeats scope '" ++ ent_scope e ++ "'")] else [])
   ++ (if negb (has_any_dimension (candidate e))
       then [diag kEvaluationMissingDimension ("evidence for scope '" ++ ent_scope e ++ "' carries no dimension")]
       else []))%list.

Fixpoint entry_pass (scopes : list (string * Scope)) (seen : list (string * Z)) (l : list EvidenceEntry)
    : list Diagnostic :=
  match l with
  | [] => []
  | e :: l' =>
      let '(seen', fresh) := map_emplace (ent_scope e) 0 seen in
      (entry_diagnostics scopes fresh e ++ entry_pass scopes seen' l')%list
  end.

(** [validate_evidence] returns the evidence set it stamped beside its result. *)
Definition validate_evidence (evidence : EvidenceSet) (body : ContractBody) (current : Incarnation)
    (now_millis max_age_millis : Z) : EvidenceSet * EvidenceValidationResult :=
  let scope_map := emplace_all sc_name (scopes body) [] in
  let stamped := map (stamp (ev_epoch evidence) current now_millis max_age_millis) (ev_entries evidence) in
  let log := log_adds empty_log (entry_pass scope_map [] (ev_entries evidence)) in
  (with_entries evidence (map fst stamped),
   mk_evidence_result (negb (has_errors log))
     (std_sort string_less (map (fun p => ent_scope p.1) (List.filter snd stamped))) log).

(** ** The decision table *)
Record RequirementDecision := mk_req_decision {
  dec_satisfaction : Satisfaction;
  dec_code : Code;
  dec_reason : string;
  dec_observed : option double
}.

Definition decide_as (s : Satisfaction) (reason : string) (observed : option double) : RequirementDecision :=
  mk_req_decision s kOk reason observed.

Definition missing_dimension (reason : string) : RequirementDecision :=
  mk_req_decision kUnknown kEvaluationMissingDimension reason None.

Definition ceiling (observed : option double) (r : Requirement) (dimension : string) : RequirementDecision :=
  match observed with
  | None => missing_dimension (dimension ++ " was not supplied by the evidence")
  | Some x =>
      if dle x (target r) then decide_as kSatisfied (dimension ++ " is within the required bound") (Some x)
      else if dle x (minimum r) then
        let preferred := strength_eqb (strength r) kPreferred in
        decide_as (if preferred then kSatisfied else kUnsatisfied)
          (dimension ++ (if preferred then " is within the preferred band"
                         else " exceeds the required bound but is within the acceptable band")) (Some x)
      else decide_as kUnsatisfied (dimension ++ " exceeds the acceptable band") (Some x)
  end.

Definition floor_value (observed : option double) (r : Requirement) (dimension : string) : RequirementDecision :=
  match observed with
  | None => missing_dimension (dimension ++ " was not supplied by the evidence")
  | Some x =>
      if dle (target r) x then decide_as kSatisfied (dimension ++ " meets the required floor") (Some x)
      else if dle (minimum r) x then
        let preferred := strength_eqb (strength r) kPreferred in
        decide_as (if preferred then kSatisfied else kUnsatisfied)
          (dimension ++ (if preferred then " meets the preferred floor"
                         else " is below the required floor but above the acceptable one")) (Some x)
      else decide_as kUnsatisfied (dimension ++ " is below the acceptable floor") (Some x)
  end.

(** [std::string::find] found the text. *)
Definition contains (s wanted : string) : bool := is_some (String.index 0 wanted s).

Definition textual (observed : option string) (r : Requirement) (dimension : string) (exact : bool)
    : RequirementDecision :=
  match observed with
  | None => missing_dimension (dimension ++ " was not supplied by the evidence")
  | Some x =>
      if is_empty x then missing_dimension (dimension ++ " was not supplied by the evidence")
      else
        let matches_text wanted := if exact then String.eqb x wanted else contains x wanted in
        if matches_text (value r) then decide_as kSatisfied (dimension ++ " matches the required value") None
        else if negb (strength_eqb (strength r) kRequired) && negb (is_empty (preferred_value r))
                && matches_text (preferred_value r)
        then decide_as kSatisfied (dimension ++ " matches the preferred value") None
        else decide_as kUnsatisfied (dimension ++ " does not match the required value") None
  end.

Definition decide_isolation (c : Candidate) (r : Requirement) : RequirementDecision :=
  match checkpoint_isolation c with
  | None => missing_dimension "checkpoint isolation was not supplied by the evidence"
  | Some isolated =>
      let wanted := negb (String.eqb (value r) "none") && negb (is_empty (value r)) in
      let satisfied := if wanted then isolated else negb isolated in
      decide_as (if satisfied then kSatisfied else kUnsatisfied)
        (if satisfied then "checkpoint isolation matches the requirement"
         else "checkpoint isolation does not match the requirement") None
  end.

(** The count of members reported present, and whether one is not reported. *)
Fixpoint count_members (c : Candidate) (l : list RequirementId) : Z * bool :=
  match l with
  | [] => (0, false)
  | m :: l' =>
      let '(matched, missing) := count_members c l' in
      match attribute c ("member." ++ view m) with
      | None => (matched, true)
      | Some present => (if String.eqb present "present" then matched + 1 else matched, missing)
      end
  end.

Definition decide_collective (c : Candidate) (r : Requirement) : RequirementDecision :=
  match collective_supported c with
  | None => missing_dimension "collective support was not supplied by the evidence"
  | Some supported =>
      if String.eqb (value r) "unsupported" then
        decide_as (if supported then kUnsatisfied else kSatisfied) "collective support is required to be absent" None
      else if negb supported then
        decide_as kUnsatisfied "the scope does not support collective operations" None
      else if zlength (members r) =? 0 then
        decide_as kSatisfied "collective operations are supported for the scope" None
      else
        let '(matched, missing) := count_members c (members r) in
        if matched =? zlength (members r) then
          decide_as kSatisfied "every collective member is present in the scope" None
        else if missing then missing_dimension "evidence does not report every collective member"
        else decide_as kUnsatisfied "at least one collective member is absent from the scope" None
  end.

Definition decide_attribute (c : Candidate) (r : Requirement) : RequirementDecision :=
  match attribute c (req_key r) with
  | None => missing_dimension ("attribute '" ++ req_key r ++ "' was not supplied by the evidence")
  | Some v =>
      if String.eqb v (value r) then decide_as kSatisfied "attribute matches the requirement" None
      else decide_as kUnsatisfied "attribute does not match the requirement" None
  end.

(** The [switch] over the kinds. *)
Definition decide_kind (c : Candidate) (r : Requirement) : RequirementDecision :=
  match kind r with
  | kMinBandwidth => floor_value (min_bandwidth c) r "available bandwidth"
  | kMaxLatency => ceiling (max_latency c) r "latency"
  | kMaxJitter => ceiling (max_jitter c) r "jitter"
  | kMaxLoss => ceiling (max_loss c) r "loss"
  | kPathDiversity => floor_value (path_diversity c) r "path diversity"
  | kFailureDomainSeparation => floor_value (failure_domain_separation c) r "failure domain separation"
  | kTrafficPriority => floor_value (traffic_priority c) r "traffic priority"
  | kBurstAllowance => floor_value (burst_allowance c) r "burst allowance"
  | kLocality => textual (locality c) r "locality" true
  | kSecurityClass => textual (security_class c) r "security class" true
  | kDisaggregatedAffinity => textual (disaggregated_affinity c) r "disaggregated affinity" true
  | kMaintenanceTolerance => textual (maintenance_tolerance c) r "maintenance tolerance" true
  | kCheckpointIsolation => decide_isolation c r
  | kCollective => decide_collective c r
  | kAttribute => decide_attribute c r
  end.

Definition decide_requirement (r : Requirement) (entry : option EvidenceEntry) (current : Incarnation)
    (now_millis max_age_millis : Z) : RequirementDecision :=
  if strength_eqb (strength r) kInformational
  then decide_as kNotApplicable "informational requirements are recorded but not evaluated" None
  else
    match entry with
    | None => mk_req_decision kUnknown kEvaluationNoEvidence ("no evidence covers scope '" ++ scope r ++ "'") None
    | Some e =>
        if negb (incarnation_eqb (captured_by e) current) then
          mk_req_decision kUnknown kRevalidationRequired
            ("evidence for scope '" ++ scope r ++ "' was captured by another coordinator incarnation") None
        else
          match freshness e with
          | kRevalidationNeeded =>
              mk_req_decision kUnknown kRevalidationRequired
                ("evidence for scope '" ++ scope r
                 ++ "' was captured by an earlier coordinator incarnation and must be re-established") None
          | kExpired =>
              mk_req_decision kUnknown kEvidenceExpired
                ("evidence for scope '" ++ scope r ++ "' is older than the permitted age") None
          | kStale =>
              mk_req_decision kUnknown kEvidenceStale ("evidence for scope '" ++ scope r ++ "' is stale") None
          | kCurrent => decide_kind (candidate e) r
          end
    end.

(** ** Evaluation *)
Record RequirementEvaluation := mk_req_evaluation {
  re_requirement : RequirementId;
  re_scope : string;
  re_kind : RequirementKind;
  re_strength : RequirementStrength;
  re_satisfaction : Satisfaction;
  re_code : Code;
  re_reason : string;
  re_evidence : EvidenceId;
  re_generation : Z;
  re_freshness : EvidenceFreshness;
  re_observed : option double
}.

Record EvaluationSummary := mk_summary {
  required_total : Z;
  required_satisfied : Z;
  required_unsatisfied : Z;
  required_unknown : Z;
  preferred_satisfied : Z;
  preferred_unsatisfied : Z;
  preferred_unknown : Z;
  informational : Z;
  not_applicable : Z
}.

Record ContractEvaluation := mk_evaluation {
  eval_workload : WorkloadId;
  eval_contract : ContractId;
  eval_generation : Z;
  eval_digest : Digest;
  eval_policy_generation : Z;
  eval_evidence_generation : Z;
  evaluated_by : Incarnation;
  eval_epoch : Z;
  evaluated_at : Z;
  aggregate : Satisfaction;
  summary : EvaluationSummary;
  eval_requirements : list RequirementEvaluation
}.

(** The early exit of the loop and its two flags. *)
Fixpoint aggregate_loop (l : list RequirementEvaluation) (any_unknown any_required : bool) : Satisfaction :=
  match l with
  | [] => if any_unknown then kUnknown else if negb any_required then kNotApplicable else kSatisfied
  | e :: l' =>
      if negb (strength_eqb (re_strength e) kRequired) then aggregate_loop l' any_unknown any_required
      else if satisfaction_eqb (re_satisfaction e) kUnsatisfied then kUnsatisfied
      else aggregate_loop l' (any_unknown || satisfaction_eqb (re_satisfaction e) kUnknown) true
  end.

Definition aggregate_satisfaction (l : list RequirementEvaluation) : Satisfaction := aggregate_loop l false false.

Definition one_if (b : bool) : Z := if b then 1 else 0.

(** What one requirement adds to the counters. *)
Definition count_one (s : EvaluationSummary) (e : RequirementEvaluation) : EvaluationSummary :=
  let required := strength_eqb (re_strength e) kRequired in
  let preferred := strength_eqb (re_strength e) kPreferred in
  let satisfied := satisfaction_eqb (re_satisfaction e) kSatisfied in
  let unsatisfied := satisfaction_eqb (re_satisfaction e) kUnsatisfied in
  mk_summary
    (required_total s + one_if required)
    (required_satisfied s + one_if (required && satisfied))
    (required_unsatisfied s + one_if (required && unsatisfied))
    (required_unknown s + one_if (required && negb satisfied && negb unsatisfied))
    (preferred_satisfied s + one_if (preferred && satisfied))
    (preferred_unsatisfied s + one_if (preferred && unsatisfied))
    (preferred_unknown s + one_if (preferred && negb satisfied && negb unsatisfied))
    (informational s + one_if (strength_eqb (re_strength e) kInformational))
    (not_applicable s + one_if (satisfaction_eqb (re_satisfaction e) kNotApplicable)).

Definition empty_summary : EvaluationSummary := mk_summary 0 0 0 0 0 0 0 0 0.

Definition evaluate_requirement (evidence : EvidenceSet) (current : Incarnation) (now_millis max_age_millis : Z)
    (r : Requirement) : RequirementEvaluation :=
  let entry := find_entry evidence (scope r) in
  let decision := decide_requirement r entry current now_millis max_age_millis in
  mk_req_evaluation (req_id r) (scope r) (kind r) (strength r) (dec_satisfaction decision) (dec_code decision)
    (dec_reason decision)
    (match entry with Some e => ent_id e | None => zero_id end)
    (match entry with Some e => ent_generation e | None => 0 end)
    (match entry with Some e => freshness e | None => kRevalidationNeeded end)
    (dec_observed decision).

(** [evaluate_contract]; it always succeeds. *)
Definition evaluate_contract (contract : Contract) (evidence : EvidenceSet) (current : Incarnation)
    (now_millis max_age_millis : Z) : ContractEvaluation :=
  let b := body contract in
  let verdicts := map (evaluate_requirement evidence current now_millis max_age_millis)
                    (std_sort requirement_precedes (requirements b)) in
  mk_evaluation (wl_id (workload b)) (contract_id b) (generation b) (digest contract) (policy_generation b)
    (ev_generation evidence) current (ev_epoch evidence) now_millis (aggregate_satisfaction verdicts)
    (fold_left count_one verdicts empty_summary) verdicts.

(** [ContractEvaluation::find]. *)
Definition find_verdict (e : ContractEvaluation) (scope : string) (k : RequirementKind) : option RequirementEvaluation :=
  List.find (fun v => String.eqb (re_scope v) scope && kind_eqb (re_kind v) k) (eval_requirements e).

(** ** Serialisation *)
Definition kMaxEvidenceEntries : Z := 4096.
Definition kMaxEvidenceMillis : Z := 2 ^ 60.

(** [add_optional_real], [add_optional_string] and [add_optional_bool]. *)
Definition set_some {A} (encode : A -> Json) (key : string) (v : option A) : list (string * Json) :=
  match v with Some x => [(key, encode x)] | None => [] end.

Definition candidate_fields (c : Candidate) : list (string * Json) :=
  set_some json_real "min_bandwidth" (min_bandwidth c)
  ++ set_some json_real "max_latency" (max_latency c)
  ++ set_some json_real "max_jitter" (max_jitter c)
  ++ set_some json_real "max_loss" (max_loss c)
  ++ set_some JString "locality" (locality c)
  ++ set_some json_real "path_diversity" (path_diversity c)
  ++ set_some json_real "failure_domain_separation" (failure_domain_separation c)
  ++ set_some JString "security_class" (security_class c)
  ++ set_some json_real "traffic_priority" (traffic_priority c)
  ++ set_some json_real "burst_allowance" (burst_allowance c)
  ++ set_some JBool "collective_supported" (collective_supported c)
  ++ set_some JBool "checkpoint_isolation" (checkpoint_isolation c)
  ++ set_some JString "disaggregated_affinity" (disaggregated_affinity c)
  ++ set_some JString "maintenance_tolerance" (maintenance_tolerance c)
  ++ set_if (negb (zlength (cand_attributes c) =? 0)) "attributes"
       (JArray (map attribute_to_json (cand_attributes c))).

(** An observation with no dimension leaves the fresh value null. *)
Definition candidate_to_json (c : Candidate) : Json := set_all JNull (candidate_fields c).

Definition entry_to_json (e : EvidenceEntry) : Json :=
  set_all JNull
    ([("scope"%string, JString (ent_scope e)); ("id"%string, JString (view (ent_id e)));
      ("publisher"%string, JString (view (ent_publisher e))); ("generation"%string, json_uint (ent_generation e))]
     ++ set_if (negb (incarnation_is_zero (captured_by e))) "captured_by" (JString (incarnation_str (captured_by e)))
     ++ [("epoch"%string, json_uint (ent_epoch e)); ("produced_at_millis"%string, json_uint (ent_produced e));
         ("freshness"%string, JString (freshness_token (freshness e)));
         ("candidate"%string, candidate_to_json (candidate e))]).

Definition evidence_to_json (e : EvidenceSet) : Json :=
  set_all JNull
    [("schema_version"%string, JInt 1); ("evidence_id"%string, JString (view (evidence_id e)));
     ("evidence_generation"%string, json_uint (ev_generation e)); ("epoch"%string, json_uint (ev_epoch e));
     ("publisher"%string, JString (view (ev_publisher e)));
     ("produced_at_millis"%string, json_uint (ev_produced e));
     ("entries"%string, JArray (map entry_to_json (ev_entries e)))].

(** ** Decoding *)
Definition read_optional_real (o : JsonObject) (field path : string) : decoding (option double) :=
  match map_find field o with
  | None => Ok None
  | Some v =>
      if negb (is_number v) then refuse kJsonWrongType (path_join path field ++ " must be a number")
      else
        let number := as_real v in
        if negb (is_finite number) || dlt number d_zero || dlt (double_of_int kMaxNumericParameter) number
        then refuse kValueOutOfRange (path_join path field ++ " is outside the permitted range")
        else Ok (Some number)
  end.

Definition read_optional_bool (o : JsonObject) (field path : string) : decoding (option bool) :=
  match map_find field o with
  | None => Ok None
  | Some v =>
      if negb (is_bool v) then refuse kJsonWrongType (path_join path field ++ " must be a boolean")
      else Ok (Some (as_bool v))
  end.

Definition read_optional_string (o : JsonObject) (field path : string) (allow_empty : bool)
    : decoding (option string) :=
  match map_find field o with
  | None => Ok None
  | Some v =>
      if negb (is_string v) then refuse kJsonWrongType (path_join path field ++ " must be a string")
      else if kMaxStringBytes <? size (as_string v)
      then refuse kJsonStringTooLong (path_join path field ++ " exceeds its byte bound")
      else if negb allow_empty && is_empty (as_string v)
      then refuse kValueOutOfRange (path_join path field ++ " must not be empty")
      else Ok (Some (as_string v))
  end.

(** [decode_candidate] returns a code only; its attributes come back sorted by name. *)
Fixpoint candidate_attribute_items (l : JsonArray) : result Code (list (string * string)) :=
  match l with
  | [] => Ok []
  | item :: l' =>
      if negb (is_object item) then Err kJsonWrongType
      else
        match map_find "name"%string (object item), map_find "value"%string (object item) with
        | Some (JString name), Some (JString v) =>
            if (kMaxStringBytes <? size name) || (kMaxStringBytes <? size v) then Err kJsonStringTooLong
            else rest ← candidate_attribute_items l'; Ok ((name, v) :: rest)
        | _, _ => Err kJsonWrongType
        end
  end.

Fixpoint repeated_name (l : list (string * string)) : bool :=
  match l with
  | a :: ((b :: _) as l') => String.eqb b.1 a.1 || repeated_name l'
  | _ => false
  end.

Definition candidate_attributes (o : JsonObject) : result Code (list (string * string)) :=
  match map_find "attributes"%string o with
  | None => Ok []
  | Some v =>
      if negb (is_array v) then Err kJsonWrongType
      else if 32 <? json_size v then Err kTooManyAttributes
      else
        items ← candidate_attribute_items (array v);
        let sorted := std_sort attribute_precedes items in
        if repeated_name sorted then Err kDuplicateRequirement else Ok sorted
  end.

(** The code of a reader's error. *)
Definition code_of {A} (r : decoding A) : result Code A :=
  match r with Ok a => Ok a | Err e => Err e.1 end.

Definition decode_candidate (v : Json) : result Code Candidate :=
  if negb (is_object v) then Err kJsonNotAnObject
  else
    let o := object v in
    let real field := code_of (read_optional_real o field "candidate") in
    let text field := code_of (read_optional_string o field "candidate" false) in
    let flag field := code_of (read_optional_bool o field "candidate") in
    min_bandwidth ← real "min_bandwidth"%string;
    max_latency ← real "max_latency"%string;
    max_jitter ← real "max_jitter"%string;
    max_loss ← real "max_loss"%string;
    path_diversity ← real "path_diversity"%string;
    failure_domain_separation ← real "failure_domain_separation"%string;
    traffic_priority ← real "traffic_priority"%string;
    burst_allowance ← real "burst_allowance"%string;
    locality ← text "locality"%string;
    security_class ← text "security_class"%string;
    disaggregated_affinity ← text "disaggregated_affinity"%string;
    maintenance_tolerance ← text "maintenance_tolerance"%string;
    collective_supported ← flag "collective_supported"%string;
    checkpoint_isolation ← flag "checkpoint_isolation"%string;
    attributes ← candidate_attributes o;
    Ok (mk_candidate min_bandwidth max_latency max_jitter max_loss locality path_diversity
          failure_domain_separation security_class traffic_priority burst_allowance collective_supported
          checkpoint_isolation disaggregated_affinity maintenance_tolerance attributes).

(** An optional unsigned field: absent, or an integer from zero to the bound. *)
Definition read_count (o : JsonObject) (field : string) (bound : Z) (code : Code) (text : string) : decoding Z :=
  match map_find field o with
  | None => Ok 0
  | Some v =>
      if negb (is_int v) || (as_int v <? 0) || (bound <? u64 (as_int v)) then refuse code text
      else Ok (u64 (as_int v))
  end.

Definition read_identity {Tag} (o : JsonObject) (field not_string not_id : string) : decoding (Id Tag) :=
  match map_find field o with
  | None => Ok zero_id
  | Some v =>
      if negb (is_string v) then refuse kJsonWrongType not_string
      else match parse_id (as_string v) with None => refuse kJsonWrongType not_id | Some i => Ok i end
  end.

Definition read_captured_by (o : JsonObject) : decoding Incarnation :=
  match map_find "captured_by"%string o with
  | None => Ok zero_incarnation
  | Some v =>
      if negb (is_string v) then refuse kJsonWrongType "captured_by must be a string"
      else
        match incarnation_parse (as_string v) with
        | None => refuse kJsonWrongType "captured_by must be a 16 byte base64url incarnation"
        | Some i => Ok i
        end
  end.

Definition read_freshness (o : JsonObject) : decoding EvidenceFreshness :=
  match map_find "freshness"%string o with
  | None => Ok kCurrent
  | Some v =>
      if negb (is_string v) then refuse kJsonWrongType "evidence entry freshness must be a string"
      else
        match parse_freshness (as_string v) with
        | None => refuse kJsonWrongType
                    ("evidence entry freshness '" ++ as_string v ++ "' is not a defined freshness")
        | Some f => Ok f
        end
  end.

Definition read_scope (o : JsonObject) : decoding string :=
  match map_find "scope"%string o with
  | Some (JString s) =>
      if is_empty s || (kMaxStringBytes <? size s)
      then refuse kJsonWrongType "evidence entry scope must be a non empty bounded string" else Ok s
  | _ => refuse kJsonWrongType "evidence entry scope must be a non empty bounded string"
  end.

Definition read_candidate (o : JsonObject) : decoding Candidate :=
  match map_find "candidate"%string o with
  | None => refuse kJsonMissingField "evidence entry requires a candidate object"
  | Some v =>
      match decode_candidate v with
      | Err code => refuse code "evidence entry candidate was rejected"
      | Ok c => Ok c
      end
  end.

(** One element of [entries]; the [id] it carries is not read. *)
Definition entry_from_json (item : Json) (index : Z) : decoding EvidenceEntry :=
  if negb (is_object item) then refuse kJsonWrongType "evidence entries must be objects"
  else
    let o := object item in
    scope ← read_scope o;
    generation ← read_count o "generation" uint64_max kJsonWrongType
                   "evidence entry generation must be a non negative integer";
    captured ← read_captured_by o;
    epoch ← read_count o "epoch" uint64_max kJsonWrongType
              "evidence entry epoch must be a non negative integer";
    produced ← read_count o "produced_at_millis" kMaxEvidenceMillis kValueOutOfRange
                 "evidence entry produced_at_millis is outside the permitted range";
    publisher ← read_identity o "publisher" "evidence entry publisher must be a string"
                  "evidence entry publisher must be a 64 character identifier";
    candidate ← read_candidate o;
    freshness ← read_freshness o;
    Ok (mk_entry scope zero_id publisher generation captured epoch produced candidate freshness).

Definition read_evidence_generation (o : JsonObject) : decoding Z :=
  match map_find "evidence_generation"%string o with
  | Some (JInt i) =>
      if i <? 1 then refuse kEvidenceGenerationBackwards "evidence_generation must be at least 1" else Ok (u64 i)
  | _ => refuse kEvidenceGenerationBackwards "evidence_generation must be at least 1"
  end.

Definition read_entries (o : JsonObject) : decoding (list EvidenceEntry) :=
  match map_find "entries"%string o with
  | Some (JArray l) =>
      if kMaxEvidenceEntries <? zlength l
      then refuse kEvidenceTooManyEntries "evidence declares more entries than the bound permits"
      else decode_all entry_from_json 0 l
  | _ => refuse kJsonMissingField "evidence.entries must be an array"
  end.

Section EvidenceCodec.
Context `{Hashing}.

Definition evidence_digest (e : EvidenceSet) : Digest :=
  digest_domain_generation "wnc/v1/evidence" (dump (evidence_to_json e)) (ev_generation e).

Definition derive_evidence_id (digest : Digest) : EvidenceId :=
  from_digest (sha256_parts ["wnc/v1/evidence-id"%string; hex_encode digest]).

(** The check of the declared identity against the derived one; all zeros mean not stated. *)
Definition check_declared_id (o : JsonObject) (derived : EvidenceId) : decoding unit :=
  match map_find "evidence_id"%string o with
  | None => Ok tt
  | Some v =>
      if is_string v && String.eqb (as_string v) (char_string 64 "0") then Ok tt
      else if negb (is_string v) then refuse kJsonWrongType "evidence_id must be a string"
      else
        match parse_id (as_string v) with
        | Some i =>
            if id_eqb i derived then Ok tt
            else refuse kContractDigestMismatch "declared evidence_id does not match the canonical evidence bytes"
        | None => refuse kContractDigestMismatch "declared evidence_id does not match the canonical evidence bytes"
        end
  end.

Definition evidence_from_json (v : Json) : decoding EvidenceSet :=
  if negb (is_object v) then refuse kJsonNotAnObject "evidence document must be an object"
  else
    let o := object v in
    generation ← read_evidence_generation o;
    epoch ← read_count o "epoch" uint64_max kJsonWrongType "epoch must be a non negative integer";
    produced ← read_count o "produced_at_millis" kMaxEvidenceMillis kValueOutOfRange
                 "produced_at_millis is outside the permitted range";
    publisher ← read_identity o "publisher" "publisher must be a string"
                  "publisher must be a 64 character identifier";
    entries ← read_entries o;
    let evidence := mk_evidence zero_id generation epoch publisher produced entries in
    let derived := derive_evidence_id (evidence_digest evidence) in
    _ ← check_declared_id o derived;
    Ok (with_evidence_id evidence derived).

Definition evidence_from_text (text : string) : decoding EvidenceSet :=
  match json_decode text default_options with
  | Err e => refuse (err_code e) (err_message e)
  | Ok v => evidence_from_json v
  end.

End EvidenceCodec.

(** ** What a verdict means *)

(** The entry a decision may rest on: captured by this incarnation, and current. *)
Definition usable (entry : option EvidenceEntry) (current : Incarnation) (e : EvidenceEntry) : Prop :=
  entry = Some e /\ captured_by e = current /\ freshness e = kCurrent.

(** The dimension of a kind. *)
Definition observed_number (c : Candidate) (k : RequirementKind) : option double :=
  match k with
  | kMinBandwidth => min_bandwidth c | kMaxLatency => max_latency c | kMaxJitter => max_jitter c
  | kMaxLoss => max_loss c | kPathDiversity => path_diversity c
  | kFailureDomainSeparation => failure_domain_separation c | kTrafficPriority => traffic_priority c
  | kBurstAllowance => burst_allowance c | _ => None
  end.

Definition observed_text (c : Candidate) (k : RequirementKind) : option string :=
  match k with
  | kLocality => locality c | kSecurityClass => security_class c
  | kDisaggregatedAffinity => disaggregated_affinity c | kMaintenanceTolerance => maintenance_tolerance c
  | _ => None
  end.

(** At least as good as a bound of the kind. *)
Definition reaches (k : RequirementKind) (x bound : double) : Prop :=
  (if kind_is_floor k then dle bound x else dle x bound) = true.

Definition member_attribute (m : RequirementId) : string := "member." ++ view m.

(** The observation meets the requirement. *)
Definition meets (r : Requirement) (c : Candidate) : Prop :=
  match kind r with
  | kCheckpointIsolation =>
      exists b, checkpoint_isolation c = Some b
        /\ (b = true <-> value r <> "none"%string /\ value r <> EmptyString)
  | kCollective =>
      exists b, collective_supported c = Some b
        /\ (value r = "unsupported"%string -> b = false)
        /\ (value r <> "unsupported"%string ->
            b = true /\ Forall (fun m => attribute c (member_attribute m) = Some "present"%string) (members r))
  | kAttribute => attribute c (req_key r) = Some (value r)
  | kLocality | kSecurityClass | kDisaggregatedAffinity | kMaintenanceTolerance =>
      exists x, observed_text c (kind r) = Some x /\ x <> EmptyString
        /\ (x = value r
            \/ (strength r <> kRequired /\ preferred_value r <> EmptyString /\ x = preferred_value r))
  | _ =>
      exists x, observed_number c (kind r) = Some x
        /\ (reaches (kind r) x (target r) \/ (strength r = kPreferred /\ reaches (kind r) x (minimum r)))
  end.

(** The observation says enough to decide the requirement. *)
Definition reported (r : Requirement) (c : Candidate) : Prop :=
  match kind r with
  | kCheckpointIsolation => checkpoint_isolation c <> None
  | kCollective =>
      collective_supported c <> None
      /\ (collective_supported c = Some true -> value r <> "unsupported"%string ->
          Forall (fun m => attribute c (member_attribute m) <> None) (members r))
  | kAttribute => attribute c (req_key r) <> None
  | kLocality | kSecurityClass | kDisaggregatedAffinity | kMaintenanceTolerance =>
      exists x, observed_text c (kind r) = Some x /\ x <> EmptyString
  | _ => observed_number c (kind r) <> None
  end.

(** A decision agrees with the meaning of the three verdicts. *)
Definition agrees (d : RequirementDecision) (known met : Prop) : Prop :=
  (dec_satisfaction d = kSatisfied <-> met)
  /\ (dec_satisfaction d = kUnsatisfied <-> known /\ ~ met)
  /\ (dec_satisfaction d = kUnknown <-> ~ known)
  /\ (met -> known).

(** No member of a collective is dropped between two requirements. *)
Definition keeps_members (r c : Requirement) : Prop :=
  kind r = kCollective -> Forall (fun m => m ∈ members c) (members r).

(** A required requirement whose terms are at least as strict is the harder one to meet,
    whatever is observed; nothing but the members of a collective adds a condition. *)
Lemma meets_stricter (r c : Requirement) (x : Candidate) :
  composite_key c = composite_key r -> strength c = kRequired -> has_numeric r = kind_is_numeric (kind r) ->
  (has_numeric r = true -> target c = target r \/ reaches (kind r) (target c) (target r)) ->
  (has_numeric r = false -> value c = value r) -> keeps_members r c -> meets c x -> meets r x.
Proof.
  intros Hk Hs Hn Hb Hv Hm. assert (kind c = kind r) as Ek by exact (f_equal rk_kind Hk).
  assert (req_key c = req_key r) as Ekey by exact (f_equal rk_key Hk).
  assert (forall y, has_numeric r = true -> reaches (kind r) y (target c) -> reaches (kind r) y (target r)) as Hreach.
  { intros y H Hy. destruct (Hb H) as [<-|Ht]; [exact Hy|]. unfold reaches in *.
    destruct (kind_is_floor (kind r)); by eapply dle_chain. }
  unfold meets, keeps_members in *. rewrite Ek, Hs in *.
  destruct (kind r) eqn:E; cbn in Hn; rewrite Hn in *;
    first [ rewrite (Hv eq_refl), ?Ekey; try done
          | intros (y & Hy & [Hr|[? _]]); [exists y; split; [exact Hy|left; by apply Hreach]|done] ].
  all: try (intros (y & Hy & Hne & [Hr|[? _]]); [exists y; by split_and!; [| |left]|done]).
  intros (b & Hy & H1 & H2). exists b. split_and!; [done..|]. intros Hu. destruct (H2 Hu) as [? Hall].
  split; [done|]. specialize (Hm eq_refl). rewrite Forall_forall in *. eauto.
Qed.

Lemma incarnation_eqb_eq a b : incarnation_eqb a b = true <-> a = b.
Proof.
  unfold incarnation_eqb. rewrite bool_decide_eq_true. destruct a, b; simpl. split; congruence.
Qed.

Lemma satisfaction_eqb_eq a b : satisfaction_eqb a b = true <-> a = b.
Proof. apply bool_decide_eq_true. Qed.

Lemma freshness_eqb_eq a b : freshness_eqb a b = true <-> a = b.
Proof. apply bool_decide_eq_true. Qed.

#[export] Instance agrees_proper d : Proper (iff ==> iff ==> iff) (agrees d).
Proof. intros k k' Hk m m' Hm. unfold agrees. by rewrite Hk, Hm. Qed.

Lemma agrees_known d (known met : Prop) (b : bool) :
  dec_satisfaction d = (if b then kSatisfied else kUnsatisfied) -> known -> (b = true <-> met) -> agrees d known met.
Proof.
  intros Hd Hk Hb. unfold agrees. rewrite Hd. destruct b; intuition congruence.
Qed.

Lemma agrees_unknown d (known met : Prop) :
  dec_satisfaction d = kUnknown -> ~ known -> (met -> known) -> agrees d known met.
Proof. intros Hd Hk Hm. unfold agrees. rewrite Hd. intuition congruence. Qed.

Lemma some_not_none {A} (x : A) : Some x <> None.
Proof. done. Qed.

(** The two bounds decide a numeric verdict. *)
Lemma band_decides (e1 e2 : bool) (s : RequirementStrength) :
  e1 || (strength_eqb s kPreferred && e2) = true <-> e1 = true \/ (s = kPreferred /\ e2 = true).
Proof. by rewrite orb_true_iff, andb_true_iff, strength_eqb_eq. Qed.

Lemma exists_some {A} (x : A) (P : A -> Prop) : (exists y, Some x = Some y /\ P y) <-> P x.
Proof. split; [by intros (y & [= <-] & H)|intros H; by exists x]. Qed.

Lemma ceiling_agrees o r d :
  kind_is_floor (kind r) = false ->
  agrees (ceiling o r d) (o <> None)
    (exists x, o = Some x /\ (reaches (kind r) x (target r) \/ (strength r = kPreferred /\ reaches (kind r) x (minimum r)))).
Proof.
  intros Hf. unfold reaches. rewrite Hf. destruct o as [x|].
  - apply (agrees_known _ _ _ (dle x (target r) || (strength_eqb (strength r) kPreferred && dle x (minimum r)))).
    + simpl. destruct (dle x (target r)), (dle x (minimum r)), (strength_eqb (strength r) kPreferred); done.
    + apply some_not_none.
    + by rewrite exists_some, band_decides.
  - apply agrees_unknown; [done|by intros H|]. by intros (x & ? & _).
Qed.

Lemma floor_value_agrees o r d :
  kind_is_floor (kind r) = true ->
  agrees (floor_value o r d) (o <> None)
    (exists x, o = Some x /\ (reaches (kind r) x (target r) \/ (strength r = kPreferred /\ reaches (kind r) x (minimum r)))).
Proof.
  intros Hf. unfold reaches. rewrite Hf. destruct o as [x|].
  - apply (agrees_known _ _ _ (dle (target r) x || (strength_eqb (strength r) kPreferred && dle (minimum r) x))).
    + simpl. destruct (dle (target r) x), (dle (minimum r) x), (strength_eqb (strength r) kPreferred); done.
    + apply some_not_none.
    + by rewrite exists_some, band_decides.
  - apply agrees_unknown; [done|by intros H|]. by intros (x & ? & _).
Qed.

Lemma textual_agrees o r d :
  agrees (textual o r d true) (exists x, o = Some x /\ x <> EmptyString)
    (exists x, o = Some x /\ x <> EmptyString
      /\ (x = value r \/ (strength r <> kRequired /\ preferred_value r <> EmptyString /\ x = preferred_value r))).
Proof.
  destruct o as [x|]; [|apply agrees_unknown; [done|by intros (x & ? & _)|intros (x & ? & _); done]].
  rewrite !exists_some. unfold textual. destruct (is_empty x) eqn:Ex.
  { apply is_empty_true in Ex as ->. apply agrees_unknown; [done|tauto|tauto]. }
  assert (x <> EmptyString) as Hx by (intros E; apply is_empty_true in E; congruence).
  apply (agrees_known _ _ _ (String.eqb x (value r)
    || (negb (strength_eqb (strength r) kRequired) && negb (is_empty (preferred_value r)) && String.eqb x (preferred_value r)))).
  - cbv zeta iota. destruct (String.eqb x (value r)), (negb _ && negb _), (String.eqb x (preferred_value r)); done.
  - done.
  - rewrite orb_true_iff, !andb_true_iff, !negb_true_iff, !String.eqb_eq, <- !not_true_iff_false,
      strength_eqb_eq, is_empty_true. tauto.
Qed.

Lemma isolation_agrees c r :
  kind r = kCheckpointIsolation -> agrees (decide_isolation c r) (reported r c) (meets r c).
Proof.
  intros Hk. unfold decide_isolation, reported, meets. rewrite Hk.
  destruct (checkpoint_isolation c) as [b|]; [|apply agrees_unknown; [done|by intros H|by intros (x & ? & _)]].
  rewrite exists_some. cbv zeta.
  assert (negb (String.eqb (value r) "none") && negb (is_empty (value r)) = true
          <-> value r <> "none"%string /\ value r <> EmptyString) as Hw.
  { rewrite andb_true_iff, !negb_true_iff, <- !not_true_iff_false, String.eqb_eq, is_empty_true. done. }
  destruct (negb _ && negb _).
  - apply (agrees_known _ _ _ b); [by destruct b|done|]. tauto.
  - apply (agrees_known _ _ _ (negb b)); [by destruct b|done|]. rewrite negb_true_iff.
    destruct b; intuition congruence.
Qed.

Lemma count_members_spec c l :
  0 <= (count_members c l).1 <= zlength l
  /\ ((count_members c l).1 = zlength l <-> Forall (fun m => attribute c (member_attribute m) = Some "present"%string) l)
  /\ ((count_members c l).2 = false <-> Forall (fun m => attribute c (member_attribute m) <> None) l).
Proof.
  induction l as [|m l (H1 & H2 & H3)]; [split_and!; [done|done|split; [constructor|done]|split; [constructor|done]]|].
  cbn [count_members]. destruct (count_members c l) as [n b]. cbn [fst snd] in *.
  rewrite !Forall_cons, <- H2, <- H3. unfold zlength in *. cbn [length]. unfold member_attribute.
  destruct (attribute c ("member." ++ view m)) as [v|]; cbn [fst snd].
  - destruct (String.eqb_spec v "present") as [->|Hv].
    + split_and!; [lia|lia|intuition lia|intuition congruence].
    + split_and!; [lia|lia| |intuition congruence]. split; [lia|]. intros [[= ->] _]. done.
  - split_and!; [lia|lia| |intuition congruence]. split; [lia|]. by intros [? _].
Qed.

Lemma collective_agrees c r :
  kind r = kCollective -> agrees (decide_collective c r) (reported r c) (meets r c).
Proof.
  intros Hk. unfold decide_collective, reported, meets. rewrite Hk.
  destruct (collective_supported c) as [b|];
    [|apply agrees_unknown; [done|by intros [H _]|by intros (x & ? & _)]].
  rewrite exists_some. destruct (String.eqb_spec (value r) "unsupported") as [Ev|Ev].
  { apply (agrees_known _ _ _ (negb b)); [by destruct b|by split|]. rewrite negb_true_iff. tauto. }
  destruct b; cbn [negb].
  2: { apply (agrees_known _ _ _ false); [done|by split|]. split; [done|]. intros [_ H]. by destruct (H Ev). }
  destruct (count_members_spec c (members r)) as (H1 & H2 & H3).
  destruct (zlength (members r) =? 0) eqn:E0.
  { apply zlength_zero in E0. rewrite E0. apply (agrees_known _ _ _ true); [done| |].
    - by split.
    - split; [|done]. intros _. by split. }
  destruct (count_members c (members r)) as [matched missing]. cbn [fst snd] in *.
  destruct (Z.eqb_spec matched (zlength (members r))) as [Em|Em].
  { apply H2 in Em. apply (agrees_known _ _ _ true); [done| |by split].
    split; [done|]. intros _ _. eapply Forall_impl; [exact Em|]. intros m Hm. simpl in Hm. by rewrite Hm. }
  assert (~ Forall (fun m => attribute c (member_attribute m) = Some "present"%string) (members r)) as Hn by tauto.
  destruct missing.
  - apply agrees_unknown; [done| |]; [intros [_ H]; specialize (H eq_refl Ev); apply H3 in H; done|].
    intros [_ H]. destruct (H Ev). done.
  - apply (agrees_known _ _ _ false); [done| |]; [split; [done|]; intros _ _; by apply H3|].
    split; [done|]. intros [_ H]. by destruct (H Ev).
Qed.

Lemma attribute_agrees c r :
  kind r = kAttribute -> agrees (decide_attribute c r) (reported r c) (meets r c).
Proof.
  intros Hk. unfold decide_attribute, reported, meets. rewrite Hk.
  destruct (attribute c (req_key r)) as [v|]; [|apply agrees_unknown; [done|by intros H|done]].
  apply (agrees_known _ _ _ (String.eqb v (value r))); [by destruct (String.eqb v (value r))|done|].
  rewrite String.eqb_eq. split; congruence.
Qed.

Lemma decide_kind_agrees c r : agrees (decide_kind c r) (reported r c) (meets r c).
Proof.
  unfold decide_kind. destruct (kind r) eqn:Hk;
    try (by apply isolation_agrees); try (by apply collective_agrees); try (by apply attribute_agrees);
    unfold reported, meets; rewrite Hk; unfold observed_number, observed_text;
    try apply textual_agrees; rewrite <- Hk;
    first [apply ceiling_agrees|apply floor_value_agrees]; by rewrite Hk.
Qed.

(** ** Decisions, aggregates and counters *)
Lemma decide_cases r entry current now age :
  strength r <> kInformational ->
  (exists e, usable entry current e /\ decide_requirement r entry current now age = decide_kind (candidate e) r)
  \/ ((forall e, ~ usable entry current e)
      /\ dec_satisfaction (decide_requirement r entry current now age) = kUnknown).
Proof.
  intros Hs. unfold decide_requirement, usable.
  assert (strength_eqb (strength r) kInformational = false) as ->
    by (apply not_true_is_false; by rewrite strength_eqb_eq).
  destruct entry as [e|]; [|right; split; [by intros ? [? _]|done]].
  destruct (incarnation_eqb (captured_by e) current) eqn:Ei; cbn [negb].
  - apply incarnation_eqb_eq in Ei. destruct (freshness e) eqn:Ef;
      [left; by exists e|right..]; (split; [|done]); intros e' ([= <-] & _ & H); congruence.
  - right. split; [|done]. intros e' ([= <-] & H & _). apply incarnation_eqb_eq in H. congruence.
Qed.

Lemma aggregate_loop_spec l u q :
  aggregate_loop l u q =
    if existsb (fun e => strength_eqb (re_strength e) kRequired && satisfaction_eqb (re_satisfaction e) kUnsatisfied) l
    then kUnsatisfied
    else if u || existsb (fun e => strength_eqb (re_strength e) kRequired
                                   && satisfaction_eqb (re_satisfaction e) kUnknown) l
    then kUnknown
    else if negb (q || existsb (fun e => strength_eqb (re_strength e) kRequired) l)
    then kNotApplicable else kSatisfied.
Proof.
  revert u q; induction l as [|e l IH]; intros u q; simpl; [by rewrite !orb_false_r|].
  destruct (strength_eqb (re_strength e) kRequired); cbn [negb andb orb]; [|apply IH].
  destruct (satisfaction_eqb (re_satisfaction e) kUnsatisfied); cbn [orb]; [done|].
  rewrite IH, orb_assoc, !orb_true_r. done.
Qed.

(** The verdicts of an evaluation, up to order. *)
Lemma evaluate_verdicts c ev current now age :
  eval_requirements (evaluate_contract c ev current now age)
  ≡ₚ map (evaluate_requirement ev current now age) (requirements (body c)).
Proof. unfold evaluate_contract. cbn [eval_requirements]. apply Permutation_map, std_sort_perm. Qed.

(** A required requirement has the verdict [s]. *)
Definition has_verdict (s : Satisfaction) (l : list RequirementEvaluation) : bool :=
  existsb (fun e => strength_eqb (re_strength e) kRequired && satisfaction_eqb (re_satisfaction e) s) l.

Lemma verdict_required ev current now age l (s : Satisfaction) :
  has_verdict s (map (evaluate_requirement ev current now age) l) = true
  <-> exists r, r ∈ l /\ strength r = kRequired
      /\ dec_satisfaction (decide_requirement r (find_entry ev (scope r)) current now age) = s.
Proof.
  unfold has_verdict. rewrite existsb_exists. split.
  - intros (e & He & H). apply in_map_iff in He as (r & <- & Hr). exists r.
    apply andb_true_iff in H as [H1 H2]. apply strength_eqb_eq in H1. apply satisfaction_eqb_eq in H2.
    by apply list_elem_of_In in Hr.
  - intros (r & Hr & Hs & Hd). eexists. split; [apply in_map, list_elem_of_In, Hr|].
    apply andb_true_iff. by rewrite strength_eqb_eq, satisfaction_eqb_eq.
Qed.

Lemma existsb_perm {A} (f : A -> bool) l1 l2 : l1 ≡ₚ l2 -> existsb f l1 = existsb f l2.
Proof. induction 1; simpl; try congruence. rewrite !orb_assoc. f_equal. apply orb_comm. Qed.

Lemma evaluate_aggregate c ev current now age :
  let has s := has_verdict s (map (evaluate_requirement ev current now age) (requirements (body c))) in
  aggregate (evaluate_contract c ev current now age) =
    if has kUnsatisfied then kUnsatisfied else if has kUnknown then kUnknown
    else if existsb (fun r => strength_eqb (strength r) kRequired) (requirements (body c))
    then kSatisfied else kNotApplicable.
Proof.
  cbv zeta. pose proof (evaluate_verdicts c ev current now age) as Hp.
  assert (aggregate (evaluate_contract c ev current now age)
    = aggregate_satisfaction (eval_requirements (evaluate_contract c ev current now age))) as -> by done.
  unfold aggregate_satisfaction, has_verdict. rewrite aggregate_loop_spec, !(existsb_perm _ _ _ Hp).
  assert (existsb (fun e => strength_eqb (re_strength e) kRequired)
            (map (evaluate_requirement ev current now age) (requirements (body c)))
          = existsb (fun r => strength_eqb (strength r) kRequired) (requirements (body c))) as ->.
  { clear Hp. induction (requirements (body c)) as [|r l IH]; [done|]. simpl. by rewrite IH. }
  cbn [orb]. destruct (existsb _ (requirements (body c))); done.
Qed.

Definition summary_total (s : EvaluationSummary) : Z :=
  required_satisfied s + required_unsatisfied s + required_unknown s
  + preferred_satisfied s + preferred_unsatisfied s + preferred_unknown s + informational s.

(** The number of verdicts of a strength and a satisfaction. *)
Definition verdict_count (st : RequirementStrength) (s : Satisfaction) (l : list RequirementEvaluation) : Z :=
  zlength (List.filter (fun e => strength_eqb (re_strength e) st && satisfaction_eqb (re_satisfaction e) s) l).

Definition strength_count (st : RequirementStrength) (l : list RequirementEvaluation) : Z :=
  zlength (List.filter (fun e => strength_eqb (re_strength e) st) l).

Lemma count_fold l s :
  let t := fold_left count_one l s in
  required_total t = required_total s + strength_count kRequired l
  /\ required_satisfied t = required_satisfied s + verdict_count kRequired kSatisfied l
  /\ required_unsatisfied t = required_unsatisfied s + verdict_count kRequired kUnsatisfied l
  /\ summary_total t = summary_total s + zlength l
  /\ required_total t - required_satisfied t - required_unsatisfied t - required_unknown t
     = required_total s - required_satisfied s - required_unsatisfied s - required_unknown s.
Proof.
  revert s; induction l as [|e l IH]; intros s; cbn [fold_left].
  - unfold strength_count, verdict_count, zlength. simpl. lia.
  - destruct (IH (count_one s e)) as (H1 & H2 & H3 & H4 & H5). cbv zeta.
    set (t := fold_left count_one l (count_one s e)) in *. clearbody t. revert H1 H2 H3 H4 H5.
    unfold strength_count, verdict_count, zlength, summary_total, count_one.
    destruct e as [? ? ? [] [] ? ? ? ? ? ?]; cbn -[Z.of_nat Z.add Z.sub Z.mul];
      repeat match goal with |- context [satisfaction_eqb ?a ?b] =>
        let v := eval vm_compute in (satisfaction_eqb a b) in change (satisfaction_eqb a b) with v end;
      cbn -[Z.of_nat Z.add Z.sub Z.mul]; lia.
Qed.

(** ** Evidence validation *)

(** An entry is too old when its age passes a nonzero bound. *)
Definition expired (now_millis max_age_millis : Z) (e : EvidenceEntry) : Prop :=
  0 < max_age_millis /\ max_age_millis < now_millis - ent_produced e.

Lemma stamp_current epoch current now age e :
  0 <= ent_produced e -> 0 <= now < 2 ^ 64 -> 0 <= age ->
  (freshness (stamp epoch current now age e).1 = kCurrent
   <-> captured_by e = current /\ ent_epoch e = epoch /\ ~ expired now age e)
  /\ ((stamp epoch current now age e).2 = true <-> freshness (stamp epoch current now age e).1 <> kCurrent).
Proof.
  intros Hp Hn Ha. unfold stamp, expired. rewrite <- incarnation_eqb_eq, <- (Z.eqb_eq (ent_epoch e)).
  destruct (incarnation_eqb (captured_by e) current), (ent_epoch e =? epoch); simpl;
    try (split; [intuition congruence|done]).
  destruct (Z.ltb_spec 0 age), (Z.ltb_spec (ent_produced e) now); simpl;
    try (split; [|done]; split; [intros _; split_and!; try done; lia|done]).
  rewrite u64_small by lia. destruct (Z.ltb_spec age (now - ent_produced e)); simpl.
  - split; [|done]. split; [done|]. intros (_ & _ & Hx). destruct Hx. lia.
  - split; [|done]. split; [|done]. intros _. split_and!; try done. lia.
Qed.

Lemma entry_diagnostics_errors scopes fresh e : errors_only (entry_diagnostics scopes fresh e).
Proof.
  unfold entry_diagnostics. rewrite !errors_only_app.
  split_and!; repeat case_bool; first [by apply errors_only_one|constructor].
Qed.

Lemma entry_pass_errors scopes seen l : errors_only (entry_pass scopes seen l).
Proof.
  revert seen; induction l as [|e l IH]; intros seen; cbn [entry_pass]; [constructor|].
  destruct (map_emplace _ _ _). apply errors_only_app. split; [apply entry_diagnostics_errors|apply IH].
Qed.

Lemma entry_diagnostics_nil scopes fresh e :
  entry_diagnostics scopes fresh e = []
  <-> map_has (ent_scope e) scopes = true /\ fresh = true /\ has_any_dimension (candidate e) = true.
Proof.
  unfold entry_diagnostics. rewrite !app_nil.
  destruct (map_has _ _), fresh, (has_any_dimension _); simpl; intuition congruence.
Qed.

Lemma entry_pass_nil scopes seen l :
  entry_pass scopes seen l = []
  <-> Forall (fun e => map_has (ent_scope e) scopes = true /\ has_any_dimension (candidate e) = true) l
      /\ NoDup (ent_scope <$> l) /\ Forall (fun e => ent_scope e ∉ seen.*1) l.
Proof.
  revert seen; induction l as [|e l IH]; intros seen; cbn [entry_pass].
  { split; [|done]. intros _. split_and!; constructor. }
  pose proof (map_emplace_fresh (ent_scope e) 0 seen) as Hf.
  pose proof (fun k' => map_emplace_keys (ent_scope e) k' 0 seen) as Hk.
  destruct (map_emplace (ent_scope e) 0 seen) as [seen' fresh]. cbn [fst snd] in *.
  rewrite app_nil, entry_diagnostics_nil, IH, !Forall_cons, fmap_cons, NoDup_cons, <- Hf.
  assert (Forall (fun x => ent_scope x ∉ seen'.*1) l
          <-> ent_scope e ∉ (ent_scope <$> l) /\ Forall (fun x => ent_scope x ∉ seen.*1) l) as ->; [|tauto].
  rewrite !Forall_forall, list_elem_of_fmap. setoid_rewrite Hk. split.
  - intros H. split; [|intros x Hx Hs; apply (H x Hx); by right].
    intros (x & Ex & Hx). apply (H x Hx). by left.
  - intros [H1 H2] x Hx [E|Hs]; [|by apply (H2 x)]. apply H1. by exists x.
Qed.


Lemma decide_verdict (r : Requirement) (entry : option EvidenceEntry) (current : Incarnation)
    (now_millis max_age_millis : Z) :
  strength r <> kInformational ->
  let s := dec_satisfaction (decide_requirement r entry current now_millis max_age_millis) in
  (s = kSatisfied <-> exists e, usable entry current e /\ meets r (candidate e))
  /\ (s = kUnsatisfied <-> exists e, usable entry current e /\ reported r (candidate e) /\ ~ meets r (candidate e))
  /\ (s = kUnknown <-> forall e, usable entry current e -> ~ reported r (candidate e)).
Proof.
  intros Hs s. subst s.
  destruct (decide_cases r entry current now_millis max_age_millis Hs) as [(e & Hu & ->)|(Hu & ->)].
  - assert (forall e', usable entry current e' -> e' = e) as Huniq.
    { intros e' (E & _). destruct Hu as (E' & _). congruence. }
    destruct (decide_kind_agrees (candidate e) r) as (H1 & H2 & H3 & H4). rewrite H1, H2, H3. split_and!.
    + split; [by exists e|]. intros (e' & Hu' & Hm). by rewrite <- (Huniq e' Hu').
    + split; [by exists e|]. intros (e' & Hu' & Hm). by rewrite <- (Huniq e' Hu').
    + split; [|intros H; by apply H]. intros H e' Hu'. by rewrite (Huniq e' Hu').
  - split_and!; [split; [done|]..|].
    + intros (e & He & _). by destruct (Hu e).
    + intros (e & He & _). by destruct (Hu e).
    + split; [|done]. intros _ e He. by destruct (Hu e).
Qed.

Lemma decide_informational r entry current now age :
  dec_satisfaction (decide_requirement r entry current now age) = kNotApplicable <-> strength r = kInformational.
Proof.
  split.
  - intros H. destruct (decide (strength r = kInformational)) as [|Hs]; [done|].
    destruct (decide_cases r entry current now age Hs) as [(e & _ & E)|(_ & E)]; [|congruence].
    rewrite E in H. destruct (decide_kind_agrees (candidate e) r) as (H1 & H2 & H3 & H4).
    destruct (dec_satisfaction (decide_kind (candidate e) r)); try done.
    assert (~ reported r (candidate e)) as Hr by (intros Hr; assert (~ meets r (candidate e)) as Hm by
      (intros Hm; by apply H1 in Hm); discriminate (proj2 H2 (conj Hr Hm))).
    by apply H3 in Hr.
  - intros H. unfold decide_requirement. by rewrite H.
Qed.

Lemma required_not_informational r : strength r = kRequired -> strength r <> kInformational.
Proof. by intros ->. Qed.

Lemma verdict_unsatisfied ev current now age l :
  has_verdict kUnsatisfied (map (evaluate_requirement ev current now age) l) = true
  <-> exists r e, (r ∈ l /\ strength r = kRequired) /\ usable (find_entry ev (scope r)) current e
                  /\ reported r (candidate e) /\ ~ meets r (candidate e).
Proof.
  rewrite verdict_required. split.
  - intros (r & Hin & Hs & E). apply decide_verdict in E as (e & He); [|by apply required_not_informational].
    by exists r, e.
  - intros (r & e & (Hin & Hs) & He). exists r. split_and!; [done..|].
    apply decide_verdict; [by apply required_not_informational|]. by exists e.
Qed.

Lemma required_exists l :
  existsb (fun r => strength_eqb (strength r) kRequired) l = true <-> exists r, r ∈ l /\ strength r = kRequired.
Proof. rewrite existsb_exists. setoid_rewrite strength_eqb_eq. by setoid_rewrite <- list_elem_of_In. Qed.

(** ** Round trip of the codec *)
Definition optional {A} (P : A -> Prop) (o : option A) : Prop := match o with Some x => P x | None => True end.

Definition text_codable (s : string) : Prop := s <> EmptyString /\ size s <= 4096.

Record candidate_codable (c : Candidate) : Prop := {
  cc_reals : Forall (optional (real_within kMaxNumericParameter))
    [min_bandwidth c; max_latency c; max_jitter c; max_loss c; path_diversity c; failure_domain_separation c;
     traffic_priority c; burst_allowance c];
  cc_texts : Forall (optional text_codable)
    [locality c; security_class c; disaggregated_affinity c; maintenance_tolerance c];
  cc_attributes : zlength (cand_attributes c) <= 32
    /\ Forall (fun a => size a.1 <= 4096 /\ size a.2 <= 4096) (cand_attributes c)
    /\ std_sort attribute_precedes (cand_attributes c) = cand_attributes c
    /\ repeated_name (cand_attributes c) = false;
  cc_dimension : has_any_dimension c = true
}.

Definition incarnation_ok (i : Incarnation) : Prop :=
  i = zero_incarnation
  \/ (length (inc_bytes i) = 16%nat /\ Forall is_byte (inc_bytes i) /\ incarnation_is_zero i = false).

Record entry_codable (e : EvidenceEntry) : Prop := {
  ec_scope : text_codable (ent_scope e);
  ec_id : ent_id e = zero_id;
  ec_publisher : id_ok (ent_publisher e);
  ec_counts : 0 <= ent_generation e < 2 ^ 63 /\ 0 <= ent_epoch e < 2 ^ 63 /\ 0 <= ent_produced e <= 2 ^ 60;
  ec_captured : incarnation_ok (captured_by e);
  ec_candidate : candidate_codable (candidate e)
}.

Record evidence_codable (e : EvidenceSet) : Prop := {
  vc_counts : 1 <= ev_generation e < 2 ^ 63 /\ 0 <= ev_epoch e < 2 ^ 63 /\ 0 <= ev_produced e <= 2 ^ 60;
  vc_publisher : id_ok (ev_publisher e);
  vc_entries : zlength (ev_entries e) <= 4096 /\ Forall entry_codable (ev_entries e)
}.

Lemma last_set_some {A} k (encode : A -> Json) key (v : option A) :
  last_set k (set_some encode key v) = if String.eqb k key then encode <$> v else None.
Proof. destruct v; simpl; by destruct (String.eqb k key). Qed.

(** The value an evidence document holds for a concrete key. *)
Ltac find_field :=
  rewrite find_set_all, ?last_set_app, ?last_set_some, ?last_set_if_one;
  cbn [last_set String.eqb Ascii.eqb Bool.eqb fst snd object map_find]; rewrite ?some_or_none; try reflexivity.

Section ReadOptional.
Context (o : JsonObject) (field path : string).

Lemma read_optional_real_set v :
  map_find field o = json_real <$> v -> optional (real_within kMaxNumericParameter) v ->
  read_optional_real o field path = Ok v.
Proof.
  intros Hf Hv. unfold read_optional_real. rewrite Hf. destruct v as [x|]; [|done]. cbn [fmap option_fmap option_map].
  rewrite (json_real_ok kMaxNumericParameter) by done. destruct Hv as (H1 & H2 & H3 & _).
  cbn [is_number negb as_real]. cbv zeta. by rewrite H1, H2, H3.
Qed.

Lemma read_optional_string_set v :
  map_find field o = JString <$> v -> optional text_codable v -> read_optional_string o field path false = Ok v.
Proof.
  intros Hf Hv. unfold read_optional_string. rewrite Hf. destruct v as [x|]; [|done]. destruct Hv as [H1 H2].
  cbn [fmap option_fmap option_map is_string negb as_string]. rewrite (proj2 (Z.ltb_ge _ _)) by done.
  destruct (is_empty x) eqn:E; [by apply is_empty_true in E|done].
Qed.

Lemma read_optional_bool_set v : map_find field o = JBool <$> v -> read_optional_bool o field path = Ok v.
Proof. intros Hf. unfold read_optional_bool. rewrite Hf. by destruct v. Qed.
End ReadOptional.

Lemma candidate_attribute_items_roundtrip l :
  Forall (fun a => size a.1 <= 4096 /\ size a.2 <= 4096) l ->
  candidate_attribute_items (map attribute_to_json l) = Ok l.
Proof.
  induction 1 as [|[n v] l [H1 H2] _ IH]; [done|]. cbn [map candidate_attribute_items]. cbn [fst snd] in *.
  change (negb (is_object (attribute_to_json (n, v)))) with false. cbv iota.
  change (map_find "name"%string (object (attribute_to_json (n, v)))) with (Some (JString n)).
  change (map_find "value"%string (object (attribute_to_json (n, v)))) with (Some (JString v)). cbv iota.
  rewrite !(proj2 (Z.ltb_ge _ _)) by done. cbn [orb]. by rewrite IH.
Qed.

Lemma candidate_attributes_roundtrip o c :
  map_find "attributes"%string o
    = (if negb (zlength (cand_attributes c) =? 0) then Some (JArray (map attribute_to_json (cand_attributes c))) else None) ->
  candidate_codable c -> candidate_attributes o = Ok (cand_attributes c).
Proof.
  intros Hf [_ _ (Hl & Ha & Hs & Hr) _]. unfold candidate_attributes. rewrite Hf.
  destruct (zlength (cand_attributes c) =? 0) eqn:E; cbn [negb]; [by apply zlength_zero in E as ->|].
  cbn [is_array negb json_size array]. unfold zlength in *. rewrite length_map, (proj2 (Z.ltb_ge _ _)) by done.
  rewrite candidate_attribute_items_roundtrip by done. cbn [mbind result_bind]. cbv zeta. by rewrite Hs, Hr.
Qed.

(** A fresh value with at least one [set] is an object. *)
Lemma set_all_is_object l : l <> [] -> is_object (set_all JNull l) = true.
Proof. intros Hl. destruct (exists_last Hl) as (l' & p & ->). apply set_all_object. Qed.

Lemma set_some_nil {A} (encode : A -> Json) key v : set_some encode key v = [] -> v = None.
Proof. by destruct v. Qed.

Lemma candidate_object c : has_any_dimension c = true -> is_object (candidate_to_json c) = true.
Proof.
  intros H. apply set_all_is_object. unfold candidate_fields. intros E.
  repeat (apply app_eq_nil in E as [? E]). revert H. unfold has_any_dimension.
  repeat match goal with H : set_some _ _ _ = [] |- _ => apply set_some_nil in H; rewrite H end.
  unfold set_if in E. simpl. by destruct (zlength (cand_attributes c) =? 0).
Qed.

(** One reader of the candidate decoder on the document of a candidate. *)
Ltac read_dimension L :=
  rewrite L by first [assumption | unfold candidate_to_json, candidate_fields; find_field];
  cbn [code_of mbind result_bind].

Lemma decode_candidate_roundtrip c : candidate_codable c -> decode_candidate (candidate_to_json c) = Ok c.
Proof.
  intros Hc. unfold decode_candidate. rewrite candidate_object by apply Hc. cbn [negb]. cbv zeta.
  pose proof (cc_reals _ Hc) as Hr. pose proof (cc_texts _ Hc) as Ht.
  rewrite !Forall_cons in Hr. rewrite !Forall_cons in Ht. destruct Hr as (R1 & R2 & R3 & R4 & R5 & R6 & R7 & R8 & _), Ht as (T1 & T2 & T3 & T4 & _).
  read_dimension (read_optional_real_set (object (candidate_to_json c)) "min_bandwidth" "candidate" (min_bandwidth c)).
  read_dimension (read_optional_real_set (object (candidate_to_json c)) "max_latency" "candidate" (max_latency c)).
  read_dimension (read_optional_real_set (object (candidate_to_json c)) "max_jitter" "candidate" (max_jitter c)).
  read_dimension (read_optional_real_set (object (candidate_to_json c)) "max_loss" "candidate" (max_loss c)).
  read_dimension (read_optional_real_set (object (candidate_to_json c)) "path_diversity" "candidate" (path_diversity c)).
  read_dimension (read_optional_real_set (object (candidate_to_json c)) "failure_domain_separation" "candidate"
                    (failure_domain_separation c)).
  read_dimension (read_optional_real_set (object (candidate_to_json c)) "traffic_priority" "candidate" (traffic_priority c)).
  read_dimension (read_optional_real_set (object (candidate_to_json c)) "burst_allowance" "candidate" (burst_allowance c)).
  read_dimension (read_optional_string_set (object (candidate_to_json c)) "locality" "candidate" (locality c)).
  read_dimension (read_optional_string_set (object (candidate_to_json c)) "security_class" "candidate" (security_class c)).
  read_dimension (read_optional_string_set (object (candidate_to_json c)) "disaggregated_affinity" "candidate"
                    (disaggregated_affinity c)).
  read_dimension (read_optional_string_set (object (candidate_to_json c)) "maintenance_tolerance" "candidate"
                    (maintenance_tolerance c)).
  read_dimension (read_optional_bool_set (object (candidate_to_json c)) "collective_supported" "candidate"
                    (collective_supported c)).
  read_dimension (read_optional_bool_set (object (candidate_to_json c)) "checkpoint_isolation" "candidate"
                    (checkpoint_isolation c)).
  read_dimension (candidate_attributes_roundtrip (object (candidate_to_json c)) c). by destruct c.
Qed.

Lemma incarnation_roundtrip i :
  length (inc_bytes i) = 16%nat -> Forall is_byte (inc_bytes i) -> incarnation_is_zero i = false ->
  incarnation_parse (incarnation_str i) = Some i.
Proof.
  intros Hl Hb Hz. unfold incarnation_parse, incarnation_str, zlength.
  rewrite base64url_decode_of_encode by (done || unfold zlength; by rewrite Hl).
  rewrite Hl. destruct i as [b]. cbn [inc_bytes] in *. by rewrite Hz.
Qed.

Lemma read_captured_by_set o i :
  map_find "captured_by"%string o = (if negb (incarnation_is_zero i) then Some (JString (incarnation_str i)) else None) ->
  incarnation_ok i -> read_captured_by o = Ok i.
Proof.
  intros Hf Hi. unfold read_captured_by. rewrite Hf. destruct Hi as [->|(Hl & Hb & Hz)]; [done|].
  rewrite Hz. cbn [negb is_string as_string]. by rewrite incarnation_roundtrip.
Qed.

Lemma read_count_set o field bound code text n :
  map_find field o = Some (json_uint n) -> 0 <= n < 2 ^ 63 -> n <= bound -> read_count o field bound code text = Ok n.
Proof.
  intros Hf Hn Hb. unfold read_count. rewrite Hf, json_uint_small by done. cbn [is_int negb as_int orb].
  rewrite u64_small, (proj2 (Z.ltb_ge n 0)), (proj2 (Z.ltb_ge bound n)) by lia. done.
Qed.

Lemma read_identity_set {Tag} o field t1 t2 (i : Id Tag) :
  map_find field o = Some (JString (view i)) -> id_ok i -> read_identity o field t1 t2 = Ok i.
Proof.
  intros Hf Hi. unfold read_identity. rewrite Hf. cbn [is_string negb as_string]. by rewrite parse_id_view.
Qed.

Lemma read_freshness_set o f :
  map_find "freshness"%string o = Some (JString (freshness_token f)) -> read_freshness o = Ok f.
Proof. intros Hf. unfold read_freshness. rewrite Hf. by destruct f. Qed.

Lemma read_scope_set o s : map_find "scope"%string o = Some (JString s) -> text_codable s -> read_scope o = Ok s.
Proof.
  intros Hf [H1 H2]. unfold read_scope. rewrite Hf. destruct (is_empty s) eqn:E; [by apply is_empty_true in E|].
  by rewrite (proj2 (Z.ltb_ge _ _)).
Qed.

Lemma read_candidate_set o c :
  map_find "candidate"%string o = Some (candidate_to_json c) -> candidate_codable c -> read_candidate o = Ok c.
Proof. intros Hf Hc. unfold read_candidate. rewrite Hf. by rewrite decode_candidate_roundtrip. Qed.

(** One reader of the entry decoder on the document of an entry. *)
Ltac read_entry L :=
  rewrite L by first [assumption | unfold uint64_max, kMaxEvidenceMillis in *; lia
                     | unfold entry_to_json, evidence_to_json; find_field];
  cbn [mbind result_bind].

Lemma entry_roundtrip i e : entry_codable e -> entry_from_json (entry_to_json e) i = Ok e.
Proof.
  intros [Hs Hi Hp (Hg & He & Ht) Hc Hd]. unfold entry_from_json.
  assert (is_object (entry_to_json e) = true) as ->
    by (apply set_all_is_object; by destruct (negb (incarnation_is_zero (captured_by e)))).
  cbn [negb]. cbv zeta.
  read_entry (read_scope_set (object (entry_to_json e)) (ent_scope e)).
  read_entry (read_count_set (object (entry_to_json e)) "generation" uint64_max kJsonWrongType
                "evidence entry generation must be a non negative integer" (ent_generation e)).
  read_entry (read_captured_by_set (object (entry_to_json e)) (captured_by e)).
  read_entry (read_count_set (object (entry_to_json e)) "epoch" uint64_max kJsonWrongType
                "evidence entry epoch must be a non negative integer" (ent_epoch e)).
  read_entry (read_count_set (object (entry_to_json e)) "produced_at_millis" kMaxEvidenceMillis kValueOutOfRange
                "evidence entry produced_at_millis is outside the permitted range" (ent_produced e)).
  read_entry (read_identity_set (object (entry_to_json e)) "publisher" "evidence entry publisher must be a string"
                "evidence entry publisher must be a 64 character identifier" (ent_publisher e)).
  read_entry (read_candidate_set (object (entry_to_json e)) (candidate e)).
  read_entry (read_freshness_set (object (entry_to_json e)) (freshness e)).
  rewrite <- Hi. by destruct e.
Qed.

Section EvidenceRoundTrip.
Context `{Hashing} `{!HashingOk}.

(** The identity of the content: the digest is taken with the zero identity in place. *)
Definition canonical_evidence_id (e : EvidenceSet) : EvidenceId :=
  derive_evidence_id (evidence_digest (with_evidence_id e zero_id)).

Lemma canonical_evidence_id_ok e : id_ok (canonical_evidence_id e).
Proof. apply from_digest_ok; [apply sha256_parts_length|apply sha256_parts_bytes]. Qed.

Lemma evidence_decoded_id v e : evidence_from_json v = Ok e -> evidence_id e = canonical_evidence_id e.
Proof.
  unfold evidence_from_json. destruct (negb (is_object v)); [done|]. cbv zeta. intros E.
  apply result_bind_Ok in E as (g & _ & E). apply result_bind_Ok in E as (p & _ & E).
  apply result_bind_Ok in E as (m & _ & E). apply result_bind_Ok in E as (u & _ & E).
  apply result_bind_Ok in E as (l & _ & E). apply result_bind_Ok in E as ([] & _ & E). by injection E as <-.
Qed.

(** Reading back a document: its fields, and then its declared identity. *)
Lemma evidence_reread e :
  evidence_codable e ->
  evidence_from_json (evidence_to_json e)
  = (_ ← check_declared_id (object (evidence_to_json e)) (canonical_evidence_id e);
     Ok (with_evidence_id e (canonical_evidence_id e))).
Proof.
  intros [(Hg & He & Ht) Hp [Hl Hes]]. unfold evidence_from_json.
  assert (is_object (evidence_to_json e) = true) as -> by done. cbn [negb]. cbv zeta.
  assert (read_evidence_generation (object (evidence_to_json e)) = Ok (ev_generation e)) as ->.
  { unfold read_evidence_generation.
    assert (map_find "evidence_generation"%string (object (evidence_to_json e)) = Some (json_uint (ev_generation e)))
      as -> by (unfold evidence_to_json; find_field).
    rewrite json_uint_small by lia. rewrite (proj2 (Z.ltb_ge _ _)) by lia. by rewrite u64_small by lia. }
  cbn [mbind result_bind].
  read_entry (read_count_set (object (evidence_to_json e)) "epoch" uint64_max kJsonWrongType
                "epoch must be a non negative integer" (ev_epoch e)).
  read_entry (read_count_set (object (evidence_to_json e)) "produced_at_millis" kMaxEvidenceMillis kValueOutOfRange
                "produced_at_millis is outside the permitted range" (ev_produced e)).
  read_entry (read_identity_set (object (evidence_to_json e)) "publisher" "publisher must be a string"
                "publisher must be a 64 character identifier" (ev_publisher e)).
  assert (read_entries (object (evidence_to_json e)) = Ok (ev_entries e)) as ->.
  { unfold read_entries.
    assert (map_find "entries"%string (object (evidence_to_json e)) = Some (JArray (map entry_to_json (ev_entries e))))
      as -> by (unfold evidence_to_json; find_field).
    unfold zlength, kMaxEvidenceEntries in *. rewrite length_map, (proj2 (Z.ltb_ge _ _)) by lia.
    apply decode_all_roundtrip with (ok := entry_codable); [apply entry_roundtrip|done]. }
  reflexivity.
Qed.

Lemma declared_id e : map_find "evidence_id"%string (object (evidence_to_json e)) = Some (JString (view (evidence_id e))).
Proof. unfold evidence_to_json. find_field. Qed.

Lemma evidence_roundtrip_spec e :
  evidence_codable e -> evidence_id e = canonical_evidence_id e -> evidence_from_json (evidence_to_json e) = Ok e.
Proof.
  intros He Hi. rewrite evidence_reread by done. unfold check_declared_id. rewrite declared_id, <- Hi.
  cbn [is_string as_string andb negb]. destruct (String.eqb _ _); [by destruct e|].
  rewrite Hi, parse_id_view, id_eqb_refl by apply canonical_evidence_id_ok. cbn [mbind result_bind]. rewrite <- Hi.
  by destruct e.
Qed.

(** A document that declares another identity is refused. *)
Lemma evidence_foreign_id e :
  evidence_codable e -> id_ok (evidence_id e) -> evidence_id e <> canonical_evidence_id e ->
  String.eqb (view (evidence_id e)) (char_string 64 "0") = false ->
  evidence_from_json (evidence_to_json e)
  = refuse kContractDigestMismatch "declared evidence_id does not match the canonical evidence bytes".
Proof.
  intros He Hok Hi Hz. rewrite evidence_reread by done. unfold check_declared_id. rewrite declared_id.
  cbn [is_string as_string andb negb]. rewrite Hz, parse_id_view by done.
  destruct (id_eqb _ _) eqn:E; [by apply id_eqb_eq in E|done].
Qed.
End EvidenceRoundTrip.

(** ** Properties *)

(** The verdict on a requirement is decided by evidence of the running incarnation only.
    It is not applicable exactly
    for an informational requirement.  Any other requirement is satisfied exactly when its entry was
    captured by this incarnation, is current and meets it; it is unsatisfied exactly
    when such an entry reports the dimension without meeting it; every other case,
    missing, foreign, stale or expired evidence included, is unknown. *)
Theorem decide_requirement_exact (r : Requirement) (entry : option EvidenceEntry) (current : Incarnation)
    (now_millis max_age_millis : Z) :
  let s := dec_satisfaction (decide_requirement r entry current now_millis max_age_millis) in
  (s = kNotApplicable <-> strength r = kInformational)
  /\ (strength r <> kInformational ->
      (s = kSatisfied <-> exists e, usable entry current e /\ meets r (candidate e))
      /\ (s = kUnsatisfied <->
            exists e, usable entry current e /\ reported r (candidate e) /\ ~ meets r (candidate e))
      /\ (s = kUnknown <-> forall e, usable entry current e -> ~ reported r (candidate e))).
Proof. split; [apply decide_informational|]. intros Hs. by apply decide_verdict. Qed.

(** The three verdicts on a contract. *)
Lemma evaluate_contract_spec (c : Contract) (ev : EvidenceSet) (current : Incarnation)
    (now_millis max_age_millis : Z) :
  let required r := r ∈ requirements (body c) /\ strength r = kRequired in
  let s := aggregate (evaluate_contract c ev current now_millis max_age_millis) in
  (s = kSatisfied <->
     (exists r, required r)
     /\ forall r, required r -> exists e, usable (find_entry ev (scope r)) current e /\ meets r (candidate e))
  /\ (s = kUnsatisfied <->
        exists r e, required r /\ usable (find_entry ev (scope r)) current e
                    /\ reported r (candidate e) /\ ~ meets r (candidate e))
  /\ (s = kNotApplicable <-> forall r, ~ required r).
Proof.
  cbv zeta. rewrite evaluate_aggregate. cbv zeta. set (now := now_millis). set (age := max_age_millis).
  set (verdicts := map _ (requirements (body c))).
  pose proof (fun s => verdict_required ev current now age (requirements (body c)) s) as Hh.
  pose proof (required_exists (requirements (body c))) as Hr.
  pose proof (verdict_unsatisfied ev current now age (requirements (body c))) as Hu. fold verdicts in Hh, Hu.
  assert (forall r, strength r = kRequired -> _) as Hd
    by exact (fun r Hs => decide_verdict r (find_entry ev (scope r)) current now age (required_not_informational r Hs)).
  rewrite <- Hu. split_and!.
  - split.
    + destruct (has_verdict kUnsatisfied verdicts) eqn:E1; [done|].
      destruct (has_verdict kUnknown verdicts) eqn:E2; [done|].
      destruct (existsb _ _); [|done]. intros _. split; [by apply Hr|].
      intros r [Hin Hs]. apply (Hd r Hs).
      destruct (dec_satisfaction (decide_requirement r (find_entry ev (scope r)) current now age)) eqn:E; [done|..].
      * assert (has_verdict kUnsatisfied verdicts = true) by (apply Hh; eauto). congruence.
      * assert (has_verdict kUnknown verdicts = true) by (apply Hh; eauto). congruence.
      * by apply decide_informational, required_not_informational in E.
    + intros [Hex Hall].
      destruct (has_verdict kUnsatisfied verdicts) eqn:E1.
      { apply Hh in E1 as (r & Hin & Hs & E). pose proof (Hall r (conj Hin Hs)) as Hm. apply (Hd r Hs) in Hm. congruence. }
      destruct (has_verdict kUnknown verdicts) eqn:E2.
      { apply Hh in E2 as (r & Hin & Hs & E). pose proof (Hall r (conj Hin Hs)) as Hm. apply (Hd r Hs) in Hm. congruence. }
      apply Hr in Hex. by rewrite Hex.
  - destruct (has_verdict kUnsatisfied verdicts); [done|]. destruct (has_verdict kUnknown verdicts); [done|].
    by destruct (existsb _ _).
  - split.
    + destruct (has_verdict kUnsatisfied verdicts); [done|]. destruct (has_verdict kUnknown verdicts); [done|].
      destruct (existsb _ _); [done|]. intros _ r Hx. discriminate (proj2 Hr (ex_intro _ r Hx)).
    + intros Hnone. assert (forall s, has_verdict s verdicts = false) as Hf.
      { intros s. apply not_true_iff_false. intros H. apply Hh in H as (r & Hin & Hs & _). by destruct (Hnone r). }
      rewrite !Hf. destruct (existsb _ _); [|done]. destruct (proj1 Hr eq_refl) as (r & Hx). by destruct (Hnone r).
Qed.

(** C24: a contract is satisfied exactly when it requires something and current evidence of
    this incarnation meets every required requirement; it is unsatisfied exactly when
    some required requirement has such evidence against it.  A verdict never rests on
    evidence another incarnation captured. *)
Theorem evaluate_contract_exact (c : Contract) (ev : EvidenceSet) (current : Incarnation)
    (now_millis max_age_millis : Z) :
  let required r := r ∈ requirements (body c) /\ strength r = kRequired in
  let s := aggregate (evaluate_contract c ev current now_millis max_age_millis) in
  (s = kSatisfied <->
     (exists r, required r)
     /\ forall r, required r -> exists e, usable (find_entry ev (scope r)) current e /\ meets r (candidate e))
  /\ (s = kUnsatisfied <->
        exists r e, required r /\ usable (find_entry ev (scope r)) current e
                    /\ reported r (candidate e) /\ ~ meets r (candidate e))
  /\ (s = kNotApplicable <-> forall r, ~ required r).
Proof. apply evaluate_contract_spec. Qed.

(** The counters of an evaluation account for every requirement: they add up to the
    number of requirements, those of the required ones to the required total, and a
    satisfied contract with something required has every required one satisfied. *)
Theorem evaluation_summary_exact (c : Contract) (ev : EvidenceSet) (current : Incarnation)
    (now_millis max_age_millis : Z) :
  let e := evaluate_contract c ev current now_millis max_age_millis in
  summary_total (summary e) = zlength (requirements (body c))
  /\ required_total (summary e)
     = required_satisfied (summary e) + required_unsatisfied (summary e) + required_unknown (summary e)
  /\ required_total (summary e) = strength_count kRequired (eval_requirements e)
  /\ required_satisfied (summary e) = verdict_count kRequired kSatisfied (eval_requirements e)
  /\ required_unsatisfied (summary e) = verdict_count kRequired kUnsatisfied (eval_requirements e).
Proof.
  intros e. destruct (count_fold (eval_requirements e) empty_summary) as (H1 & H2 & H3 & H4 & H5).
  assert (summary e = fold_left count_one (eval_requirements e) empty_summary) as Es by done. rewrite <- Es in H1, H2, H3, H4, H5.
  pose proof (Permutation_length (evaluate_verdicts c ev current now_millis max_age_millis)) as Hl.
  rewrite length_map in Hl. fold e in Hl. 
  cbn [empty_summary required_total required_satisfied required_unsatisfied required_unknown] in H1, H2, H3, H5.
  change (summary_total empty_summary) with 0 in H4. unfold zlength in *. lia.
Qed.

(** Validation accepts an evidence set exactly when its scopes are declared, distinct and
    each carries a dimension.  Whatever it accepts, it stamps an entry current exactly
    when this incarnation captured it in the epoch of the set and it is not too old; the
    stale scopes are those of the other entries, so the set is all current exactly when
    no scope is stale. *)
Theorem validate_evidence_exact (ev : EvidenceSet) (b : ContractBody) (current : Incarnation)
    (now_millis max_age_millis : Z) :
  0 <= now_millis < 2 ^ 64 -> 0 <= max_age_millis ->
  Forall (fun e => 0 <= ent_produced e) (ev_entries ev) ->
  let '(stamped, result) := validate_evidence ev b current now_millis max_age_millis in
  (evidence_ok result = true <->
     Forall (fun e => ent_scope e ∈ (sc_name <$> scopes b) /\ has_any_dimension (candidate e) = true) (ev_entries ev)
     /\ NoDup (ent_scope <$> ev_entries ev))
  /\ Forall2 (fun e e' =>
       (freshness e' = kCurrent <->
          captured_by e = current /\ ent_epoch e = ev_epoch ev /\ ~ expired now_millis max_age_millis e)
       /\ e' = with_freshness e (freshness e')) (ev_entries ev) (ev_entries stamped)
  /\ (all_current stamped = true <-> stale_scopes result = []).
Proof.
  intros Hn Ha Hp. unfold validate_evidence. cbn [fst snd]. split_and!.
  - cbn [evidence_ok]. rewrite negb_true_iff, errors_only_log by apply entry_pass_errors.
    rewrite entry_pass_nil.
    assert (Forall (fun e => ent_scope e ∉ ([] : list (string * Z)).*1) (ev_entries ev)) as Hs
      by (apply Forall_forall; intros e _ Hx; by apply elem_of_nil in Hx).
    assert (forall n, map_has n (emplace_all sc_name (scopes b) []) = true <-> n ∈ (sc_name <$> scopes b)) as Hh.
    { intros n. unfold map_has. pose proof (emplace_all_None sc_name n (scopes b)) as H0.
      destruct (map_find n _) as [s|] eqn:E; [|split; [done|]; intros H; by destruct (proj1 H0 eq_refl)].
      apply emplace_all_Some in E as [E <-]. split; [|done]. intros _. by apply list_elem_of_fmap_2. }
    setoid_rewrite Hh. tauto.
  - cbn [with_entries ev_entries]. rewrite map_map. clear -Hp Hn Ha. induction Hp as [|e l He _ IH]; [constructor|].
    simpl. constructor; [|exact IH]. split; [by apply stamp_current|].
    unfold stamp. repeat case_match; done.
  - unfold all_current. cbn [with_entries ev_entries stale_scopes]. rewrite map_map. clear -Hp Hn Ha.
    set (f := stamp (ev_epoch ev) current now_millis max_age_millis).
    assert (forall l, std_sort string_less l = [] <-> l = []) as Hsort.
    { intros l. pose proof (std_sort_perm string_less l) as Hperm. split; intros E; rewrite E in *; [|done].
      by apply Permutation_nil in Hperm. }
    rewrite Hsort. induction Hp as [|e l He _ IH]; [done|]. simpl.
    destruct (stamp_current (ev_epoch ev) current now_millis max_age_millis e He Hn Ha) as [_ H2]. fold f in H2.
    rewrite andb_true_iff, freshness_eqb_eq, IH.
    destruct (f e).2 eqn:E; simpl; [split; [intros [Hx _]; by apply H2 in Hx|done]|].
    assert (freshness (f e).1 = kCurrent) as ->; [|tauto].
    destruct (decide (freshness (f e).1 = kCurrent)) as [|Hx]; [done|]. by apply H2 in Hx.
Qed.

(** Decoding the document of an evidence set within the codec's bounds gives the set back
    exactly when it carries the identity derived from its content. *)
Theorem evidence_roundtrip `{Hashing} `{!HashingOk} (e : EvidenceSet) :
  evidence_codable e ->
  evidence_from_json (evidence_to_json e) = Ok e <-> evidence_id e = canonical_evidence_id e.
Proof. intros He. split; [apply evidence_decoded_id|by apply evidence_roundtrip_spec]. Qed.

(** ** Concrete runs *)
Definition sample_incarnation : Incarnation := mk_incarnation (repeat 5 16).

Definition sample_candidate : Candidate :=
  mk_candidate None (Some (double_of_int 12)) None None (Some "rack"%string) None None None None None None None None None
    [("zone"%string, "1"%string)].

Definition sample_evidence : EvidenceSet :=
  let e := mk_evidence zero_id 4 2 (from_digest (repeat 3 32)) 1000
    [mk_entry "root" zero_id (from_digest (repeat 3 32)) 4 sample_incarnation 2 900 sample_candidate kCurrent;
     mk_entry "leaf" zero_id (from_digest (repeat 3 32)) 4 sample_incarnation 2 900 sample_candidate kCurrent] in
  with_evidence_id e (@canonical_evidence_id toy_hashing e).

Example sample_satisfied :
  aggregate (evaluate_contract sample_valid sample_evidence sample_incarnation 1000 0) = kSatisfied
  /\ aggregate (evaluate_contract sample_valid sample_evidence (mk_incarnation (repeat 6 16)) 1000 0)
     = kUnknown.
Proof. vm_compute. split; reflexivity. Qed.

Lemma validate_evidence_exact_witness :
  all_current (validate_evidence sample_evidence (body sample_valid) sample_incarnation 1000 0).1 = true
  <-> stale_scopes (validate_evidence sample_evidence (body sample_valid) sample_incarnation 1000 0).2 = [].
Proof.
  apply (validate_evidence_exact sample_evidence (body sample_valid) sample_incarnation 1000 0);
    [lia|lia|repeat constructor; discriminate].
Defined.

Lemma evidence_roundtrip_witness :
  @evidence_from_json toy_hashing (evidence_to_json sample_evidence) = Ok sample_evidence.
Proof.
  assert (candidate_codable sample_candidate) as Hc.
  { split; [repeat constructor; vm_compute; intuition discriminate| |
      split_and!; [discriminate|repeat constructor; discriminate|reflexivity|reflexivity]|reflexivity].
    repeat constructor; discriminate. }
  apply (@evidence_roundtrip toy_hashing toy_hashing_ok); [|vm_compute; reflexivity].
  split; [vm_compute; intuition discriminate|split; reflexivity|].
  split; [discriminate|]. repeat constructor; try discriminate; try reflexivity; try exact Hc;
    try (by vm_compute); right; split_and!; try reflexivity; repeat constructor; discriminate.
Defined.
