(* ===== verification/Policy.v ===== *)
(** * Policies

    Models [include/wnc/policy.hpp] and [src/policy.cpp]: the rules a deployment installs,
    their serialisation and decoding, the check of a contract body against them, and the
    compatibility of a contract with the one it supersedes. *)
From Stdlib Require Import ZArith Lia Ascii String.
From stdpp Require Import base numbers option list strings sets relations.
From S2P Require Import Prelude Doubles Identity Errors Hash Json JsonParser Signature Contract ContractValidate Evaluation.

(** ** Data *)
Record PolicyRule := mk_rule {
  rule_requirement : RequirementId;
  rule_kind : RequirementKind;
  rule_scope : string;
  rule_key : string;
  min_target : double;
  max_target : double;
  min_minimum : double;
  max_minimum : double;
  minimum_strength : RequirementStrength;
  maximum_strength : RequirementStrength;
  allow : bool;
  allowed_values : list string
}.

Record Policy := mk_policy {
  policy_schema : Z;
  policy_id : PolicyId;
  pol_generation : Z;
  policy_description : string;
  rules : list PolicyRule
}.

Definition with_policy_id (p : Policy) (i : PolicyId) : Policy :=
  mk_policy (policy_schema p) i (pol_generation p) (policy_description p) (rules p).

Definition kMaxPolicyRules : Z := 4096.
Definition kMaxAllowedValues : Z := 64.
Definition kMaxPolicyParameter : Z := 1000000000000000.

Definition rule_path (index : Z) : string := "rules[" ++ to_string index ++ "]".

(** ** Serialisation *)
Definition rule_fields (r : PolicyRule) : list (string * Json) :=
  [("kind"%string, JString (requirement_kind_token (rule_kind r)));
   ("scope"%string, JString (rule_scope r)); ("key"%string, JString (rule_key r));
   ("allow"%string, JBool (allow r));
   ("min_target"%string, json_real (min_target r)); ("max_target"%string, json_real (max_target r));
   ("min_minimum"%string, json_real (min_minimum r)); ("max_minimum"%string, json_real (max_minimum r));
   ("minimum_strength"%string, JString (requirement_strength_token (minimum_strength r)));
   ("maximum_strength"%string, JString (requirement_strength_token (maximum_strength r)))]
  ++ set_if (negb (zlength (allowed_values r) =? 0)) "allowed_values"
       (JArray (map JString (allowed_values r))).

Definition rule_to_json (r : PolicyRule) : Json := set_all JNull (rule_fields r).

Definition policy_fields (p : Policy) : list (string * Json) :=
  [("schema_version"%string, JInt (policy_schema p));
   ("policy_id"%string, JString (view (policy_id p)));
   ("policy_generation"%string, json_uint (pol_generation p));
   ("description"%string, JString (policy_description p));
   ("rules"%string, JArray (map rule_to_json (rules p)))].

Definition policy_to_json (p : Policy) : Json := set_all JNull (policy_fields p).

(** ** Decoding *)
(** [read_string_field]; [out] is the value the field keeps when it is absent. *)
Definition read_string_field (object : JsonObject) (field path : string) (max_bytes : Z)
    (required : bool) (out : string) : decoding string :=
  match map_find field object with
  | None =>
      if negb required then Ok out else refuse kPolicyDenied (path ++ "." ++ field ++ " is required")
  | Some v =>
      if negb (is_string v) then refuse kPolicyDenied (path ++ "." ++ field ++ " must be a string")
      else if max_bytes <? size (as_string v)
      then refuse kJsonStringTooLong (path ++ "." ++ field ++ " exceeds its byte bound")
      else Ok (as_string v)
  end.

Definition read_number_field (object : JsonObject) (field path : string) (out : double) : decoding double :=
  match map_find field object with
  | None => Ok out
  | Some v =>
      if negb (is_number v) then refuse kPolicyDenied (path ++ "." ++ field ++ " must be a number")
      else
        let value := as_real v in
        if negb (is_finite value) || dlt value d_zero || dlt (double_of_int kMaxPolicyParameter) value
        then refuse kValueOutOfRange (path ++ "." ++ field ++ " is outside the permitted range")
        else Ok value
  end.

(** The strength tokens: an absent or empty token keeps the default. *)
Definition read_strength (path field token : string) (out : RequirementStrength)
    : decoding RequirementStrength :=
  if is_empty token then Ok out
  else
    match parse_requirement_strength token with
    | None => refuse kInvalidStrength (path ++ "." ++ field ++ " is not a strength token")
    | Some s => Ok s
    end.

Fixpoint read_values (path : string) (l : JsonArray) : decoding (list string) :=
  match l with
  | [] => Ok []
  | v :: l' =>
      if negb (is_string v)
      then refuse kPolicyDenied (path ++ ".allowed_values entries must be strings")
      else rest ← read_values path l'; Ok (as_string v :: rest)
  end.

Definition read_allowed_values (object : JsonObject) (path : string) : decoding (list string) :=
  match map_find "allowed_values"%string object with
  | None => Ok []
  | Some v =>
      if negb (is_array v) then refuse kPolicyDenied (path ++ ".allowed_values must be an array")
      else if kMaxAllowedValues <? json_size v
      then refuse kTooManyAttributes (path ++ ".allowed_values exceeds its bound")
      else read_values path (array v)
  end.

Definition read_allow (object : JsonObject) (path : string) : decoding bool :=
  match map_find "allow"%string object with
  | None => Ok true
  | Some v => if negb (is_bool v) then refuse kPolicyDenied (path ++ ".allow must be a boolean")
              else Ok (as_bool v)
  end.

(** One element of [rules]. *)
Definition rule_from_json (index : Z) (item : Json) : decoding PolicyRule :=
  let path := rule_path index in
  if negb (is_object item) then refuse kPolicyDenied (path ++ " must be an object")
  else
    let o := object item in
    kind_token ← read_string_field o "kind" path 64 true EmptyString;
    match parse_requirement_kind kind_token with
    | None => refuse kInvalidKind (path ++ ".kind is not a defined requirement kind")
    | Some k =>
        scope ← read_string_field o "scope" path kMaxStringBytes false EmptyString;
        key ← read_string_field o "key" path kMaxStringBytes false EmptyString;
        allow ← read_allow o path;
        min_target ← read_number_field o "min_target" path d_zero;
        max_target ← read_number_field o "max_target" path d_zero;
        min_minimum ← read_number_field o "min_minimum" path d_zero;
        max_minimum ← read_number_field o "max_minimum" path d_zero;
        minimum_token ← read_string_field o "minimum_strength" path 32 false EmptyString;
        maximum_token ← read_string_field o "maximum_strength" path 32 false EmptyString;
        minimum_strength ← read_strength path "minimum_strength" minimum_token kInformational;
        maximum_strength ← read_strength path "maximum_strength" maximum_token kRequired;
        values ← read_allowed_values o path;
        Ok (mk_rule zero_id k scope key min_target max_target min_minimum max_minimum
              minimum_strength maximum_strength allow values)
    end.

Fixpoint rules_from_json (index : Z) (l : JsonArray) : decoding (list PolicyRule) :=
  match l with
  | [] => Ok []
  | item :: l' =>
      rule ← rule_from_json index item;
      rest ← rules_from_json (index + 1) l';
      Ok (rule :: rest)
  end.

Definition read_schema_version (o : JsonObject) : decoding Z :=
  let failure := refuse kPolicyDenied "policy.schema_version is required and must be a small positive integer" in
  match map_find "schema_version"%string o with
  | None => failure
  | Some v =>
      if negb (is_int v) || (as_int v <? 0) || (1000 <? as_int v) then failure else Ok (u32 (as_int v))
  end.

Definition read_policy_generation (o : JsonObject) : decoding Z :=
  let failure := refuse kPolicyDenied "policy.policy_generation must be at least 1" in
  match map_find "policy_generation"%string o with
  | None => failure
  | Some v => if negb (is_int v) || (as_int v <? 1) then failure else Ok (u64 (as_int v))
  end.

Definition read_rules (o : JsonObject) : decoding (list PolicyRule) :=
  match map_find "rules"%string o with
  | None => refuse kPolicyDenied "policy.rules must be an array"
  | Some v =>
      if negb (is_array v) then refuse kPolicyDenied "policy.rules must be an array"
      else if kMaxPolicyRules <? json_size v
      then refuse kTooManyRequirements "policy declares more rules than the bound permits"
      else rules_from_json 0 (array v)
  end.

Section PolicyCodec.
Context `{Hashing}.

Definition policy_digest (p : Policy) : Digest :=
  digest_domain "wnc/v1/policy" (dump (policy_to_json p)).

Definition derive_policy_id (digest : Digest) : PolicyId :=
  from_digest (sha256_parts ["wnc/v1/policy-id"%string; hex_encode digest]).

Definition policy_from_json (v : Json) : decoding Policy :=
  if negb (is_object v) then refuse kJsonNotAnObject "policy document must be an object"
  else
    let o := object v in
    schema_version ← read_schema_version o;
    generation ← read_policy_generation o;
    description ← read_string_field o "description" "policy" kMaxStringBytes false EmptyString;
    declared ← read_string_field o "policy_id" "policy" kSha256HexChars false EmptyString;
    rules ← read_rules o;
    let policy := mk_policy schema_version zero_id generation description rules in
    let policy := with_policy_id policy (derive_policy_id (policy_digest policy)) in
    if negb (is_empty declared)
       && negb (match parse_id declared with Some i => id_eqb i (policy_id policy) | None => false end)
    then refuse kContractDigestMismatch "policy_id does not match the canonical policy bytes"
    else Ok policy.

Definition policy_from_text (text : string) : decoding Policy :=
  match json_decode text default_options with
  | Err e => Err (err_code e, err_message e)
  | Ok v => policy_from_json v
  end.

End PolicyCodec.

(** ** Validation of a policy *)
Record PolicyValidationResult := mk_policy_result { policy_ok : bool; policy_log : DiagnosticLog }.

Definition policy_result_of (ds : list Diagnostic) : PolicyValidationResult :=
  let log := log_adds empty_log ds in mk_policy_result (negb (has_errors log)) log.

Definition strength_less (a b : RequirementStrength) : bool := strength_value a <? strength_value b.

Definition rule_diagnostics (index : Z) (r : PolicyRule) : list Diagnostic :=
  (add_if (dlt (max_target r) (min_target r)) kPolicyDenied
     (rule_path index ++ " max_target is below min_target")
   ++ add_if (dlt (max_minimum r) (min_minimum r)) kPolicyDenied
        (rule_path index ++ " max_minimum is below min_minimum")
   ++ add_if (strength_less (maximum_strength r) (minimum_strength r)) kPolicyDenied
        (rule_path index ++ " maximum_strength is below minimum_strength")
   ++ add_if (kind_eqb (rule_kind r) kAttribute && is_empty (rule_key r)) kPolicyDenied
        (rule_path index ++ " must name the attribute key it constrains")
   ++ add_if (negb (allow r) && negb (zlength (allowed_values r) =? 0)) kPolicyDenied
        (rule_path index ++ " forbids the kind and lists allowed values"))%list.

Fixpoint rules_diagnostics (index : Z) (l : list PolicyRule) : list Diagnostic :=
  match l with
  | [] => []
  | r :: l' => (rule_diagnostics index r ++ rules_diagnostics (index + 1) l')%list
  end.

Definition policy_diagnostics (p : Policy) : list Diagnostic :=
  (add_if (policy_schema p =? 0) kPolicyDenied "policy schema_version must be at least 1"
   ++ add_if (pol_generation p =? 0) kZeroIdentity "policy generation must be at least 1"
   ++ rules_diagnostics 0 (rules p))%list.

Definition validate_policy (p : Policy) : PolicyValidationResult := policy_result_of (policy_diagnostics p).

(** ** A contract against a policy *)
Definition rule_applies (rule : PolicyRule) (r : Requirement) : bool :=
  if negb (kind_eqb (rule_kind rule) (kind r)) then false
  else if negb (is_empty (rule_scope rule)) && negb (String.eqb (rule_scope rule) (scope r)) then false
  else if negb (is_empty (rule_key rule)) && negb (String.eqb (rule_key rule) (req_key r)) then false
  else true.

Definition value_allowed (rule : PolicyRule) (v : string) : bool :=
  if zlength (allowed_values rule) =? 0 then true else existsb (fun x => String.eqb x v) (allowed_values rule).

(** What one applying rule adds for a requirement. *)
Definition rule_check (rule : PolicyRule) (r : Requirement) : list Diagnostic :=
  if negb (allow rule) then
    add_if_req true kPolicyDenied
      ("requirement kind " ++ requirement_kind_token (kind r) ++ " is not permitted in this scope") r
  else
    (add_if_req (strength_less (strength r) (minimum_strength rule)) kPolicyDenied
       ("requirement strength " ++ requirement_strength_token (strength r) ++ " is below the policy floor "
        ++ requirement_strength_token (minimum_strength rule)) r
     ++ add_if_req (strength_less (maximum_strength rule) (strength r)) kPolicyDenied
          ("requirement strength " ++ requirement_strength_token (strength r)
           ++ " is above the policy ceiling " ++ requirement_strength_token (maximum_strength rule)) r
     ++ (if has_numeric r then
           add_if_req (dlt (target r) (min_target rule) || dlt (max_target rule) (target r)) kPolicyDenied
             "requirement target is outside the permitted range" r
           ++ add_if_req (dlt (minimum r) (min_minimum rule) || dlt (max_minimum rule) (minimum r))
                kPolicyDenied "requirement minimum is outside the permitted range" r
         else [])
     ++ add_if_req (negb (value_allowed rule (value r))) kPolicyDenied
          ("requirement value '" ++ value r ++ "' is not permitted by the policy") r
     ++ concat (map (fun a : string * string =>
          add_if_req (negb (value_allowed rule a.2)) kPolicyDenied
            ("attribute '" ++ a.1 ++ "' is not permitted by the policy") r) (attributes r)))%list.

Definition constrained (p : Policy) (r : Requirement) : bool :=
  existsb (fun rule => rule_applies rule r) (rules p).

Definition requirement_check (p : Policy) (r : Requirement) : list Diagnostic :=
  (concat (map (fun rule => if negb (rule_applies rule r) then [] else rule_check rule r) (rules p))
   ++ add_if_req (negb (constrained p r)) kOk "requirement is not constrained by any policy rule" r)%list.

Definition check_diagnostics (p : Policy) (b : ContractBody) : list Diagnostic :=
  concat (map (requirement_check p) (requirements b)).

Definition check_contract_against_policy (p : Policy) (b : ContractBody) : PolicyValidationResult :=
  if zlength (rules p) =? 0 then mk_policy_result false empty_log
  else policy_result_of (check_diagnostics p b).

(** ** Compatibility *)
Inductive CompatibilityVerdict : Set := kCompatible | kCompatibleWithAdditions | kIncompatible.

Record CompatibilityResult := mk_compatibility { verdict : CompatibilityVerdict; compat_log : DiagnosticLog }.

Definition compatible (r : CompatibilityResult) : bool :=
  match verdict r with kIncompatible => false | _ => true end.

(** [next_keys] and [next_scopes]: the first requirement of a key, the first scope of a name. *)
Definition next_keys (l : list Requirement) : list (RequirementKey * Requirement) :=
  emplace_all composite_key l [].
Definition next_scopes (l : list Scope) : list (string * Scope) :=
  emplace_all sc_name l [].

Definition weakened (floor : bool) (before after : double) : bool :=
  if floor then dlt after before else dlt before after.

(** A requirement that is still declared. *)
Definition candidate_diagnostics (r candidate : Requirement) : list Diagnostic :=
  (add_if_req (strength_less (strength candidate) (strength r)) kIncompatibleRequirementWeakened
     ("requirement strength fell from " ++ requirement_strength_token (strength r) ++ " to "
      ++ requirement_strength_token (strength candidate)) r
   ++ (if has_numeric r && has_numeric candidate then
         let floor := kind_is_floor (kind r) in
         add_if_req (weakened floor (minimum r) (minimum candidate)) kIncompatibleRequirementWeakened
           ("requirement weakest bound (minimum) moved from " ++ to_string_double (minimum r) ++ " to "
            ++ to_string_double (minimum candidate)) r
         ++ add_if_req (weakened floor (target r) (target candidate)) kIncompatibleRequirementWeakened
              ("requirement strict bound (target) moved from " ++ to_string_double (target r) ++ " to "
               ++ to_string_double (target candidate)) r
       else if negb (Bool.eqb (has_numeric r) (has_numeric candidate)) then
         add_if_req true kIncompatibleKindChanged
           "requirement changed between numeric and textual form" r
       else
         add_if_req (strength_eqb (strength r) kRequired
                     && (negb (String.eqb (value r) (value candidate))
                         || negb (String.eqb (preferred_value r) (preferred_value candidate))))
           kIncompatibleKindChanged
           ("required requirement value changed from '" ++ value r ++ "' to '" ++ value candidate ++ "'") r))%list.

Definition previous_diagnostics (keys : list (RequirementKey * Requirement)) (names : list (string * Scope))
    (r : Requirement) : list Diagnostic :=
  match map_find (composite_key r) keys with
  | None =>
      if strength_eqb (strength r) kRequired then
        add_if_req true kIncompatibleRequirementRemoved
          ("required requirement of kind " ++ requirement_kind_token (kind r) ++ " in scope '" ++ scope r
           ++ "' was removed") r
      else
        add_if_req (negb (map_has (scope r) names)) kIncompatibleScopeRemoved
          ("scope '" ++ scope r ++ "' was removed") r
  | Some candidate => candidate_diagnostics r candidate
  end.

Definition compatibility_diagnostics (previous next : ContractBody) : list Diagnostic :=
  (add_if (negb (major previous =? major next)) kIncompatibleMajor
     ("major version changed from " ++ to_string (major previous) ++ " to " ++ to_string (major next))
   ++ add_if (negb (id_eqb (wl_id (workload previous)) (wl_id (workload next)))) kIncompatibleKindChanged
        "compatibility is only defined within one workload identity"
   ++ add_if (generation next <=? generation previous) kStaleGeneration
        "candidate generation is not ahead of the previous generation"
   ++ concat (map (previous_diagnostics (next_keys (requirements next)) (next_scopes (scopes next)))
                (requirements previous)))%list.

(** Whether [next] declares something [previous] does not. *)
Definition additions (previous next : ContractBody) : bool :=
  (zlength (requirements previous) <? zlength (requirements next))
  || existsb (fun r => negb (existsb (fun old => key_eqb (composite_key old) (composite_key r))
                               (requirements previous))) (requirements next).

Definition check_compatibility (previous next : ContractBody) : CompatibilityResult :=
  let log := log_adds empty_log (compatibility_diagnostics previous next) in
  if has_errors log then mk_compatibility kIncompatible log
  else mk_compatibility (if additions previous next then kCompatibleWithAdditions else kCompatible) log.

(** ** What the checks promise *)
Definition rule_valid (r : PolicyRule) : Prop :=
  dlt (max_target r) (min_target r) = false /\ dlt (max_minimum r) (min_minimum r) = false
  /\ strength_value (minimum_strength r) <= strength_value (maximum_strength r)
  /\ (rule_kind r = kAttribute -> rule_key r <> EmptyString)
  /\ (allow r = false -> allowed_values r = []).

Definition rule_matches (rule : PolicyRule) (r : Requirement) : Prop :=
  rule_kind rule = kind r
  /\ (rule_scope rule = EmptyString \/ rule_scope rule = scope r)
  /\ (rule_key rule = EmptyString \/ rule_key rule = req_key r).

Definition value_permitted (rule : PolicyRule) (v : string) : Prop :=
  allowed_values rule = [] \/ v ∈ allowed_values rule.

Definition rule_permits (rule : PolicyRule) (r : Requirement) : Prop :=
  allow rule = true
  /\ strength_value (minimum_strength rule) <= strength_value (strength r)
     <= strength_value (maximum_strength rule)
  /\ (has_numeric r = true ->
      dlt (target r) (min_target rule) = false /\ dlt (max_target rule) (target r) = false
      /\ dlt (minimum r) (min_minimum rule) = false /\ dlt (max_minimum rule) (minimum r) = false)
  /\ value_permitted rule (value r)
  /\ Forall (fun a => value_permitted rule a.2) (attributes r).

(** The requirements no rule matches. *)
Definition unconstrained (p : Policy) (b : ContractBody) : list Requirement :=
  filter (fun r => constrained p r = false) (requirements b).

(** A requirement a later contract keeps: no weaker strength, no weaker bound, the same
    form, and for a required textual requirement the same values. *)
Definition keeps (r c : Requirement) : Prop :=
  strength_value (strength r) <= strength_value (strength c)
  /\ has_numeric r = has_numeric c
  /\ (has_numeric r = true ->
      weakened (kind_is_floor (kind r)) (minimum r) (minimum c) = false
      /\ weakened (kind_is_floor (kind r)) (target r) (target c) = false)
  /\ (has_numeric r = false -> strength r = kRequired ->
      value r = value c /\ preferred_value r = preferred_value c).

Record compatible_with (previous next : ContractBody) : Prop := {
  cw_major : major previous = major next;
  cw_workload : wl_id (workload previous) = wl_id (workload next);
  cw_generation : generation previous < generation next;
  cw_requirements : Forall (fun r =>
    (exists c, c ∈ requirements next /\ composite_key c = composite_key r /\ keeps r c)
    \/ (strength r <> kRequired /\ composite_key r ∉ (composite_key <$> requirements next)
        /\ scope r ∈ (sc_name <$> scopes next))) (requirements previous)
}.

(** A required requirement that is still in force, in every term [check_compatibility]
    compares: the key, the strength, the bounds, the values.  It does not compare the
    members of a collective or the attributes. *)
Definition at_least (floor : bool) (before after : double) : bool :=
  if floor then dle before after else dle after before.

Record terms_upheld (r c : Requirement) : Prop := {
  up_key : composite_key c = composite_key r;
  up_strength : strength c = kRequired;
  up_form : has_numeric c = has_numeric r;
  up_band : has_numeric r = true ->
    at_least (kind_is_floor (kind r)) (minimum r) (minimum c) = true
    /\ at_least (kind_is_floor (kind r)) (target r) (target c) = true;
  up_value : has_numeric r = false -> value c = value r /\ preferred_value c = preferred_value r
}.

(** ** Lemmas: validation and the policy check *)
Lemma policy_result_ok ds :
  errors_only ds -> policy_ok (policy_result_of ds) = true <-> ds = [].
Proof. intros H. unfold policy_result_of. simpl. by rewrite negb_true_iff, errors_only_log. Qed.

Lemma strength_less_false a b : strength_less a b = false <-> strength_value b <= strength_value a.
Proof. apply Z.ltb_ge. Qed.

Lemma rule_diagnostics_nil i r : rule_diagnostics i r = [] <-> rule_valid r.
Proof.
  unfold rule_diagnostics, rule_valid.
  rewrite !app_nil, !add_if_nil, strength_less_false, andb_false_iff, andb_false_iff, !negb_false_iff, zlength_zero.
  assert (kind_eqb (rule_kind r) kAttribute = false \/ is_empty (rule_key r) = false
          <-> (rule_kind r = kAttribute -> rule_key r <> EmptyString)) as ->; [|destruct (allow r); intuition congruence].
  destruct (kind_eqb (rule_kind r) kAttribute) eqn:E.
  - apply kind_eqb_eq in E. pose proof (is_empty_true (rule_key r)).
    destruct (is_empty (rule_key r)); intuition congruence.
  - split; [|by left]. intros _ Hk. rewrite Hk in E. done.
Qed.

Lemma rules_diagnostics_nil i l : rules_diagnostics i l = [] <-> Forall rule_valid l.
Proof.
  revert i; induction l as [|r l IH]; intros i; simpl; [done|].
  by rewrite app_nil, rule_diagnostics_nil, IH, Forall_cons.
Qed.

Lemma rules_diagnostics_errors i l : errors_only (rules_diagnostics i l).
Proof.
  revert i; induction l as [|r l IH]; intros i; simpl; [constructor|].
  apply errors_only_app; split; [unfold rule_diagnostics; errors|apply IH].
Qed.

Lemma rule_applies_spec rule r : rule_applies rule r = true <-> rule_matches rule r.
Proof.
  unfold rule_applies, rule_matches. rewrite <- kind_eqb_eq, <- !is_empty_true, <- !String.eqb_eq.
  destruct (kind_eqb _ _), (is_empty (rule_scope rule)), (is_empty (rule_key rule)),
    (String.eqb (rule_scope rule) (scope r)), (String.eqb (rule_key rule) (req_key r));
    simpl; intuition congruence.
Qed.

Lemma value_allowed_spec rule v : value_allowed rule v = true <-> value_permitted rule v.
Proof.
  unfold value_allowed, value_permitted. destruct (zlength (allowed_values rule) =? 0) eqn:E.
  - apply zlength_zero in E. rewrite E. intuition.
  - apply zlength_nonzero in E. rewrite existsb_exists. setoid_rewrite String.eqb_eq.
    rewrite list_elem_of_In. split; [intros (x & ? & ->); by right|].
    intros [?|?]; [done|by exists v].
Qed.

Lemma rule_check_nil rule r : rule_check rule r = [] <-> rule_permits rule r.
Proof.
  unfold rule_check, rule_permits. destruct (allow rule); simpl; [|split; [done|by intros [? _]]].
  rewrite !app_nil, !add_if_req_nil, !strength_less_false, negb_false_iff, value_allowed_spec.
  rewrite concat_map_nil.
  assert (Forall (fun a : string * string => add_if_req (negb (value_allowed rule a.2)) kPolicyDenied
            ("attribute '" ++ a.1 ++ "' is not permitted by the policy") r = []) (attributes r)
          <-> Forall (fun a => value_permitted rule a.2) (attributes r)) as ->.
  { apply Forall_iff. intros a. by rewrite add_if_req_nil, negb_false_iff, value_allowed_spec. }
  destruct (has_numeric r); [rewrite app_nil, !add_if_req_nil, !orb_false_iff|]; intuition (done || congruence).
Qed.

Lemma rule_check_errors rule r : errors_only (rule_check rule r).
Proof. unfold rule_check. errors. apply errors_only_concat. intros. errors. Qed.

Lemma constrained_spec p r : constrained p r = true <-> exists rule, rule ∈ rules p /\ rule_matches rule r.
Proof.
  unfold constrained. rewrite existsb_exists. setoid_rewrite rule_applies_spec.
  by setoid_rewrite <- list_elem_of_In.
Qed.

(** The checks of a requirement report nothing but the note that no rule matches it
    exactly when every matching rule permits it. *)
Lemma requirement_check_clean p r :
  existsb (fun d => negb (diag_ok d)) (requirement_check p r) = false
  <-> Forall (fun rule => rule_matches rule r -> rule_permits rule r) (rules p).
Proof.
  unfold requirement_check. rewrite existsb_app, orb_false_iff.
  assert (existsb (fun d => negb (diag_ok d)) (add_if_req (negb (constrained p r)) kOk
            "requirement is not constrained by any policy rule" r) = false) as ->
    by (by destruct (negb (constrained p r))).
  rewrite <- (iff_trans (and_comm _ _) (iff_refl _)).
  induction (rules p) as [|rule l IH]; simpl; [split; [constructor|done]|].
  rewrite existsb_app, Forall_cons, <- rule_applies_spec, <- rule_check_nil.
  pose proof (rule_check_errors rule r) as He. destruct (rule_applies rule r); simpl.
  - destruct He as [|d ds Hd He]; simpl; [tauto|]. rewrite Hd. simpl. intuition congruence.
  - rewrite <- IH. intuition congruence.
Qed.

Lemma filter_ok_errors ds : errors_only ds -> filter (fun d => diag_ok d = true) ds = [].
Proof.
  induction 1 as [|d ds Hd _ IH]; [done|]. rewrite filter_cons_False; [done|]. by rewrite Hd.
Qed.

Lemma filter_ok_concat {A} (f : A -> list Diagnostic) l :
  (forall x, errors_only (f x)) -> filter (fun d => diag_ok d = true) (concat (map f l)) = [].
Proof. intros H. by apply filter_ok_errors, errors_only_concat. Qed.

(** One entry of code [kOk] per unconstrained requirement. *)
Lemma check_diagnostics_notes p b :
  length (filter (fun d => diag_ok d = true) (check_diagnostics p b)) = length (unconstrained p b).
Proof.
  unfold check_diagnostics, unconstrained. induction (requirements b) as [|r l IH]; [done|]. simpl.
  rewrite filter_app, length_app, IH. unfold requirement_check. rewrite filter_app, filter_ok_concat.
  - simpl. destruct (constrained p r) eqn:E; simpl.
    + by rewrite filter_cons_False by (rewrite E; done).
    + by rewrite filter_cons_True.
  - intros rule. destruct (negb _); [constructor|apply rule_check_errors].
Qed.

(** ** Lemmas: compatibility *)
Lemma candidate_diagnostics_nil r c : candidate_diagnostics r c = [] <-> keeps r c.
Proof.
  unfold candidate_diagnostics, keeps. rewrite app_nil, add_if_req_nil, strength_less_false.
  destruct (has_numeric r), (has_numeric c); simpl;
    rewrite ?app_nil, ?add_if_req_nil; try (intuition congruence).
  assert (strength_eqb (strength r) kRequired
          && (negb (String.eqb (value r) (value c)) || negb (String.eqb (preferred_value r) (preferred_value c))) = false
          <-> (strength r = kRequired -> value r = value c /\ preferred_value r = preferred_value c)) as ->;
    [|intuition congruence].
  rewrite andb_false_iff, orb_false_iff, !negb_false_iff, !String.eqb_eq, <- not_true_iff_false, strength_eqb_eq.
  destruct (decide (strength r = kRequired)); tauto.
Qed.

Lemma candidate_diagnostics_errors r c : errors_only (candidate_diagnostics r c).
Proof. unfold candidate_diagnostics. errors. Qed.

Lemma compatibility_errors previous next : errors_only (compatibility_diagnostics previous next).
Proof.
  unfold compatibility_diagnostics. errors. apply errors_only_concat. intros r.
  unfold previous_diagnostics. destruct (map_find _ _); [apply candidate_diagnostics_errors|]. errors.
Qed.

Lemma previous_diagnostics_nil next r :
  NoDup (composite_key <$> requirements next) ->
  previous_diagnostics (next_keys (requirements next)) (next_scopes (scopes next)) r = []
  <-> (exists c, c ∈ requirements next /\ composite_key c = composite_key r /\ keeps r c)
      \/ (strength r <> kRequired /\ composite_key r ∉ (composite_key <$> requirements next)
          /\ scope r ∈ (sc_name <$> scopes next)).
Proof.
  intros Hnd. unfold previous_diagnostics, next_keys, next_scopes, map_has.
  destruct (map_find (composite_key r) _) as [c|] eqn:E.
  - apply emplace_all_Some in E as [Hc Hk]. rewrite candidate_diagnostics_nil. split.
    + intros H. left. eauto.
    + intros [(c' & Hc' & Hk' & H)|(_ & Hn & _)].
      * replace c with c'; [done|]. eapply (NoDup_keys_inj composite_key); [done..|congruence].
      * destruct Hn. rewrite <- Hk. by apply list_elem_of_fmap_2.
  - apply emplace_all_None in E. destruct (strength_eqb (strength r) kRequired) eqn:Es.
    + apply strength_eqb_eq in Es. split; [done|]. intros [(c & Hc & Hk & _)|(Hs & _)]; [|done].
      destruct E. rewrite <- Hk. by apply list_elem_of_fmap_2.
    + rewrite add_if_req_nil. destruct (map_find (scope r) _) as [s|] eqn:Ef.
      * apply emplace_all_Some in Ef as [Hs Hn]. split; [|done]. intros _. right. split_and!; [|done|].
        -- intros Hr. by apply strength_eqb_eq in Hr; rewrite Hr in Es.
        -- rewrite <- Hn. by apply list_elem_of_fmap_2.
      * apply emplace_all_None in Ef. split; [done|]. intros [(c & Hc & Hk & _)|(_ & _ & Hs)]; [|done].
        destruct E. rewrite <- Hk. by apply list_elem_of_fmap_2.
Qed.

Lemma compatible_spec previous next :
  NoDup (composite_key <$> requirements next) ->
  compatible (check_compatibility previous next) = true <-> compatible_with previous next.
Proof.
  intros Hnd. unfold check_compatibility.
  pose proof (errors_only_log _ (compatibility_errors previous next)) as Hlog.
  transitivity (compatibility_diagnostics previous next = []).
  { rewrite <- Hlog. destruct (has_errors _); [done|]. by destruct (additions _ _). }
  unfold compatibility_diagnostics.
  rewrite !app_nil, !add_if_nil, !negb_false_iff, Z.eqb_eq, id_eqb_eq, Z.leb_gt, concat_map_nil.
  setoid_rewrite (fun r => previous_diagnostics_nil next r Hnd). split.
  - by intros (? & ? & ? & ?).
  - intros []. done.
Qed.

Lemma additions_false previous next :
  additions previous next = false <->
  zlength (requirements next) <= zlength (requirements previous)
  /\ Forall (fun r => composite_key r ∈ (composite_key <$> requirements previous)) (requirements next).
Proof.
  unfold additions. rewrite orb_false_iff, Z.ltb_ge. apply and_iff_compat_l.
  induction (requirements next) as [|r l IH]; simpl; [done|].
  rewrite orb_false_iff, Forall_cons, IH, negb_false_iff, existsb_exists. apply and_iff_compat_r.
  rewrite list_elem_of_fmap. setoid_rewrite list_elem_of_In. setoid_rewrite key_eqb_eq.
  split; intros (y & ? & ?); exists y; split; congruence || done.
Qed.

Lemma at_least_trans floor a b c :
  is_finite a = true -> is_finite b = true -> is_finite c = true ->
  at_least floor a b = true -> at_least floor b c = true -> at_least floor a c = true.
Proof.
  intros. destruct floor; simpl in *; eauto using dle_trans.
Qed.

Lemma at_least_weakened floor a b :
  is_finite a = true -> is_finite b = true -> weakened floor a b = false -> at_least floor a b = true.
Proof.
  intros Ha Hb. destruct floor; simpl; rewrite dlt_not_dle by done; intros H; by apply negb_false_iff in H.
Qed.

Section UpholdFacts.
Context (r c d : Requirement).
Hypothesis finite_r : has_numeric r = true -> is_finite (target r) = true /\ is_finite (minimum r) = true.
Hypothesis finite_c : has_numeric c = true -> is_finite (target c) = true /\ is_finite (minimum c) = true.
Hypothesis finite_d : has_numeric d = true -> is_finite (target d) = true /\ is_finite (minimum d) = true.

Lemma keeps_upholds : strength r = kRequired -> composite_key c = composite_key r -> keeps r c -> terms_upheld r c.
Proof using finite_r finite_c.
  intros Hs Hk (Hsv & Hf & Hn & Hv). rewrite Hs in Hsv. split; [done| |done| |].
  - destruct (strength c); simpl in Hsv; done || lia.
  - intros H. destruct (Hn H) as [Hm Ht]. destruct (finite_r H), (finite_c (eq_trans (eq_sym Hf) H)).
    split; by apply at_least_weakened.
  - intros H. by destruct (Hv H Hs) as [-> ->].
Qed.

Lemma upholds_trans : terms_upheld r c -> terms_upheld c d -> terms_upheld r d.
Proof using finite_r finite_c finite_d.
  intros [Hk Hs Hf Hb Hv] [Hk' Hs' Hf' Hb' Hv']. rewrite Hf in *. split; [congruence|done|congruence| |].
  - intros H. destruct (Hb H) as [B1 B2], (Hb' H) as [B3 B4].
    assert (kind c = kind r) as Hkind by exact (f_equal rk_kind Hk). rewrite Hkind in *.
    destruct (finite_r H), (finite_c H), (finite_d (eq_trans Hf' H)). split.
    + by apply (at_least_trans _ _ (minimum c)).
    + by apply (at_least_trans _ _ (target c)).
  - intros H. destruct (Hv H), (Hv' H). split; congruence.
Qed.
End UpholdFacts.

(** Whatever meets the later requirement meets the earlier one, unless a member of a
    collective was dropped. *)
Lemma terms_upheld_meets r c x :
  terms_upheld r c -> has_numeric r = kind_is_numeric (kind r) -> keeps_members r c -> meets c x -> meets r x.
Proof.
  intros [Hk Hs Hf Hb Hv] Hn. apply meets_stricter; [done|done|done| |by intros H; apply Hv].
  intros H. right. destruct (Hb H) as [_ Ht]. unfold at_least in Ht. unfold reaches.
  by destruct (kind_is_floor (kind r)).
Qed.

Section Chains.
Context `{Hashing}.

Lemma valid_numeric (b : ContractBody) r :
  body_valid b -> r ∈ requirements b -> has_numeric r = kind_is_numeric (kind r).
Proof. intros Hb Hr. pose proof (bv_content _ Hb) as Hc. rewrite Forall_forall in Hc. apply (Hc _ Hr). Qed.

Lemma valid_finite (b : ContractBody) r :
  body_valid b -> r ∈ requirements b -> has_numeric r = true ->
  is_finite (target r) = true /\ is_finite (minimum r) = true.
Proof.
  intros Hb Hr Hn. pose proof (bv_content _ Hb) as Hc. rewrite Forall_forall in Hc.
  destruct (cv_band _ (Hc _ Hr) Hn) as (? & ? & _). done.
Qed.

(** A step of a publish chain: valid bodies, the second accepted after the first. *)
Definition publish_step (previous next : ContractBody) : Prop :=
  body_valid previous /\ body_valid next /\ compatible (check_compatibility previous next) = true.

Lemma tc_publish_valid x z : tc publish_step x z -> body_valid z.
Proof. induction 1 as [? ? Hs|? ? ? _ _ IH]; [apply Hs|done]. Qed.

Lemma publish_step_upholds previous next r :
  publish_step previous next -> r ∈ requirements previous -> strength r = kRequired ->
  exists c, c ∈ requirements next /\ terms_upheld r c.
Proof.
  intros (Hp & Hn & Hc) Hr Hs. apply compatible_spec in Hc; [|apply (bv_distinct _ Hn)].
  pose proof (cw_requirements _ _ Hc) as Hq. rewrite Forall_forall in Hq.
  destruct (Hq _ Hr) as [(c & Hin & Hk & Hkeep)|(? & _)]; [|done].
  exists c. split; [done|]. apply keeps_upholds; eauto using valid_finite.
Qed.
End Chains.

(** ** Round trip *)

(** The policies the codec transports. *)
Notation parameter_ok := (real_within kMaxPolicyParameter).

Record rule_codable (r : PolicyRule) : Prop := {
  rc_requirement : rule_requirement r = zero_id;
  rc_strings : size (rule_scope r) <= 4096 /\ size (rule_key r) <= 4096;
  rc_parameters : Forall parameter_ok [min_target r; max_target r; min_minimum r; max_minimum r];
  rc_values : zlength (allowed_values r) <= 64
}.

Record policy_codable (p : Policy) : Prop := {
  pc_schema : 0 <= policy_schema p <= 1000;
  pc_generation : 1 <= pol_generation p < 2 ^ 63;
  pc_description : size (policy_description p) <= 4096;
  pc_rules : zlength (rules p) <= 4096 /\ Forall rule_codable (rules p)
}.

Lemma read_number_field_set o field path d out :
  map_find field o = Some (json_real d) -> parameter_ok d -> read_number_field o field path out = Ok d.
Proof.
  intros Hf Hp. unfold read_number_field. rewrite Hf, (json_real_ok kMaxPolicyParameter) by done.
  destruct Hp as (H1 & H2 & H3 & _). cbn [is_number negb as_real]. cbv zeta. by rewrite H1, H2, H3.
Qed.

Lemma read_string_field_set o field path bound required s out :
  map_find field o = Some (JString s) -> size s <= bound ->
  read_string_field o field path bound required out = Ok s.
Proof.
  intros Hf Hs. unfold read_string_field. rewrite Hf. simpl. by rewrite (proj2 (Z.ltb_ge _ _)).
Qed.

Lemma read_strength_token path field s out :
  read_strength path field (requirement_strength_token s) out = Ok s.
Proof. by destruct s. Qed.

Lemma read_values_map path l : read_values path (map JString l) = Ok l.
Proof. induction l as [|v l IH]; simpl; [done|]. by rewrite IH. Qed.

Lemma read_allowed_values_map o path l :
  map_find "allowed_values"%string o
    = (if negb (zlength l =? 0) then Some (JArray (map JString l)) else None) ->
  zlength l <= 64 -> read_allowed_values o path = Ok l.
Proof.
  intros Hf Hl. unfold read_allowed_values. rewrite Hf.
  destruct (zlength l =? 0) eqn:E; simpl; [by apply zlength_zero in E as ->|].
  unfold zlength in *. rewrite length_map, (proj2 (Z.ltb_ge _ _)) by (unfold kMaxAllowedValues; lia).
  apply read_values_map.
Qed.

Lemma read_allow_set o path b : map_find "allow"%string o = Some (JBool b) -> read_allow o path = Ok b.
Proof. intros H. unfold read_allow. by rewrite H. Qed.

Lemma rule_roundtrip i r : rule_codable r -> rule_from_json i (rule_to_json r) = Ok r.
Proof.
  intros [Hr [Hs Hk] Hp Hv]. rewrite !Forall_cons in Hp. destruct Hp as (H1 & H2 & H3 & H4 & _).
  unfold rule_from_json.
  assert (is_object (rule_to_json r) = true) as ->.
  { unfold rule_to_json, rule_fields, set_if. by destruct (negb _). }
  assert (forall k, map_find k (object (rule_to_json r)) = last_set k (rule_fields r)) as Hf.
  { intros k. unfold rule_to_json. rewrite find_set_all. by destruct (last_set k _). }
  set (o := object (rule_to_json r)) in *. clearbody o. cbn [negb]. cbv zeta.
  assert (read_allowed_values o (rule_path i) = Ok (allowed_values r)) as ->.
  { apply read_allowed_values_map; [|done]. rewrite Hf. unfold rule_fields, set_if. by destruct (negb _). }
  assert (forall k v, k <> "allowed_values"%string -> last_set k (take 10 (rule_fields r)) = Some v ->
            map_find k o = Some v) as Hget.
  { intros k v Hne Hl. by rewrite Hf, <- Hl; apply last_set_if. }
  assert (forall k path s bound required out, k <> "allowed_values"%string ->
            last_set k (take 10 (rule_fields r)) = Some (JString s) -> size s <= bound ->
            read_string_field o k path bound required out = Ok s) as Hstr.
  { intros. apply read_string_field_set; auto. }
  assert (forall k path d out, k <> "allowed_values"%string ->
            last_set k (take 10 (rule_fields r)) = Some (json_real d) -> parameter_ok d ->
            read_number_field o k path out = Ok d) as Hnum.
  { intros. apply read_number_field_set; auto. }
  assert (forall k, size (requirement_kind_token k) <= 64) as Hkt by (by intros []).
  assert (forall s, size (requirement_strength_token s) <= 32) as Hst by (by intros []).
  read_by (Hstr "kind"%string (rule_path i) (requirement_kind_token (rule_kind r))).
  assert (parse_requirement_kind (requirement_kind_token (rule_kind r)) = Some (rule_kind r)) as ->
    by (by destruct (rule_kind r)).
  read_by (Hstr "scope"%string (rule_path i) (rule_scope r)).
  read_by (Hstr "key"%string (rule_path i) (rule_key r)).
  read_by (read_allow_set o (rule_path i) (allow r) (Hget "allow"%string (JBool (allow r)) ltac:(done) eq_refl)).
  read_by (Hnum "min_target"%string (rule_path i) (min_target r)).
  read_by (Hnum "max_target"%string (rule_path i) (max_target r)).
  read_by (Hnum "min_minimum"%string (rule_path i) (min_minimum r)).
  read_by (Hnum "max_minimum"%string (rule_path i) (max_minimum r)).
  read_by (Hstr "minimum_strength"%string (rule_path i) (requirement_strength_token (minimum_strength r))).
  read_by (Hstr "maximum_strength"%string (rule_path i) (requirement_strength_token (maximum_strength r))).
  rewrite !read_strength_token. cbn [mbind result_bind]. rewrite <- Hr. by destruct r.
Qed.

Lemma rules_roundtrip i l : Forall rule_codable l -> rules_from_json i (map rule_to_json l) = Ok l.
Proof.
  intros H; revert i. induction H as [|r l Hr _ IH]; intros i; simpl; [done|].
  by rewrite rule_roundtrip, IH.
Qed.

Section PolicyRoundTrip.
Context `{Hashing} `{!HashingOk}.

(** The identity the decoder gives a policy. *)
Definition canonical_policy_id (p : Policy) : PolicyId :=
  derive_policy_id (policy_digest (with_policy_id p zero_id)).

Lemma policy_decoded_id v p : policy_from_json v = Ok p -> policy_id p = canonical_policy_id p.
Proof.
  unfold policy_from_json. destruct (negb (is_object v)); [done|]. cbv zeta.
  destruct (read_schema_version _); [|done]. cbn [mbind result_bind].
  destruct (read_policy_generation _); [|done]. cbn [mbind result_bind].
  destruct (read_string_field _ "description" _ _ _ _); [|done]. cbn [mbind result_bind].
  destruct (read_string_field _ "policy_id" _ _ _ _); [|done]. cbn [mbind result_bind].
  destruct (read_rules _); [|done]. cbn [mbind result_bind].
  destruct (_ && _); [done|]. by intros [= <-].
Qed.

Lemma policy_roundtrip_spec p :
  policy_codable p -> policy_id p = canonical_policy_id p -> policy_from_json (policy_to_json p) = Ok p.
Proof.
  intros [Hs Hg Hd [Hn Hr]] Hi. unfold policy_from_json.
  assert (id_ok (policy_id p)) as Hok.
  { rewrite Hi. apply from_digest_ok; [apply sha256_parts_length|apply sha256_parts_bytes]. }
  assert (forall k, map_find k (object (policy_to_json p)) = last_set k (policy_fields p)) as Hf.
  { intros k. unfold policy_to_json. rewrite find_set_all. by destruct (last_set k _). }
  assert (is_object (policy_to_json p) = true) as -> by done.
  set (o := object (policy_to_json p)) in *. clearbody o. cbn [negb]. cbv zeta.
  assert (read_schema_version o = Ok (policy_schema p)) as ->.
  { unfold read_schema_version. rewrite Hf. cbn -[Z.ltb Z.modulo].
    rewrite !(proj2 (Z.ltb_ge _ _)) by lia. cbn [orb]. unfold u32. by rewrite Z.mod_small by lia. }
  assert (read_policy_generation o = Ok (pol_generation p)) as ->.
  { unfold read_policy_generation. rewrite Hf. cbn -[Z.ltb Z.modulo to_int64].
    rewrite to_int64_small by lia. rewrite (proj2 (Z.ltb_ge _ _)) by lia. by rewrite u64_small by lia. }
  assert (read_rules o = Ok (rules p)) as ->.
  { unfold read_rules. rewrite Hf. cbn -[Z.ltb map rules_from_json zlength kMaxPolicyRules].
    unfold zlength, kMaxPolicyRules in *. rewrite length_map, (proj2 (Z.ltb_ge _ _)) by lia.
    by apply rules_roundtrip. }
  cbn [mbind result_bind].
  read_by (read_string_field_set o "description" "policy" kMaxStringBytes false (policy_description p) EmptyString (Hf _)).
  rewrite (read_string_field_set o "policy_id" "policy" kSha256HexChars false (view (policy_id p)) EmptyString (Hf _))
    by (by rewrite (proj1 Hok)).
  cbn [mbind result_bind]. rewrite parse_id_view by done. cbn [policy_id with_policy_id].
  assert (derive_policy_id (policy_digest (mk_policy (policy_schema p) zero_id (pol_generation p)
            (policy_description p) (rules p))) = policy_id p) as -> by done.
  rewrite id_eqb_refl, andb_false_r. by destruct p.
Qed.
End PolicyRoundTrip.

(** ** Concrete runs *)
Definition any_rule (k : RequirementKind) (allow : bool) : PolicyRule :=
  mk_rule zero_id k EmptyString EmptyString d_zero d_zero d_zero d_zero kInformational kRequired allow [].

Definition latency_requirement (s : RequirementStrength) (target minimum : Z) : Requirement :=
  mk_requirement zero_id "root" kMaxLatency s (double_of_int target) (double_of_int minimum) true
    EmptyString EmptyString [] [] "lat".

Definition latency_body (gen : Z) (target : Z) : ContractBody :=
  body (@canonicalize toy_hashing (mk_contract
    (mk_body 1 (mk_workload (from_digest (repeat 1 32)) "w" 1) zero_id gen 1 1 0 0 EmptyString
       [mk_scope "root" false 0 EmptyString] [latency_requirement kRequired target target])
    zero_digest default_envelope 0 zero_digest)).

(** ** Properties *)

(** [check_compatibility] accepts a next body exactly when the major version and the
    workload are unchanged, the generation advances, and every previous requirement is
    kept without being weakened, or was not required and leaves its scope declared; the
    verdict is plain compatibility exactly when nothing was added. *)
Theorem check_compatibility_exact (previous next : ContractBody) :
  NoDup (composite_key <$> requirements next) ->
  (compatible (check_compatibility previous next) = true <-> compatible_with previous next)
  /\ (verdict (check_compatibility previous next) = kCompatible <->
      compatible_with previous next
      /\ zlength (requirements next) <= zlength (requirements previous)
      /\ Forall (fun r => composite_key r ∈ (composite_key <$> requirements previous)) (requirements next)).
Proof.
  intros Hnd. split; [by apply compatible_spec|].
  rewrite <- (compatible_spec previous next Hnd), <- additions_false. unfold check_compatibility, compatible.
  destruct (has_errors _); simpl; [|destruct (additions previous next); simpl]; split; try done;
    by intros [? ?].
Qed.

Lemma check_compatibility_exact_witness :
  let next := latency_body 2 10 in
  NoDup (composite_key <$> requirements next)
  /\ verdict (check_compatibility (latency_body 1 10) next) = kCompatible
  /\ compatible_with (latency_body 1 10) next.
Proof.
  intros next. assert (NoDup (composite_key <$> requirements next)) as Hnd
    by (apply NoDup_cons; split; [intros H; by apply elem_of_nil in H|constructor]).
  split; [exact Hnd|]. split; [vm_compute; reflexivity|].
  apply (proj1 (check_compatibility_exact (latency_body 1 10) next Hnd)). vm_compute. reflexivity.
Defined.

(** C33: No chain of accepted publishes weakens the terms of a required requirement:
    whatever number of contracts lies between, the last one still requires the same key,
    with bounds at least as strict, or with the same values, and every observation that
    meets it meets the first one, as long as a collective keeps its members.  The members
    are the one thing the check lets a later contract take back
    ([required_collective_loses_member]). *)
Theorem required_requirements_persist {HH : Hashing} (first last : ContractBody) (r : Requirement) :
  tc publish_step first last -> r ∈ requirements first -> strength r = kRequired ->
  exists c, c ∈ requirements last /\ terms_upheld r c
    /\ (keeps_members r c -> forall x, meets c x -> meets r x).
Proof.
  intros Hc Hr Hs. assert (body_valid first) as Hv by by destruct Hc as [? ? (? & _)|? ? ? (? & _)].
  enough (exists c, c ∈ requirements last /\ terms_upheld r c) as (c & Hin & Hu).
  { exists c. split_and!; [done..|]. intros Hm x. apply terms_upheld_meets; [done| |done]. by eapply valid_numeric. }
  clear Hv. revert r Hr Hs. induction Hc as [x y Hxy|x y z Hxy Hyz IH]; intros r Hr Hs.
  - by eapply publish_step_upholds.
  - destruct (publish_step_upholds x y r Hxy Hr Hs) as (c & Hc & Hu).
    destruct (IH c Hc (up_strength _ _ Hu)) as (d & Hd & Hud). exists d. split; [done|].
    destruct Hxy as (Hvx & Hvy & _). assert (body_valid z) as Hvz by by apply tc_publish_valid in Hyz.
    apply (upholds_trans r c d); eauto using valid_finite.
Qed.

Lemma required_requirements_persist_witness :
  exists c, c ∈ requirements (latency_body 3 8)
    /\ terms_upheld (List.hd default_requirement (requirements (latency_body 1 10))) c
    /\ (keeps_members (List.hd default_requirement (requirements (latency_body 1 10))) c ->
        forall x, meets c x -> meets (List.hd default_requirement (requirements (latency_body 1 10))) x).
Proof.
  apply (@required_requirements_persist toy_hashing (latency_body 1 10)).
  - assert (forall g t g' t',
      @body_diagnostics toy_hashing (latency_body g t) = [] ->
      @body_diagnostics toy_hashing (latency_body g' t') = [] ->
      compatible (check_compatibility (latency_body g t) (latency_body g' t')) = true ->
      @publish_step toy_hashing (latency_body g t) (latency_body g' t')) as Hstep.
    { intros g t g' t' H1 H2 H3. split_and!; [by apply body_diagnostics_nil..|done]. }
    apply tc_l with (latency_body 2 9); [|apply tc_once]; apply Hstep; vm_compute; reflexivity.
  - vm_compute. left.
  - reflexivity.
Defined.

(** A required collective over two members, and the same over the first alone. *)
Definition member (n : Z) : RequirementId := from_digest (repeat n 32).

Definition collective_body (gen : Z) (l : list RequirementId) : ContractBody :=
  body (@canonicalize toy_hashing (mk_contract
    (mk_body 1 (mk_workload (from_digest (repeat 1 32)) "w" 1) zero_id gen 1 1 0 0 EmptyString
       [mk_scope "root" false 0 EmptyString]
       [mk_requirement zero_id "root" kCollective kRequired d_zero d_zero false "supported" EmptyString l [] "c"])
    zero_digest default_envelope 0 zero_digest)).

Definition one_member_present : Candidate :=
  mk_candidate None None None None None None None None None None (Some true) None None None
    [(member_attribute (member 1), "present"%string); (member_attribute (member 2), "absent"%string)].

(** The comparison ignores the members of a collective: an accepted successor may drop one
    of a required collective, and an observation that did not meet the requirement, because
    that member is absent, meets it afterwards. *)
Theorem required_collective_loses_member :
  exists (previous next : ContractBody) (r c : Requirement) (x : Candidate),
    @publish_step toy_hashing previous next
    /\ requirements previous = [r] /\ requirements next = [c]
    /\ strength r = kRequired /\ composite_key c = composite_key r
    /\ length (members r) = 2%nat /\ length (members c) = 1%nat
    /\ meets c x /\ ~ meets r x.
Proof.
  exists (collective_body 1 [member 1; member 2]), (collective_body 2 [member 1]),
    (List.hd default_requirement (requirements (collective_body 1 [member 1; member 2]))),
    (List.hd default_requirement (requirements (collective_body 2 [member 1]))), one_member_present.
  split; [split; [|split]|].
  1, 2: apply body_diagnostics_nil; vm_compute; reflexivity.
  { vm_compute. reflexivity. }
  do 6 (split; [vm_compute; reflexivity|]). split.
  - exists true. split; [reflexivity|]. split; [discriminate|]. intros _. split; [reflexivity|].
    constructor; [vm_compute; reflexivity|constructor].
  - intros (b & _ & _ & Hm). destruct (Hm ltac:(discriminate)) as [_ Hall]. revert Hall.
    assert (members (List.hd default_requirement (requirements (collective_body 1 [member 1; member 2])))
            = [member 1; member 2]) as -> by (vm_compute; reflexivity).
    rewrite !Forall_cons. intros (_ & H2 & _). vm_compute in H2. discriminate H2.
Qed.

(** [check_contract_against_policy] accepts a body exactly when the policy has rules and
    every requirement is permitted by every rule that matches it, as long as fewer than
    64 requirements are matched by no rule: each of those takes an entry of the bounded
    log, which the violations share. *)
Theorem policy_check_exact (p : Policy) (b : ContractBody) :
  (length (unconstrained p b) < 64)%nat ->
  policy_ok (check_contract_against_policy p b) = true <->
  rules p <> []
  /\ Forall (fun r => Forall (fun rule => rule_matches rule r -> rule_permits rule r) (rules p))
       (requirements b).
Proof.
  intros Hu. unfold check_contract_against_policy. destruct (zlength (rules p) =? 0) eqn:E.
  { apply zlength_zero in E. split; [done|]. by intros [? _]. }
  apply zlength_nonzero in E. unfold policy_result_of. simpl. rewrite <- check_diagnostics_notes in Hu.
  rewrite has_errors_few, negb_true_iff by done. unfold check_diagnostics.
  transitivity (Forall (fun r => existsb (fun d => negb (diag_ok d)) (requirement_check p r) = false)
                  (requirements b)).
  - induction (requirements b) as [|r l IH]; simpl; [done|]. by rewrite existsb_app, orb_false_iff, Forall_cons, IH.
  - setoid_rewrite requirement_check_clean. intuition.
Qed.

(** The bound of the log can hide a violation: a policy that forbids a kind accepts a
    body that declares it after 64 requirements the policy says nothing about. *)
Theorem policy_check_log_overflow :
  exists (p : Policy) (b : ContractBody) (r : Requirement) (rule : PolicyRule),
    r ∈ requirements b /\ rule ∈ rules p /\ rule_matches rule r /\ allow rule = false
    /\ policy_ok (check_contract_against_policy p b) = true.
Proof.
  set (r := latency_requirement kRequired 10 10).
  exists (mk_policy 1 zero_id 1 EmptyString [any_rule kMaxLatency false]),
    (sample_body [] (repeat (sample_requirement "root" "k" []) 64 ++ [r])), r, (any_rule kMaxLatency false).
  split_and!; [|left| |reflexivity|vm_compute; reflexivity].
  - apply elem_of_app. right. left.
  - repeat split; by left.
Qed.

(** [validate_policy] accepts exactly the policies with a schema version, a generation,
    and rules whose ranges are not inverted, that name the attribute they constrain and
    list no values for a kind they forbid. *)
Theorem validate_policy_exact (p : Policy) :
  policy_ok (validate_policy p) = true <->
  policy_schema p <> 0 /\ pol_generation p <> 0 /\ Forall rule_valid (rules p).
Proof.
  unfold validate_policy. rewrite policy_result_ok.
  - unfold policy_diagnostics. by rewrite !app_nil, !add_if_nil, !Z.eqb_neq, rules_diagnostics_nil.
  - unfold policy_diagnostics. errors. apply rules_diagnostics_errors.
Qed.

(** Decoding the document of a policy within the codec's bounds gives the policy back
    exactly when the policy carries its derived identity: a document with another
    identity is refused. *)
Theorem policy_roundtrip `{Hashing} `{!HashingOk} (p : Policy) :
  policy_codable p ->
  policy_from_json (policy_to_json p) = Ok p <-> policy_id p = canonical_policy_id p.
Proof.
  intros Hp. split; [apply policy_decoded_id|by apply policy_roundtrip_spec].
Qed.

Definition sample_policy : Policy :=
  let p := mk_policy 1 zero_id 7 "sample" [any_rule kMaxLatency false; any_rule kLocality true] in
  with_policy_id p (@canonical_policy_id toy_hashing p).

Lemma policy_check_exact_witness :
  Forall (fun r => Forall (fun rule => rule_matches rule r -> rule_permits rule r) (rules sample_policy))
    (requirements (sample_body [] [sample_requirement "root" "k" []])).
Proof.
  apply (policy_check_exact sample_policy (sample_body [] [sample_requirement "root" "k" []]));
    [apply Nat.ltb_lt|]; vm_compute; reflexivity.
Defined.

Lemma policy_roundtrip_witness :
  @policy_from_json toy_hashing (policy_to_json sample_policy) = Ok sample_policy.
Proof.
  apply (@policy_roundtrip toy_hashing toy_hashing_ok).
  - split; [split; discriminate| | |]; try (vm_compute; discriminate).
    + split; [discriminate|reflexivity].
    + split; [vm_compute; discriminate|].
      assert (parameter_ok d_zero) as Hz by (by vm_compute).
      repeat constructor; try (vm_compute; discriminate); exact Hz || apply Hz.
  - vm_compute. reflexivity.
Defined.
