(* ===== verification/Composition.v ===== *)
(** * Composition

    Models [include/wnc/composition.hpp] and [src/composition.cpp]: a base body overlaid
    with layers that may add scopes and requirements and may replace a requirement by
    one that outranks it. *)
From Stdlib Require Import ZArith Lia Ascii String Sorted.
From stdpp Require Import base numbers option list strings sets.
From S2P Require Import Prelude Doubles Identity Errors Hash Json Signature Contract ContractValidate Evaluation.

(** ** Data *)
Record OverlayLayer := mk_layer {
  layer_name : string;
  layer_scopes : list Scope;
  layer_requirements : list Requirement
}.

Inductive CompositionDecisionKind : Set := kAdded | kStrengthened | kKept | kConflict | kRejected.

Definition composition_decision_token (k : CompositionDecisionKind) : string :=
  match k with
  | kAdded => "added" | kStrengthened => "strengthened" | kKept => "kept"
  | kConflict => "conflict" | kRejected => "rejected"
  end.

Record CompositionDecision := mk_decision {
  decision_kind : CompositionDecisionKind;
  decision_layer : string;
  decision_scope : string;
  decision_requirement_kind : RequirementKind;
  decision_key : string;
  decision_reason : string
}.

Record CompositionResult := mk_composition {
  comp_ok : bool;
  comp_code : Code;
  comp_message : string;
  comp_body : ContractBody;
  comp_log : DiagnosticLog;
  decisions : list CompositionDecision
}.

Definition kMaxCompositionLayers : Z := 16.

(** A default constructed body. *)
Definition default_body : ContractBody :=
  mk_body 1 (mk_workload zero_id EmptyString 0) zero_id 0 0 1 0 0 EmptyString [] [].

(** ** Which of two requirements is stronger *)
Definition requirement_label (r : Requirement) : string :=
  requirement_kind_token (kind r) ++ "/" ++ req_key r ++ " in scope '" ++ scope r ++ "'".

Definition same_constraint (a b : Requirement) : bool :=
  if negb (Bool.eqb (has_numeric a) (has_numeric b)) then false
  else if negb (has_numeric a)
  then String.eqb (value a) (value b) && String.eqb (preferred_value a) (preferred_value b)
  else deq (target a) (target b) && deq (minimum a) (minimum b).

(** [a >= b] for a floor kind, [a <= b] for a ceiling kind, on both bounds. *)
Definition dominates (floor : bool) (a b : Requirement) : bool :=
  if floor then dle (target b) (target a) && dle (minimum b) (minimum a)
  else dle (target a) (target b) && dle (minimum a) (minimum b).

Definition compare_requirement_strength (a b : Requirement) : Z :=
  if negb (strength_eqb (strength a) (strength b)) then
    if strength_value (strength b) <? strength_value (strength a) then 1 else -1
  else if has_numeric a && has_numeric b then
    let floor := kind_is_floor (kind a) in
    let a_dominates := dominates floor a b in
    let b_dominates := dominates floor b a in
    if a_dominates && negb b_dominates then 1
    else if b_dominates && negb a_dominates then -1
    else if a_dominates && b_dominates then 1
    else 0
  else if negb (has_numeric a) && negb (has_numeric b) then
    if same_constraint a b then 1 else 0
  else 0.

Definition describe_requirement_conflict (a b : Requirement) : string :=
  if same_constraint a b then EmptyString
  else
    "requirements disagree on " ++ requirement_label a ++ ": "
    ++ (if has_numeric a && has_numeric b
        then "target " ++ to_string_double (target a) ++ " versus " ++ to_string_double (target b)
             ++ ", minimum " ++ to_string_double (minimum a) ++ " versus " ++ to_string_double (minimum b)
        else "value '" ++ value a ++ "' versus '" ++ value b ++ "'").

(** ** Composition *)

(** What [compose] accumulates. *)
Record composing := mk_composing {
  cs_scopes : list Scope;
  cs_requirements : list Requirement;
  cs_index : list (RequirementKey * nat);
  cs_decisions : list CompositionDecision
}.

(** An early return: the code, the message, the requirement the diagnostic names and the
    decisions made so far. *)
Record refusal := mk_refusal {
  ref_code : Code;
  ref_message : string;
  ref_requirement : RequirementId;
  ref_decisions : list CompositionDecision
}.

Definition composed_step : Type := result refusal composing.

(** The index of the base requirements, by position. *)
Fixpoint index_base (position : nat) (l : list Requirement) (index : list (RequirementKey * nat))
    : option (list (RequirementKey * nat)) :=
  match l with
  | [] => Some index
  | r :: l' =>
      let '(index', inserted) := map_emplace (composite_key r) position index in
      if negb inserted then None else index_base (S position) l' index'
  end.

Definition compose_scope (layer : OverlayLayer) (st : composing) (s : Scope) : composing :=
  if existsb (fun existing => String.eqb (sc_name existing) (sc_name s)) (cs_scopes st) then st
  else
    mk_composing (cs_scopes st ++ [s]) (cs_requirements st) (cs_index st)
      (cs_decisions st ++ [mk_decision kAdded (layer_name layer) (sc_name s) kAttribute EmptyString
                             ("scope '" ++ sc_name s ++ "' added")]).

Definition compose_requirement (layer : OverlayLayer) (st : composing) (incoming : Requirement) : composed_step :=
  let decide_on k reason :=
    (cs_decisions st ++ [mk_decision k (layer_name layer) (scope incoming) (kind incoming) (req_key incoming) reason])%list in
  match map_find (composite_key incoming) (cs_index st) with
  | None =>
      Ok (mk_composing (cs_scopes st) (cs_requirements st ++ [incoming])
            (map_emplace (composite_key incoming) (length (cs_requirements st)) (cs_index st)).1
            (decide_on kAdded "requirement added by the layer"%string))
  | Some position =>
      let accumulated := default default_requirement (cs_requirements st !! position) in
      let weaker_strength := strength_value (strength incoming) <? strength_value (strength accumulated) in
      let order := compare_requirement_strength incoming accumulated in
      if weaker_strength || (order <? 0) then
        let text := ("layer '" ++ layer_name layer ++ "' would weaken " ++ requirement_label accumulated)%string in
        Err (mk_refusal kWeakeningDenied text (req_id accumulated) (decide_on kRejected text))
      else if 0 <? order then
        Ok (mk_composing (cs_scopes st) (<[position := incoming]> (cs_requirements st)) (cs_index st)
              (decide_on kStrengthened "the layer's requirement is stronger"%string))
      else
        let detail := describe_requirement_conflict accumulated incoming in
        Err (mk_refusal kCompositionConflict
               ("layer '" ++ layer_name layer ++ "' conflicts with the composed contract: " ++ detail)
               (req_id accumulated) (decide_on kConflict detail))
  end.

Definition compose_layer (st : composing) (layer : OverlayLayer) : composed_step :=
  if is_empty (layer_name layer)
  then Err (mk_refusal kOverlayInvalid "a composition layer must be named" zero_id (cs_decisions st))
  else
    result_fold (compose_requirement layer) (fold_left (compose_scope layer) (layer_scopes layer) st)
      (layer_requirements layer).

Section Compose.
Context `{Hashing}.

(** The canonical form of what was accumulated, with the derived identities. *)
Definition composed_body (base : ContractBody) (st : composing) : ContractBody :=
  let b := with_content base
    (std_sort (fun a b => string_less (sc_name a) (sc_name b)) (cs_scopes st))
    (std_sort requirement_precedes (map canonical_requirement (cs_requirements st))) in
  with_contract_id b (derive_contract_id (wl_id (workload b)) (body_digest b)).

Definition refused (e : refusal) : CompositionResult :=
  mk_composition false (ref_code e) (ref_message e) default_body
    (log_add empty_log (mk_diagnostic (ref_code e) (ref_message e) zero_id (ref_requirement e))) (ref_decisions e).

(** The final check for repeated neighbours. *)
Fixpoint repeated_neighbour (l : list Requirement) : bool :=
  match l with
  | a :: ((b :: _) as l') => key_eqb (composite_key b) (composite_key a) || repeated_neighbour l'
  | _ => false
  end.

Definition compose_steps (base : ContractBody) (layers : list OverlayLayer) (max_layers : Z) : composed_step :=
  if max_layers <? zlength layers then
    Err (mk_refusal kTooManyLayers
           ("composition received " ++ to_string (zlength layers) ++ " layers, above the bound "
            ++ to_string max_layers) zero_id [])
  else
    match index_base 0 (requirements base) [] with
    | None => Err (mk_refusal kDuplicateRequirement "the base contract repeats a requirement key" zero_id [])
    | Some index => result_fold compose_layer (mk_composing (scopes base) (requirements base) index []) layers
    end.

Definition compose (base : ContractBody) (layers : list OverlayLayer) (max_layers : Z) : CompositionResult :=
  match compose_steps base layers max_layers with
  | Err e => refused e
  | Ok st =>
      let composed := composed_body base st in
      if zlength (requirements composed) =? 0 then
        refused (mk_refusal kEmptyRequirementSet "the composed contract declares no requirements" zero_id
                   (cs_decisions st))
      else if repeated_neighbour (requirements composed) then
        refused (mk_refusal kCompositionConflict "the composed contract repeats a requirement key" zero_id
                   (cs_decisions st))
      else
        mk_composition true kOk ("composed " ++ to_string (zlength layers) ++ " layers") composed empty_log
          (cs_decisions st)
  end.

End Compose.

(** ** What the comparison decides *)

(** [a] is at least as strong as [b] by the rule of the composition: a higher strength, or
    the same strength and a band, or a value, that dominates. *)
Definition outranks (a b : Requirement) : Prop :=
  strength_value (strength b) < strength_value (strength a)
  \/ (strength a = strength b /\ has_numeric a = has_numeric b
      /\ (has_numeric a = true -> dominates (kind_is_floor (kind a)) a b = true)
      /\ (has_numeric a = false -> value a = value b /\ preferred_value a = preferred_value b)).

Definition bound_covers (floor : bool) (x y : double) : Prop :=
  x = y \/ (if floor then dle y x else dle x y) = true.

(** A composed requirement that covers the terms of a declared one: a higher strength, with
    whatever bounds, or the same strength with bounds at least as strict or the same values.
    The composition does not compare the members of a collective or the attributes. *)
Record terms_covered (c r : Requirement) : Prop := {
  cov_key : composite_key c = composite_key r;
  cov_rank : strength_value (strength r) < strength_value (strength c)
    \/ (strength c = strength r /\ has_numeric c = has_numeric r
        /\ (has_numeric r = true -> bound_covers (kind_is_floor (kind r)) (target c) (target r)
                                    /\ bound_covers (kind_is_floor (kind r)) (minimum c) (minimum r))
        /\ (has_numeric r = false -> value c = value r /\ preferred_value c = preferred_value r))
}.

Lemma strength_value_inj a b : strength_value a = strength_value b -> a = b.
Proof. by destruct a, b. Qed.

Lemma same_constraint_textual a b :
  has_numeric a = false -> has_numeric b = false ->
  same_constraint a b = true <-> value a = value b /\ preferred_value a = preferred_value b.
Proof.
  intros Ha Hb. unfold same_constraint. rewrite Ha, Hb. simpl. by rewrite andb_true_iff, !String.eqb_eq.
Qed.

Lemma compare_strength_cases a b :
  (strength a = strength b /\ strength_eqb (strength a) (strength b) = true)
  \/ (strength_eqb (strength a) (strength b) = false
      /\ (strength_value (strength b) < strength_value (strength a)
          \/ strength_value (strength a) < strength_value (strength b))).
Proof.
  unfold strength_eqb. destruct (Z.eqb_spec (strength_value (strength a)) (strength_value (strength b))) as [E|E].
  - left. split; [by apply strength_value_inj|done].
  - right. split; [done|lia].
Qed.

Lemma compare_outranks a b : compare_requirement_strength a b = 1 <-> outranks a b.
Proof.
  unfold compare_requirement_strength, outranks.
  destruct (compare_strength_cases a b) as [[Hs ->]|[-> Hs]]; cbn [negb].
  - rewrite Hs at 1. destruct (has_numeric a) eqn:Ha, (has_numeric b) eqn:Hb; cbn [andb negb].
    + destruct (dominates _ a b), (dominates _ b a); simpl; intuition (lia || congruence).
    + intuition (lia || congruence).
    + intuition (lia || congruence).
    + pose proof (same_constraint_textual a b Ha Hb) as Hc.
      destruct (same_constraint a b); intuition (lia || congruence).
  - destruct (Z.ltb_spec (strength_value (strength b)) (strength_value (strength a))).
    + intuition.
    + split; [lia|]. intros [?|[E _]]; [lia|]. rewrite E in *. lia.
Qed.

Lemma compare_values a b :
  compare_requirement_strength a b = 1 \/ compare_requirement_strength a b = -1
  \/ compare_requirement_strength a b = 0.
Proof.
  unfold compare_requirement_strength. cbv zeta.
  repeat match goal with |- context [if ?c then _ else _] => destruct c end; tauto.
Qed.

(** The two orders of a comparison agree, but for requirements that outrank each other. *)
Lemma compare_sym a b :
  kind a = kind b -> compare_requirement_strength a b = -1 <-> outranks b a /\ ~ outranks a b.
Proof.
  intros Hk. rewrite <- !compare_outranks. unfold compare_requirement_strength. rewrite <- Hk. cbv zeta.
  destruct (compare_strength_cases a b) as [[Hs Hse]|[Hse Hs]];
    unfold strength_eqb in *; rewrite (Z.eqb_sym (strength_value (strength b))), Hse; cbn [negb].
  - rewrite (andb_comm (has_numeric b)), (andb_comm (negb (has_numeric b))).
    destruct (has_numeric a) eqn:Ha, (has_numeric b) eqn:Hb; cbn [andb negb]; try (intuition congruence).
    + destruct (dominates _ a b), (dominates _ b a); simpl; intuition congruence.
    + assert (same_constraint a b = same_constraint b a) as ->.
      { apply eq_true_iff_eq. rewrite !same_constraint_textual by done. intuition. }
      destruct (same_constraint b a); intuition congruence.
  - destruct (Z.ltb_spec (strength_value (strength b)) (strength_value (strength a))),
      (Z.ltb_spec (strength_value (strength a)) (strength_value (strength b))); intuition (lia || congruence).
Qed.

(** ** Covering *)
Lemma covers_refl r : terms_covered r r.
Proof. split; [done|]. right. split_and!; try done. split; by left. Qed.

Lemma bound_covers_trans floor x y z : bound_covers floor x y -> bound_covers floor y z -> bound_covers floor x z.
Proof.
  intros [->|H1] [->|H2]; [by left|by right..|right]. destruct floor; by eapply dle_chain.
Qed.

Lemma covers_trans d c r : terms_covered d c -> terms_covered c r -> terms_covered d r.
Proof.
  intros [Hk Hr] [Hk' Hr']. split; [congruence|].
  assert (kind c = kind r) as Ek by exact (f_equal rk_kind Hk').
  destruct Hr as [Hr|(Hs & Hn & Hb & Hv)], Hr' as [Hr'|(Hs' & Hn' & Hb' & Hv')]; try (left; congruence || lia).
  right. split_and!; [congruence|congruence| |].
  - intros H. rewrite Hn' in Hb. rewrite Ek in Hb. destruct (Hb H), (Hb' H). split; by eapply bound_covers_trans.
  - intros H. rewrite Hn' in Hv. destruct (Hv H), (Hv' H). split; congruence.
Qed.

Lemma outranks_covers a b : composite_key a = composite_key b -> outranks a b -> terms_covered a b.
Proof.
  intros Hk H. split; [done|]. destruct H as [H|(Hs & Hn & Hb & Hv)]; [by left|right].
  assert (kind a = kind b) as Ek by exact (f_equal rk_kind Hk).
  split_and!; [done..| |]; rewrite <- Hn; [|done]. intros H. specialize (Hb H). rewrite Ek in Hb.
  unfold dominates in Hb. unfold bound_covers.
  destruct (kind_is_floor (kind b)); apply andb_true_iff in Hb as [? ?]; split; by right.
Qed.

(** What meets the requirement that covers a required one meets that one too, unless a
    member of a collective was dropped. *)
Lemma terms_covered_required c r :
  terms_covered c r -> strength r = kRequired ->
  strength c = kRequired
  /\ (has_numeric r = kind_is_numeric (kind r) -> keeps_members r c -> forall x, meets c x -> meets r x).
Proof.
  intros [Hk Hr] Hs. rewrite Hs in Hr. destruct Hr as [Hr|(Hsc & Hf & Hb & Hv)].
  { by destruct (strength c). }
  split; [done|]. intros Hn Hm x. apply meets_stricter; try done; [|by intros H; apply Hv].
  intros H. destruct (Hb H) as [[Ht|Ht] _]; [by left|right]. unfold reaches. by destruct (kind_is_floor (kind r)).
Qed.

Lemma canonical_requirement_covers `{Hashing} c r : terms_covered c r -> terms_covered (canonical_requirement c) r.
Proof. by intros [? ?]. Qed.

(** ** The index *)
Definition indexes (index : list (RequirementKey * nat)) (l : list Requirement) : Prop :=
  forall k p, map_find k index = Some p <-> exists r, l !! p = Some r /\ composite_key r = k.

Lemma indexes_NoDup index l : indexes index l -> NoDup (composite_key <$> l).
Proof.
  intros H. apply NoDup_alt. intros i j k Hi Hj. rewrite list_lookup_fmap in Hi, Hj.
  apply fmap_Some in Hi as (x & Hx & ->), Hj as (y & Hy & E).
  assert (map_find (composite_key x) index = Some i) as H1 by (apply H; eauto).
  assert (map_find (composite_key x) index = Some j) as H2 by (apply H; eauto). congruence.
Qed.

Lemma indexes_None index l k : indexes index l -> map_find k index = None <-> k ∉ (composite_key <$> l).
Proof.
  intros H. rewrite list_elem_of_fmap. split.
  - intros Hn (r & -> & Hr). apply list_elem_of_lookup in Hr as [p Hp].
    assert (map_find (composite_key r) index = Some p) by (apply H; eauto). congruence.
  - intros Hn. destruct (map_find k index) as [p|] eqn:E; [|done]. apply H in E as (r & Hr & <-).
    destruct Hn. exists r. split; [done|]. by eapply list_elem_of_lookup_2.
Qed.

Lemma indexes_app index l r :
  indexes index l -> map_find (composite_key r) index = None ->
  indexes (map_emplace (composite_key r) (length l) index).1 (l ++ [r]).
Proof.
  intros H Hn. assert (map_emplace (composite_key r) (length l) index
    = (map_insert (composite_key r) (length l) index, true)) as -> by (unfold map_emplace, map_has; by rewrite Hn).
  intros k p. cbn [fst]. destruct (decide (k = composite_key r)) as [->|Hk].
  - rewrite map_find_insert_eq. split.
    + intros [= <-]. exists r. by rewrite list_lookup_middle.
    + intros (x & Hx & Ex). apply lookup_snoc_Some in Hx as [[_ Hx]|[-> _]]; [|done].
      assert (map_find (composite_key r) index = Some p) by (apply H; eauto). congruence.
  - rewrite map_find_insert_ne by done. rewrite (H k p). split.
    + intros (x & Hx & Ex). exists x. split; [|done]. by apply lookup_app_l_Some.
    + intros (x & Hx & Ex). apply lookup_snoc_Some in Hx as [[_ Hx]|[_ ->]]; eauto. by destruct Hk.
Qed.

Lemma indexes_insert index l p r x :
  indexes index l -> l !! p = Some x -> composite_key r = composite_key x -> indexes index (<[p := r]> l).
Proof.
  intros H Hp Hk k q. rewrite (H k q). destruct (decide (p = q)) as [<-|Hne].
  - rewrite list_lookup_insert_eq by (by eapply lookup_lt_Some). split.
    + intros (y & Hy & <-). exists r. split; congruence.
    + intros (y & [= <-] & <-). exists x. split; congruence.
  - by rewrite list_lookup_insert_ne.
Qed.

Lemma index_base_ok l : forall position index pre,
  position = length pre -> indexes index pre ->
  match index_base position l index with
  | Some index' => indexes index' (pre ++ l)
  | None => ~ NoDup (composite_key <$> (pre ++ l))
  end.
Proof.
  induction l as [|r l IH]; intros position index pre -> Hi; simpl; [by rewrite app_nil_r|].
  destruct (map_find (composite_key r) index) as [p|] eqn:E.
  - unfold map_emplace, map_has. rewrite E. simpl. apply Hi in E as (x & Hx & Ex).
    rewrite fmap_app, fmap_cons. intros Hnd. apply NoDup_app in Hnd as (_ & Hnd & _).
    apply (Hnd (composite_key r)); [|left]. rewrite <- Ex. apply list_elem_of_fmap_2. by eapply list_elem_of_lookup_2.
  - pose proof (indexes_app index pre r Hi E) as Hi'.
    assert ((map_emplace (composite_key r) (length pre) index).2 = true) as Hin
      by (unfold map_emplace, map_has; by rewrite E).
    destruct (map_emplace _ _ index) as [index' inserted]. simpl in *. rewrite Hin. simpl.
    replace (pre ++ r :: l) with ((pre ++ [r]) ++ l) by (by rewrite <- app_assoc).
    apply IH; [rewrite length_app; simpl; lia|done].
Qed.

(** ** Progress of a composition

    What a run from one state to another has done with the requirements it was given. *)
Record progress (given : list Requirement) (st st' : composing) : Prop := {
  pr_index : indexes (cs_index st') (cs_requirements st');
  pr_covers : forall r, r ∈ cs_requirements st ++ given -> exists c, c ∈ cs_requirements st' /\ terms_covered c r;
  pr_keys : forall k, k ∈ (composite_key <$> cs_requirements st') <-> k ∈ (composite_key <$> (cs_requirements st ++ given))
}.

Lemma progress_refl st : indexes (cs_index st) (cs_requirements st) -> progress [] st st.
Proof.
  intros H. split; [done| |]; rewrite app_nil_r; [|done]. intros r Hr. exists r. split; [done|apply covers_refl].
Qed.

Lemma progress_trans g1 g2 st1 st2 st3 :
  progress g1 st1 st2 -> progress g2 st2 st3 -> progress (g1 ++ g2) st1 st3.
Proof.
  intros [Hi Hc Hk] [Hi' Hc' Hk']. split; [done| |].
  - intros r Hr. rewrite app_assoc in Hr. apply elem_of_app in Hr as [Hr|Hr].
    + destruct (Hc r Hr) as (c & Hin & Hcov). destruct (Hc' c) as (d & Hd & Hcov'); [apply elem_of_app; by left|].
      exists d. split; [done|by eapply covers_trans].
    + apply Hc'. apply elem_of_app. by right.
  - intros k. rewrite Hk', !fmap_app, !elem_of_app, Hk, fmap_app, elem_of_app. tauto.
Qed.

Lemma compose_requirement_progress layer st r st' :
  indexes (cs_index st) (cs_requirements st) -> compose_requirement layer st r = Ok st' -> progress [r] st st'.
Proof.
  intros Hi. unfold compose_requirement. cbv zeta.
  destruct (map_find (composite_key r) (cs_index st)) as [p|] eqn:E.
  - pose proof E as E'. apply Hi in E' as (x & Hx & Ex). rewrite Hx. change (default default_requirement (Some x)) with x.
    destruct (_ || _); [done|]. destruct (Z.ltb_spec 0 (compare_requirement_strength r x)) as [Hc|]; [|done].
    intros [= <-]. assert (outranks r x) as Ho.
    { apply compare_outranks. destruct (compare_values r x) as [?|[?|?]]; lia. }
    split; simpl.
    + by eapply indexes_insert.
    + intros y Hy. destruct (decide (composite_key y = composite_key r)) as [Ey|Ey].
      * exists r. split; [apply list_elem_of_insert; by eapply lookup_lt_Some|].
        apply elem_of_app in Hy as [Hy|Hy].
        -- replace y with x; [by apply outranks_covers|].
           apply list_elem_of_lookup in Hy as [q Hq].
           assert (map_find (composite_key r) (cs_index st) = Some q) by (apply Hi; eauto). congruence.
        -- apply list_elem_of_singleton in Hy as ->. apply covers_refl.
      * apply elem_of_app in Hy as [Hy|Hy]; [|by apply list_elem_of_singleton in Hy as ->].
        exists y. split; [|apply covers_refl]. apply list_elem_of_lookup in Hy as [q Hq].
        apply list_elem_of_lookup. exists q. rewrite list_lookup_insert_ne; [done|]. intros ->. congruence.
    + intros k. rewrite list_fmap_insert, fmap_app, elem_of_app. simpl.
      rewrite list_insert_id by (by rewrite list_lookup_fmap, Hx; simpl; rewrite Ex).
      split; [by left|]. intros [?|Hk]; [done|]. apply list_elem_of_singleton in Hk as ->. rewrite <- Ex.
      apply list_elem_of_fmap_2. by eapply list_elem_of_lookup_2.
  - intros [= <-]. split; simpl; [by apply indexes_app| |done].
    intros y Hy. exists y. split; [done|apply covers_refl].
Qed.

Lemma fold_requirements_progress layer l st st' :
  indexes (cs_index st) (cs_requirements st) ->
  result_fold (compose_requirement layer) st l = Ok st' -> progress l st st'.
Proof.
  revert st; induction l as [|r l IH]; intros st Hi; simpl.
  - intros [= <-]. by apply progress_refl.
  - destruct (compose_requirement layer st r) as [st1|] eqn:E; [|done]. intros H.
    pose proof (compose_requirement_progress layer st r st1 Hi E) as Hp.
    apply (progress_trans [r] l st st1 st'); [done|]. apply IH; [apply Hp|done].
Qed.

(** Adding scopes leaves the requirements and the index alone. *)
Lemma compose_scopes_same layer l st :
  let st' := fold_left (compose_scope layer) l st in
  cs_requirements st' = cs_requirements st /\ cs_index st' = cs_index st
  /\ forall n, n ∈ (sc_name <$> cs_scopes st') <-> n ∈ (sc_name <$> (cs_scopes st ++ l)).
Proof.
  revert st; induction l as [|s l IH]; intros st; cbn [fold_left]; [by rewrite app_nil_r|].
  destruct (IH (compose_scope layer st s)) as (H1 & H2 & H3). unfold compose_scope in *.
  destruct (existsb _ _) eqn:E; simpl in *.
  - split_and!; [done..|]. intros n. rewrite H3, !fmap_app, fmap_cons, !elem_of_app, elem_of_cons.
    apply existsb_exists in E as (x & Hx & En). apply String.eqb_eq in En. apply list_elem_of_In in Hx.
    split; [tauto|]. intros [?|[->|?]]; try tauto. left. rewrite <- En. by apply list_elem_of_fmap_2.
  - split_and!; [done..|]. intros n. rewrite H3. by rewrite <- app_assoc.
Qed.

Lemma compose_layer_progress st layer st' :
  indexes (cs_index st) (cs_requirements st) -> compose_layer st layer = Ok st' ->
  layer_name layer <> EmptyString /\ progress (layer_requirements layer) st st'.
Proof.
  intros Hi. unfold compose_layer. destruct (is_empty (layer_name layer)) eqn:E; [done|]. intros H.
  split; [intros Hn; apply is_empty_true in Hn; congruence|].
  destruct (compose_scopes_same layer (layer_scopes layer) st) as (H1 & H2 & _).
  pose proof (fold_requirements_progress layer (layer_requirements layer)
    (fold_left (compose_scope layer) (layer_scopes layer) st) st') as Hp.
  rewrite H1, H2 in Hp. specialize (Hp Hi H). destruct Hp as [P1 P2 P3]. rewrite H1 in P2, P3. done.
Qed.

Definition given_requirements (layers : list OverlayLayer) : list Requirement :=
  concat (map layer_requirements layers).

Lemma compose_layers_progress layers st st' :
  indexes (cs_index st) (cs_requirements st) -> result_fold compose_layer st layers = Ok st' ->
  progress (given_requirements layers) st st'.
Proof.
  revert st; induction layers as [|layer layers IH]; intros st Hi; simpl.
  - intros [= <-]. by apply progress_refl.
  - destruct (compose_layer st layer) as [st1|] eqn:E; [|done]. intros H.
    destruct (compose_layer_progress st layer st1 Hi E) as [_ Hp].
    eapply progress_trans; [exact Hp|]. apply IH; [apply Hp|done].
Qed.

Lemma compose_steps_progress base layers max st :
  compose_steps base layers max = Ok st ->
  exists st0, cs_requirements st0 = requirements base /\ progress (given_requirements layers) st0 st.
Proof.
  unfold compose_steps. destruct (max <? zlength layers); [done|].
  pose proof (index_base_ok (requirements base) 0 [] [] eq_refl) as Hb.
  destruct (index_base 0 (requirements base) []) as [index|]; [|done]. intros H.
  exists (mk_composing (scopes base) (requirements base) index []). split; [done|].
  apply compose_layers_progress; [|done]. apply Hb. intros k p. split; [done|]. by intros (r & ? & _).
Qed.

(** Canonical neighbours have different keys, so the last check of [compose] never fires. *)
Lemma distinct_no_repeat l : NoDup (composite_key <$> l) -> repeated_neighbour l = false.
Proof.
  induction l as [|a [|b l] IH]; try done. intros Hnd. cbn [repeated_neighbour]. apply orb_false_iff.
  apply NoDup_cons in Hnd as [Ha Hnd]. split; [|by apply IH].
  apply not_true_iff_false. rewrite key_eqb_eq. intros E. destruct Ha. rewrite <- E. left.
Qed.

Section ComposeFacts.
Context `{Hashing}.

Lemma composed_requirements base st :
  requirements (composed_body base st) ≡ₚ map canonical_requirement (cs_requirements st).
Proof. apply std_sort_perm. Qed.

Lemma map_canonical_keys l : composite_key <$> map canonical_requirement l = composite_key <$> l.
Proof. induction l as [|r l IH]; [done|]. cbn [map]. by rewrite !fmap_cons, IH. Qed.

Lemma composed_keys base st :
  indexes (cs_index st) (cs_requirements st) -> NoDup (composite_key <$> requirements (composed_body base st)).
Proof.
  intros Hi. rewrite composed_requirements, map_canonical_keys. by eapply indexes_NoDup.
Qed.

Lemma composed_empty base st : requirements (composed_body base st) = [] <-> cs_requirements st = [].
Proof.
  pose proof (composed_requirements base st) as Hp. split; intros E; rewrite E in Hp.
  - apply Permutation_nil in Hp. by apply map_eq_nil in Hp.
  - by apply Permutation_sym, Permutation_nil in Hp.
Qed.

Lemma compose_ok_iff base layers max :
  comp_ok (compose base layers max) = true <->
  exists st, compose_steps base layers max = Ok st /\ cs_requirements st <> []
             /\ comp_body (compose base layers max) = composed_body base st.
Proof.
  unfold compose. destruct (compose_steps base layers max) as [st|e] eqn:E.
  - destruct (compose_steps_progress _ _ _ _ E) as (st0 & _ & Hp). cbv zeta.
    destruct (zlength (requirements (composed_body base st)) =? 0) eqn:Ez.
    + apply zlength_zero, composed_empty in Ez. split; [done|]. by intros (st' & [= <-] & Hn & _).
    + rewrite distinct_no_repeat by apply composed_keys, Hp. apply zlength_nonzero in Ez.
      rewrite composed_empty in Ez. split; [|done]. intros _. by exists st.
  - split; [done|]. by intros (st & ? & _).
Qed.
End ComposeFacts.

(** ** Scopes and errors of a run *)
Lemma compose_requirement_scopes layer st r st' :
  compose_requirement layer st r = Ok st' -> cs_scopes st' = cs_scopes st.
Proof.
  unfold compose_requirement. cbv zeta. destruct (map_find _ _); [|by intros [= <-]].
  destruct (_ || _); [done|]. destruct (0 <? _); [by intros [= <-]|done].
Qed.

Lemma compose_layer_scopes st layer st' n :
  compose_layer st layer = Ok st' ->
  n ∈ (sc_name <$> cs_scopes st') <-> n ∈ (sc_name <$> (cs_scopes st ++ layer_scopes layer)).
Proof.
  unfold compose_layer. destruct (is_empty _); [done|]. intros H.
  destruct (compose_scopes_same layer (layer_scopes layer) st) as (_ & _ & Hs). rewrite <- Hs.
  assert (cs_scopes st' = cs_scopes (fold_left (compose_scope layer) (layer_scopes layer) st)) as ->; [|done].
  revert H. apply (result_fold_inv (fun s => cs_scopes s = _)); [|done].
  intros s r s' <- Hr. by eapply compose_requirement_scopes.
Qed.

Definition given_scopes (layers : list OverlayLayer) : list Scope := concat (map layer_scopes layers).

Lemma compose_layers_scopes layers st st' n :
  result_fold compose_layer st layers = Ok st' ->
  n ∈ (sc_name <$> cs_scopes st') <-> n ∈ (sc_name <$> (cs_scopes st ++ given_scopes layers)).
Proof.
  revert st; induction layers as [|layer layers IH]; intros st; simpl.
  - intros [= <-]. by rewrite app_nil_r.
  - destruct (compose_layer st layer) as [st1|] eqn:E; [|done]. intros H. rewrite (IH st1 H).
    assert (given_scopes (layer :: layers) = layer_scopes layer ++ given_scopes layers) as -> by done.
    rewrite !fmap_app, !elem_of_app, (compose_layer_scopes _ _ _ _ E), fmap_app, elem_of_app. tauto.
Qed.

Lemma compose_steps_scopes base layers max st n :
  compose_steps base layers max = Ok st ->
  n ∈ (sc_name <$> cs_scopes st) <-> n ∈ (sc_name <$> (scopes base ++ given_scopes layers)).
Proof.
  unfold compose_steps. destruct (max <? zlength layers); [done|].
  destruct (index_base 0 (requirements base) []); [|done]. intros H. by rewrite (compose_layers_scopes _ _ _ _ H).
Qed.

(** The code of a refusal of a layer. *)
Definition layer_code (c : Code) : Prop :=
  c = kOverlayInvalid \/ c = kWeakeningDenied \/ c = kCompositionConflict.

Lemma compose_requirement_code layer st r e : compose_requirement layer st r = Err e -> layer_code (ref_code e).
Proof.
  unfold compose_requirement, layer_code. cbv zeta. destruct (map_find _ _); [|done].
  destruct (_ || _); [intros [= <-]; simpl; tauto|]. destruct (0 <? _); [done|]. intros [= <-]. simpl. tauto.
Qed.

Lemma result_fold_err {A S} (P : refusal -> Prop) (f : S -> A -> result refusal S) l s e :
  (forall s x e, f s x = Err e -> P e) -> result_fold f s l = Err e -> P e.
Proof.
  intros Hf; revert s. induction l as [|x l IH]; intros s; simpl; [done|].
  destruct (f s x) as [s'|e'] eqn:E; [apply IH|]. intros [= ->]. by eapply Hf.
Qed.

Lemma compose_layers_code st layers e : result_fold compose_layer st layers = Err e -> layer_code (ref_code e).
Proof.
  apply (result_fold_err (fun e => layer_code (ref_code e))). intros s layer e'. unfold compose_layer.
  destruct (is_empty _); [intros [= <-]; by left|].
  apply (result_fold_err (fun e => layer_code (ref_code e))). intros; by eapply compose_requirement_code.
Qed.

(** ** Properties *)
Section ComposeProperties.
Context `{Hashing}.

(** C25: composition drops no requirement and weakens no terms of a required one.  Every
    requirement the base or a layer declares is there in the composed body under the same
    key: with a higher strength, and then with any bounds, or with the same strength and
    bounds at least as strict, or the same values.  A required one stays required, and
    every observation that meets the composed requirement meets it, as long as the form fits
    the kind and a collective keeps its members; members are not compared, so an overlay may
    drop some ([compose_drops_member]). *)
Theorem compose_never_weakens (base : ContractBody) (layers : list OverlayLayer) (max : Z) (r : Requirement) :
  comp_ok (compose base layers max) = true ->
  r ∈ requirements base ++ given_requirements layers ->
  exists c, c ∈ requirements (comp_body (compose base layers max)) /\ terms_covered c r
    /\ (strength r = kRequired -> strength c = kRequired
        /\ (has_numeric r = kind_is_numeric (kind r) -> keeps_members r c -> forall x, meets c x -> meets r x)).
Proof.
  intros Hok Hr. apply compose_ok_iff in Hok as (st & Hst & _ & ->).
  destruct (compose_steps_progress _ _ _ _ Hst) as (st0 & E0 & [_ Hc _]). rewrite E0 in Hc.
  destruct (Hc r Hr) as (c & Hin & Hcov).
  pose proof (canonical_requirement_covers c r Hcov) as Hcan. exists (canonical_requirement c). split_and!.
  - rewrite composed_requirements. by apply list_elem_of_In, in_map, list_elem_of_In.
  - exact Hcan.
  - by apply terms_covered_required.
Qed.

(** A composed body is canonical: its keys are distinct and are those of the base and
    the layers, its scopes have the names of both, its requirements are in canonical
    order and carry their derived identities, its identity is derived from its digest,
    and it keeps the workload, generation and policy generation of the base. *)
Theorem compose_canonical (base : ContractBody) (layers : list OverlayLayer) (max : Z) :
  comp_ok (compose base layers max) = true ->
  let b := comp_body (compose base layers max) in
  NoDup (composite_key <$> requirements b)
  /\ (forall k, k ∈ (composite_key <$> requirements b)
      <-> k ∈ (composite_key <$> (requirements base ++ given_requirements layers)))
  /\ (forall n, n ∈ (sc_name <$> scopes b) <-> n ∈ (sc_name <$> (scopes base ++ given_scopes layers)))
  /\ Forall (fun r => req_id r = derive_requirement_id r) (requirements b)
  /\ requirements b = std_sort requirement_precedes (requirements b)
  /\ contract_id b = derive_contract_id (wl_id (workload b)) (body_digest b)
  /\ workload b = workload base /\ generation b = generation base
  /\ policy_generation b = policy_generation base.
Proof.
  intros Hok b. apply compose_ok_iff in Hok as (st & Hst & _ & Eb). subst b. rewrite Eb.
  destruct (compose_steps_progress _ _ _ _ Hst) as (st0 & E0 & [Hi _ Hk]). rewrite E0 in Hk.
  split_and!.
  - by apply composed_keys.
  - intros k. rewrite composed_requirements, map_canonical_keys. apply Hk.
  - intros n. rewrite <- (compose_steps_scopes _ _ _ _ n Hst). cbn -[std_sort]. by rewrite std_sort_perm.
  - rewrite composed_requirements. apply Forall_map, Forall_forall. intros r _. apply canonical_requirement_id.
  - cbn -[std_sort]. by rewrite !sort_requirements_key, std_sort_idem.
  - unfold composed_body. cbv zeta. by rewrite body_digest_with_id.
  - done.
  - done.
  - done.
Qed.

(** Every outcome of a composition is one of two: a body without errors, or the default
    body with one diagnostic that carries the code of the result.  The refusals are a
    surplus of layers, a repeated key of the base, an unnamed layer, a weakening, a
    conflict, or nothing left to require; the last check for repeated keys never
    refuses, since a run that was not refused has distinct keys. *)
Theorem compose_outcome (base : ContractBody) (layers : list OverlayLayer) (max : Z) :
  let r := compose base layers max in
  (comp_ok r = true /\ comp_code r = kOk /\ entries (comp_log r) = []
   /\ exists st, compose_steps base layers max = Ok st)
  \/ (comp_ok r = false /\ first_error_code (comp_log r) = comp_code r /\ comp_body r = default_body
      /\ ((comp_code r = kTooManyLayers /\ max < zlength layers)
          \/ (comp_code r = kDuplicateRequirement /\ ~ NoDup (composite_key <$> requirements base))
          \/ (layer_code (comp_code r) /\ exists e, compose_steps base layers max = Err e)
          \/ (comp_code r = kEmptyRequirementSet
              /\ requirements base = [] /\ given_requirements layers = []))).
Proof.
  intros r. subst r. unfold compose. destruct (compose_steps base layers max) as [st|e] eqn:E.
  - destruct (compose_steps_progress _ _ _ _ E) as (st0 & E0 & Hp). cbv zeta.
    rewrite distinct_no_repeat by apply composed_keys, Hp.
    destruct (zlength (requirements (composed_body base st)) =? 0) eqn:Ez; [right|left; by eauto].
    split_and!; [done..|]. do 3 right. apply zlength_zero, composed_empty in Ez.
    assert (requirements base ++ given_requirements layers = []) as Hn.
    { rewrite <- E0. destruct (cs_requirements st0 ++ given_requirements layers) as [|x l] eqn:El; [done|].
      destruct (pr_covers _ _ _ Hp x) as (c & Hc & _); [rewrite El; left|]. rewrite Ez in Hc. by apply elem_of_nil in Hc. }
    apply app_eq_nil in Hn. by destruct Hn.
  - right. unfold compose_steps in E. destruct (Z.ltb_spec max (zlength layers)).
    { injection E as <-. split_and!; [done..|]. by left. }
    pose proof (index_base_ok (requirements base) 0 [] [] eq_refl) as Hb.
    destruct (index_base 0 (requirements base) []) as [index|].
    + apply compose_layers_code in E as Hc. split_and!; [done| |done|right; right; left; eauto].
      destruct e as [c m i d]. simpl in *. by destruct Hc as [->|[->| ->]].
    + injection E as <-. split_and!; [done..|]. right; left. split; [done|]. apply Hb.
      intros k p. split; [done|]. by intros (x & ? & _).
Qed.
End ComposeProperties.

(** The comparison of two requirements of one kind decides the order of strength: 1
    exactly when the first outranks the second, -1 exactly when only the second
    outranks the first, 0 exactly when they are incomparable. *)
Theorem compare_requirement_strength_exact (a b : Requirement) :
  kind a = kind b ->
  (compare_requirement_strength a b = 1 <-> outranks a b)
  /\ (compare_requirement_strength a b = -1 <-> outranks b a /\ ~ outranks a b)
  /\ (compare_requirement_strength a b = 0 <-> ~ outranks a b /\ ~ outranks b a).
Proof.
  intros Hk. pose proof (compare_outranks a b). pose proof (compare_sym a b Hk).
  split_and!; [done..|]. destruct (compare_values a b) as [E|[E|E]]; rewrite E in *; intuition congruence.
Qed.

(** ** Concrete runs *)
Definition bandwidth (s : RequirementStrength) (target minimum : Z) : Requirement :=
  mk_requirement zero_id "root" kMinBandwidth s (double_of_int target) (double_of_int minimum) true
    EmptyString EmptyString [] [] "bw".

Definition bandwidth_base : ContractBody :=
  sample_body [sample_scope "root"] [bandwidth kPreferred 100 50].

(** Strength outranks the band: a layer that raises the strength may weaken both bounds.
    A preferred floor of 50 with a target of 100 is replaced by a required 10. *)
Theorem compose_strength_weakens_band :
  exists (base : ContractBody) (layer : OverlayLayer) (r c : Requirement),
    let result := @compose toy_hashing base [layer] kMaxCompositionLayers in
    comp_ok result = true /\ r ∈ requirements base /\ c ∈ requirements (comp_body result)
    /\ composite_key c = composite_key r /\ kind_is_floor (kind r) = true
    /\ dlt (target c) (target r) = true /\ dlt (minimum c) (minimum r) = true.
Proof.
  exists bandwidth_base, (mk_layer "overlay" [] [bandwidth kRequired 10 10]), (bandwidth kPreferred 100 50),
    (@canonical_requirement toy_hashing (bandwidth kRequired 10 10)).
  split_and!; try (vm_compute; reflexivity); vm_compute; left.
Qed.

(** The comparison ignores the members of a collective: an overlay may drop one of a
    required collective, and the composition reports the requirement as strengthened. *)
Definition collective (l : list RequirementId) : Requirement :=
  mk_requirement zero_id "root" kCollective kRequired d_zero d_zero false "supported" EmptyString l [] "c".

Theorem compose_drops_member :
  let m1 := from_digest (repeat 1 32) in
  let m2 := from_digest (repeat 2 32) in
  let result := @compose toy_hashing (sample_body [sample_scope "root"] [collective [m1; m2]])
                  [mk_layer "overlay" [] [collective [m1]]] kMaxCompositionLayers in
  comp_ok result = true /\ map members (requirements (comp_body result)) = [[m1]]
  /\ ~ keeps_members (collective [m1; m2]) (collective [m1]).
Proof.
  cbv zeta. split_and!; [vm_compute; reflexivity|vm_compute; reflexivity|].
  intros Hm. specialize (Hm eq_refl). cbn [members collective] in Hm. rewrite !Forall_cons in Hm. destruct Hm as (_ & H2 & _).
  apply list_elem_of_singleton in H2. vm_compute in H2. discriminate H2.
Qed.

Definition strengthening : OverlayLayer :=
  mk_layer "overlay" [sample_scope "leaf"] [bandwidth kPreferred 200 50; sample_requirement "leaf" "k" []].

Lemma strengthening_accepted :
  comp_ok (@compose toy_hashing bandwidth_base [strengthening] kMaxCompositionLayers) = true.
Proof. vm_compute. reflexivity. Qed.

Lemma compose_never_weakens_witness :
  exists c, c ∈ requirements (comp_body (@compose toy_hashing bandwidth_base [strengthening] kMaxCompositionLayers))
    /\ terms_covered c (bandwidth kPreferred 200 50).
Proof.
  destruct (@compose_never_weakens toy_hashing bandwidth_base [strengthening] kMaxCompositionLayers
    (bandwidth kPreferred 200 50)) as (c & Hin & Hc & _); [exact strengthening_accepted|right; left|].
  exists c. exact (conj Hin Hc).
Defined.

Lemma compose_canonical_witness :
  let b := comp_body (@compose toy_hashing bandwidth_base [strengthening] kMaxCompositionLayers) in
  NoDup (composite_key <$> requirements b) /\ workload b = workload bandwidth_base.
Proof.
  intros b. destruct (@compose_canonical toy_hashing bandwidth_base [strengthening] kMaxCompositionLayers
    strengthening_accepted) as (H1 & _ & _ & _ & _ & _ & H2 & _). exact (conj H1 H2).
Defined.

Lemma compare_requirement_strength_exact_witness :
  outranks (bandwidth kPreferred 200 50) (bandwidth kPreferred 100 50).
Proof.
  apply (compare_requirement_strength_exact (bandwidth kPreferred 200 50) (bandwidth kPreferred 100 50));
    vm_compute; reflexivity.
Defined.
