(* ===== verification/State.v ===== *)
(** * Durable file primitives

    Models the POSIX half of [src/state.cpp] over a state directory: the files of the
    directory are a [std::map] from name to contents, in name order.  What the operating
    system answers to each call is an argument, a [Disk]: whether the file opens, what
    each [write] returns, whether [fsync] and [rename] succeed.  The texts of the
    messages that print a path or an operating system error, and the files that exist but
    are refused, come from the class [Host].

    The Windows half, the advisory lock, [ensure_directory] and [is_within] are in
    [StateWindows]; the outcomes of the last two are arguments of [Ledger.open_ledger].
    The two clocks are arguments where they are read. *)
From Stdlib Require Import ZArith Lia Ascii String.
From stdpp Require Import base numbers option list strings.
From S2P Require Import Prelude Errors.

Definition kSnapshotHeaderBytes : Z := 128.
Definition kSnapshotMagic : Z := 827543127.
Definition kSnapshotVersion : Z := 1.

(** The regular files of the state directory. *)
Notation Files := (list (string * bytes)).

(** How the host prints a path of the directory, and the operating system's error; and
    which of the files that exist it lets the process open for reading, or truncate: a file
    may be there and be refused.  A stream that opens gives the whole file. *)
Class Host := {
  path_string : string -> string;
  error_text : string;
  can_read : string -> bool;
  can_truncate : string -> bool
}.

(** A host that refuses no file. *)
Definition host_serves `{Host} : Prop :=
  (forall name, can_read name = true) /\ (forall name, can_truncate name = true).

(** What the operating system does for one durable write: [writes] are the results of the
    successive [write] calls; a call beyond the list writes everything it is given. *)
Record Disk := mk_disk {
  can_open : bool;
  writes : list Z;
  can_sync : bool;
  can_rename : bool
}.

Definition healthy : Disk := mk_disk true [] true true.

Notation io_error := (Code * string)%type.

(** The files after [unlink] or the removal half of [rename]. *)
Definition map_erase (name : string) (files : Files) : Files :=
  filter (fun p => p.1 <> name) files.

(** [while (offset < bytes.size())]: the bytes that reached the file and whether all did. *)
Fixpoint write_loop (writes : list Z) (written remaining : bytes) : bytes * bool :=
  match remaining with
  | [] => (written, true)
  | _ :: _ =>
      match writes with
      | [] => (written ++ remaining, true)
      | w :: writes' =>
          if w <=? 0 then (written, false)
          else write_loop writes' (written ++ take (Z.to_nat w) remaining)
                 (drop (Z.to_nat w) remaining)
      end
  end.

Section Files.
Context `{Host}.

Definition read_file (files : Files) (name : string) (max_bytes : Z) : result io_error bytes :=
  match map_find name files with
  | None => Err (kStateUnavailable,
      String.append "cannot size " (String.append (path_string name) (String.append ": " error_text)))
  | Some contents =>
      if max_bytes <? zlength contents
      then Err (kLedgerOversized, String.append (path_string name) " exceeds the byte bound")
      else if negb (can_read name)
      then Err (kStateUnavailable, String.append "cannot open " (path_string name))
      else Ok contents
  end.

Definition file_size (files : Files) (name : string) : option Z :=
  zlength <$> map_find name files.

Definition temporary_name (name : string) : string := String.append name ".tmp".

(** Every early return leaves the temporary file as the calls so far made it. *)
Definition write_file_atomic (disk : Disk) (files : Files) (name : string) (data : bytes)
    : Files * result io_error unit :=
  let temporary := temporary_name name in
  if negb (can_open disk)
  then (files, Err (kStateUnavailable, String.append "cannot create " (path_string temporary)))
  else
    let '(written, complete) := write_loop (writes disk) [] data in
    let files := map_insert temporary written files in
    if negb complete
    then (files, Err (kIoFailed, String.append "write failed for " (path_string temporary)))
    else if negb (can_sync disk) then (files, Err (kAtomicReplaceFailed, "fsync failed"%string))
    else if negb (can_rename disk)
    then (files, Err (kAtomicReplaceFailed,
        String.append "cannot replace " (String.append (path_string name) (String.append ": " error_text))))
    else (map_insert name written (map_erase temporary files), Ok tt).

Definition append_file_flushed (disk : Disk) (files : Files) (name : string) (data : bytes)
    : Files * result io_error unit :=
  if negb (can_open disk)
  then (files, Err (kStateUnavailable,
      String.append "cannot open " (String.append (path_string name) " for append")))
  else
    let contents := default [] (map_find name files) in
    let '(written, complete) := write_loop (writes disk) [] data in
    let files := map_insert name (contents ++ written) files in
    if negb complete
    then (files, Err (kIoFailed, String.append "append failed for " (path_string name)))
    else if negb (can_sync disk) then (files, Err (kAtomicReplaceFailed, "fsync failed"%string))
    else (files, Ok tt).

(** [::truncate] shortens a file or extends it with zero bytes. *)
Definition truncate_file (files : Files) (name : string) (size : Z) : Files * result io_error unit :=
  match map_find name files with
  | None => (files, Err (kAtomicReplaceFailed, String.append "cannot truncate " (path_string name)))
  | Some contents =>
      if negb (can_truncate name)
      then (files, Err (kAtomicReplaceFailed, String.append "cannot truncate " (path_string name)))
      else
      let n := Z.to_nat size in
      (map_insert name (take n contents ++ repeat 0 (n - length contents)) files, Ok tt)
  end.

Definition remove_file (files : Files) (name : string) : Files := map_erase name files.

End Files.

(** A file that is there, within the bound, and not refused is read. *)
Lemma read_file_present `{Host} files name max_bytes contents :
  can_read name = true -> map_find name files = Some contents -> zlength contents <= max_bytes ->
  read_file files name max_bytes = Ok contents.
Proof. intros Hr Hf Hl. unfold read_file. by rewrite Hf, (proj2 (Z.ltb_ge _ _) Hl), Hr. Qed.

(** ** The write loop *)

(** A write stops early exactly when some call writes nothing; what reached the file is
    a prefix of the data, all of it when every call made progress. *)
Lemma write_loop_prefix ws acc data :
  exists n, (n <= length data)%nat /\ (write_loop ws acc data).1 = acc ++ take n data
       /\ ((write_loop ws acc data).2 = true -> n = length data).
Proof.
  revert acc data; induction ws as [|w ws IH]; intros acc [|b data].
  - exists 0%nat. simpl. rewrite app_nil_r. auto.
  - exists (length (b :: data)). cbn [write_loop fst snd]. rewrite firstn_all. auto.
  - exists 0%nat. simpl. rewrite app_nil_r. auto.
  - set (rest := b :: data).
    assert (write_loop (w :: ws) acc rest =
            if w <=? 0 then (acc, false)
            else write_loop ws (acc ++ take (Z.to_nat w) rest) (drop (Z.to_nat w) rest)) as -> by done.
    destruct (w <=? 0).
    + exists 0%nat. rewrite take_0, app_nil_r. split; [lia|]. by split.
    + destruct (IH (acc ++ take (Z.to_nat w) rest) (drop (Z.to_nat w) rest)) as (n & Hn & E & Hall).
      rewrite length_drop in Hn, Hall. exists (Nat.min (Z.to_nat w) (length rest) + n)%nat.
      rewrite E, <- app_assoc. split; [lia|]. split; [|intros Ht; specialize (Hall Ht); lia].
      f_equal. destruct (decide (Z.to_nat w <= length rest)%nat).
      * rewrite Nat.min_l by lia. by rewrite take_take_drop.
      * rewrite Nat.min_r, (take_ge rest (Z.to_nat w)), (drop_ge rest) by lia.
        rewrite take_nil, app_nil_r, take_ge by lia. done.
Qed.

Lemma write_loop_complete ws data :
  (write_loop ws [] data).2 = true -> (write_loop ws [] data).1 = data.
Proof.
  destruct (write_loop_prefix ws [] data) as (n & _ & -> & Hall). intros Hc.
  rewrite (Hall Hc). simpl. by apply firstn_all.
Qed.

Lemma write_loop_nil data : write_loop [] [] data = (data, true).
Proof. by destruct data. Qed.

(** One answer per byte is enough: the later ones are never asked for. *)
Lemma write_loop_enough ws ws' acc data :
  (length data <= length ws)%nat -> write_loop (ws ++ ws') acc data = write_loop ws acc data.
Proof.
  revert acc data. induction ws as [|w ws IH]; intros acc [|b rest] Hl.
  - by destruct ws'.
  - cbn in Hl. lia.
  - done.
  - cbn [app write_loop]. destruct (w <=? 0) eqn:E; [done|]. apply Z.leb_gt in E. apply IH.
    rewrite length_drop. cbn [length] in *. lia.
Qed.

Lemma write_loop_positive ws acc data :
  Forall (fun n => 0 < n) ws -> write_loop ws acc data = (acc ++ data, true).
Proof.
  intros Hw. revert acc data. induction Hw as [|w ws Hw _ IH]; intros acc [|b data];
    [simpl; by rewrite app_nil_r|done|simpl; by rewrite app_nil_r|].
  assert (write_loop (w :: ws) acc (b :: data)
    = write_loop ws (acc ++ take (Z.to_nat w) (b :: data)) (drop (Z.to_nat w) (b :: data))) as ->
    by (cbn [write_loop]; by rewrite (proj2 (Z.leb_gt _ _)) by done).
  by rewrite IH, <- app_assoc, take_drop.
Qed.

(** ** Lookups after an update *)
Lemma map_find_erase k k' files :
  map_find k (map_erase k' files) = if decide (k = k') then None else map_find k files.
Proof.
  unfold map_erase. induction files as [|[k0 v0] files IH]; simpl; [by destruct (decide _)|].
  rewrite filter_cons. simpl. destruct (decide (k0 <> k')) as [Hk0|Hk0]; simpl.
  - destruct (key_equiv k k0) eqn:E; [|done]. apply key_equiv_eq in E as ->. by rewrite decide_False.
  - apply dec_stable in Hk0 as ->. rewrite IH. destruct (decide (k = k')); [done|].
    by rewrite key_equiv_ne.
Qed.

Lemma map_erase_eq k files : map_find k (map_erase k files) = None.
Proof. rewrite map_find_erase. by rewrite decide_True. Qed.

Lemma map_erase_ne k k' files : k <> k' -> map_find k (map_erase k' files) = map_find k files.
Proof. intros. rewrite map_find_erase. by rewrite decide_False. Qed.

Lemma filter_keys_sorted (P : string * bytes -> Prop) `{forall p, Decision (P p)} (files : Files) :
  keys_sorted files -> keys_sorted (filter P files).
Proof.
  induction files as [|[k v] files IH]; [done|]. intros [Hlt Hs]. rewrite filter_cons.
  destruct (decide _); simpl; [|by apply IH]. split; [|by apply IH].
  apply Forall_forall. intros q [_ Hq]%list_elem_of_filter. rewrite Forall_forall in Hlt. by apply Hlt.
Qed.

Lemma temporary_name_ne name : name <> temporary_name name.
Proof.
  unfold temporary_name. intros E. apply (f_equal String.length) in E.
  assert (forall s t, String.length (String.append s t) = (String.length s + String.length t)%nat) as L.
  { induction s; intros; cbn [String.append String.length Nat.add]; auto. }
  rewrite L in E. simpl in E. lia.
Qed.

(** The destination after an atomic write. *)
Lemma atomic_write_outcome `{Host} disk files name data :
  map_find name (write_file_atomic disk files name data).1
  = (if is_ok (write_file_atomic disk files name data).2 then Some data else map_find name files).
Proof.
  pose proof (temporary_name_ne name) as Hne. unfold write_file_atomic.
  destruct (can_open disk); cbn [negb fst snd is_ok]; [|done].
  destruct (write_loop (writes disk) [] data) as [written complete] eqn:E.
  pose proof (write_loop_complete (writes disk) data) as Hall. rewrite E in Hall. simpl in Hall.
  destruct complete; cbn [negb fst snd is_ok]; [rewrite Hall by done|by apply map_find_insert_ne].
  destruct (can_sync disk); cbn [negb fst snd is_ok]; [|by apply map_find_insert_ne].
  destruct (can_rename disk); cbn [negb fst snd is_ok]; [|by apply map_find_insert_ne].
  apply map_find_insert_eq.
Qed.

(** ** Properties *)

(** The atomic replace is atomic.  Whatever the operating system does to the calls,
    the destination holds afterwards either its old bytes, when the call reports a
    failure, or all of the new bytes, when it reports success; no file but the
    destination and its temporary changes, a success leaves no temporary, and a
    disk that serves every call makes the write succeed. *)
Theorem write_file_atomic_exact `{Host} (disk : Disk) (files : Files) (name : string) (data : bytes) :
  let '(files', r) := write_file_atomic disk files name data in
  map_find name files' = (if is_ok r then Some data else map_find name files)
  /\ (is_ok r = true -> map_find (temporary_name name) files' = None)
  /\ (forall other, other <> name -> other <> temporary_name name ->
        map_find other files' = map_find other files)
  /\ is_ok r = can_open disk && (write_loop (writes disk) [] data).2 && can_sync disk && can_rename disk
  /\ (r = Err (kStateUnavailable, String.append "cannot create " (path_string (temporary_name name))) ->
        files' = files).
Proof.
  pose proof (temporary_name_ne name) as Hne. unfold write_file_atomic.
  destruct (can_open disk); simpl; [|repeat split; done].
  destruct (write_loop (writes disk) [] data) as [written complete] eqn:E.
  pose proof (write_loop_complete (writes disk) data) as Hall. rewrite E in Hall. simpl in Hall.
  destruct complete; [rewrite Hall by done|]; simpl; cycle 1.
  { repeat split; try done; [by apply map_find_insert_ne|]. intros. by apply map_find_insert_ne. }
  destruct (can_sync disk); simpl; cycle 1.
  { repeat split; try done; [by apply map_find_insert_ne|]. intros. by apply map_find_insert_ne. }
  destruct (can_rename disk); simpl; cycle 1.
  { repeat split; try done; [by apply map_find_insert_ne|]. intros. by apply map_find_insert_ne. }
  repeat split; try done.
  - apply map_find_insert_eq.
  - intros _. rewrite map_find_insert_ne by done. apply map_erase_eq.
  - intros other H1 H2. rewrite map_find_insert_ne, map_erase_ne, map_find_insert_ne by done. done.
Qed.
