(* ===== verification/StateWindows.v ===== *)
(** * The durable file primitives on Windows

    Models the Windows half of [src/src/state.cpp] over the same directory as [State]: whole
    files are read and written in chunks of at most 64 KiB, and what [ReadFile] and
    [WriteFile] answer to their successive calls is a function of the number of the call.
    The loops take fuel, since nothing in them bounds the number of calls: [None] is a loop
    that is still running.  The theorems compare the two halves.  The advisory lock, which
    both halves take, is modelled here as well. *)
From Stdlib Require Import ZArith Lia Ascii String.
From stdpp Require Import base numbers option list strings pretty relations.
From S2P Require Import Prelude Errors State.

Definition kReadChunk : Z := 64 * 1024.

(** What Windows answers: to [CreateFileW], to [GetFileSizeEx], to the successive [WriteFile] or [ReadFile] calls
    ([None] is a failure, otherwise the bytes moved), to [FlushFileBuffers], and to
    [MoveFileExW] or [SetEndOfFile]. *)
Record WindowsDisk := mk_windows_disk {
  win_open : bool;
  win_size : bool;
  win_transfer : nat -> option Z;
  win_flush : bool;
  win_finish : bool
}.

(** [min(remaining, kReadChunk)], and the bytes of it a call moved. *)
Definition chunk (remaining : bytes) : Z := if zlength remaining <? kReadChunk then zlength remaining else kReadChunk.
Definition moved (n : Z) (remaining : bytes) : nat := Z.to_nat (Z.min n (chunk remaining)).

(** [while (offset < bytes.size())]: the bytes moved so far and whether no call failed.  A
    read stops at the end of the file, a write goes on. *)
Fixpoint transfer_loop (stops_at_zero : bool) (fuel : nat) (answers : nat -> option Z) (call : nat) (before remaining : bytes)
    : option (bytes * bool) :=
  match remaining with
  | [] => Some (before, true)
  | _ :: _ =>
      match fuel with
      | O => None
      | S fuel =>
          match answers call with
          | None => Some (before, false)
          | Some n =>
              if stops_at_zero && (n =? 0) then Some (before, true)
              else transfer_loop stops_at_zero fuel answers (S call) (before ++ take (moved n remaining) remaining)
                     (drop (moved n remaining) remaining)
          end
      end
  end.

Definition write_loop_windows := transfer_loop false.
Definition read_loop_windows := transfer_loop true.

Section WindowsFiles.
Context `{Host} (last_error : Z).

Definition windows_error (text : string) : string :=
  String.append text (String.append " (error " (String.append (to_string last_error) ")")).

(** [flush_file]; the callers pass a valid handle. *)
Definition flush_file_windows (handle : bool) (d : WindowsDisk) : result io_error unit :=
  if negb handle then Err (kAtomicReplaceFailed, "no file handle to flush"%string)
  else if negb (win_flush d)
  then Err (kAtomicReplaceFailed, String.append "FlushFileBuffers failed with error " (to_string last_error))
  else Ok tt.

Definition read_file_windows (fuel : nat) (d : WindowsDisk) (files : Files) (name : string) (max_bytes : Z)
    : option (result io_error bytes) :=
  match (if win_open d then map_find name files else None) with
  | None => Some (Err (kStateUnavailable, windows_error (String.append "cannot open " (String.append (path_string name) " for reading"))))
  | Some contents =>
      if negb (win_size d) then Some (Err (kStateUnavailable, String.append "cannot size " (path_string name)))
      else if max_bytes <? zlength contents
      then Some (Err (kLedgerOversized,
        String.append (path_string name) (String.append " exceeds the " (String.append (to_string max_bytes) " byte bound"))))
      else
        match read_loop_windows fuel (win_transfer d) 0 [] contents with
        | None => None
        | Some (_, false) => Some (Err (kIoFailed, String.append "ReadFile failed for " (path_string name)))
        | Some (out, true) => Some (Ok out)
        end
  end.

Definition write_file_atomic_windows (fuel : nat) (d : WindowsDisk) (files : Files) (name : string) (data : bytes)
    : option (Files * result io_error unit) :=
  let temporary := temporary_name name in
  if negb (win_open d)
  then Some (files, Err (kStateUnavailable, String.append "cannot create " (path_string temporary)))
  else
    match write_loop_windows fuel (win_transfer d) 0 [] data with
    | None => None
    | Some (written, complete) =>
        let files := map_insert temporary written files in
        if negb complete
        then Some (files, Err (kIoFailed, String.append "WriteFile failed for " (path_string temporary)))
        else
          match flush_file_windows true d with
          | Err e => Some (files, Err e)
          | Ok _ =>
              if negb (win_finish d)
              then Some (files, Err (kAtomicReplaceFailed, windows_error (String.append "cannot replace " (path_string name))))
              else Some (map_insert name written (map_erase temporary files), Ok tt)
          end
    end.

Definition append_file_flushed_windows (fuel : nat) (d : WindowsDisk) (files : Files) (name : string) (data : bytes)
    : option (Files * result io_error unit) :=
  if negb (win_open d)
  then Some (files, Err (kStateUnavailable, String.append "cannot open " (String.append (path_string name) " for append")))
  else
    let contents := default [] (map_find name files) in
    match write_loop_windows fuel (win_transfer d) 0 [] data with
    | None => None
    | Some (written, complete) =>
        let files := map_insert name (contents ++ written) files in
        if negb complete
        then Some (files, Err (kIoFailed, String.append "WriteFile failed for " (path_string name)))
        else Some (files, flush_file_windows true d)
    end.

(** [GetFileAttributesExW]: the high and the low half of the size. *)
Definition file_size_windows (files : Files) (name : string) : option Z :=
  (fun contents => Z.lor (Z.shiftl (zlength contents / 2 ^ 32) 32) (zlength contents mod 2 ^ 32)) <$> map_find name files.

(** [SetEndOfFile] shortens a file or extends it. *)
Definition truncate_file_windows (d : WindowsDisk) (files : Files) (name : string) (size : Z) : Files * result io_error unit :=
  match (if win_open d then map_find name files else None) with
  | None => (files, Err (kStateUnavailable, String.append "cannot open " (String.append (path_string name) " to truncate")))
  | Some contents =>
      if negb (win_finish d) then (files, Err (kAtomicReplaceFailed, String.append "cannot truncate " (path_string name)))
      else
        let n := Z.to_nat size in
        (map_insert name (take n contents ++ repeat 0 (n - length contents)) files, Ok tt)
  end.

End WindowsFiles.

(** ** The two halves compared *)

(** Every call fails or moves something. *)
Definition progresses (d : WindowsDisk) : Prop := forall call n, win_transfer d call = Some n -> 0 < n.

(** The POSIX disk that answers alike: a [write] that fails returns nothing. *)
Definition posix_disk (d : WindowsDisk) (size : nat) : Disk :=
  mk_disk (win_open d)
    (map (fun call => match win_transfer d call with Some n => Z.min n kReadChunk | None => 0 end) (seq 0 size))
    (win_flush d) (win_finish d).

(** Two outcomes with the same value, or the same code and any message. *)
Definition same_outcome {A} (r1 r2 : result io_error A) : Prop :=
  match r1, r2 with
  | Ok x, Ok y => x = y
  | Err e1, Err e2 => e1.1 = e2.1
  | _, _ => False
  end.

Lemma moved_posix n remaining :
  0 < n -> remaining <> [] ->
  take (moved n remaining) remaining = take (Z.to_nat (Z.min n kReadChunk)) remaining
  /\ drop (moved n remaining) remaining = drop (Z.to_nat (Z.min n kReadChunk)) remaining
  /\ (0 < moved n remaining)%nat.
Proof.
  intros Hn Hr. assert (0 < zlength remaining) as Hz by (destruct remaining; [done|unfold zlength; simpl; lia]).
  unfold moved, chunk, kReadChunk in *.
  destruct (Z.ltb_spec (zlength remaining) (64 * 1024)) as [Hl|Hl].
  - split_and!; [| |unfold zlength in *; lia];
      (destruct (decide (n <= zlength remaining)) as [Hle|Hgt]; [by rewrite !Z.min_l by (unfold zlength in *; lia)|]).
    + rewrite !take_ge by (unfold zlength in *; lia). done.
    + rewrite !drop_ge by (unfold zlength in *; lia). done.
  - split_and!; [done|done|lia].
Qed.

(** The chunked loop moves what the loop of the POSIX half moves. *)
Lemma transfer_posix stops (answers : nat -> option Z) fuel call before remaining :
  (forall k n, answers k = Some n -> 0 < n) -> (length remaining <= fuel)%nat ->
  transfer_loop stops fuel answers call before remaining
  = Some (write_loop (map (fun k => match answers k with Some n => Z.min n kReadChunk | None => 0 end) (seq call fuel))
            before remaining).
Proof.
  intros Hp. revert call before remaining. induction fuel as [|fuel IH]; intros call before [|b rest] Hl;
    try done; [simpl in Hl; lia|].
  set (remaining := b :: rest) in *. cbn [transfer_loop seq map]. fold remaining.
  assert (remaining <> []) as Hne by done. unfold remaining at 1. cbv beta iota.
  change (write_loop ?ws before remaining) with (write_loop ws before (b :: rest)).
  destruct (answers call) as [n|] eqn:Ea; cbn [write_loop]; fold remaining.
  2: done.
  pose proof (Hp _ _ Ea) as Hn. rewrite (proj2 (Z.eqb_neq _ _)) by lia. rewrite andb_false_r.
  rewrite (proj2 (Z.leb_gt _ _)) by (unfold kReadChunk; lia).
  destruct (moved_posix n remaining Hn Hne) as (-> & Ed & Hm). rewrite IH; [by rewrite Ed|].
  rewrite length_drop. unfold remaining in *. simpl in *. lia.
Qed.

(** ** The directory *)

(** [ensure_directory] on both platforms: whether the directories could be created and
    whether the path is a directory afterwards. *)
Definition ensure_directory_result `{Host} (created directory : bool) (path : string) : result io_error unit :=
  if negb created && negb directory
  then Err (kDirectoryUnavailable,
    String.append "cannot create " (String.append (path_string path) (String.append ": " error_text)))
  else Ok tt.

(** [is_within], of what [weakly_canonical] and [lexically_relative] give. *)
Definition is_within (root candidate : option string) (relative : string -> string -> string) : bool :=
  match root, candidate with
  | Some normal_root, Some normal_candidate =>
      let text := relative normal_candidate normal_root in
      if is_empty text then String.eqb normal_candidate normal_root else negb (String.prefix ".." text)
  | _, _ => false
  end.

(** The exclusive lock on [lock.bin]: the process that holds it, if one does. *)
Definition lock_directory (opens : bool) (holder : option nat) (me : nat) : option nat * result io_error nat :=
  if negb opens then (holder, Err (kDirectoryUnavailable, "cannot open the state directory lock"%string))
  else match holder with
       | Some _ => (holder, Err (kLockHeld, "another live process owns the state directory"%string))
       | None => (Some me, Ok me)
       end.

Definition unlock_directory (holder : option nat) (token : option nat) : option nat :=
  match token with None => holder | Some _ => None end.

(** ** What the loops move *)
Lemma write_windows_posix d fuel data :
  progresses d -> (length data <= fuel)%nat ->
  write_loop_windows fuel (win_transfer d) 0 [] data = Some (write_loop (writes (posix_disk d fuel)) [] data).
Proof. intros Hp Hl. by apply transfer_posix. Qed.

Lemma read_windows_whole d fuel data :
  progresses d -> (forall call, win_transfer d call <> None) -> (length data <= fuel)%nat ->
  read_loop_windows fuel (win_transfer d) 0 [] data = Some (data, true).
Proof.
  intros Hp Hs Hl. unfold read_loop_windows. rewrite transfer_posix by done. f_equal.
  rewrite (write_loop_positive (map _ _) [] data); [done|]. apply Forall_forall. intros w (k & <- & _)%list_elem_of_In%in_map_iff.
  destruct (win_transfer d k) as [n|] eqn:E; [|by destruct (Hs k)]. specialize (Hp k n E). unfold kReadChunk. lia.
Qed.

Lemma size_halves n : 0 <= n -> Z.lor (Z.shiftl (n / 2 ^ 32) 32) (n mod 2 ^ 32) = n.
Proof.
  intros Hn. apply Z.bits_inj'. intros i Hi. rewrite Z.lor_spec.
  destruct (Z.ltb_spec i 32).
  - rewrite Z.shiftl_spec_low, Z.mod_pow2_bits_low by lia. done.
  - rewrite Z.shiftl_spec_high, Z.mod_pow2_bits_high, Z.div_pow2_bits, orb_false_r by lia. f_equal. lia.
Qed.

(** ** Properties *)

(** C19: the Windows half does what the POSIX half does.  On a disk whose calls fail or make
    progress, and in particular in chunks of at most 64 KiB, writing and appending leave the
    same files and report the same code as the POSIX half on a disk that answers alike.  A
    read whose size query and transfers succeed gives the same bytes or the same code as the
    POSIX read on a host that opens the same files, but for a file that is refused and too
    large, which POSIX calls too large; a transfer that fails at once is an I/O failure,
    which the POSIX half never reports.  The sizes agree; and on a host that truncates when
    the two Windows calls succeed, cutting a file leaves the same files and succeeds in the
    same cases, with the same code when a file that is there could be opened. *)
Theorem windows_posix_equivalent `{Host} (last_error : Z) (d : WindowsDisk) (files : Files) (name : string)
    (data : bytes) (fuel : nat) (max_bytes size : Z) :
  progresses d -> (length data <= fuel)%nat ->
  let disk := posix_disk d fuel in
  (exists r, write_file_atomic_windows last_error fuel d files name data = Some ((write_file_atomic disk files name data).1, r)
     /\ same_outcome r (write_file_atomic disk files name data).2)
  /\ (exists r, append_file_flushed_windows last_error fuel d files name data = Some ((append_file_flushed disk files name data).1, r)
     /\ same_outcome r (append_file_flushed disk files name data).2)
  /\ (win_open d = can_read name -> win_size d = true -> (forall call, win_transfer d call <> None) ->
      map_find name files = Some data \/ map_find name files = None ->
      win_open d = true \/ zlength data <= max_bytes ->
      exists r, read_file_windows last_error fuel d files name max_bytes = Some r
        /\ same_outcome r (read_file files name max_bytes))
  /\ (win_open d = true -> win_size d = true -> map_find name files = Some data -> data <> [] ->
      zlength data <= max_bytes -> win_transfer d 0 = None ->
      read_file_windows last_error fuel d files name max_bytes
      = Some (Err (kIoFailed, String.append "ReadFile failed for " (path_string name))))
  /\ file_size_windows files name = file_size files name
  /\ (win_open d && win_finish d = can_truncate name ->
      (truncate_file_windows d files name size).1 = (truncate_file files name size).1
      /\ is_ok (truncate_file_windows d files name size).2 = is_ok (truncate_file files name size).2
      /\ (win_open d = true -> is_Some (map_find name files) ->
          truncate_file_windows d files name size = truncate_file files name size)).
Proof.
  intros Hp Hl disk. pose proof (write_windows_posix d fuel data Hp Hl) as Hw. fold disk in Hw. split_and!.
  - unfold write_file_atomic_windows, write_file_atomic. rewrite Hw. change (can_open disk) with (win_open d).
    change (can_sync disk) with (win_flush d). change (can_rename disk) with (win_finish d).
    destruct (win_open d); cbn [negb]; [|by eexists]. destruct (write_loop _ [] data) as [written []]; cbn [negb]; [|by eexists].
    unfold flush_file_windows. destruct (win_flush d); cbn [negb]; [|by eexists]. destruct (win_finish d); by eexists.
  - unfold append_file_flushed_windows, append_file_flushed. rewrite Hw. change (can_open disk) with (win_open d).
    change (can_sync disk) with (win_flush d).
    destruct (win_open d); cbn [negb]; [|by eexists]. destruct (write_loop _ [] data) as [written []]; cbn [negb]; [|by eexists].
    unfold flush_file_windows. destruct (win_flush d); by eexists.
  - intros Ho Hz Hs Hf Hb. unfold read_file_windows, read_file. rewrite <- Ho, Hz.
    destruct Hf as [-> | ->]; [|destruct (win_open d); by eexists]. destruct (win_open d); cbn [negb].
    + destruct (max_bytes <? zlength data); [by eexists|]. rewrite read_windows_whole by done. by eexists.
    + destruct Hb as [Hb|Hb]; [done|]. rewrite (proj2 (Z.ltb_ge _ _) Hb). by eexists.
  - intros Ho Hz Hf Hd Hb Ht. unfold read_file_windows, read_loop_windows. rewrite Ho, Hz, Hf. cbn [negb].
    rewrite (proj2 (Z.ltb_ge _ _) Hb). destruct data as [|b data]; [done|]. destruct fuel as [|fuel]; [simpl in Hl; lia|].
    cbn [transfer_loop]. by rewrite Ht.
  - unfold file_size_windows, file_size. destruct (map_find name files) as [contents|]; [|done]. simpl. f_equal.
    apply size_halves. unfold zlength. lia.
  - intros Hc. unfold truncate_file_windows, truncate_file. rewrite <- Hc.
    destruct (map_find name files) as [contents|], (win_open d), (win_finish d); cbn [andb negb];
      split_and!; try done; by intros _ [].
Qed.

Lemma transfer_stuck answers fuel call before remaining :
  remaining <> [] -> (forall k, answers k = Some 0) -> transfer_loop false fuel answers call before remaining = None.
Proof.
  intros Hr Ha. revert call. induction fuel as [|fuel IH]; intros call; (destruct remaining as [|b rest]; [done|]); [done|].
  cbn [transfer_loop andb]. rewrite Ha.
  assert (moved 0 (b :: rest) = 0%nat) as ->.
  { unfold moved. assert (0 <= chunk (b :: rest)) by (unfold chunk, kReadChunk, zlength; case_match; lia). by rewrite Z.min_l. }
  rewrite take_0, drop_0, app_nil_r. apply IH.
Qed.

(** C20: when the write loops of the Windows half end.  On a disk whose calls fail or make
    progress they end within one call per byte, whatever the size of the chunks.  But a call
    that succeeds and writes nothing is not an error there: while the system keeps answering
    that, an atomic write or an append of any bytes never returns, however many calls it
    makes, where the POSIX half reports the failure at the first one. *)
Theorem windows_writes_end `{Host} (last_error : Z) (d : WindowsDisk) (files : Files) (name : string) (data : bytes) :
  let atomic fuel := write_file_atomic_windows last_error fuel d files name data in
  let append fuel := append_file_flushed_windows last_error fuel d files name data in
  (progresses d -> forall fuel, (length data <= fuel)%nat ->
     is_Some (atomic fuel) /\ is_Some (append fuel) /\ atomic fuel = atomic (length data) /\ append fuel = append (length data))
  /\ (win_open d = true -> data <> [] -> (forall call, win_transfer d call = Some 0) ->
      (forall fuel, atomic fuel = None /\ append fuel = None)
      /\ forall size, (0 < size)%nat ->
         (write_file_atomic (posix_disk d size) files name data).2
         = Err (kIoFailed, String.append "write failed for " (path_string (temporary_name name)))
         /\ (append_file_flushed (posix_disk d size) files name data).2
            = Err (kIoFailed, String.append "append failed for " (path_string name))).
Proof.
  cbv zeta. split.
  - intros Hp fuel Hl. pose proof (write_windows_posix d fuel data Hp Hl) as Hw.
    pose proof (write_windows_posix d (length data) data Hp ltac:(lia)) as Hw'.
    assert (write_loop (writes (posix_disk d fuel)) [] data = write_loop (writes (posix_disk d (length data))) [] data) as Ew.
    { unfold posix_disk. cbn [writes]. replace fuel with (length data + (fuel - length data))%nat by lia.
      rewrite seq_app, map_app, write_loop_enough; [done|by rewrite length_map, length_seq]. }
    unfold write_file_atomic_windows, append_file_flushed_windows. rewrite Ew in Hw. clear Ew.
    destruct (write_loop (writes (posix_disk d (length data))) [] data) as [written complete]. rewrite Hw, Hw'.
    destruct (win_open d); cbn [negb]; [|split_and!; first [done|by eexists]]. destruct complete; cbn [negb]; [|split_and!; first [done|by eexists]].
    destruct (flush_file_windows _ _ _); [|split_and!; first [done|by eexists]]. destruct (win_finish d); split_and!; first [done|by eexists].
  - intros Ho Hd Hz. split.
    + intros fuel. unfold write_file_atomic_windows, append_file_flushed_windows, write_loop_windows. rewrite Ho. cbn [negb].
      by rewrite transfer_stuck.
    + intros [|size] Hs; [lia|]. unfold write_file_atomic, append_file_flushed, posix_disk. cbn [can_open writes seq map].
      rewrite Ho, Hz. cbn [negb]. by destruct data.
Qed.

(** A directory on a disk that writes a byte at a time, and one on which nothing is written. *)
#[local] Instance windows_host : Host := {| path_string := fun s => s; error_text := "error"; can_read := fun _ => true; can_truncate := fun _ => true |}.

Definition slow_disk : WindowsDisk := mk_windows_disk true true (fun _ => Some 1) true true.

Lemma slow_disk_progresses : progresses slow_disk.
Proof. intros call n [= <-]. lia. Qed.

Lemma windows_posix_equivalent_witness :
  exists r, write_file_atomic_windows 5 3 slow_disk [] "f" [1; 2; 3]
            = Some ((write_file_atomic (posix_disk slow_disk 3) [] "f" [1; 2; 3]).1, r)
    /\ same_outcome r (write_file_atomic (posix_disk slow_disk 3) [] "f" [1; 2; 3]).2.
Proof.
  exact (proj1 (windows_posix_equivalent 5 slow_disk [] "f" [1; 2; 3] 3 10 0 slow_disk_progresses ltac:(simpl; lia))).
Defined.

Lemma windows_writes_end_witness :
  append_file_flushed_windows 5 1000 (mk_windows_disk true true (fun _ => Some 0) true true) [] "f" [1] = None.
Proof.
  destruct (windows_writes_end 5 (mk_windows_disk true true (fun _ => Some 0) true true) [] "f" [1]) as [_ H].
  destruct (H eq_refl ltac:(discriminate) ltac:(intros; reflexivity)) as [Hn _]. exact (proj2 (Hn 1000%nat)).
Defined.

(** A sibling whose name starts with two dots is inside its parent, and is refused. *)
Lemma dotted_child_outside :
  is_within (Some "state"%string) (Some "state/..cache"%string) (fun _ _ => "..cache"%string) = false.
Proof. reflexivity. Qed.

(** *** The lock *)

(** The processes that were given the lock and did not release it.  A process that ends
    releases what it holds. *)
Inductive lock_step : option nat * list nat -> option nat * list nat -> Prop :=
| step_locked opens holder holders me holder' :
    lock_directory opens holder me = (holder', Ok me) -> lock_step (holder, holders) (holder', me :: holders)
| step_refused opens holder holders me holder' e :
    lock_directory opens holder me = (holder', Err e) -> lock_step (holder, holders) (holder', holders)
| step_released holder holders me :
    me ∈ holders -> lock_step (holder, holders) (unlock_directory holder (Some me), List.remove Nat.eq_dec me holders).

(** One live process owns a directory. *)
Lemma lock_exclusive s : rtc lock_step (None, []) s -> s.2 = match s.1 with Some me => [me] | None => [] end.
Proof.
  intros Hr. remember (None, []) as s0 eqn:E.
  assert (s0.2 = match s0.1 with Some me => [me] | None => [] end) as H0 by by subst. clear E.
  induction Hr as [|s1 s2 s3 Hs _ IH]; [done|]. apply IH. clear IH.
  destruct Hs as [opens holder holders me holder' Hl|opens holder holders me holder' e Hl|holder holders me Hin]; cbn [fst snd] in *.
  - unfold lock_directory in Hl. destruct opens, holder; try discriminate. injection Hl as <-. by rewrite H0.
  - unfold lock_directory in Hl. destruct opens, holder; try discriminate; by injection Hl as <- _.
  - subst holders. destruct holder as [owner|]; [|by apply elem_of_nil in Hin].
    apply list_elem_of_singleton in Hin as ->. simpl. by destruct (Nat.eq_dec owner owner).
Qed.
