(* ===== verification/Frame.v ===== *)
(** * Journal frames

    Models the frame format of [src/ledger.cpp]: the little endian integers, the record
    types and their tokens, [build_frame] and [parse_frame].  File contents and record
    payloads are lists of byte values.  A frame is read at an offset that never exceeds
    the size of the buffer. *)
From Stdlib Require Import ZArith Lia Ascii String.
From stdpp Require Import base numbers option list strings.
From S2P Require Import Prelude Identity Errors Hash Json State.

Definition kMaxRecordBytes : Z := kMaxDocumentBytes.
Definition kRecordMagic : Z := 827084375.
Definition kFrameHeaderBytes : nat := 92.

(** ** Little endian integers *)

(** [write_u16], [write_u32] and [write_u64] push the [n] low bytes, least significant
    first. *)
Definition write_le (n : nat) (value : Z) : bytes :=
  map (fun i => Z.land (Z.shiftr value (8 * Z.of_nat i)) 255) (seq 0 n).

Definition write_u16 : Z -> bytes := write_le 2.
Definition write_u32 : Z -> bytes := write_le 4.
Definition write_u64 : Z -> bytes := write_le 8.

(** [read_u16], [read_u32] and [read_u64] read the first bytes at the pointer. *)
Definition read_le (n : nat) (data : bytes) : Z :=
  fold_left (fun value i => Z.lor value (Z.shiftl (nth i data 0) (8 * Z.of_nat i))) (seq 0 n) 0.

Definition read_u16 : bytes -> Z := read_le 2.
Definition read_u32 : bytes -> Z := read_le 4.
Definition read_u64 : bytes -> Z := read_le 8.

(** ** Record types

    [enum class RecordType : std::uint16_t]: the parser casts whatever 16 bit value the
    header carries, so a record type is a 16 bit value with named constants. *)
Notation RecordType := Z (only parsing).
Definition kUnknown : RecordType := 0.
Definition kGenesis : RecordType := 1.
Definition kWorkloadRegistered : RecordType := 2.
Definition kContractPublished : RecordType := 3.
Definition kWorkloadRetired : RecordType := 4.
Definition kEvidenceAttached : RecordType := 5.
Definition kPolicyInstalled : RecordType := 6.
Definition kEvaluationRecorded : RecordType := 7.
Definition kRecoveryMarker : RecordType := 8.

Definition kRecordTokens : list (RecordType * string) := [
  (kUnknown, "unknown"%string); (kGenesis, "genesis"%string);
  (kWorkloadRegistered, "workload_registered"%string);
  (kContractPublished, "contract_published"%string);
  (kWorkloadRetired, "workload_retired"%string);
  (kEvidenceAttached, "evidence_attached"%string);
  (kPolicyInstalled, "policy_installed"%string);
  (kEvaluationRecorded, "evaluation_recorded"%string)
].

Definition record_type_token (type : RecordType) : string :=
  match List.find (fun entry => entry.1 =? type) kRecordTokens with
  | Some entry => entry.2
  | None => "unknown"
  end.

Definition parse_record_type (text : string) : option RecordType :=
  fst <$> List.find (fun entry => String.eqb entry.2 text) kRecordTokens.

(** ** Records *)
Record LedgerRecord := mk_record {
  r_sequence : Z;
  r_type : RecordType;
  r_payload : bytes;
  r_payload_digest : Digest;
  r_previous_chain : Digest;
  r_chain : Digest
}.

(** [header[i] = 0] for [i] in [56, 88). *)
Definition zero_link (header : bytes) : bytes := take 56 header ++ repeat 0 32 ++ drop 88 header.

Section Frames.
Context `{Hashing}.

Definition digest_of (data : bytes) : Digest := sha256 data.

Definition chain_of (header_prefix payload : bytes) : Digest := digest_of (header_prefix ++ payload).

(** The frame, its chain value and the digest of its payload. *)
Definition build_frame (type : RecordType) (sequence : Z) (payload : bytes) (previous_chain : Digest)
    : bytes * Digest * Digest :=
  let payload_out := digest_of payload in
  let header := write_u32 kRecordMagic ++ write_u16 1 ++ write_u16 type ++ write_u64 sequence
    ++ write_u64 (zlength payload) ++ payload_out ++ previous_chain in
  let header := zero_link header in
  let chain_out := chain_of (take 88 header) payload in
  let header := take 56 header ++ previous_chain ++ drop 88 header in
  let header := header ++ write_u32 (crc32 header) in
  (header ++ payload, chain_out, payload_out).

Definition parse_frame (data : bytes) (offset : nat) : result io_error (LedgerRecord * nat) :=
  let header := drop offset data in
  if (length header <? kFrameHeaderBytes)%nat
  then Err (kLedgerTruncated, "frame header is incomplete"%string)
  else if negb (read_u32 header =? kRecordMagic)
  then Err (kLedgerCorrupt, "frame magic does not match the journal format"%string)
  else
    let version := read_u16 (drop 4 header) in
    if negb (version =? 1)
    then Err (kLedgerIncompatible,
      String.append "frame format version " (String.append (to_string version) " is not supported"))
    else
      let type := read_u16 (drop 6 header) in
      let sequence := read_u64 (drop 8 header) in
      let payload_length := read_u64 (drop 16 header) in
      if kMaxRecordBytes <? payload_length
      then Err (kLedgerOversized,
        String.append "frame declares " (String.append (to_string payload_length) " payload bytes"))
      else if negb (read_u32 (drop 88 header) =? crc32 (take 88 header))
      then Err (kLedgerCorrupt, "frame header integrity check failed"%string)
      else
        let total := (kFrameHeaderBytes + Z.to_nat payload_length)%nat in
        if (length header <? total)%nat
        then Err (kLedgerTruncated, "frame payload is incomplete"%string)
        else
          let payload := slice 92 (Z.to_nat payload_length) header in
          let payload_digest := slice 24 32 header in
          if negb (bool_decide (digest_of payload = payload_digest))
          then Err (kLedgerCorrupt, "frame payload digest does not match its bytes"%string)
          else Ok (mk_record sequence type payload payload_digest zero_digest (slice 56 32 header), total).

End Frames.

(** ** Lemmas on little endian integers *)
Lemma seq_S_last n : seq 0 (S n) = seq 0 n ++ [n].
Proof. by rewrite seq_S. Qed.

Lemma nth_is_byte n data : Forall is_byte data -> is_byte (nth n data 0).
Proof.
  intros Hd. destruct (decide (n < length data)%nat).
  - rewrite Forall_forall in Hd. apply Hd, list_elem_of_In, nth_In. lia.
  - rewrite nth_overflow by lia. unfold is_byte. lia.
Qed.

Lemma read_le_step n data :
  Forall is_byte data -> 0 <= read_le n data < 2 ^ (8 * Z.of_nat n) ->
  read_le (S n) data = read_le n data + nth n data 0 * 2 ^ (8 * Z.of_nat n).
Proof.
  intros Hd Hr. unfold read_le in *. rewrite seq_S_last, fold_left_app. cbn [fold_left].
  rewrite Z.lor_comm, lor_shiftl_add by lia. lia.
Qed.

Lemma read_le_range n data : Forall is_byte data -> 0 <= read_le n data < 2 ^ (8 * Z.of_nat n).
Proof.
  intros Hd. induction n as [|n IH]; [by vm_compute|]. rewrite read_le_step by done.
  pose proof (nth_is_byte n data Hd) as Hb. unfold is_byte in Hb.
  replace (8 * Z.of_nat (S n)) with (8 * Z.of_nat n + 8) by lia. rewrite Z.pow_add_r by lia.
  change (2 ^ 8) with 256. nia.
Qed.

Lemma read_le_S n data :
  Forall is_byte data -> read_le (S n) data = read_le n data + nth n data 0 * 2 ^ (8 * Z.of_nat n).
Proof. intros. apply read_le_step; [done|]. by apply read_le_range. Qed.

Lemma read_le_last n data :
  read_le (S n) data = Z.lor (read_le n data) (Z.shiftl (nth n data 0) (8 * Z.of_nat n)).
Proof. unfold read_le. rewrite seq_S_last, fold_left_app. done. Qed.

Lemma read_le_app n a b : (n <= length a)%nat -> read_le n (a ++ b) = read_le n a.
Proof.
  induction n as [|n IH]; intros Hn; [done|].
  rewrite !read_le_last, IH, app_nth1 by lia. done.
Qed.

Lemma write_le_length n value : length (write_le n value) = n.
Proof. unfold write_le. by rewrite length_map, length_seq. Qed.

Lemma write_le_S n value :
  write_le (S n) value = write_le n value ++ [(value / 2 ^ (8 * Z.of_nat n)) mod 2 ^ 8].
Proof.
  unfold write_le. rewrite seq_S_last, map_app. cbn [map]. change 255 with (2 ^ 8 - 1).
  by rewrite land_shiftr_mod by lia.
Qed.

Lemma write_le_bytes n value : Forall is_byte (write_le n value).
Proof.
  induction n as [|n IH]; [constructor|]. rewrite write_le_S. apply Forall_app. split; [done|].
  constructor; [|constructor]. unfold is_byte.
  pose proof (Z.mod_pos_bound (value / 2 ^ (8 * Z.of_nat n)) (2 ^ 8)). lia.
Qed.

Lemma write_le_mod n k value : (n <= k)%nat -> write_le n (value mod 2 ^ (8 * Z.of_nat k)) = write_le n value.
Proof.
  induction n as [|n IH]; intros Hk; [done|]. rewrite !write_le_S, IH by lia.
  by rewrite div_mod_pow2 by lia.
Qed.

(** What a field of [n] bytes gives back: the value modulo the width. *)
Lemma read_write_le n value rest : read_le n (write_le n value ++ rest) = value mod 2 ^ (8 * Z.of_nat n).
Proof.
  rewrite read_le_app by (rewrite write_le_length; lia).
  induction n as [|n IH]; [by rewrite Z.mod_1_r|].
  rewrite read_le_S by apply write_le_bytes. rewrite write_le_S.
  rewrite read_le_app by (rewrite write_le_length; lia). rewrite IH.
  rewrite app_nth2, write_le_length, Nat.sub_diag by (rewrite write_le_length; lia). cbn [nth].
  replace (8 * Z.of_nat (S n)) with (8 * Z.of_nat n + 8) by lia. rewrite Z.pow_add_r by lia.
  rewrite Z.rem_mul_r by lia. lia.
Qed.

Lemma read_write_small n value rest :
  0 <= value < 2 ^ (8 * Z.of_nat n) -> read_le n (write_le n value ++ rest) = value.
Proof. intros. rewrite read_write_le. by apply Z.mod_small. Qed.

(** The bytes of a field are those its value is written with. *)
Lemma write_read_le n data :
  Forall is_byte data -> (n <= length data)%nat -> write_le n (read_le n data) = take n data.
Proof.
  intros Hd. induction n as [|n IH]; intros Hn; [done|].
  pose proof (nth_is_byte n data Hd) as Hb. pose proof (read_le_range n data Hd) as Hr.
  rewrite read_le_S, write_le_S by done.
  rewrite <- (write_le_mod n n) by lia.
  rewrite Z.mod_add, Z.mod_small by lia. rewrite IH by lia.
  rewrite Z.div_add, Z.div_small, Z.mod_small by (unfold is_byte in Hb; lia).
  rewrite (take_S_r data n (nth n data 0)); [done|]. destruct (lookup_lt_is_Some_2 data n) as [x Hx]; [lia|].
  by rewrite Hx, (nth_lookup_Some _ _ 0 x Hx).
Qed.

Lemma read_write_u16 value rest : 0 <= value < 2 ^ 16 -> read_u16 (write_u16 value ++ rest) = value.
Proof. apply (read_write_small 2). Qed.

Lemma read_write_u32 value rest : 0 <= value < 2 ^ 32 -> read_u32 (write_u32 value ++ rest) = value.
Proof. apply (read_write_small 4). Qed.

Lemma read_write_u64 value rest : 0 <= value < 2 ^ 64 -> read_u64 (write_u64 value ++ rest) = value.
Proof. apply (read_write_small 8). Qed.

(** Skips leading fields of known length under [drop] and [slice]. *)
Ltac skip_fields :=
  unfold slice;
  repeat (rewrite drop_app_ge
            by (rewrite ?write_le_length; unfold write_u16, write_u32, write_u64;
                rewrite ?write_le_length; lia);
          unfold write_u16, write_u32, write_u64; rewrite ?write_le_length; cbn [Nat.sub]);
  fold write_u16 write_u32 write_u64; rewrite ?drop_0.

(** ** The layout of a frame *)

(** Bytes 0..87 of the header. *)
Definition frame_prefix (type : RecordType) (sequence length : Z) (payload_digest link : Digest) : bytes :=
  write_u32 kRecordMagic ++ write_u16 1 ++ write_u16 type ++ write_u64 sequence ++ write_u64 length
  ++ payload_digest ++ link.

Lemma frame_prefix_length type sequence len pd link :
  length pd = 32%nat -> length link = 32%nat -> length (frame_prefix type sequence len pd link) = 88%nat.
Proof.
  intros Hp Hl. unfold frame_prefix, write_u16, write_u32, write_u64.
  by rewrite !length_app, !write_le_length, Hp, Hl.
Qed.

Lemma frame_prefix_bytes type sequence len pd link :
  Forall is_byte pd -> Forall is_byte link -> Forall is_byte (frame_prefix type sequence len pd link).
Proof.
  intros Hp Hl. unfold frame_prefix. repeat (apply Forall_app; split); try apply write_le_bytes; done.
Qed.

(** Reading the fields of a prefix back, whatever follows it. *)
Lemma frame_prefix_fields type sequence len pd link rest :
  0 <= type < 2 ^ 16 -> 0 <= sequence < 2 ^ 64 -> 0 <= len < 2 ^ 64 ->
  length pd = 32%nat -> length link = 32%nat ->
  let header := frame_prefix type sequence len pd link ++ rest in
  read_u32 header = kRecordMagic /\ read_u16 (drop 4 header) = 1
  /\ read_u16 (drop 6 header) = type /\ read_u64 (drop 8 header) = sequence
  /\ read_u64 (drop 16 header) = len /\ slice 24 32 header = pd /\ slice 56 32 header = link
  /\ take 88 header = frame_prefix type sequence len pd link /\ drop 88 header = rest.
Proof.
  intros Ht Hs Hlen Hp Hl header.
  pose proof (frame_prefix_length type sequence len pd link Hp Hl) as H88.
  assert (take 88 header = frame_prefix type sequence len pd link) as ->.
  { unfold header. rewrite <- H88. apply take_app_length. }
  assert (drop 88 header = rest) as ->. { unfold header. rewrite <- H88. apply drop_app_length. }
  unfold header, frame_prefix. rewrite <- !app_assoc.
  repeat split; try (skip_fields; (apply read_write_u32 || apply read_write_u16 || apply read_write_u64);
                     (done || (unfold kRecordMagic; lia))).
  - skip_fields. rewrite <- Hp. apply take_app_length.
  - skip_fields. rewrite Hp. cbn [Nat.sub]. rewrite drop_0, <- Hl. apply take_app_length.
Qed.

Section FrameFacts.
Context `{HashingOk}.

(** The chain value of a record: the link field does not enter it. *)
Definition record_chain (type : RecordType) (sequence : Z) (payload : bytes) : Digest :=
  chain_of (frame_prefix type sequence (zlength payload) (digest_of payload) (repeat 0 32)) payload.

(** The bytes of a frame. *)
Definition frame (type : RecordType) (sequence : Z) (payload : bytes) (link : Digest) : bytes :=
  let prefix := frame_prefix type sequence (zlength payload) (digest_of payload) link in
  prefix ++ write_u32 (crc32 prefix) ++ payload.

Lemma digest_of_length data : length (digest_of data) = 32%nat.
Proof. apply sha256_length. Qed.

Lemma record_chain_length type sequence payload : length (record_chain type sequence payload) = 32%nat.
Proof. apply sha256_length. Qed.

Lemma record_chain_bytes type sequence payload : Forall is_byte (record_chain type sequence payload).
Proof. apply sha256_bytes. Qed.

Lemma zero_link_prefix type sequence len pd link :
  length pd = 32%nat -> length link = 32%nat ->
  zero_link (frame_prefix type sequence len pd link) = frame_prefix type sequence len pd (repeat 0 32).
Proof.
  intros Hp Hl. unfold zero_link. rewrite (drop_ge _ 88) by (rewrite frame_prefix_length; done || lia).
  rewrite app_nil_r. unfold frame_prefix. rewrite !app_assoc. f_equal.
  apply take_app_length'. unfold write_u16, write_u32, write_u64.
  by rewrite !length_app, !write_le_length, Hp.
Qed.

Lemma build_frame_eq type sequence payload link :
  length link = 32%nat ->
  build_frame type sequence payload link
  = (frame type sequence payload link, record_chain type sequence payload, digest_of payload).
Proof.
  intros Hl. unfold build_frame. fold (frame_prefix type sequence (zlength payload) (digest_of payload) link).
  pose proof (digest_of_length payload) as Hp.
  rewrite zero_link_prefix by done. set (zeroed := frame_prefix _ _ _ _ (repeat 0 32)).
  assert (length zeroed = 88%nat) as H88 by by apply frame_prefix_length.
  assert (take 56 zeroed ++ link ++ drop 88 zeroed
          = frame_prefix type sequence (zlength payload) (digest_of payload) link) as ->.
  { rewrite (drop_ge zeroed) by lia. rewrite app_nil_r. unfold zeroed, frame_prefix.
    rewrite !app_assoc. f_equal. apply take_app_length'. unfold write_u16, write_u32, write_u64.
    by rewrite !length_app, !write_le_length, Hp. }
  rewrite (take_ge zeroed) by lia. unfold frame. by rewrite <- app_assoc.
Qed.

Lemma frame_length type sequence payload link :
  length link = 32%nat -> length (frame type sequence payload link) = (92 + length payload)%nat.
Proof.
  intros Hl. unfold frame. rewrite !length_app, frame_prefix_length by (apply digest_of_length || done).
  unfold write_u32. rewrite write_le_length. lia.
Qed.

Lemma frame_bytes type sequence payload link :
  Forall is_byte link -> Forall is_byte payload -> Forall is_byte (frame type sequence payload link).
Proof.
  intros Hl Hp. unfold frame. rewrite !Forall_app. split_and!; [|apply write_le_bytes|done].
  apply frame_prefix_bytes; [apply sha256_bytes|done].
Qed.

(** *** Parsing what was built *)

(** A record the journal can hold. *)
Definition entry_ok (type : RecordType) (sequence : Z) (payload : bytes) (link : Digest) : Prop :=
  0 <= type < 2 ^ 16 /\ 0 <= sequence < 2 ^ 64 /\ zlength payload <= kMaxRecordBytes
  /\ length link = 32%nat /\ Forall is_byte link /\ Forall is_byte payload.

(** The record a frame is read as: its link is what the code calls its chain. *)
Definition record_of (type : RecordType) (sequence : Z) (payload : bytes) (link : Digest) : LedgerRecord :=
  mk_record sequence type payload (digest_of payload) zero_digest link.

Lemma prefix_crc_range type sequence len pd link :
  Forall is_byte pd -> Forall is_byte link ->
  0 <= crc32 (frame_prefix type sequence len pd link) < 2 ^ 32.
Proof. intros. apply crc32_u32. by apply frame_prefix_bytes. Qed.

(** Past its header, the parser sees the prefix of the frame and some of the payload. *)
Lemma parse_frame_header type sequence payload link data offset rest :
  entry_ok type sequence payload link ->
  let prefix := frame_prefix type sequence (zlength payload) (digest_of payload) link in
  drop offset data = prefix ++ write_u32 (crc32 prefix) ++ rest ->
  parse_frame data offset =
    if (length rest <? length payload)%nat then Err (kLedgerTruncated, "frame payload is incomplete"%string)
    else if bool_decide (digest_of (take (length payload) rest) = digest_of payload)
    then Ok (mk_record sequence type (take (length payload) rest) (digest_of payload) zero_digest link,
             (92 + length payload)%nat)
    else Err (kLedgerCorrupt, "frame payload digest does not match its bytes"%string).
Proof.
  intros (Ht & Hs & Hlen & Hl & Hlb & Hpb) prefix E. unfold parse_frame. rewrite E.
  assert (length (digest_of payload) = 32%nat) as Hp by apply digest_of_length.
  assert (Forall is_byte (digest_of payload)) as Hdb by apply sha256_bytes.
  assert (0 <= zlength payload < 2 ^ 64) as Hr by (unfold zlength, kMaxRecordBytes, kMaxDocumentBytes in *; lia).
  set (rest' := write_u32 (crc32 prefix) ++ rest).
  assert (length (prefix ++ rest') = (92 + length rest)%nat) as Hlen'.
  { unfold rest'. rewrite !length_app. unfold prefix. rewrite frame_prefix_length by done.
    unfold write_u32. rewrite write_le_length. lia. }
  destruct (frame_prefix_fields type sequence (zlength payload) (digest_of payload) link rest')
    as (F0 & F4 & F6 & F8 & F16 & F24 & F56 & Ft & Fd); [done..|].
  fold prefix in F0, F4, F6, F8, F16, F24, F56, Ft, Fd. cbv zeta.
  rewrite F0, F4, F6, F8, F16, F24, F56, Ft, Fd, Hlen'.
  assert (read_u32 rest' = crc32 prefix) as ->.
  { unfold rest'. apply read_write_u32. by apply prefix_crc_range. }
  assert (slice 92 (Z.to_nat (zlength payload)) (prefix ++ rest') = take (length payload) rest) as ->.
  { unfold slice. rewrite drop_app_ge by (unfold prefix; rewrite frame_prefix_length by done; lia).
    unfold prefix. rewrite frame_prefix_length by done. cbn [Nat.sub]. unfold rest', zlength.
    rewrite Nat2Z.id. done. }
  unfold kFrameHeaderBytes, zlength in *. rewrite Nat2Z.id.
  rewrite (proj2 (Nat.ltb_ge _ _)) by lia. rewrite !Z.eqb_refl. cbn [negb].
  rewrite (proj2 (Z.ltb_ge _ _)) by lia.
  assert ((92 + length rest <? 92 + length payload)%nat = (length rest <? length payload)%nat) as ->.
  { destruct (length rest <? length payload)%nat eqn:El.
    - apply Nat.ltb_lt in El. apply Nat.ltb_lt. lia.
    - apply Nat.ltb_ge in El. apply Nat.ltb_ge. lia. }
  destruct (length rest <? length payload)%nat; [done|].
  by destruct (bool_decide _).
Qed.

Lemma parse_build type sequence payload link pre post :
  entry_ok type sequence payload link ->
  parse_frame (pre ++ frame type sequence payload link ++ post) (length pre)
  = Ok (record_of type sequence payload link, length (frame type sequence payload link)).
Proof.
  intros He. assert (length link = 32%nat) as Hl by apply He.
  rewrite (parse_frame_header type sequence payload link _ _ (payload ++ post)).
  - rewrite length_app, (proj2 (Nat.ltb_ge _ _)) by lia. rewrite take_app_length.
    rewrite bool_decide_true by done. by rewrite frame_length.
  - done.
  - rewrite drop_app_length. unfold frame. by rewrite <- !app_assoc.
Qed.

(** *** What a parsed frame was *)

Lemma field_split n data :
  Forall is_byte data -> (n <= length data)%nat -> data = write_le n (read_le n data) ++ drop n data.
Proof. intros. rewrite write_read_le by done. by rewrite take_drop. Qed.

(** The same for the field at [k], naming the rest by its own offset. *)
Lemma field_split_at n k data :
  Forall is_byte data -> (n + k <= length data)%nat ->
  drop k data = write_le n (read_le n (drop k data)) ++ drop (k + n) data.
Proof.
  intros Hd Hn. rewrite <- drop_drop. apply field_split; [by apply Forall_drop|]. rewrite length_drop. lia.
Qed.

Lemma slice_split n k (data : bytes) : drop k data = slice k n data ++ drop (k + n) data.
Proof. unfold slice. by rewrite <- drop_drop, take_drop. Qed.

(** The checks a parsed frame passed. *)
Lemma parse_frame_Ok data offset r consumed :
  parse_frame data offset = Ok (r, consumed) ->
  let header := drop offset data in
  let payload_length := read_u64 (drop 16 header) in
  (92 + Z.to_nat payload_length <= length header)%nat
  /\ read_u32 header = kRecordMagic /\ read_u16 (drop 4 header) = 1
  /\ payload_length <= kMaxRecordBytes
  /\ read_u32 (drop 88 header) = crc32 (take 88 header)
  /\ digest_of (slice 92 (Z.to_nat payload_length) header) = slice 24 32 header
  /\ r = mk_record (read_u64 (drop 8 header)) (read_u16 (drop 6 header))
            (slice 92 (Z.to_nat payload_length) header) (slice 24 32 header) zero_digest (slice 56 32 header)
  /\ consumed = (92 + Z.to_nat payload_length)%nat.
Proof.
  unfold parse_frame. cbv zeta. intros E.
  destruct (_ <? kFrameHeaderBytes)%nat eqn:E1 in E; [discriminate E|].
  destruct (negb (_ =? kRecordMagic)) eqn:E2 in E; [discriminate E|].
  destruct (negb (_ =? 1)) eqn:E3 in E; [discriminate E|].
  destruct (kMaxRecordBytes <? _) eqn:E4 in E; [discriminate E|].
  destruct (negb (_ =? crc32 _)) eqn:E5 in E; [discriminate E|].
  destruct (_ <? _)%nat eqn:E6 in E; [discriminate E|].
  destruct (negb (bool_decide _)) eqn:E7 in E; [discriminate E|].
  injection E as <- <-. bool_hyps. apply bool_decide_eq_true in E7.
  apply Nat.ltb_ge in E6. apply Z.ltb_ge in E4. rewrite Z.eqb_eq in *. unfold kFrameHeaderBytes in *.
  repeat split; done || lia.
Qed.

Lemma parse_frame_inv data offset r consumed :
  Forall is_byte data -> parse_frame data offset = Ok (r, consumed) ->
  let f := frame (r_type r) (r_sequence r) (r_payload r) (r_chain r) in
  entry_ok (r_type r) (r_sequence r) (r_payload r) (r_chain r)
  /\ r = record_of (r_type r) (r_sequence r) (r_payload r) (r_chain r)
  /\ drop offset data = f ++ drop (offset + consumed) data /\ consumed = length f.
Proof.
  intros Hb E. apply parse_frame_Ok in E. cbv zeta in E |- *. rewrite <- (drop_drop data consumed offset).
  assert (Forall is_byte (drop offset data)) as Hh by by apply Forall_drop.
  set (h := drop offset data) in *. clearbody h. destruct E as (L & F0 & F4 & F16 & F88 & Fd & -> & ->).
  cbn [r_type r_sequence r_payload r_chain].
  assert (forall k, Forall is_byte (drop k h)) as Hdrop by (intros; by apply Forall_drop).
  pose proof (read_le_range 2 _ (Hdrop 6%nat)) as R6. pose proof (read_le_range 8 _ (Hdrop 8%nat)) as R8.
  pose proof (read_le_range 8 _ (Hdrop 16%nat)) as R16. fold read_u16 in R6. fold read_u64 in R8, R16.
  set (n := Z.to_nat (read_u64 (drop 16 h))) in *.
  assert (length (slice 92 n h) = n) as Hpl by (apply slice_length; lia).
  assert (length (slice 56 32 h) = 32%nat) as Hll by (apply slice_length; lia).
  assert (forall k m, Forall is_byte (slice k m h)) as Hslice by (intros; by apply Forall_take).
  assert (zlength (slice 92 n h) = read_u64 (drop 16 h)) as Hz by (unfold zlength; rewrite Hpl; lia).
  split; [|split; [|split]].
  - unfold entry_ok. rewrite Hz. repeat split; (done || lia).
  - unfold record_of. by rewrite Fd.
  - unfold frame. rewrite Hz, Fd.
    assert (h = frame_prefix (read_u16 (drop 6 h)) (read_u64 (drop 8 h)) (read_u64 (drop 16 h))
              (slice 24 32 h) (slice 56 32 h) ++ drop 88 h) as E88.
    { unfold frame_prefix. rewrite <- !app_assoc. rewrite <- F0, <- F4.
      etransitivity; [apply (field_split 4 h); (done || lia)|f_equal].
      etransitivity; [apply (field_split_at 2 4 h); (done || lia)|f_equal].
      etransitivity; [apply (field_split_at 2 6 h); (done || lia)|f_equal].
      etransitivity; [apply (field_split_at 8 8 h); (done || lia)|f_equal].
      etransitivity; [apply (field_split_at 8 16 h); (done || lia)|f_equal].
      etransitivity; [apply (slice_split 32 24 h)|f_equal]. apply slice_split. }
    assert (take 88 h = frame_prefix (read_u16 (drop 6 h)) (read_u64 (drop 8 h)) (read_u64 (drop 16 h))
              (slice 24 32 h) (slice 56 32 h)) as Et.
    { etransitivity; [exact (f_equal (take 88) E88)|]. apply take_app_length'. symmetry. apply frame_prefix_length; [apply slice_length; lia|done]. }
    rewrite <- Et, <- F88, <- app_assoc.
    etransitivity; [symmetry; apply (take_drop 88)|f_equal].
    etransitivity; [apply (field_split_at 4 88 h); (done || lia)|]. rewrite <- app_assoc. f_equal.
    apply (slice_split n 92 h).
  - rewrite frame_length by done. lia.
Qed.

(** The error of a frame that ends early. *)
Definition torn_message (present : nat) : string :=
  if (present <? kFrameHeaderBytes)%nat then "frame header is incomplete" else "frame payload is incomplete".

(** A proper prefix of a frame is a torn frame, wherever it is cut. *)
Lemma parse_torn type sequence payload link pre n :
  entry_ok type sequence payload link -> (n < length (frame type sequence payload link))%nat ->
  parse_frame (pre ++ take n (frame type sequence payload link)) (length pre)
  = Err (kLedgerTruncated, torn_message n).
Proof.
  intros He Hn. assert (length link = 32%nat) as Hl by apply He.
  pose proof (frame_length type sequence payload link Hl) as Hf. unfold torn_message.
  destruct (n <? kFrameHeaderBytes)%nat eqn:E.
  - apply Nat.ltb_lt in E. unfold parse_frame. rewrite drop_app_length.
    rewrite (proj2 (Nat.ltb_lt _ _)) by (rewrite length_take; unfold kFrameHeaderBytes in *; lia). done.
  - apply Nat.ltb_ge in E. unfold kFrameHeaderBytes in E.
    rewrite (parse_frame_header type sequence payload link _ _ (take (n - 92) payload)).
    + rewrite length_take, (proj2 (Nat.ltb_lt _ _)) by lia. done.
    + done.
    + rewrite drop_app_length. unfold frame. set (prefix := frame_prefix _ _ _ _ _).
      assert (length prefix = 88%nat) as H88 by (apply frame_prefix_length; [apply digest_of_length|done]).
      rewrite !take_app_ge by (unfold write_u32; rewrite ?write_le_length; lia).
      do 2 f_equal. unfold write_u32. rewrite write_le_length. f_equal. lia.
Qed.

Lemma parse_frame_drop data offset : parse_frame data offset = parse_frame (drop offset data) 0.
Proof. done. Qed.

(** *** Altered frames *)

Lemma insert_split {A} (l : list A) i x y :
  l !! i = Some x -> l = take i l ++ x :: drop (S i) l /\ <[i:=y]> l = take i l ++ y :: drop (S i) l.
Proof.
  intros Hx. split; [by rewrite take_drop_middle|]. apply insert_take_drop. by apply lookup_lt_Some in Hx.
Qed.

Lemma insert_byte i y (l : bytes) : is_byte y -> Forall is_byte l -> Forall is_byte (<[i:=y]> l).
Proof. intros. by apply Forall_insert. Qed.

(** A CRC field after the bytes it covers detects one changed byte of either. *)
Lemma crc_field_change content n i x y rest :
  Forall is_byte content -> length content = n -> is_byte y -> x <> y ->
  (content ++ write_u32 (crc32 content)) !! i = Some x ->
  read_u32 (drop n (<[i:=y]> (content ++ write_u32 (crc32 content)) ++ rest))
  <> crc32 (take n (<[i:=y]> (content ++ write_u32 (crc32 content)) ++ rest)).
Proof.
  intros Hb Hn Hy Hne Hx. assert (length (write_u32 (crc32 content)) = 4%nat) as H4 by apply write_le_length.
  destruct (decide (i < n)%nat) as [Hlt|Hge].
  - rewrite lookup_app_l in Hx by lia. rewrite insert_app_l, <- !app_assoc by lia.
    rewrite drop_app_length', take_app_length' by (rewrite ?length_insert; lia).
    unfold read_u32, write_u32. rewrite read_write_small by by apply (crc32_u32 content).
    assert (is_byte x) as Hxb by (rewrite Forall_lookup in Hb; by apply (Hb i)).
    destruct (insert_split content i x y Hx) as [E1 ->]. rewrite E1 at 1.
    apply crc32_change_byte; try done; [by apply Forall_take|by apply Forall_drop].
  - rewrite lookup_app_r in Hx by lia. rewrite insert_app_r_alt, <- !app_assoc by lia.
    rewrite drop_app_length', take_app_length' by lia. rewrite Hn in *.
    pose proof (lookup_lt_Some _ _ _ Hx) as Hi.
    unfold read_u32. rewrite read_le_app by (rewrite length_insert; lia). intros F.
    apply Hne. apply (f_equal (write_le 4)) in F.
    rewrite write_read_le in F; [| |rewrite length_insert; lia].
    + rewrite take_ge in F by (rewrite length_insert; lia). fold write_u32 in F.
      rewrite <- F in Hx. rewrite list_lookup_insert_eq in Hx by lia. congruence.
    + apply insert_byte; [done|]. apply write_le_bytes.
Qed.

(** The header check refuses a frame with one changed byte in its first 92. *)
Lemma header_change_refused type sequence payload link post i x y :
  entry_ok type sequence payload link -> (i < 92)%nat ->
  frame type sequence payload link !! i = Some x -> is_byte y -> x <> y ->
  is_ok (parse_frame (<[i:=y]> (frame type sequence payload link) ++ post) 0) = false.
Proof.
  intros (_ & _ & _ & Hl & Hlb & Hpb) Hi Hx Hy Hne.
  destruct (parse_frame _ 0) as [[r c]|] eqn:E; [exfalso|done].
  apply parse_frame_Ok in E as (_ & _ & _ & _ & F & _). revert F. rewrite drop_0.
  revert Hx. unfold frame. set (p := frame_prefix _ _ _ _ _).
  assert (length p = 88%nat) as H88 by (apply frame_prefix_length; [apply digest_of_length|done]).
  assert (length (p ++ write_u32 (crc32 p)) = 92%nat) as H92.
  { rewrite length_app, H88. unfold write_u32. by rewrite write_le_length. }
  rewrite app_assoc, lookup_app_l, insert_app_l, <- (app_assoc (<[i:=y]> _)) by lia. intros Hx.
  apply crc_field_change with (x := x); try done.
  apply frame_prefix_bytes; [apply sha256_bytes|done].
Qed.

(** A frame whose payload was changed is corrupt, or its payload digest collides. *)
Lemma payload_change_refused type sequence payload link post payload' :
  entry_ok type sequence payload link -> length payload' = length payload ->
  digest_of payload' <> digest_of payload ->
  parse_frame (take 92 (frame type sequence payload link) ++ payload' ++ post) 0
  = Err (kLedgerCorrupt, "frame payload digest does not match its bytes"%string).
Proof.
  intros He Hlen Hne. rewrite (parse_frame_header type sequence payload link _ _ (payload' ++ post)); [|done|].
  - rewrite length_app, (proj2 (Nat.ltb_ge _ _)) by lia. rewrite <- Hlen, take_app_length.
    by rewrite bool_decide_false.
  - rewrite drop_0. unfold frame. set (p := frame_prefix _ _ _ _ _).
    assert (length p = 88%nat) as H88.
    { apply frame_prefix_length; [apply digest_of_length|apply He]. }
    rewrite (app_assoc p), take_app_length'; [by rewrite <- !app_assoc|].
    rewrite length_app, H88. unfold write_u32. by rewrite write_le_length.
Qed.

(** ** A run of frames

    The frames of a list of records, linked one to the next. *)
Fixpoint encode_run (sequence : Z) (link : Digest) (l : list (RecordType * bytes)) : bytes :=
  match l with
  | [] => []
  | (type, payload) :: l' =>
      frame type sequence payload link
      ++ encode_run (sequence + 1) (record_chain type sequence payload) l'
  end.

(** The running chain after the run: it depends on the last record alone. *)
Fixpoint run_chain (sequence : Z) (link : Digest) (l : list (RecordType * bytes)) : Digest :=
  match l with
  | [] => link
  | (type, payload) :: l' => run_chain (sequence + 1) (record_chain type sequence payload) l'
  end.

Lemma encode_run_app sequence link l1 l2 :
  encode_run sequence link (l1 ++ l2)
  = encode_run sequence link l1 ++ encode_run (sequence + zlength l1) (run_chain sequence link l1) l2.
Proof.
  revert sequence link; induction l1 as [|[t p] l1 IH]; intros; simpl; [by rewrite Z.add_0_r|].
  replace (sequence + zlength ((t, p) :: l1)) with (sequence + 1 + zlength l1) by (unfold zlength; simpl; lia).
  by rewrite IH, app_assoc.
Qed.

Lemma run_chain_app sequence link l1 l2 :
  run_chain sequence link (l1 ++ l2) = run_chain (sequence + zlength l1) (run_chain sequence link l1) l2.
Proof.
  revert sequence link; induction l1 as [|[t p] l1 IH]; intros; simpl; [by rewrite Z.add_0_r|].
  replace (sequence + zlength ((t, p) :: l1)) with (sequence + 1 + zlength l1) by (unfold zlength; simpl; lia).
  by rewrite IH.
Qed.

End FrameFacts.

#[global] Arguments write_le : simpl never.
#[global] Arguments read_le : simpl never.
#[global] Arguments frame {_} : simpl never.
#[global] Arguments record_chain {_} : simpl never.
#[global] Arguments build_frame {_} : simpl never.
#[global] Arguments parse_frame {_} : simpl never.

(** ** Properties *)

(** C34: the frame codec is exact.  A frame parses precisely when the bytes at the offset
    start with the frame [build_frame] writes for the parsed type, sequence, payload and
    link, so a record has one encoding and what was appended is what is read; and every
    proper prefix of a frame, wherever an interrupted write cut it, is reported as
    truncated and never as a record or as corruption. *)
Theorem frame_exact `{HashingOk} (data : bytes) (offset : nat) (r : LedgerRecord) (consumed : nat) :
  Forall is_byte data ->
  (parse_frame data offset = Ok (r, consumed) <->
   exists type sequence payload link post,
     entry_ok type sequence payload link
     /\ let '(f, chain_out, payload_out) := build_frame type sequence payload link in
        drop offset data = f ++ post /\ consumed = length f
        /\ r = mk_record sequence type payload payload_out zero_digest link)
  /\ (forall type sequence payload link n,
        entry_ok type sequence payload link ->
        let f := (build_frame type sequence payload link).1.1 in
        (n < length f)%nat -> drop offset data = take n f ->
        parse_frame data offset = Err (kLedgerTruncated, torn_message n)).
Proof.
  intros Hb. split; [split|].
  - intros E. destruct (parse_frame_inv _ _ _ _ Hb E) as (He & Hr & Hd & Hc).
    exists (r_type r), (r_sequence r), (r_payload r), (r_chain r), (drop (offset + consumed) data).
    split; [done|]. by rewrite build_frame_eq by apply He.
  - intros (type & sequence & payload & link & post & He & E).
    rewrite build_frame_eq in E by apply He. destruct E as (E & -> & ->).
    rewrite parse_frame_drop, E. by apply (parse_build _ _ _ _ []).
  - intros type sequence payload link n He f Hn E. unfold f in *.
    rewrite build_frame_eq in * by apply He. simpl in *. rewrite parse_frame_drop, E.
    by apply (parse_torn _ _ _ _ []).
Qed.

(** C35: tampering with a frame is detected.  Changing any one byte of the 92 header bytes
    makes the frame unreadable, whatever follows it; replacing the payload by another of
    the same length is reported as corruption unless the two payloads have the same
    SHA-256 digest. *)
Theorem frame_tamper_detected `{HashingOk}
    (type : RecordType) (sequence : Z) (payload : bytes) (link : Digest) (post : bytes) :
  entry_ok type sequence payload link ->
  let f := (build_frame type sequence payload link).1.1 in
  (forall i x y, (i < 92)%nat -> f !! i = Some x -> is_byte y -> x <> y ->
     is_ok (parse_frame (<[i:=y]> f ++ post) 0) = false)
  /\ (forall payload', length payload' = length payload ->
        sha256 payload' <> sha256 payload ->
        parse_frame (take 92 f ++ payload' ++ post) 0
        = Err (kLedgerCorrupt, "frame payload digest does not match its bytes"%string)).
Proof.
  intros He f. unfold f. rewrite build_frame_eq by apply He. cbn [fst]. split.
  - intros i x y. by apply header_change_refused.
  - intros payload' Hlen Hne. by apply payload_change_refused.
Qed.

(** The chain value is not cumulative.  It does not depend on the link of its record,
    so replacing the payload of one record changes its own frame and the link of the frame
    after it, and leaves every later frame of the journal valid byte for byte. *)
Theorem edit_is_local `{HashingOk} (type : RecordType) (sequence : Z) (payload : bytes)
    (link link' : Digest) (before after : list (RecordType * bytes))
    (edited edited' next : RecordType * bytes) :
  length link = 32%nat -> length link' = 32%nat ->
  (build_frame type sequence payload link).1.2 = (build_frame type sequence payload link').1.2
  /\ exists head head' : bytes,
       encode_run 1 zero_digest (before ++ edited :: next :: after)
       = encode_run 1 zero_digest before ++ head
         ++ encode_run (1 + zlength before + 2) (record_chain next.1 (1 + zlength before + 1) next.2) after
       /\ encode_run 1 zero_digest (before ++ edited' :: next :: after)
       = encode_run 1 zero_digest before ++ head'
         ++ encode_run (1 + zlength before + 2) (record_chain next.1 (1 + zlength before + 1) next.2) after.
Proof.
  intros Hl Hl'. rewrite !build_frame_eq by done. split; [done|].
  destruct edited as [t p], edited' as [t' p'], next as [tn pn]. cbn [fst snd].
  set (s := 1 + zlength before). set (c := run_chain 1 zero_digest before).
  exists (frame t s p c ++ frame tn (s + 1) pn (record_chain t s p)),
         (frame t' s p' c ++ frame tn (s + 1) pn (record_chain t' s p')).
  rewrite !encode_run_app. cbn [encode_run]. fold s. fold c.
  replace (s + 2) with (s + 1 + 1) by lia. by rewrite <- !app_assoc.
Qed.

(** ** Witnesses *)
Lemma sample_entry_ok : entry_ok kGenesis 1 [104; 105] zero_digest.
Proof.
  unfold entry_ok, kGenesis, kMaxRecordBytes, kMaxDocumentBytes. split_and!; try lia; try done.
  - repeat constructor; unfold is_byte; lia.
  - repeat constructor; unfold is_byte; lia.
Qed.

Lemma frame_exact_witness :
  let f := (@build_frame wnc_hashing kGenesis 1 [104; 105] zero_digest).1.1 in
  Forall is_byte (f ++ [7]) /\
  @parse_frame wnc_hashing (f ++ [7]) 0
  = Ok (@record_of wnc_hashing kGenesis 1 [104; 105] zero_digest, length f).
Proof.
  assert (Forall is_byte ((@build_frame wnc_hashing kGenesis 1 [104; 105] zero_digest).1.1 ++ [7])) as Hb.
  { rewrite build_frame_eq by done. apply Forall_app. split; [|repeat constructor; unfold is_byte; lia].
    apply frame_bytes; apply sample_entry_ok. }
  split; [exact Hb|]. apply (frame_exact _ _ _ _ Hb).
  exists kGenesis, 1, [104; 105], zero_digest, [7]. split; [apply sample_entry_ok|].
  rewrite build_frame_eq by done. cbn [fst]. by rewrite drop_0.
Defined.

Lemma frame_tamper_detected_witness :
  is_ok (@parse_frame toy_hashing
    (<[9%nat:=1]> (@build_frame toy_hashing kGenesis 1 [104; 105] zero_digest).1.1 ++ []) 0) = false.
Proof.
  refine (proj1 (@frame_tamper_detected toy_hashing toy_hashing_ok kGenesis 1 [104; 105] zero_digest []
    sample_entry_ok) 9%nat 0 1 _ _ _ _); [lia|vm_compute; reflexivity|unfold is_byte; lia|lia].
Defined.

Lemma edit_is_local_witness :
  exists head head' : bytes,
    @encode_run toy_hashing 1 zero_digest [(1, [5]); (2, [6]); (3, [7])]
    = head ++ @encode_run toy_hashing 3 (@record_chain toy_hashing 2 2 [6]) [(3, [7])]
    /\ @encode_run toy_hashing 1 zero_digest [(1, [9]); (2, [6]); (3, [7])]
    = head' ++ @encode_run toy_hashing 3 (@record_chain toy_hashing 2 2 [6]) [(3, [7])].
Proof.
  exact (proj2 (@edit_is_local toy_hashing toy_hashing_ok 1 1 [] zero_digest zero_digest [] [(3, [7])]
    (1, [5]) (1, [9]) (2, [6]) eq_refl eq_refl)).
Defined.
