(* ===== verification/Ledger.v ===== *)
(** * The durable journal

    Models [src/ledger.cpp] over the files of a state directory (State.v) and the frame
    format (Frame.v): the boot record, the scan of the journal segments with its recovery
    report, opening and repairing a directory, appending, rotation, snapshots and
    truncation.  A method that assigns through references returns the new files, the new
    ledger and a result. *)
From Stdlib Require Import ZArith Lia Ascii String.
From stdpp Require Import base numbers option list strings.
From S2P Require Import Prelude Identity Errors Hash Json State Frame.

(** The member initialisers and field names of the source. *)
Definition kHeadMagicWord : Z := 826822231.
Definition kHeadVersion : Z := 1.
Definition kHeadBytes : Z := 196.
Definition kHeadCoordinatorOffset : nat := 8.
Definition kHeadTrustOffset : nat := 72.
Definition kHeadEpochOffset : nat := 104.
Definition kHeadIncarnationOffset : nat := 112.
Definition kHeadSequenceOffset : nat := 128.
Definition kHeadBootCountOffset : nat := 136.
Definition kHeadCrcOffset : nat := 192.
Definition kHeadCrcRange : nat := 192.
Definition kSnapshotReserved : Z := 64.

Definition kMaxLedgerSegments : Z := 256.
Definition kMaxSegmentBytes : Z := 8 * 1024 * 1024.
Definition kMaxJournalBytes : Z := kMaxLedgerSegments * kMaxSegmentBytes.

(** ** [std::stoul]

    Leading white space, an optional sign, decimal digits; [None] is the exception for a
    text without digits.  Called on at most five characters, so no value overflows; a
    minus sign negates modulo 2^64. *)
Definition is_space (c : ascii) : bool := Ascii.eqb c " " || char_in "009" "013" c.

Fixpoint skip_spaces (s : string) : string :=
  match s with String c s' => if is_space c then skip_spaces s' else s | EmptyString => s end.

Fixpoint leading_digits (acc : option Z) (s : string) : option Z :=
  match s with
  | String c s' =>
      if char_in "0" "9" c then leading_digits (Some (default 0 acc * 10 + char_minus c "0")) s' else acc
  | EmptyString => acc
  end.

Definition stoul (s : string) : option Z :=
  match skip_spaces s with
  | String c s' =>
      if Ascii.eqb c "-" then (fun v => u64 (- v)) <$> leading_digits None s'
      else if Ascii.eqb c "+" then leading_digits None s'
      else leading_digits None (String c s')
  | EmptyString => None
  end.

(** ** Names *)
Definition starts_with (prefix text : string) : bool := String.prefix prefix text.

Definition is_journal (name : string) : bool := starts_with "journal-" name.

Definition segment_name (segment : Z) : string :=
  let digits := to_string (segment + 1) in
  String.append "journal-"
    (String.append (String.append (char_string (5 - String.length digits) "0") digits) ".log").

Definition head_name : string := "head.bin".
Definition snapshot_name : string := "snapshot.bin".

(** The enumeration of the directory, sorted. *)
Definition journal_names (files : Files) : list string :=
  std_sort string_less (List.filter is_journal files.*1).

(** ** State *)
Record HeadRecord := mk_head {
  format_version : Z;
  coordinator : CoordinatorId;
  trust_digest : Digest;
  epoch : Z;
  incarnation : Incarnation;
  last_sequence : Z;
  boot_count : Z
}.

Record RecoveryReport := mk_report {
  recovered : bool;
  valid_records : Z;
  truncated_bytes : Z;
  last_valid_sequence : Z;
  valid_bytes : Z;
  excess_segments : Z;
  chain_break : bool;
  detail : string
}.

Definition empty_report : RecoveryReport := mk_report false 0 0 0 0 0 false "".

Record Ledger := mk_ledger {
  head_ : HeadRecord;
  chain_ : Digest;
  segment_ : Z;
  segment_bytes_ : Z;
  segment_count_ : Z;
  retained_bytes_ : Z;
  open_ : bool
}.

(** ** The scan

    The locals of [read_frames] and its two out-parameters.  A failed scan returns them
    too: the caller's report has them. *)
Record Scan := mk_scan {
  s_records : list LedgerRecord;
  s_report : RecoveryReport;
  s_expected : Z;
  s_previous : Digest;
  s_torn : bool
}.

Definition start_scan : Scan := mk_scan [] empty_report 1 zero_digest false.

Notation scan_result := (result (Scan * io_error)).

Section Ledger.
Context `{Hashing} `{Host}.

(** [while (offset < bytes.size())]; a frame consumes at least its header, so the number
    of bytes is enough fuel. *)
Fixpoint scan_bytes (fuel : nat) (data : bytes) (offset : nat) (s : Scan) : scan_result Scan :=
  match fuel with
  | O => Ok s
  | S fuel' =>
      if negb (offset <? length data)%nat then Ok s
      else
        let rep := s_report s in
        match parse_frame data offset with
        | Err (frame_code, frame_message) =>
            if negb (code_eqb frame_code kLedgerTruncated) then Err (s, (frame_code, frame_message))
            else
              Ok (mk_scan (s_records s)
                    (mk_report true (valid_records rep) (zlength data - Z.of_nat offset)
                       (last_valid_sequence rep) (Z.of_nat offset) (excess_segments rep) (chain_break rep)
                       (String.append (code_token frame_code) (String.append ": " frame_message)))
                    (s_expected s) (s_previous s) true)
        | Ok (record, consumed) =>
            if negb (r_sequence record =? s_expected s) then
              let text := String.append "journal sequence jumps from "
                (String.append (to_string (s_expected s))
                   (String.append " to " (to_string (r_sequence record)))) in
              Err (mk_scan (s_records s)
                     (mk_report true (valid_records rep) (truncated_bytes rep) (last_valid_sequence rep)
                        (valid_bytes rep) (excess_segments rep) true text)
                     (s_expected s) (s_previous s) (s_torn s),
                   (kIndexGapDetected, text))
            else
              let derived := chain_of (zero_link (take 88 (drop offset data))) (r_payload record) in
              if negb (bool_decide (r_chain record = s_previous s)) then
                Err (s, (kLedgerCorrupt, "journal record does not link to the previous record"%string))
              else
                let offset := (offset + consumed)%nat in
                scan_bytes fuel' data offset
                  (mk_scan (s_records s ++ [record])
                     (mk_report (recovered rep) (valid_records rep) (truncated_bytes rep)
                        (r_sequence record) (Z.of_nat offset) (excess_segments rep) (chain_break rep)
                        (detail rep))
                     (u64 (r_sequence record + 1)) derived (s_torn s))
        end
  end.

Definition scan_segment (files : Files) (s : Scan) (name : string) : scan_result Scan :=
  let rep := s_report s in
  if s_torn s then
    Ok (mk_scan (s_records s)
          (mk_report (recovered rep) (valid_records rep) (truncated_bytes rep) (last_valid_sequence rep)
             (valid_bytes rep) (excess_segments rep + 1) (chain_break rep) (detail rep))
          (s_expected s) (s_previous s) true)
  else
    match read_file files name (kMaxSegmentBytes + 1) with
    | Err (read_code, read_message) =>
        if code_eqb read_code kLedgerOversized
        then Err (s, (kLedgerOversized, String.append "journal segment "
               (String.append name " exceeds the segment bound")))
        else Err (s, (read_code, read_message))
    | Ok data => scan_bytes (length data) data 0 s
    end.

(** [listable]: whether the directory can be enumerated. *)
Definition read_frames (listable : bool) (files : Files) : scan_result (list LedgerRecord * RecoveryReport) :=
  if negb listable
  then Err (start_scan, (kDirectoryUnavailable, "cannot enumerate the state directory"%string))
  else
    match result_fold (scan_segment files) start_scan (journal_names files) with
    | Err e => Err e
    | Ok s =>
        let rep := s_report s in
        Ok (s_records s,
            mk_report (recovered rep) (zlength (s_records s)) (truncated_bytes rep)
              (last_valid_sequence rep) (valid_bytes rep) (excess_segments rep) (chain_break rep)
              (detail rep))
    end.

(** The three readers of the journal. *)
Definition read_all (listable : bool) (files : Files) : scan_result (list LedgerRecord * RecoveryReport) :=
  read_frames listable files.

Definition read_all_records (listable : bool) (files : Files) : list LedgerRecord :=
  match read_frames listable files with Ok (records, _) => records | Err (s, _) => s_records s end.

Definition read_after (listable : bool) (files : Files) (sequence : Z)
    : scan_result (list LedgerRecord * RecoveryReport) :=
  match read_frames listable files with
  | Err e => Err e
  | Ok (all, rep) => Ok (List.filter (fun r => sequence <? r_sequence r) all, rep)
  end.

(** ** The boot record *)

(** [s.resize(n, 0)]. *)
Definition resize (n : nat) (b : bytes) : bytes := take n b ++ repeat 0 (n - length b).

(** [haystack.find(needle)]. *)
Fixpoint find_from (position : nat) (needle haystack : bytes) : option nat :=
  if bool_decide (take (length needle) haystack = needle) then Some position
  else match haystack with [] => None | _ :: rest => find_from (S position) needle rest end.

Definition head_content (h : HeadRecord) : bytes :=
  resize kHeadCrcRange
    (write_u32 kHeadMagicWord ++ write_u16 kHeadVersion ++ write_u16 0
     ++ bytes_of_string (view (coordinator h)) ++ trust_digest h ++ write_u64 (epoch h)
     ++ inc_bytes (incarnation h) ++ write_u64 (last_sequence h) ++ write_u64 (boot_count h)).

Definition head_bytes (h : HeadRecord) : bytes :=
  let header := head_content h in
  resize (Z.to_nat kHeadBytes) (header ++ write_u32 (crc32 (take kHeadCrcRange header))).

Definition write_head (disk : Disk) (files : Files) (L : Ledger) : Files * result io_error unit :=
  let header := head_bytes (head_ L) in
  if negb (zlength header =? kHeadBytes)
     || negb (bool_decide (find_from 0 (bytes_of_string (view (coordinator (head_ L)))) header
                           = Some kHeadCoordinatorOffset))
  then (files, Err (kInternalInvariant, "head record layout does not match its declared offsets"%string))
  else write_file_atomic disk files head_name header.

Definition load_head (files : Files) : result io_error unit :=
  match read_file files head_name kHeadBytes with
  | Err e => Err e
  | Ok raw =>
      if negb (zlength raw =? kHeadBytes)
      then Err (kLedgerCorrupt, "head record has the wrong size"%string) else Ok tt
  end.

(** The block of [open] that reads the previous boot record: the previous epoch and boot
    count, and whether a record was there. *)
Definition check_head (files : Files) (owner : CoordinatorId) (trust : Digest)
    : result io_error (Z * Z * bool) :=
  match read_file files head_name kHeadBytes with
  | Err (head_code, head_message) =>
      if code_eqb head_code kStateUnavailable then Ok (0, 0, false) else Err (head_code, head_message)
  | Ok raw =>
      if negb (zlength raw =? kHeadBytes) || negb (read_u32 raw =? kHeadMagicWord)
      then Err (kLedgerCorrupt, "head record is malformed"%string)
      else if negb (read_u16 (drop 4 raw) =? kHeadVersion)
      then Err (kLedgerIncompatible, "head format version is not supported"%string)
      else if negb (read_u32 (drop kHeadCrcOffset raw) =? crc32 (take kHeadCrcRange raw))
      then Err (kLedgerCorrupt, "head record integrity check failed"%string)
      else
        match parse_id (string_of_bytes (slice kHeadCoordinatorOffset 64 raw)) with
        | None => Err (kLedgerCorrupt, "head record names an invalid coordinator identity"%string)
        | Some stored_coordinator =>
            if negb (id_eqb (Tag := CoordinatorTag) stored_coordinator owner)
            then Err (kIndexMismatch, "state directory belongs to another coordinator identity"%string)
            else if negb (bool_decide (slice kHeadTrustOffset 32 raw = trust))
            then Err (kPublisherNotTrusted, "state directory was written under a different trust set"%string)
            else Ok (read_u64 (drop kHeadEpochOffset raw), read_u64 (drop kHeadBootCountOffset raw), true)
        end
  end.

(** ** Opening *)

(** What the host answers while a directory is opened. *)
Record Boot := mk_boot {
  ensure_directory : result io_error unit;
  within : bool;
  listable : bool;
  random : bytes;
  head_disk : Disk
}.

(** The repair of a torn tail: the last kept segment is cut at the last complete record
    and the segments after it are removed. *)
Definition repair (files : Files) (scan : RecoveryReport) : result io_error Files :=
  let segments := journal_names files in
  let count := zlength segments in
  let kept := if excess_segments scan <? count then count - excess_segments scan else count in
  match (if 0 <? kept
         then let name := nth (Z.to_nat (kept - 1)) segments EmptyString in
              let '(files, r) := truncate_file files name (valid_bytes scan) in
              match r with Ok _ => Ok files | Err e => Err e end
         else Ok files) with
  | Err e => Err e
  | Ok files => Ok (fold_left remove_file (drop (Z.to_nat kept) segments) files)
  end.

(** One file of the discovery loop: the segment count, the bytes and the highest index. *)
Definition discover_step (files : Files) (acc : Z * Z * Z) (name : string) : result io_error (Z * Z * Z) :=
  let '(count, retained, segment) := acc in
  if negb (is_journal name) || (String.length name <? 12)%nat then Ok acc
  else
    let retained := match file_size files name with Some size => u64 (retained + size) | None => retained end in
    match stoul (String.substring 8 5 name) with
    | None => Err (kLedgerCorrupt, String.append "journal segment name '" (String.append name "' is malformed"))
    | Some index => Ok (count + 1, retained, if segment + 1 <=? index then index - 1 else segment)
    end.

Definition discover (boot : Boot) (files : Files) : result io_error (Z * Z * Z) :=
  if negb (listable boot) then Ok (0, 0, 0)
  else result_fold (discover_step files) (0, 0, 0) files.*1.

Definition open_ledger (boot : Boot) (files : Files) (owner : CoordinatorId) (trust : Digest)
    : Files * result io_error (Ledger * RecoveryReport) :=
  match ensure_directory boot with
  | Err e => (files, Err e)
  | Ok _ =>
  if negb (within boot)
  then (files, Err (kPathRejected, "state paths resolve outside the state directory"%string))
  else
  match check_head files owner trust with
  | Err e => (files, Err e)
  | Ok (previous_epoch, previous_boot, head_present) =>
  let fresh_incarnation := new_incarnation (random boot) in
  if negb head_present && listable boot && existsb is_journal files.*1
  then (files, Err (kRecoveryRequired, "journal segments exist without a head record"%string))
  else
  match read_frames (listable boot) files with
  | Err (_, e) => (files, Err e)
  | Ok (records, scan) =>
  let head := mk_head kHeadVersion owner trust (u64 (previous_epoch + 1)) fresh_incarnation
    (last_valid_sequence scan) (u64 (previous_boot + 1)) in
  let chain := match last records with None => zero_digest | Some record => r_chain record end in
  let recovery := mk_report (recovered scan || negb head_present) (valid_records scan)
    (truncated_bytes scan) (last_valid_sequence scan) (valid_bytes scan) (excess_segments scan)
    (chain_break scan) (detail scan) in
  match (if 0 <? truncated_bytes scan then repair files scan else Ok files) with
  | Err e => (files, Err e)
  | Ok files =>
  match discover boot files with
  | Err e => (files, Err e)
  | Ok (count, retained, segment) =>
  let segment_bytes := default 0 (file_size files (segment_name segment)) in
  let L := mk_ledger head chain segment segment_bytes count retained true in
  let '(files, r) := write_head (head_disk boot) files L in
  match r with
  | Err e => (files, Err e)
  | Ok _ => (files, Ok (L, recovery))
  end end end end end end.

(** ** Appending *)
Definition rotate_segment (L : Ledger) : result io_error Ledger :=
  if kMaxLedgerSegments <=? segment_count_ L
  then Err (kLedgerOversized, String.append "journal reached "
         (String.append (to_string (segment_count_ L))
            " segments; the retention bound must be applied before appending"))
  else Ok (mk_ledger (head_ L) (chain_ L) (segment_ L + 1) 0 (segment_count_ L + 1) (retained_bytes_ L) (open_ L)).

Definition with_last_sequence (h : HeadRecord) (sequence : Z) : HeadRecord :=
  mk_head (format_version h) (coordinator h) (trust_digest h) (epoch h) (incarnation h) sequence (boot_count h).

Definition append (disk : Disk) (files : Files) (L : Ledger) (type : RecordType) (payload : bytes)
    : Files * Ledger * result io_error Z :=
  if negb (open_ L) then (files, L, Err (kStateUnavailable, "ledger is not open"%string))
  else if kMaxRecordBytes <? zlength payload
  then (files, L, Err (kLedgerOversized, "record payload exceeds the configured bound"%string))
  else
  let frame_bytes := Z.of_nat kFrameHeaderBytes + zlength payload in
  if kMaxSegmentBytes <? frame_bytes
  then (files, L, Err (kLedgerOversized, "frame exceeds the segment bound"%string))
  else
  match (if kMaxSegmentBytes <? u64 (segment_bytes_ L + frame_bytes) then rotate_segment L else Ok L) with
  | Err e => (files, L, Err e)
  | Ok L =>
  if kMaxJournalBytes <? u64 (retained_bytes_ L + frame_bytes)
  then (files, L, Err (kLedgerOversized, "journal would exceed its total byte bound"%string))
  else
  let next := u64 (last_sequence (head_ L) + 1) in
  let '(frame, chain, _) := build_frame type next payload (chain_ L) in
  let '(files, r) := append_file_flushed disk files (segment_name (segment_ L)) frame in
  match r with
  | Err e => (files, L, Err e)
  | Ok _ =>
      (files,
       mk_ledger (with_last_sequence (head_ L) next) chain (segment_ L)
         (u64 (segment_bytes_ L + zlength frame)) (segment_count_ L) (u64 (retained_bytes_ L + zlength frame))
         (open_ L),
       Ok next)
  end end.

(** ** Snapshots *)
Record Snapshot := mk_snapshot { sn_sequence : Z; sn_epoch : Z; sn_payload : bytes }.

Definition snapshot_bytes (snapshot : Snapshot) : bytes :=
  let header := write_u32 kSnapshotMagic ++ write_u16 kSnapshotVersion ++ write_u16 0
    ++ write_u64 (sn_epoch snapshot) ++ write_u64 (sn_sequence snapshot)
    ++ digest_of (sn_payload snapshot) in
  let header := resize (Z.to_nat (kSnapshotHeaderBytes - kSnapshotReserved)) header in
  let header := resize (Z.to_nat kSnapshotHeaderBytes) header in
  let header := take 92 header ++ write_u32 (crc32 (take 92 header)) ++ drop 96 header in
  header ++ sn_payload snapshot.

Definition write_snapshot (disk : Disk) (files : Files) (L : Ledger) (snapshot : Snapshot)
    : Files * result io_error unit :=
  if last_sequence (head_ L) <? sn_sequence snapshot
  then (files, Err (kRecoveryRequired, String.append "snapshot sequence "
         (String.append (to_string (sn_sequence snapshot))
            (String.append " is ahead of the durable sequence " (to_string (last_sequence (head_ L)))))))
  else write_file_atomic disk files snapshot_name (snapshot_bytes snapshot).

(** [None]: no snapshot is present. *)
Definition read_snapshot (files : Files) : result io_error (option Snapshot) :=
  match read_file files snapshot_name (kMaxDocumentBytes + kSnapshotHeaderBytes) with
  | Err (read_code, read_message) =>
      if code_eqb read_code kStateUnavailable then Ok None else Err (read_code, read_message)
  | Ok data =>
      if zlength data <? kSnapshotHeaderBytes
      then Err (kSnapshotInvalid, "snapshot is shorter than its header"%string)
      else if negb (read_u32 data =? kSnapshotMagic)
      then Err (kSnapshotInvalid, "snapshot magic does not match"%string)
      else if negb (read_u16 (drop 4 data) =? kSnapshotVersion)
      then Err (kLedgerIncompatible, "snapshot version is not supported"%string)
      else if negb (crc32 (take 92 data) =? read_u32 (drop 92 data))
      then Err (kSnapshotInvalid, "snapshot header integrity check failed"%string)
      else
        let payload := drop (Z.to_nat kSnapshotHeaderBytes) data in
        if negb (bool_decide (digest_of payload = slice 24 32 data))
        then Err (kSnapshotInvalid, "snapshot payload digest does not match its bytes"%string)
        else Ok (Some (mk_snapshot (read_u64 (drop 16 data)) (read_u64 (drop 8 data)) payload))
  end.

(** ** Truncation *)

(** The frames of one segment, up to the requested sequence: the running count, and the
    offset and record that reached it.  Fuel as in [scan_bytes]. *)
Fixpoint locate (fuel : nat) (data : bytes) (offset : nat) (running sequence : Z)
    : Z * option (nat * LedgerRecord) :=
  match fuel with
  | O => (running, None)
  | S fuel' =>
      if negb (offset <? length data)%nat then (running, None)
      else
        match parse_frame data offset with
        | Err _ => (running, None)
        | Ok (record, consumed) =>
            let running := running + 1 in
            let offset := (offset + consumed)%nat in
            if running =? sequence then (running, Some (offset, record))
            else locate fuel' data offset running sequence
        end
  end.

(** The loop over the segments; [later] are the names after the current one. *)
Fixpoint truncate_segments (disk : Disk) (files : Files) (L : Ledger) (sequence running : Z)
    (segments : list string) : Files * Ledger * result io_error unit :=
  match segments with
  | [] => (files, L, Err (kIndexGapDetected,
      String.append "journal does not contain sequence " (to_string sequence)))
  | name :: later =>
      match read_file files name (kMaxSegmentBytes + 1) with
      | Err e => (files, L, Err e)
      | Ok data =>
          match locate (length data) data 0 running sequence with
          | (running, None) => truncate_segments disk files L sequence running later
          | (_, Some (offset, record)) =>
              let '(files, r) := truncate_file files name (Z.of_nat offset) in
              match r with
              | Err e => (files, L, Err e)
              | Ok _ =>
                  let files := fold_left remove_file later files in
                  let L := mk_ledger (with_last_sequence (head_ L) sequence) (r_chain record) (segment_ L)
                    (segment_bytes_ L) (segment_count_ L - Z.min (zlength later) (segment_count_ L))
                    (retained_bytes_ L) (open_ L) in
                  let '(files, r) := write_head disk files L in
                  (files, L, r)
              end
          end
      end
  end.

Definition truncate_to (disk : Disk) (listable : bool) (files : Files) (L : Ledger) (sequence : Z)
    : Files * Ledger * result io_error unit :=
  match read_frames listable files with
  | Err (_, e) => (files, L, Err e)
  | Ok _ => truncate_segments disk files L sequence 0 (journal_names files)
  end.

End Ledger.
