(* ===== verification/Boot.v ===== *)
(** * Boot records and snapshots

    The fixed layout files next to the journal: what [write_head] writes is what the block
    at the start of [open] reads, the layout check of the writer never fires, and a
    snapshot reads back as it was written. *)
From Stdlib Require Import ZArith Lia Ascii String.
From stdpp Require Import base numbers option list strings sets.
From S2P Require Import Prelude Identity Errors Hash Json State Frame Ledger.

(** ** The boot record *)
Record head_ok (h : HeadRecord) : Prop := {
  hok_coordinator : id_ok (coordinator h);
  hok_trust : length (trust_digest h) = 32%nat /\ Forall is_byte (trust_digest h);
  hok_epoch : 0 <= epoch h < 2 ^ 64;
  hok_incarnation : length (inc_bytes (incarnation h)) = 16%nat /\ Forall is_byte (inc_bytes (incarnation h));
  hok_sequence : 0 <= last_sequence h < 2 ^ 64;
  hok_boot : 0 <= boot_count h < 2 ^ 64
}.

(** The fields of the record, in order. *)
Definition head_fields (h : HeadRecord) : bytes :=
  write_u32 kHeadMagicWord ++ write_u16 kHeadVersion ++ write_u16 0
  ++ bytes_of_string (view (coordinator h)) ++ trust_digest h ++ write_u64 (epoch h)
  ++ inc_bytes (incarnation h) ++ write_u64 (last_sequence h) ++ write_u64 (boot_count h).

Lemma resize_pad n b : (length b <= n)%nat -> resize n b = b ++ repeat 0 (n - length b).
Proof. intros. unfold resize. by rewrite take_ge. Qed.

Lemma resize_same n b : length b = n -> resize n b = b.
Proof. intros <-. rewrite resize_pad, Nat.sub_diag by lia. apply app_nil_r. Qed.

Lemma coordinator_length h : head_ok h -> length (bytes_of_string (view (coordinator h))) = 64%nat.
Proof.
  intros Hh. rewrite bytes_of_string_length. destruct (hok_coordinator h Hh) as [Hs _].
  unfold size, kSha256HexChars in Hs. lia.
Qed.

Lemma head_fields_length h : head_ok h -> length (head_fields h) = 144%nat.
Proof.
  intros Hh. unfold head_fields, write_u16, write_u32, write_u64.
  rewrite !length_app, !write_le_length, coordinator_length by done.
  destruct (hok_trust h Hh) as [-> _], (hok_incarnation h Hh) as [-> _]. done.
Qed.

Lemma head_fields_bytes h : head_ok h -> Forall is_byte (head_fields h).
Proof.
  intros Hh. unfold head_fields, write_u16, write_u32, write_u64. rewrite !Forall_app.
  split_and!; try apply write_le_bytes; try apply bytes_of_string_bytes; apply Hh.
Qed.

Lemma head_content_eq h : head_ok h -> head_content h = head_fields h ++ repeat 0 48.
Proof.
  intros Hh. unfold head_content. fold (head_fields h).
  rewrite resize_pad by (rewrite head_fields_length by done; unfold kHeadCrcRange; lia).
  by rewrite head_fields_length.
Qed.

Lemma zeros_bytes n : Forall is_byte (repeat 0 n).
Proof. induction n; simpl; constructor; [unfold is_byte; lia|done]. Qed.

Lemma head_content_length h : head_ok h -> length (head_content h) = 192%nat.
Proof. intros. rewrite head_content_eq, length_app, head_fields_length by done. done. Qed.

Lemma head_content_bytes h : head_ok h -> Forall is_byte (head_content h).
Proof. intros. rewrite head_content_eq, Forall_app by done. split; [by apply head_fields_bytes|apply zeros_bytes]. Qed.

Lemma head_bytes_eq h : head_ok h -> head_bytes h = head_content h ++ write_u32 (crc32 (head_content h)).
Proof.
  intros Hh. pose proof (head_content_length h Hh) as Hl. unfold head_bytes, kHeadCrcRange.
  rewrite take_ge by lia. apply resize_same. rewrite length_app, Hl. unfold write_u32. by rewrite write_le_length.
Qed.

Lemma head_bytes_length h : head_ok h -> length (head_bytes h) = 196%nat.
Proof.
  intros Hh. rewrite head_bytes_eq, length_app, head_content_length by done.
  unfold write_u32. by rewrite write_le_length.
Qed.

(** A text whose last byte before the needle is not a byte of the needle holds no earlier
    occurrence of it. *)
Lemma find_from_at needle rest pre z position :
  z ∉ needle -> (length pre < length needle)%nat ->
  find_from position needle (pre ++ z :: needle ++ rest) = Some (position + S (length pre))%nat.
Proof.
  intros Hz. assert (forall p, find_from p needle (needle ++ rest) = Some p) as Hhere.
  { intros p. destruct (needle ++ rest) eqn:E; cbn [find_from]; rewrite <- E, take_app_length;
      by rewrite bool_decide_true. }
  assert (forall l, (length l < length needle)%nat ->
            take (length needle) (l ++ z :: needle ++ rest) <> needle) as Hnot.
  { intros l Hl E. apply Hz. rewrite <- E. apply list_elem_of_lookup. exists (length l).
    rewrite lookup_take_lt by lia. rewrite lookup_app_r, Nat.sub_diag by lia. done. }
  revert position; induction pre as [|b pre IH]; intros position Hl.
  - cbn [app length]. cbn [find_from]. rewrite bool_decide_false by (apply (Hnot []); done).
    rewrite Hhere. f_equal. lia.
  - cbn [app]. cbn [find_from]. rewrite bool_decide_false by (apply (Hnot (b :: pre)); done).
    simpl in Hl. rewrite IH by lia. f_equal. simpl. lia.
Qed.

Lemma normal_hex_nonzero t : normalise_hex t = Some t -> 0 ∉ bytes_of_string t.
Proof.
  induction t as [|c t IH]; cbn [normalise_hex bytes_of_string]; [set_solver|].
  destruct (hex_digit_value c <? 0) eqn:Ec; [done|].
  destruct (normalise_hex t) as [r|]; [|done]. intros [= Hc ->] [E|Hin]%elem_of_cons; [|by apply IH].
  assert (c = "000"%char) as -> by (rewrite <- (ascii_of_byte_of_ascii c), <- E; reflexivity).
  vm_compute in Ec. discriminate Ec.
Qed.

(** [skip_fields] past the variable fields of the record, whose lengths are given. *)
Ltac skip_head H64 H32 H16 :=
  do 4 (skip_fields; rewrite ?H64, ?H32, ?H16; cbn [Nat.sub]; rewrite ?drop_0).

Section Boot.
Context `{Hashing} `{Host}.

(** The layout assertion of the writer holds: [write_head] is the atomic write. *)
Lemma write_head_writes disk files L :
  head_ok (head_ L) -> write_head disk files L = write_file_atomic disk files head_name (head_bytes (head_ L)).
Proof.
  intros Hh. unfold write_head.
  assert (zlength (head_bytes (head_ L)) =? kHeadBytes = true) as ->.
  { unfold zlength. by rewrite head_bytes_length. }
  rewrite head_bytes_eq, head_content_eq by done. unfold head_fields.
  change (write_u32 kHeadMagicWord) with [87; 78; 72; 49]. change (write_u16 kHeadVersion) with [1; 0].
  change (write_u16 0) with [0; 0]. rewrite <- !app_assoc. cbn [app].
  set (needle := bytes_of_string _).
  assert (forall rest, find_from 0 needle (87 :: 78 :: 72 :: 49 :: 1 :: 0 :: 0 :: 0 :: needle ++ rest) = Some 8%nat) as E.
  { intros rest. apply (find_from_at needle rest [87; 78; 72; 49; 1; 0; 0] 0 0).
    - apply normal_hex_nonzero, Hh.
    - unfold needle. rewrite coordinator_length by done. simpl. lia. }
  rewrite E. by rewrite bool_decide_true.
Qed.

(** What [open] reads from a directory whose boot record is [h]. *)
Lemma check_head_reads files h owner trust :
  can_read head_name = true -> head_ok h -> map_find head_name files = Some (head_bytes h) ->
  check_head files owner trust =
    if negb (id_eqb (coordinator h) owner)
    then Err (kIndexMismatch, "state directory belongs to another coordinator identity"%string)
    else if negb (bool_decide (trust_digest h = trust))
    then Err (kPublisherNotTrusted, "state directory was written under a different trust set"%string)
    else Ok (epoch h, boot_count h, true).
Proof.
  intros Hread Hh Hf.
  assert (zlength (head_bytes h) <= kHeadBytes) as Hfit by (unfold zlength, kHeadBytes; rewrite head_bytes_length by done; lia).
  unfold check_head. rewrite (read_file_present _ _ _ _ Hread Hf Hfit). clear Hfit.
  pose proof (head_content_length h Hh) as Hcl. pose proof (head_content_bytes h Hh) as Hcb.
  assert (zlength (head_bytes h) = 196) as Hz by (unfold zlength; by rewrite head_bytes_length).
  rewrite Hz. change (196 =? kHeadBytes) with true. cbn [negb orb].
  rewrite (head_bytes_eq h Hh). unfold kHeadCrcOffset, kHeadCrcRange.
  rewrite (drop_app_length' (head_content h) _ 192), (take_app_length' (head_content h) _ 192) by lia.
  assert (read_u32 (write_u32 (crc32 (head_content h))) = crc32 (head_content h)) as ->.
  { rewrite <- (app_nil_r (write_u32 _)). apply read_write_u32. by apply crc32_u32. }
  rewrite (Z.eqb_refl (crc32 _)), (head_content_eq h Hh), <- app_assoc. set (rest := repeat 0 48 ++ _).
  unfold head_fields. rewrite <- !app_assoc.
  assert (length (bytes_of_string (view (coordinator h))) = 64%nat) as H64 by by apply coordinator_length.
  destruct (hok_trust h Hh) as [H32 _], (hok_incarnation h Hh) as [H16 _].
  rewrite read_write_u32 by (unfold kHeadMagicWord; lia). rewrite (Z.eqb_refl kHeadMagicWord). cbn [negb].
  assert (forall a b c d, read_u16 (drop 4 (write_u32 a ++ write_u16 b ++ c ++ d)) = b mod 2 ^ 16) as E4.
  { intros. skip_fields. apply (read_write_le 2). }
  rewrite E4. change (kHeadVersion mod 2 ^ 16) with kHeadVersion. rewrite (Z.eqb_refl kHeadVersion). cbn [negb].
  unfold kHeadCoordinatorOffset, kHeadTrustOffset, kHeadEpochOffset, kHeadBootCountOffset.
  assert (slice 8 64 (write_u32 kHeadMagicWord ++ write_u16 kHeadVersion ++ write_u16 0 ++
            bytes_of_string (view (coordinator h)) ++ trust_digest h ++ write_u64 (epoch h) ++
            inc_bytes (incarnation h) ++ write_u64 (last_sequence h) ++ write_u64 (boot_count h) ++ rest)
          = bytes_of_string (view (coordinator h))) as ->.
  { skip_fields. by rewrite take_app_length'. }
  rewrite string_of_bytes_of_string, parse_id_view by apply Hh.
  destruct (id_eqb (coordinator h) owner); cbn [negb]; [|done].
  set (raw := write_u32 kHeadMagicWord ++ _).
  assert (slice 72 32 raw = trust_digest h) as ->.
  { unfold raw. skip_head H64 H32 H16. by rewrite take_app_length'. }
  destruct (bool_decide (trust_digest h = trust)); cbn [negb]; [|done].
  assert (read_u64 (drop 104 raw) = epoch h) as ->.
  { unfold raw. skip_head H64 H32 H16. apply read_write_u64, Hh. }
  assert (read_u64 (drop 136 raw) = boot_count h) as ->; [|done].
  unfold raw. skip_head H64 H32 H16. apply read_write_u64, Hh.
Qed.

(** One changed byte anywhere in the record is refused. *)
Lemma changed_head_refused files h owner trust i x y :
  head_ok h -> head_bytes h !! i = Some x -> is_byte y -> x <> y ->
  map_find head_name files = Some (<[i:=y]> (head_bytes h)) -> can_read head_name = true ->
  exists e, check_head files owner trust = Err e.
Proof.
  intros Hh Hx Hy Hne Hf. unfold check_head.
  assert (zlength (<[i:=y]> (head_bytes h)) = 196) as Hz.
  { unfold zlength. by rewrite length_insert, head_bytes_length. }
  intros Hread. rewrite (read_file_present _ _ _ _ Hread Hf) by (rewrite Hz; done). rewrite Hz. change (196 =? kHeadBytes) with true.
  cbn [negb orb]. destruct (read_u32 _ =? kHeadMagicWord); cbn [negb]; [|by eauto].
  destruct (read_u16 _ =? kHeadVersion); cbn [negb]; [|by eauto].
  enough (read_u32 (drop kHeadCrcOffset (<[i:=y]> (head_bytes h)))
          =? crc32 (take kHeadCrcRange (<[i:=y]> (head_bytes h))) = false) as -> by (cbn [negb]; by eauto).
  apply Z.eqb_neq. revert Hx. rewrite head_bytes_eq by done.
  pose proof (crc_field_change (head_content h) 192 i x y [] (head_content_bytes h Hh) (head_content_length h Hh) Hy Hne) as Hc.
  intros Hx. specialize (Hc Hx). by rewrite app_nil_r in Hc.
Qed.

End Boot.

(** ** Snapshots *)
Definition snapshot_ok (s : Snapshot) : Prop :=
  0 <= sn_sequence s < 2 ^ 64 /\ 0 <= sn_epoch s < 2 ^ 64 /\ Forall is_byte (sn_payload s)
  /\ zlength (sn_payload s) <= kMaxDocumentBytes.

Lemma zlength_nonneg {A} (l : list A) : 0 <= zlength l.
Proof. unfold zlength. lia. Qed.

Section Snapshots.
Context `{HashingOk} `{Host}.

Definition snapshot_fields (s : Snapshot) : bytes :=
  write_u32 kSnapshotMagic ++ write_u16 kSnapshotVersion ++ write_u16 0
  ++ write_u64 (sn_epoch s) ++ write_u64 (sn_sequence s) ++ digest_of (sn_payload s).

Lemma snapshot_fields_length s : length (snapshot_fields s) = 56%nat.
Proof.
  unfold snapshot_fields, write_u16, write_u32, write_u64.
  rewrite !length_app, !write_le_length, digest_of_length. done.
Qed.

(** The 92 bytes the integrity field covers. *)
Definition snapshot_prefix (s : Snapshot) : bytes := snapshot_fields s ++ repeat 0 36.

Lemma snapshot_prefix_length s : length (snapshot_prefix s) = 92%nat.
Proof. unfold snapshot_prefix. by rewrite length_app, snapshot_fields_length. Qed.

Lemma snapshot_prefix_bytes s : Forall is_byte (snapshot_prefix s).
Proof.
  unfold snapshot_prefix, snapshot_fields, write_u16, write_u32, write_u64. rewrite !Forall_app.
  split_and!; try apply write_le_bytes; [apply sha256_bytes|apply zeros_bytes].
Qed.

Lemma snapshot_bytes_eq s :
  snapshot_bytes s
  = snapshot_prefix s ++ write_u32 (crc32 (snapshot_prefix s)) ++ repeat 0 32 ++ sn_payload s.
Proof.
  unfold snapshot_bytes. fold (snapshot_fields s). pose proof (snapshot_fields_length s) as Hl.
  change (Z.to_nat (kSnapshotHeaderBytes - kSnapshotReserved)) with 64%nat.
  change (Z.to_nat kSnapshotHeaderBytes) with 128%nat.
  rewrite (resize_pad 64), Hl by lia. cbn [Nat.sub].
  rewrite resize_pad by (rewrite length_app, Hl, repeat_length; lia).
  rewrite length_app, Hl, repeat_length. cbn [Nat.sub Nat.add].
  assert (snapshot_fields s ++ repeat 0 8 ++ repeat 0 64 = snapshot_prefix s ++ repeat 0 36) as E.
  { unfold snapshot_prefix. rewrite <- app_assoc. f_equal. }
  rewrite <- (app_assoc (snapshot_fields s)), E. pose proof (snapshot_prefix_length s) as Hp.
  rewrite (take_app_length' (snapshot_prefix s) _ 92) by lia.
  rewrite (drop_app_ge (snapshot_prefix s) _ 96) by lia. rewrite Hp. cbn [Nat.sub repeat drop].
  by rewrite <- !app_assoc.
Qed.

Lemma snapshot_bytes_length s : zlength (snapshot_bytes s) = 128 + zlength (sn_payload s).
Proof.
  rewrite snapshot_bytes_eq. unfold zlength, write_u32.
  rewrite !length_app, snapshot_prefix_length, write_le_length, repeat_length. lia.
Qed.

(** What is read when the snapshot file holds the bytes of a snapshot. *)
Lemma read_snapshot_file files s :
  can_read snapshot_name = true -> snapshot_ok s -> map_find snapshot_name files = Some (snapshot_bytes s) ->
  read_snapshot files = Ok (Some s).
Proof.
  intros Hread (Hs & He & Hb & Hl) Hf. pose proof (zlength_nonneg (sn_payload s)) as H0l.
  unfold read_snapshot. change kSnapshotHeaderBytes with 128.
  rewrite (read_file_present _ _ _ _ Hread Hf) by (rewrite snapshot_bytes_length; lia).
  rewrite snapshot_bytes_length, (proj2 (Z.ltb_ge _ 128)) by lia.
  pose proof (snapshot_prefix_length s) as Hp. rewrite snapshot_bytes_eq.
  rewrite (take_app_length' (snapshot_prefix s) _ 92), (drop_app_length' (snapshot_prefix s) _ 92) by lia.
  rewrite read_write_u32 by (apply crc32_u32, snapshot_prefix_bytes).
  assert (drop (Z.to_nat 128) (snapshot_prefix s ++ write_u32 (crc32 (snapshot_prefix s)) ++ repeat 0 32 ++ sn_payload s)
          = sn_payload s) as ->.
  { change (Z.to_nat 128) with 128%nat. rewrite drop_app_ge, Hp by lia. cbn [Nat.sub]. by skip_fields. }
  set (rest := write_u32 _ ++ _). unfold snapshot_prefix, snapshot_fields. rewrite <- !app_assoc.
  rewrite read_write_u32 by (unfold kSnapshotMagic; lia). rewrite (Z.eqb_refl kSnapshotMagic). cbn [negb].
  pose proof (digest_of_length (sn_payload s)) as Hd. pose proof digest_of_length as Hdl.
  set (tail := repeat 0 36 ++ rest). set (raw := write_u32 kSnapshotMagic ++ _).
  assert (read_u16 (drop 4 raw) = kSnapshotVersion) as ->.
  { unfold raw. skip_fields. apply read_write_u16. unfold kSnapshotVersion. lia. }
  rewrite (Z.eqb_refl kSnapshotVersion), (Z.eqb_refl (crc32 _)). cbn [negb].
  assert (slice 24 32 raw = digest_of (sn_payload s)) as ->.
  { unfold raw. skip_fields. by rewrite take_app_length'. }
  rewrite bool_decide_true by done. cbn [negb].
  assert (read_u64 (drop 16 raw) = sn_sequence s) as ->.
  { unfold raw. skip_fields. by apply read_write_u64. }
  assert (read_u64 (drop 8 raw) = sn_epoch s) as ->.
  { unfold raw. skip_fields. by apply read_write_u64. }
  by destruct s.
Qed.

End Snapshots.
