(* ===== verification/Journal.v ===== *)
(** * What the journal guarantees

    The abstract journal is the list of records appended so far; a state directory holds
    it as a list of segments, each a run of linked frames.  This file relates the two for
    the operations of Ledger.v: the scan returns exactly the appended records, appending
    extends the list or changes nothing, an interrupted append is repaired, and the
    behaviour of a reopened journal. *)
From Stdlib Require Import ZArith Lia Ascii String Sorted.
From stdpp Require Import base numbers option list strings sets.
From S2P Require Import Prelude Identity Errors Hash Json State Frame Ledger Boot.

Notation history := (list (RecordType * bytes)).

(** ** Entries a journal can hold *)
Definition entry_valid (e : RecordType * bytes) : Prop :=
  0 <= e.1 < 2 ^ 16 /\ zlength e.2 <= kMaxRecordBytes /\ Forall is_byte e.2.

Definition is_link (d : Digest) : Prop := length d = 32%nat /\ Forall is_byte d.

Lemma entry_valid_ok type sequence payload link :
  entry_valid (type, payload) -> 0 <= sequence < 2 ^ 64 -> is_link link ->
  entry_ok type sequence payload link.
Proof. intros (Ht & Hl & Hb) Hs [H1 H2]. unfold entry_ok. simpl in *. tauto. Qed.

Lemma zero_digest_link : is_link zero_digest.
Proof. split; [done|]. repeat constructor; unfold is_byte; lia. Qed.

Section Journal.
Context `{HashingOk} `{Host}.

Lemma record_chain_link type sequence payload : is_link (record_chain type sequence payload).
Proof. split; [apply record_chain_length|apply record_chain_bytes]. Qed.

#[local] Hint Resolve zero_digest_link record_chain_link : wnc.

(** ** Scanning a run of frames *)

(** The records of a run, as the scan returns them. *)
Fixpoint run_records (sequence : Z) (link : Digest) (l : history) : list LedgerRecord :=
  match l with
  | [] => []
  | (type, payload) :: l' =>
      record_of type sequence payload link
      :: run_records (sequence + 1) (record_chain type sequence payload) l'
  end.

(** The report after a run that ends at [offset]. *)
Definition report_past (rep : RecoveryReport) (sequence : Z) (offset : nat) : RecoveryReport :=
  mk_report (recovered rep) (valid_records rep) (truncated_bytes rep) sequence (Z.of_nat offset)
    (excess_segments rep) (chain_break rep) (detail rep).

(** The scan state after a run read from [offset]. *)
Fixpoint advance (s : Scan) (offset : nat) (l : history) : Scan :=
  match l with
  | [] => s
  | (type, payload) :: l' =>
      let offset' := (offset + (92 + length payload))%nat in
      advance
        (mk_scan (s_records s ++ [record_of type (s_expected s) payload (s_previous s)])
           (report_past (s_report s) (s_expected s) offset')
           (s_expected s + 1) (record_chain type (s_expected s) payload) (s_torn s))
        offset' l'
  end.

Lemma derived_chain type sequence payload link pre post :
  is_link link ->
  chain_of (zero_link (take 88 (drop (length pre) (pre ++ frame type sequence payload link ++ post)))) payload
  = record_chain type sequence payload.
Proof.
  intros [Hl _]. rewrite drop_app_length. unfold frame. rewrite <- !app_assoc.
  rewrite take_app_length' by (rewrite frame_prefix_length; [done|apply digest_of_length|done]).
  by rewrite zero_link_prefix by (apply digest_of_length || done).
Qed.

Lemma encode_run_length_ge sequence link l :
  is_link link -> (92 * length l <= length (encode_run sequence link l))%nat.
Proof.
  revert sequence link; induction l as [|[t p] l IH]; intros sequence link Hl; cbn [encode_run length]; [lia|].
  rewrite length_app, frame_length by apply Hl.
  specialize (IH (sequence + 1) (record_chain t sequence p) (record_chain_link _ _ _)). lia.
Qed.

Lemma encode_run_bytes sequence link l :
  Forall entry_valid l -> is_link link -> Forall is_byte (encode_run sequence link l).
Proof.
  intros Hl. revert sequence link. induction Hl as [|[t p] l He Hl IH]; intros sequence link Hk; cbn [encode_run].
  - constructor.
  - rewrite Forall_app; split; [|apply IH, record_chain_link]. apply frame_bytes; [apply Hk|apply He].
Qed.

(** Scanning a run leaves the scan after it, with the same data. *)
Lemma scan_run l fuel pre post s :
  Forall entry_valid l -> is_link (s_previous s) ->
  0 <= s_expected s -> s_expected s + zlength l < 2 ^ 64 -> (length l <= fuel)%nat ->
  let body := encode_run (s_expected s) (s_previous s) l in
  scan_bytes fuel (pre ++ body ++ post) (length pre) s
  = scan_bytes (fuel - length l) (pre ++ body ++ post) (length pre + length body) (advance s (length pre) l).
Proof.
  intros Hl. revert fuel pre s.
  induction Hl as [|[t p] l He Hl IH]; intros fuel pre s Hlink H0s Hs Hf body; unfold body.
  - cbn [encode_run length advance]. by rewrite Nat.add_0_r, Nat.sub_0_r.
  - assert (zlength ((t, p) :: l) = zlength l + 1) as Hz by (unfold zlength; simpl; lia).
    assert (0 <= zlength l) by (unfold zlength; lia).
    cbn [encode_run length advance] in *. destruct fuel as [|fuel]; [lia|].
    set (f := frame t (s_expected s) p (s_previous s)).
    assert (length f = (92 + length p)%nat) as Hfl by (apply frame_length; apply Hlink).
    assert (entry_ok t (s_expected s) p (s_previous s)) as Heo by (apply entry_valid_ok; done || lia).
    rewrite <- (app_assoc f). set (rest := encode_run _ _ l ++ post).
    pose proof (parse_build t (s_expected s) p (s_previous s) pre rest Heo) as Hparse.
    pose proof (derived_chain t (s_expected s) p (s_previous s) pre rest Hlink) as Hchain.
    fold f in Hparse, Hchain. cbn [scan_bytes].
    rewrite (proj2 (Nat.ltb_lt _ _)) by (rewrite !length_app; lia). cbn [negb].
    rewrite Hparse. cbn [record_of r_sequence r_chain r_payload]. rewrite Z.eqb_refl, Hchain. cbn [negb].
    rewrite bool_decide_true by done. cbn [negb]. rewrite u64_small by lia.
    specialize (IH fuel (pre ++ f)
      (mk_scan (s_records s ++ [record_of t (s_expected s) p (s_previous s)])
         (report_past (s_report s) (s_expected s) (length pre + (92 + length p)))
         (s_expected s + 1) (record_chain t (s_expected s) p) (s_torn s))).
    cbn [s_previous s_expected] in IH. rewrite length_app, Hfl, <- !app_assoc in IH.
    rewrite length_app, Hfl. unfold rest.
    replace (length pre + (92 + length p + length (encode_run (s_expected s + 1) (record_chain t (s_expected s) p) l)))%nat
      with (length pre + (92 + length p) + length (encode_run (s_expected s + 1) (record_chain t (s_expected s) p) l))%nat by lia.
    apply IH; [apply record_chain_link|lia|lia|lia].
Qed.

(** The number of bytes of a run. *)
Definition run_size (l : history) : nat := list_sum (map (fun e => 92 + length e.2)%nat l).

Lemma encode_run_length sequence link l :
  is_link link -> length (encode_run sequence link l) = run_size l.
Proof.
  revert sequence link; induction l as [|[t p] l IH]; intros sequence link Hl; [done|].
  cbn [encode_run]. rewrite length_app, frame_length by apply Hl.
  rewrite IH by apply record_chain_link. done.
Qed.

Lemma run_chain_link sequence link l : is_link link -> is_link (run_chain sequence link l).
Proof.
  revert sequence link; induction l as [|[t p] l IH]; intros sequence link Hl; [done|].
  apply IH, record_chain_link.
Qed.

(** The scan after a run, in closed form. *)
Lemma advance_eq s offset l :
  is_link (s_previous s) ->
  advance s offset l =
  mk_scan (s_records s ++ run_records (s_expected s) (s_previous s) l)
    (match l with
     | [] => s_report s
     | _ => report_past (s_report s) (s_expected s + zlength l - 1) (offset + run_size l)
     end)
    (s_expected s + zlength l) (run_chain (s_expected s) (s_previous s) l) (s_torn s).
Proof.
  revert s offset; induction l as [|[t p] l IH]; intros s offset Hl.
  - destruct s. cbn. by rewrite app_nil_r, Z.add_0_r.
  - cbn [advance]. rewrite IH by apply record_chain_link.
    assert (zlength ((t, p) :: l) = zlength l + 1) as Hz by (unfold zlength; simpl; lia).
    cbn [s_records s_report s_expected s_previous s_torn run_records run_chain]. rewrite <- app_assoc.
    f_equal; [|lia].
    destruct l as [|e l]; unfold report_past; simpl; f_equal; unfold run_size, zlength; simpl; lia.
Qed.

Lemma scan_bytes_end fuel data s : scan_bytes fuel data (length data) s = Ok s.
Proof. destruct fuel as [|fuel]; [done|]. cbn [scan_bytes]. by rewrite Nat.ltb_irrefl. Qed.

(** A segment that is a run of frames. *)
Lemma scan_run_segment l s :
  Forall entry_valid l -> is_link (s_previous s) ->
  0 <= s_expected s -> s_expected s + zlength l < 2 ^ 64 ->
  let data := encode_run (s_expected s) (s_previous s) l in
  scan_bytes (length data) data 0 s = Ok (advance s 0 l).
Proof.
  intros Hl Hk H0s Hs data. pose proof (encode_run_length_ge (s_expected s) (s_previous s) l Hk) as Hge.
  pose proof (scan_run l (length data) [] [] s Hl Hk H0s Hs) as E. cbn [app length] in E.
  rewrite app_nil_r in E. fold data in E, Hge. rewrite E by lia. apply scan_bytes_end.
Qed.

(** The scan a torn tail ends in: [n] bytes of an interrupted frame after the run. *)
Definition torn_scan (s : Scan) (l : history) (n : nat) : Scan :=
  let rep := s_report (advance s 0 l) in
  mk_scan (s_records (advance s 0 l))
    (mk_report true (valid_records rep) (Z.of_nat n) (last_valid_sequence rep) (Z.of_nat (run_size l))
       (excess_segments rep) (chain_break rep)
       (String.append "ledger_truncated" (String.append ": " (torn_message n))))
    (s_expected s + zlength l) (run_chain (s_expected s) (s_previous s) l) true.

Lemma scan_torn_segment l s type payload n :
  Forall entry_valid l -> is_link (s_previous s) -> entry_valid (type, payload) ->
  0 <= s_expected s -> s_expected s + zlength l < 2 ^ 64 ->
  let f := frame type (s_expected s + zlength l) payload (run_chain (s_expected s) (s_previous s) l) in
  (0 < n < length f)%nat ->
  let data := encode_run (s_expected s) (s_previous s) l ++ take n f in
  scan_bytes (length data) data 0 s = Ok (torn_scan s l n).
Proof.
  intros Hl Hk He H0s Hs f Hn data. pose proof (encode_run_length_ge (s_expected s) (s_previous s) l Hk) as Hge.
  assert (0 <= zlength l) by (unfold zlength; lia).
  pose proof (scan_run l (length data) [] (take n f) s Hl Hk H0s Hs) as E. cbn [app length] in E.
  unfold data in E at 2. fold data in E.
  assert (length data = (length (encode_run (s_expected s) (s_previous s) l) + n)%nat) as Hd.
  { unfold data. rewrite length_app, length_take. lia. }
  rewrite E by lia. clear E. destruct (length data - length l)%nat as [|fuel] eqn:Ef; [lia|].
  assert (parse_frame data (length (encode_run (s_expected s) (s_previous s) l))
          = Err (kLedgerTruncated, torn_message n)) as Ht.
  { apply parse_torn; [|by apply Hn]. apply entry_valid_ok; [done|lia|]. by apply run_chain_link. }
  cbn [scan_bytes]. rewrite (proj2 (Nat.ltb_lt _ _)) by lia. cbn [negb].
  cbn [Nat.add]. rewrite Ht. change (code_eqb kLedgerTruncated kLedgerTruncated) with true. cbn [negb].
  unfold torn_scan. rewrite !advance_eq by done. cbn [s_records s_report s_expected s_previous s_torn].
  rewrite encode_run_length in * by done. do 2 f_equal. unfold zlength. rewrite Hd. f_equal; lia.
Qed.

(** ** Scanning the segments *)

(** One segment, given its contents. *)
Definition scan_data (s : Scan) (data : bytes) : scan_result Scan :=
  if s_torn s then
    Ok (mk_scan (s_records s)
          (mk_report (recovered (s_report s)) (valid_records (s_report s)) (truncated_bytes (s_report s))
             (last_valid_sequence (s_report s)) (valid_bytes (s_report s))
             (excess_segments (s_report s) + 1) (chain_break (s_report s)) (detail (s_report s)))
          (s_expected s) (s_previous s) true)
  else scan_bytes (length data) data 0 s.

(** The contents of the segments that hold the runs. *)
Fixpoint encode_segments (sequence : Z) (link : Digest) (runs : list history) : list bytes :=
  match runs with
  | [] => []
  | run :: runs' =>
      encode_run sequence link run
      :: encode_segments (sequence + zlength run) (run_chain sequence link run) runs'
  end.

Lemma encode_segments_app sequence link runs1 runs2 :
  encode_segments sequence link (runs1 ++ runs2)
  = encode_segments sequence link runs1
    ++ encode_segments (sequence + zlength (concat runs1)) (run_chain sequence link (concat runs1)) runs2.
Proof.
  revert sequence link; induction runs1 as [|run runs1 IH]; intros sequence link; simpl.
  - by rewrite Z.add_0_r.
  - rewrite IH, run_chain_app. do 3 f_equal. unfold zlength. rewrite length_app. lia.
Qed.

(** The scan of the runs, one segment after the other. *)
Definition advance_all (s : Scan) (runs : list history) : Scan :=
  fold_left (fun s run => advance s 0 run) runs s.

(** The bytes of the last segment that holds a record. *)
Definition last_size (start : Z) (runs : list history) : Z :=
  fold_left (fun acc run => match run with [] => acc | _ => Z.of_nat (run_size run) end) runs start.

Lemma run_records_app sequence link l1 l2 :
  run_records sequence link (l1 ++ l2)
  = run_records sequence link l1 ++ run_records (sequence + zlength l1) (run_chain sequence link l1) l2.
Proof.
  revert sequence link; induction l1 as [|[t p] l1 IH]; intros; simpl; [by rewrite Z.add_0_r|].
  replace (sequence + zlength ((t, p) :: l1)) with (sequence + 1 + zlength l1) by (unfold zlength; simpl; lia).
  by rewrite IH.
Qed.

Lemma run_records_length sequence link l : length (run_records sequence link l) = length l.
Proof. revert sequence link; induction l as [|[t p] l IH]; intros; simpl; [done|]. by rewrite IH. Qed.

Lemma advance_all_eq runs s :
  is_link (s_previous s) ->
  let l := concat runs in
  advance_all s runs =
  mk_scan (s_records s ++ run_records (s_expected s) (s_previous s) l)
    (mk_report (recovered (s_report s)) (valid_records (s_report s)) (truncated_bytes (s_report s))
       (match l with [] => last_valid_sequence (s_report s) | _ => s_expected s + zlength l - 1 end)
       (last_size (valid_bytes (s_report s)) runs) (excess_segments (s_report s))
       (chain_break (s_report s)) (detail (s_report s)))
    (s_expected s + zlength l) (run_chain (s_expected s) (s_previous s) l) (s_torn s).
Proof.
  revert s; induction runs as [|run runs IH]; intros s Hk l; unfold l.
  - destruct s as [? [] ? ? ?]. cbn. by rewrite app_nil_r, Z.add_0_r.
  - assert (advance_all s (run :: runs) = advance_all (advance s 0 run) runs) as -> by done.
    assert (zlength (run ++ concat runs) = zlength run + zlength (concat runs)) as Hz.
    { unfold zlength. rewrite length_app. lia. }
    rewrite IH by (rewrite advance_eq by done; by apply run_chain_link).
    rewrite advance_eq by done. cbn [s_records s_report s_expected s_previous s_torn concat].
    rewrite <- app_assoc, <- run_records_app, <- run_chain_app, Hz. rewrite Z.add_assoc.
    f_equal. destruct run as [|e run]; [by destruct (concat runs), (s_report s)|].
    unfold report_past, last_size. cbn [recovered valid_records truncated_bytes last_valid_sequence
      valid_bytes excess_segments chain_break detail fold_left app].
    f_equal. destruct (concat runs) eqn:Ec; [|done].
    replace (zlength (@nil (RecordType * bytes))) with 0 by done. lia.
Qed.

Lemma scan_runs runs s :
  Forall entry_valid (concat runs) -> is_link (s_previous s) -> s_torn s = false ->
  0 <= s_expected s -> s_expected s + zlength (concat runs) < 2 ^ 64 ->
  result_fold scan_data s (encode_segments (s_expected s) (s_previous s) runs) = Ok (advance_all s runs).
Proof.
  revert s; induction runs as [|run runs IH]; intros s Hv Hk Ht H0s Hs; [done|].
  cbn [concat] in *. apply Forall_app in Hv as [Hv1 Hv2].
  unfold zlength in Hs. rewrite length_app in Hs.
  cbn [encode_segments result_fold]. unfold scan_data at 1. rewrite Ht.
  rewrite scan_run_segment by (done || (unfold zlength; lia)).
  assert (advance_all s (run :: runs) = advance_all (advance s 0 run) runs) as -> by done.
  pose proof (advance_eq s 0 run Hk) as Ea. specialize (IH (advance s 0 run)).
  pose proof (f_equal s_expected Ea) as E1. pose proof (f_equal s_previous Ea) as E2.
  pose proof (f_equal s_torn Ea) as E3. cbn [s_expected s_previous s_torn] in E1, E2, E3.
  rewrite E1, E2, E3 in IH.
  apply IH; [done|by apply run_chain_link|done|unfold zlength; lia|unfold zlength; lia].
Qed.

(** Segments after a torn one are only counted. *)
Lemma scan_excess datas s :
  s_torn s = true ->
  result_fold scan_data s datas =
  Ok (mk_scan (s_records s)
        (mk_report (recovered (s_report s)) (valid_records (s_report s)) (truncated_bytes (s_report s))
           (last_valid_sequence (s_report s)) (valid_bytes (s_report s))
           (excess_segments (s_report s) + zlength datas) (chain_break (s_report s)) (detail (s_report s)))
        (s_expected s) (s_previous s) true).
Proof.
  revert s; induction datas as [|d datas IH]; intros s Ht.
  - destruct s as [? [] ? ? ?]. cbn in *. by rewrite Z.add_0_r, Ht.
  - cbn [result_fold]. unfold scan_data at 1. rewrite Ht, IH by done.
    cbn [s_records s_report s_expected s_previous s_torn recovered valid_records truncated_bytes
      last_valid_sequence valid_bytes excess_segments chain_break detail].
    do 3 f_equal. unfold zlength. simpl. lia.
Qed.

(** ** The files of a journal *)
Definition journal_files (datas : list bytes) : Files :=
  imap (fun i data => (segment_name (Z.of_nat i), data)) datas.

(** The directory is a map, and its journal segments hold these contents, in order. *)
Definition holds (files : Files) (datas : list bytes) : Prop :=
  keys_sorted files /\ List.filter (fun p => is_journal p.1) files = journal_files datas.

Lemma list_filter_keys (files : Files) (q : string -> bool) :
  List.filter q files.*1 = (List.filter (fun p => q p.1) files).*1.
Proof.
  induction files as [|[k v] files IH]; [done|].
  rewrite fmap_cons. cbn [List.filter fst]. rewrite IH. by destruct (q k).
Qed.

Lemma list_filter_sorted (files : Files) (q : string * bytes -> bool) :
  keys_sorted files -> keys_sorted (List.filter q files).
Proof.
  induction files as [|[k v] files IH]; [done|]. intros [Hlt Hs]. simpl.
  destruct (q (k, v)); simpl; [|by apply IH]. split; [|by apply IH].
  rewrite Forall_forall in *. intros x Hx. apply Hlt.
  apply list_elem_of_In, filter_In in Hx as [Hx _]. by apply list_elem_of_In.
Qed.

Lemma keys_sorted_strong (m : Files) :
  keys_sorted m -> StronglySorted (fun x y => std_less y x = false) m.*1.
Proof.
  induction m as [|[k v] m IH]; simpl; [constructor|]. intros [Hlt Hs].
  constructor; [by apply IH|]. rewrite Forall_fmap. eapply Forall_impl; [done|].
  intros x. apply std_less_asym.
Qed.

Lemma journal_names_holds files datas :
  holds files datas -> journal_names files = (journal_files datas).*1.
Proof.
  intros [Hs Hf]. unfold journal_names. rewrite list_filter_keys, Hf.
  apply (std_sort_id (K := string) (fun x => x)). apply keys_sorted_strong. rewrite <- Hf.
  by apply list_filter_sorted.
Qed.

Lemma holds_find files datas name data :
  holds files datas -> (name, data) ∈ journal_files datas -> map_find name files = Some data.
Proof.
  intros [Hs Hf] Hin. apply keys_sorted_find; [done|]. rewrite <- Hf in Hin.
  apply list_elem_of_In, filter_In in Hin as [Hin _]. by apply list_elem_of_In.
Qed.

Definition fits (data : bytes) : Prop := zlength data <= kMaxSegmentBytes + 1.

Lemma scan_names files (part : Files) s :
  host_serves -> Forall (fun p => map_find p.1 files = Some p.2 /\ fits p.2) part ->
  result_fold (scan_segment files) s part.*1 = result_fold scan_data s part.*2.
Proof.
  intros [Hr _] Hp. revert s; induction Hp as [|[name data] part [Hfind Hfit] Hp IH]; intros s; [done|].
  cbn [fmap list_fmap fst snd result_fold] in *.
  assert (scan_segment files s name = scan_data s data) as ->.
  { unfold scan_segment, scan_data. destruct (s_torn s); [done|].
    by rewrite (read_file_present _ _ _ data) by done. }
  destruct (scan_data s data); [|done]. apply IH.
Qed.

Lemma journal_files_data datas : (journal_files datas).*2 = datas.
Proof. unfold journal_files. rewrite fmap_imap. apply list_eq. intros i. rewrite list_lookup_imap. by destruct (datas !! i). Qed.

Lemma scan_directory files datas :
  host_serves -> holds files datas -> Forall fits datas ->
  result_fold (scan_segment files) start_scan (journal_names files) = result_fold scan_data start_scan datas.
Proof.
  intros Hr Hh Hfit. rewrite (journal_names_holds files datas) by done.
  rewrite scan_names; [by rewrite journal_files_data|done|].
  apply Forall_forall. intros [name data] Hin. split; [by apply (holds_find files datas)|].
  rewrite Forall_forall in Hfit. apply Hfit. rewrite <- (journal_files_data datas).
  by apply (list_elem_of_fmap_2 snd).
Qed.

(** *** Updates of the directory *)
Lemma journal_filter_other k v (files : Files) :
  is_journal k = false ->
  List.filter (fun p => is_journal p.1) (map_insert k v files) = List.filter (fun p => is_journal p.1) files.
Proof.
  intros Hk. induction files as [|[k0 v0] files IH]; cbn [map_insert List.filter fst]; [by rewrite Hk|].
  destruct (std_less k k0) eqn:E1; cbn [List.filter fst]; [by rewrite Hk|].
  destruct (std_less k0 k) eqn:E2; cbn [List.filter fst]; [by rewrite IH|].
  assert (k = k0) as <- by by apply std_less_total. by rewrite Hk.
Qed.

Lemma map_insert_first k (v : bytes) m :
  Forall (fun p : string * bytes => std_less k p.1 = true) m -> map_insert k v m = (k, v) :: m.
Proof. destruct 1 as [|[k0 v0] m Hlt Hm]; simpl in *; [done|]. by rewrite Hlt. Qed.

Lemma journal_filter_insert k v (files : Files) :
  keys_sorted files -> is_journal k = true ->
  List.filter (fun p => is_journal p.1) (map_insert k v files)
  = map_insert k v (List.filter (fun p => is_journal p.1) files).
Proof.
  intros Hs Hk. induction files as [|[k0 v0] files IH]; cbn [map_insert List.filter fst]; [by rewrite Hk|].
  destruct Hs as [Hlt Hs]. specialize (IH Hs). rewrite Forall_forall in Hlt.
  assert (forall x, x ∈ List.filter (fun p => is_journal p.1) files -> x ∈ files) as Hsub.
  { intros x Hx. by apply list_elem_of_In, filter_In in Hx as [Hx%list_elem_of_In _]. }
  destruct (std_less k k0) eqn:E1; cbn [List.filter fst].
  - rewrite Hk, map_insert_first; [done|]. apply Forall_forall. intros x Hx.
    destruct (is_journal k0).
    + apply elem_of_cons in Hx as [->|Hx]; [done|].
      eapply (std_less_trans k k0); [done|]. by apply Hlt, Hsub.
    + eapply (std_less_trans k k0); [done|]. by apply Hlt, Hsub.
  - destruct (std_less k0 k) eqn:E2; cbn [List.filter fst].
    + destruct (is_journal k0); cbn [map_insert]; [by rewrite E1, E2, IH|done].
    + assert (k = k0) as <- by by apply std_less_total. rewrite Hk. cbn [map_insert]. by rewrite std_less_irrefl.
Qed.

Lemma map_insert_replace k (v v' : bytes) m :
  Forall (fun p : string * bytes => std_less p.1 k = true) m ->
  map_insert k v (m ++ [(k, v')]) = m ++ [(k, v)].
Proof.
  induction 1 as [|[k0 v0] m Hlt Hm IH]; cbn [app map_insert fst] in *; [by rewrite !std_less_irrefl|].
  by rewrite (std_less_asym _ _ Hlt), Hlt, IH.
Qed.

(** Names of segments follow their numbers, far beyond the segment bound. *)
Lemma segment_name_next i : 0 <= i < 1000 -> string_less (segment_name i) (segment_name (i + 1)) = true.
Proof. apply (range_forall (fun i => string_less (segment_name i) (segment_name (i + 1)))). vm_compute. reflexivity. Qed.

Lemma segment_name_less i j : 0 <= i < j -> j <= 1000 -> std_less (segment_name i) (segment_name j) = true.
Proof.
  intros Hi Hj. pose proof Hj as Hj'. revert Hj'. replace j with (i + 1 + Z.of_nat (Z.to_nat (j - i - 1))) in * by lia.
  induction (Z.to_nat (j - i - 1)) as [|n IH]; intros Hj'.
  - rewrite Z.add_0_r. apply segment_name_next. lia.
  - eapply std_less_trans; [apply IH; lia|].
    replace (i + 1 + Z.of_nat (S n)) with (i + 1 + Z.of_nat n + 1) by lia. apply segment_name_next. lia.
Qed.

Lemma is_journal_segment i : is_journal (segment_name i) = true.
Proof. unfold is_journal, starts_with, segment_name. cbn. by destruct (String.append _ _). Qed.

Lemma journal_files_below datas k :
  zlength datas <= k -> k <= 1000 ->
  Forall (fun p => std_less p.1 (segment_name k) = true) (journal_files datas).
Proof.
  intros Hk Hk'. apply Forall_lookup. intros i [name data] Hi. unfold journal_files in Hi.
  rewrite list_lookup_imap in Hi. destruct (datas !! i) as [d|] eqn:Hd; [|done].
  apply lookup_lt_Some in Hd. injection Hi as <- <-. cbn [fst].
  unfold zlength in Hk. apply segment_name_less; lia.
Qed.

Lemma journal_files_app datas1 datas2 :
  journal_files (datas1 ++ datas2)
  = journal_files datas1 ++ imap (fun i d => (segment_name (zlength datas1 + Z.of_nat i), d)) datas2.
Proof.
  unfold journal_files. rewrite imap_app. f_equal. apply imap_ext. intros i d _. simpl.
  do 2 f_equal. unfold zlength. lia.
Qed.

Lemma holds_other files datas k v : holds files datas -> is_journal k = false -> holds (map_insert k v files) datas.
Proof.
  intros [Hs Hf] Hk. split; [by apply map_insert_sorted|]. by rewrite journal_filter_other.
Qed.

Lemma holds_new files datas data :
  holds files datas -> zlength datas <= 1000 ->
  holds (map_insert (segment_name (zlength datas)) data files) (datas ++ [data]).
Proof.
  intros [Hs Hf] Hn. split; [by apply map_insert_sorted|].
  rewrite journal_filter_insert, Hf, journal_files_app by (done || apply is_journal_segment).
  rewrite map_insert_last by (apply journal_files_below; lia). simpl. by rewrite Z.add_0_r.
Qed.

Lemma holds_last files datas data data' :
  holds files (datas ++ [data]) -> zlength datas <= 1000 ->
  holds (map_insert (segment_name (zlength datas)) data' files) (datas ++ [data']).
Proof.
  intros [Hs Hf] Hn. split; [by apply map_insert_sorted|].
  rewrite journal_filter_insert, Hf by (done || apply is_journal_segment).
  rewrite !journal_files_app. simpl. rewrite Z.add_0_r.
  apply map_insert_replace, journal_files_below; lia.
Qed.

Lemma holds_find_last files datas data :
  holds files (datas ++ [data]) -> map_find (segment_name (zlength datas)) files = Some data.
Proof.
  intros Hh. apply (holds_find _ _ _ _ Hh). rewrite journal_files_app. simpl. rewrite Z.add_0_r. set_solver.
Qed.

Lemma holds_find_new files datas :
  holds files datas -> zlength datas <= 1000 -> map_find (segment_name (zlength datas)) files = None.
Proof.
  intros [Hs Hf] Hn. apply map_find_None. intros Hin.
  apply list_elem_of_fmap in Hin as [[k v] [E Hin]]. cbn [fst] in E. subst k.
  assert ((segment_name (zlength datas), v) ∈ journal_files datas) as Hin'.
  { rewrite <- Hf. apply list_elem_of_In, filter_In. split; [by apply list_elem_of_In|]. apply is_journal_segment. }
  pose proof (journal_files_below datas (zlength datas)) as Hb. rewrite Forall_forall in Hb.
  specialize (Hb (reflexivity _) Hn _ Hin'). cbn [fst] in Hb. by rewrite std_less_irrefl in Hb.
Qed.

(** ** What the scan of a directory reports *)

(** The abstract journal of a list of segments. *)
Notation segments_of := (encode_segments 1 zero_digest).
Notation records_of := (run_records 1 zero_digest).
Notation chain_after := (run_chain 1 zero_digest).

Definition clean_report (runs : list history) : RecoveryReport :=
  mk_report false (zlength (concat runs)) 0 (zlength (concat runs)) (last_size 0 runs) 0 false "".

Definition torn_report (runs : list history) (run : history) (n : nat) (excess : Z) : RecoveryReport :=
  mk_report true (zlength (concat runs ++ run)) (Z.of_nat n) (zlength (concat runs ++ run))
    (Z.of_nat (run_size run)) excess false
    (String.append "ledger_truncated" (String.append ": " (torn_message n))).

Lemma zlength_app {A} (l1 l2 : list A) : zlength (l1 ++ l2) = zlength l1 + zlength l2.
Proof. unfold zlength. rewrite length_app. lia. Qed.

Lemma zlength_records sequence link l : zlength (run_records sequence link l) = zlength l.
Proof. unfold zlength. by rewrite run_records_length. Qed.

(** The last valid sequence is the number of records. *)
Lemma last_sequence_match (l : history) :
  match l with [] => 0 | _ :: _ => 1 + zlength l - 1 end = zlength l.
Proof. destruct l; [done|lia]. Qed.

Lemma read_frames_clean files runs :
  host_serves -> holds files (segments_of runs) -> Forall fits (segments_of runs) ->
  Forall entry_valid (concat runs) -> zlength (concat runs) < 2 ^ 64 - 1 ->
  read_frames true files = Ok (records_of (concat runs), clean_report runs).
Proof.
  intros Hhost Hh Hf Hv Hn. unfold read_frames. cbn [negb]. rewrite (scan_directory files _ Hhost Hh Hf).
  pose proof (scan_runs runs start_scan Hv zero_digest_link eq_refl) as E.
  cbn [start_scan s_expected s_previous] in E. rewrite E by lia.
  rewrite advance_all_eq by apply zero_digest_link.
  cbn [start_scan s_records s_report s_expected s_previous s_torn empty_report app recovered valid_records
    truncated_bytes last_valid_sequence valid_bytes excess_segments chain_break detail].
  unfold clean_report. by rewrite zlength_records, last_sequence_match.
Qed.

Lemma read_frames_torn files runs run type payload n excess :
  let link := run_chain (1 + zlength (concat runs)) (chain_after (concat runs)) run in
  let f := frame type (1 + zlength (concat runs ++ run)) payload link in
  let datas := segments_of runs
    ++ (encode_run (1 + zlength (concat runs)) (chain_after (concat runs)) run ++ take n f) :: excess in
  host_serves -> holds files datas -> Forall fits datas ->
  Forall entry_valid (concat runs) -> Forall entry_valid run -> entry_valid (type, payload) ->
  zlength (concat runs ++ run) < 2 ^ 64 - 1 -> (0 < n < length f)%nat ->
  read_frames true files = Ok (records_of (concat runs ++ run), torn_report runs run n (zlength excess)).
Proof.
  intros link f datas Hhost Hh Hf Hv1 Hv2 He Hn Hk. unfold read_frames. cbn [negb].
  rewrite (scan_directory files _ Hhost Hh Hf). unfold datas. rewrite result_fold_app.
  pose proof (zlength_nonneg run). pose proof (zlength_nonneg (concat runs)). rewrite zlength_app in Hn.
  pose proof (scan_runs runs start_scan Hv1 zero_digest_link eq_refl) as E.
  cbn [start_scan s_expected s_previous] in E. rewrite E by lia. clear E.
  rewrite advance_all_eq by apply zero_digest_link.
  cbn [start_scan s_records s_report s_expected s_previous s_torn empty_report app recovered valid_records
    truncated_bytes last_valid_sequence valid_bytes excess_segments chain_break detail].
  rewrite last_sequence_match.
  set (s := mk_scan _ _ (1 + zlength (concat runs)) (chain_after (concat runs)) false).
  cbn [result_fold]. unfold scan_data at 1. cbn [s_torn s].
  assert (is_link (s_previous s)) as Hs by apply run_chain_link, zero_digest_link.
  assert (f = frame type (s_expected s + zlength run) payload (run_chain (s_expected s) (s_previous s) run)) as Ef.
  { unfold f. rewrite zlength_app, Z.add_assoc. done. }
  pose proof (scan_torn_segment run s type payload n Hv2 Hs He) as E. rewrite <- Ef in E.
  cbn [s_expected s_previous s] in E. rewrite E by (done || lia). clear E.
  rewrite scan_excess by done. unfold torn_scan, torn_report. rewrite !advance_eq by done.
  cbn [s_records s_report s_expected s_previous s_torn s recovered valid_records truncated_bytes
    last_valid_sequence valid_bytes excess_segments chain_break detail].
  rewrite <- run_records_app, zlength_records.
  do 2 f_equal. destruct run as [|e run]; unfold report_past;
    cbn [recovered valid_records truncated_bytes last_valid_sequence valid_bytes excess_segments chain_break detail].
  - f_equal. by rewrite app_nil_r.
  - f_equal. rewrite zlength_app. lia.
Qed.

(** ** The ledger's invariant *)

(** The position appends continue at: the last segment, or one that has no file yet. *)
Definition position (L : Ledger) (runs : list history) : Prop :=
  (segment_ L = zlength runs /\ segment_bytes_ L = 0)
  \/ (exists init run, runs = init ++ [run] /\ segment_ L = zlength init
        /\ segment_bytes_ L = Z.of_nat (run_size run)).

Definition total_size (runs : list history) : Z := Z.of_nat (run_size (concat runs)).

(** The directory holds the runs, the host refuses none of its files, and the ledger's
    counters describe it. *)
Record ledger_ok (L : Ledger) (files : Files) (runs : list history) : Prop := {
  ok_host : host_serves;
  ok_open : open_ L = true;
  ok_holds : holds files (segments_of runs);
  ok_fits : Forall (fun run => Z.of_nat (run_size run) <= kMaxSegmentBytes) runs;
  ok_valid : Forall entry_valid (concat runs);
  ok_sequence : last_sequence (head_ L) = zlength (concat runs);
  ok_chain : chain_ L = chain_after (concat runs);
  ok_position : position L runs;
  ok_count : 0 <= segment_ L <= segment_count_ L;
  ok_segment : segment_ L <= kMaxLedgerSegments;
  ok_bound : segment_count_ L <= kMaxLedgerSegments + 1;
  ok_retained : retained_bytes_ L = total_size runs;
  ok_total : total_size runs <= kMaxJournalBytes
}.

Lemma run_size_app l1 l2 : run_size (l1 ++ l2) = (run_size l1 + run_size l2)%nat.
Proof. unfold run_size. by rewrite map_app, list_sum_app. Qed.

Lemma run_size_ge l : (92 * length l <= run_size l)%nat.
Proof. induction l as [|e l IH]; unfold run_size in *; simpl in *; lia. Qed.

Lemma segments_length sequence link runs : length (encode_segments sequence link runs) = length runs.
Proof. revert sequence link; induction runs as [|run runs IH]; intros; simpl; [done|]. by rewrite IH. Qed.

Lemma segments_sizes sequence link runs :
  is_link link -> Forall2 (fun data run => length data = run_size run) (encode_segments sequence link runs) runs.
Proof.
  revert sequence link; induction runs as [|run runs IH]; intros sequence link Hl; cbn; constructor.
  - by apply encode_run_length.
  - apply IH. by apply run_chain_link.
Qed.

Lemma segments_fit runs :
  Forall (fun run => Z.of_nat (run_size run) <= kMaxSegmentBytes) runs -> Forall fits (segments_of runs).
Proof.
  intros Hr. pose proof (segments_sizes 1 zero_digest runs zero_digest_link) as Hs.
  induction Hs as [|data run datas runs E Hs IH]; constructor; inv Hr; [|by apply IH].
  unfold fits, zlength. lia.
Qed.

(** The journal byte bound keeps the sequence far from its width. *)
Lemma ledger_sequence_small L files runs : ledger_ok L files runs -> zlength (concat runs) < 2 ^ 32.
Proof.
  intros Hk. pose proof (ok_total _ _ _ Hk) as Ht. unfold total_size, kMaxJournalBytes, kMaxLedgerSegments, kMaxSegmentBytes in Ht.
  pose proof (run_size_ge (concat runs)). unfold zlength. lia.
Qed.

Lemma ledger_reads L files runs :
  ledger_ok L files runs -> read_frames true files = Ok (records_of (concat runs), clean_report runs).
Proof.
  intros Hk. pose proof (ledger_sequence_small _ _ _ Hk). apply read_frames_clean; try apply Hk.
  - apply segments_fit, Hk.
  - lia.
Qed.

(** ** Appending *)

(** Both kinds of position at once: the segment appended to holds [run], and has a file
    when the directory has one more run than [init]. *)
Definition current (runs init : list history) (run : history) : Prop :=
  runs = init ++ [run] \/ (runs = init /\ run = []).

Lemma position_current L runs :
  position L runs <->
  exists init run, current runs init run /\ segment_ L = zlength init /\ segment_bytes_ L = Z.of_nat (run_size run).
Proof.
  unfold position, current. split.
  - intros [[E1 E2]|(init & run & -> & E1 & E2)]; [exists runs, []; auto|eauto 6].
  - intros (init & run & [->|[-> ->]] & E1 & E2); [right; eauto 6|left; auto].
Qed.

Lemma current_concat runs init run : current runs init run -> concat runs = concat init ++ run.
Proof.
  intros [->|[-> ->]]; [|by rewrite app_nil_r].
  rewrite concat_app. simpl. by rewrite app_nil_r.
Qed.

(** The segment appended to, as the bytes of its run. *)
Definition current_bytes (init : list history) (run : history) : bytes :=
  encode_run (1 + zlength (concat init)) (chain_after (concat init)) run.

Lemma segments_snoc init run : segments_of (init ++ [run]) = segments_of init ++ [current_bytes init run].
Proof. by rewrite encode_segments_app. Qed.

Lemma current_holds files runs init run extra :
  holds files (segments_of runs) -> current runs init run -> zlength init <= 1000 ->
  let name := segment_name (zlength init) in
  holds (map_insert name (default [] (map_find name files) ++ extra) files)
        (segments_of init ++ [current_bytes init run ++ extra]).
Proof.
  intros Hh Hc Hn name.
  assert (zlength (segments_of init) = zlength init) as Hz by (unfold zlength; by rewrite segments_length).
  destruct Hc as [->|[-> ->]].
  - rewrite segments_snoc in Hh. unfold name. rewrite <- Hz in *. rewrite (holds_find_last _ _ _ Hh).
    by apply (holds_last _ _ _ _ Hh).
  - unfold name. rewrite <- Hz in *. rewrite (holds_find_new _ _ Hh) by lia. by apply holds_new.
Qed.

Lemma current_bytes_snoc init run type payload :
  current_bytes init run ++ frame type (1 + zlength (concat init ++ run)) payload (chain_after (concat init ++ run))
  = current_bytes init (run ++ [(type, payload)]).
Proof.
  unfold current_bytes. rewrite encode_run_app, run_chain_app, zlength_app. cbn [encode_run].
  by rewrite app_nil_r, Z.add_assoc.
Qed.

(** The frame [append] writes for the next record. *)
Definition next_frame (l : history) (type : RecordType) (payload : bytes) : bytes :=
  frame type (1 + zlength l) payload (chain_after l).

Lemma next_frame_length l type payload : length (next_frame l type payload) = (92 + length payload)%nat.
Proof. apply frame_length, run_chain_link, zero_digest_link. Qed.

(** What an append does to the directory, whatever the disk does: nothing, or a prefix of
    the frame at the end of the current segment, the whole of it on success. *)
Lemma append_files disk files runs init run type payload :
  holds files (segments_of runs) -> current runs init run -> zlength init <= 1000 ->
  let f := next_frame (concat runs) type payload in
  let '(files', r) := append_file_flushed disk files (segment_name (zlength init)) f in
  (files' = files /\ is_ok r = false /\ can_open disk = false)
  \/ exists k, (k <= length f)%nat
       /\ holds files' (segments_of init ++ [current_bytes init run ++ take k f])
       /\ (is_ok r = true -> k = length f)
       /\ is_ok r = can_open disk && (write_loop (writes disk) [] f).2 && can_sync disk.
Proof.
  intros Hh Hc Hn f. unfold append_file_flushed.
  destruct (can_open disk); cbn [negb]; [|left; done].
  destruct (write_loop_prefix (writes disk) [] f) as (k & Hk & E & Hall).
  destruct (write_loop (writes disk) [] f) as [written complete]. cbn [fst snd app] in *. subst written.
  pose proof (current_holds files runs init run (take k f) Hh Hc Hn) as Hnew.
  destruct complete; cbn [negb]; [destruct (can_sync disk); cbn [negb]|];
    right; exists k; split_and!; auto; discriminate.
Qed.

(** The invariant after a whole frame reached the current segment. *)
Lemma append_ok L files files' runs init run type payload :
  ledger_ok L files runs -> current runs init run -> segment_ L = zlength init ->
  segment_bytes_ L = Z.of_nat (run_size run) -> entry_valid (type, payload) ->
  Z.of_nat (run_size run + (92 + length payload)) <= kMaxSegmentBytes ->
  total_size runs + Z.of_nat (92 + length payload) <= kMaxJournalBytes ->
  holds files' (segments_of init ++ [current_bytes init run ++ next_frame (concat runs) type payload]) ->
  ledger_ok
    (mk_ledger (with_last_sequence (head_ L) (zlength (concat runs) + 1))
       (record_chain type (zlength (concat runs) + 1) payload) (segment_ L)
       (segment_bytes_ L + Z.of_nat (92 + length payload)) (segment_count_ L)
       (retained_bytes_ L + Z.of_nat (92 + length payload)) (open_ L))
    files' (init ++ [run ++ [(type, payload)]]).
Proof.
  intros Hk Hc Hseg Hbytes He Hroom Htotal Hh.
  pose proof (current_concat _ _ _ Hc) as Ec.
  assert (concat (init ++ [run ++ [(type, payload)]]) = concat runs ++ [(type, payload)]) as Ec'.
  { rewrite concat_app. simpl. by rewrite app_nil_r, app_assoc, Ec. }
  assert (run_size [(type, payload)] = (92 + length payload)%nat) as Hsz.
  { unfold run_size. simpl. lia. }
  assert (Forall (fun r => Z.of_nat (run_size r) <= kMaxSegmentBytes) init) as Hinit.
  { pose proof (ok_fits _ _ _ Hk) as Hf. destruct Hc as [->|[-> _]]; [|done]. by apply Forall_app in Hf as [? _]. }
  split; cbn [open_ head_ last_sequence with_last_sequence chain_ segment_ segment_bytes_ segment_count_ retained_bytes_];
    try apply Hk.
  - rewrite segments_snoc, <- current_bytes_snoc, <- Ec. exact Hh.
  - apply Forall_app. split; [done|]. constructor; [|constructor]. rewrite run_size_app, Hsz. lia.
  - rewrite Ec'. apply Forall_app. split; [apply Hk|constructor; [exact He|constructor]].
  - rewrite Ec', zlength_app. done.
  - rewrite Ec', run_chain_app. cbn [run_chain]. by rewrite Z.add_comm.
  - right. exists init, (run ++ [(type, payload)]). split_and!; [done|done|].
    cbn [segment_bytes_]. rewrite run_size_app, Hsz, Hbytes. lia.
  - rewrite (ok_retained _ _ _ Hk). unfold total_size. rewrite Ec', run_size_app, Hsz. lia.
  - unfold total_size in *. rewrite Ec', run_size_app, Hsz. lia.
Qed.

(** The ledger with another running chain. *)
Definition with_chain (L : Ledger) (chain : Digest) : Ledger :=
  mk_ledger (head_ L) chain (segment_ L) (segment_bytes_ L) (segment_count_ L) (retained_bytes_ L) (open_ L).

Lemma with_chain_same L : with_chain L (chain_ L) = L.
Proof. by destruct L. Qed.

Lemma rotate_with_chain L c :
  rotate_segment (with_chain L c)
  = match rotate_segment L with Ok L' => Ok (with_chain L' c) | Err e => Err e end.
Proof. unfold rotate_segment. cbn [with_chain segment_count_]. by destruct (_ <=? _). Qed.

(** The rotation decision keeps the invariant and leaves room for the frame. *)
Lemma rotate_ok L files runs n :
  ledger_ok L files runs -> 0 <= n <= kMaxSegmentBytes ->
  match (if kMaxSegmentBytes <? u64 (segment_bytes_ L + n) then rotate_segment L else Ok L) with
  | Ok L' => ledger_ok L' files runs /\ segment_bytes_ L' + n <= kMaxSegmentBytes /\ 0 <= segment_bytes_ L'
             /\ head_ L' = head_ L /\ chain_ L' = chain_ L /\ retained_bytes_ L' = retained_bytes_ L
             /\ (segment_bytes_ L + n <= kMaxSegmentBytes \/ segment_count_ L < kMaxLedgerSegments)
             /\ (segment_bytes_ L + n <= kMaxSegmentBytes -> L' = L)
  | Err e => e.1 = kLedgerOversized /\ kMaxLedgerSegments <= segment_count_ L
             /\ kMaxSegmentBytes < segment_bytes_ L + n
  end.
Proof.
  intros Hk Hn. pose proof (ok_position _ _ _ Hk) as Hp.
  assert (0 <= segment_bytes_ L <= kMaxSegmentBytes) as Hb.
  { destruct Hp as [[_ ->]|(init & run & E & _ & ->)]; [unfold kMaxSegmentBytes; lia|].
    pose proof (ok_fits _ _ _ Hk) as Hf. rewrite E in Hf. apply Forall_app in Hf as [_ Hf]. inv Hf. lia. }
  rewrite u64_small by (unfold kMaxSegmentBytes in *; lia).
  destruct (kMaxSegmentBytes <? segment_bytes_ L + n) eqn:E.
  - apply Z.ltb_lt in E. unfold rotate_segment.
    destruct (kMaxLedgerSegments <=? segment_count_ L) eqn:E2.
    + apply Z.leb_le in E2. by repeat split.
    + apply Z.leb_gt in E2. cbn [segment_bytes_ head_ chain_ retained_bytes_]. split; [|split_and!; done || lia].
      split; cbn [open_ head_ chain_ segment_ segment_bytes_ segment_count_ retained_bytes_]; try apply Hk.
      * left. cbn [segment_ segment_bytes_]. destruct Hp as [[_ Hz]|(init & run & -> & -> & _)]; [lia|].
        rewrite zlength_app. done.
      * pose proof (ok_count _ _ _ Hk). lia.
      * pose proof (ok_count _ _ _ Hk). lia.
      * lia.
  - apply Z.ltb_ge in E. split_and!; done || lia.
Qed.

(** When the bounds leave room for a payload of this size. *)
Definition has_room (L : Ledger) (payload : bytes) : bool :=
  (zlength payload <=? kMaxRecordBytes)
  && ((segment_bytes_ L + Z.of_nat (92 + length payload) <=? kMaxSegmentBytes)
      || (segment_count_ L <? kMaxLedgerSegments))
  && (retained_bytes_ L + Z.of_nat (92 + length payload) <=? kMaxJournalBytes).

(** The state in which the frame of a record is handed to the disk. *)
Lemma append_with_chain disk L files files0 runs c type payload :
  ledger_ok L files0 runs -> is_link c -> 0 <= type < 2 ^ 16 -> Forall is_byte payload ->
  if has_room L payload then
    exists L', ledger_ok L' files0 runs /\ segment_bytes_ L' + Z.of_nat (92 + length payload) <= kMaxSegmentBytes
      /\ retained_bytes_ L' + Z.of_nat (92 + length payload) <= kMaxJournalBytes
      /\ entry_valid (type, payload) /\ head_ L' = head_ L
      /\ (segment_bytes_ L + Z.of_nat (92 + length payload) <= kMaxSegmentBytes -> L' = L)
      /\ append disk files (with_chain L c) type payload =
         let f := frame type (1 + zlength (concat runs)) payload c in
         let '(files', r) := append_file_flushed disk files (segment_name (segment_ L')) f in
         match r with
         | Err e => (files', with_chain L' c, Err e)
         | Ok _ =>
             (files',
              mk_ledger (with_last_sequence (head_ L') (zlength (concat runs) + 1))
                (record_chain type (zlength (concat runs) + 1) payload) (segment_ L')
                (segment_bytes_ L' + Z.of_nat (92 + length payload)) (segment_count_ L')
                (retained_bytes_ L' + Z.of_nat (92 + length payload)) (open_ L'),
              Ok (zlength (concat runs) + 1))
         end
  else exists L' e, append disk files (with_chain L c) type payload = (files, with_chain L' c, Err e)
         /\ e.1 = kLedgerOversized /\ ledger_ok L' files0 runs.
Proof.
  intros Hk Hc Ht Hb. unfold has_room, append. cbn [with_chain open_]. rewrite (ok_open _ _ _ Hk). cbn [negb].
  assert (Z.of_nat kFrameHeaderBytes + zlength payload = Z.of_nat (92 + length payload)) as Hn.
  { unfold kFrameHeaderBytes, zlength. lia. }
  destruct (zlength payload <=? kMaxRecordBytes) eqn:E1; cbn [andb].
  2: { apply Z.leb_gt in E1. rewrite (proj2 (Z.ltb_lt _ _)) by lia. by eauto. }
  apply Z.leb_le in E1. rewrite (proj2 (Z.ltb_ge kMaxRecordBytes _)) by lia.
  assert (Z.of_nat (92 + length payload) <= kMaxSegmentBytes) as Hfit.
  { rewrite <- Hn. unfold kMaxRecordBytes, kMaxDocumentBytes, kFrameHeaderBytes, kMaxSegmentBytes in *. lia. }
  rewrite Hn, (proj2 (Z.ltb_ge kMaxSegmentBytes _)) by lia.
  pose proof (rotate_ok L files0 runs (Z.of_nat (92 + length payload)) Hk) as Hr.
  rewrite rotate_with_chain. cbn [with_chain segment_bytes_]. fold (with_chain L c).
  assert (forall b : bool, (if b then match rotate_segment L with Ok L' => Ok (with_chain L' c) | Err e => Err e end
             else Ok (with_chain L c))
           = match (if b then rotate_segment L else Ok L) with
             | Ok L' => Ok (with_chain L' c) | Err e => Err (A := Ledger) e end) as -> by by intros [].
  destruct (if kMaxSegmentBytes <? _ then rotate_segment L else Ok L) as [L'|e].
  2: { destruct Hr as (He & Hcount & Hover); [lia|].
       rewrite (proj2 (Z.leb_gt _ _)) by lia. rewrite (proj2 (Z.ltb_ge _ _)) by lia. cbn [orb andb]. by eauto. }
  destruct Hr as (Hk' & Hroom & H0b & Eh & Ech & Er & Hwhy & Hsame); [lia|].
  assert ((segment_bytes_ L + Z.of_nat (92 + length payload) <=? kMaxSegmentBytes)
          || (segment_count_ L <? kMaxLedgerSegments) = true) as ->.
  { apply orb_true_iff. rewrite Z.leb_le, Z.ltb_lt. exact Hwhy. }
  cbn [andb with_chain retained_bytes_ head_ chain_ segment_ segment_bytes_ segment_count_ open_].
  pose proof (ok_total _ _ _ Hk) as Htot. pose proof (ok_retained _ _ _ Hk) as Hret.
  assert (0 <= total_size runs) by (unfold total_size; lia).
  assert (kMaxJournalBytes < 2 ^ 32) by (vm_compute; reflexivity).
  assert (kMaxSegmentBytes < 2 ^ 32) by (vm_compute; reflexivity).
  rewrite Er, (u64_small (retained_bytes_ L + _)) by lia.
  destruct (retained_bytes_ L + Z.of_nat (92 + length payload) <=? kMaxJournalBytes) eqn:E2.
  - apply Z.leb_le in E2. exists L'. rewrite Er. split_and!; try done.
    rewrite (proj2 (Z.ltb_ge kMaxJournalBytes _)) by lia.
    pose proof (ledger_sequence_small _ _ _ Hk) as Hsmall. pose proof (zlength_nonneg (concat runs)).
    rewrite Eh, (ok_sequence _ _ _ Hk), u64_small by lia.
    rewrite build_frame_eq by apply Hc. rewrite (Z.add_comm 1).
    destruct (append_file_flushed _ _ _ _) as [files' [u|e]]; [|done].
    assert (zlength (frame type (zlength (concat runs) + 1) payload c)
            = Z.of_nat (92 + length payload)) as ->.
    { unfold zlength at 1. by rewrite frame_length by apply Hc. }
    rewrite !u64_small by lia. done.
  - apply Z.leb_gt in E2. rewrite (proj2 (Z.ltb_lt _ _)) by lia. by eauto.
Qed.

Lemma append_reaches_disk disk L files runs type payload :
  ledger_ok L files runs -> 0 <= type < 2 ^ 16 -> Forall is_byte payload ->
  if has_room L payload then
    exists L', ledger_ok L' files runs /\ segment_bytes_ L' + Z.of_nat (92 + length payload) <= kMaxSegmentBytes
      /\ retained_bytes_ L' + Z.of_nat (92 + length payload) <= kMaxJournalBytes
      /\ entry_valid (type, payload) /\ head_ L' = head_ L
      /\ (segment_bytes_ L + Z.of_nat (92 + length payload) <= kMaxSegmentBytes -> L' = L)
      /\ append disk files L type payload =
         let f := next_frame (concat runs) type payload in
         let '(files', r) := append_file_flushed disk files (segment_name (segment_ L')) f in
         match r with
         | Err e => (files', L', Err e)
         | Ok _ =>
             (files',
              mk_ledger (with_last_sequence (head_ L') (zlength (concat runs) + 1))
                (record_chain type (zlength (concat runs) + 1) payload) (segment_ L')
                (segment_bytes_ L' + Z.of_nat (92 + length payload)) (segment_count_ L')
                (retained_bytes_ L' + Z.of_nat (92 + length payload)) (open_ L'),
              Ok (zlength (concat runs) + 1))
         end
  else exists L' e, append disk files L type payload = (files, L', Err e) /\ e.1 = kLedgerOversized
         /\ ledger_ok L' files runs.
Proof.
  intros Hk Ht Hb.
  pose proof (append_with_chain disk L files files runs (chain_ L) type payload Hk) as Ha.
  rewrite with_chain_same, (ok_chain _ _ _ Hk) in Ha.
  specialize (Ha (run_chain_link 1 zero_digest (concat runs) zero_digest_link) Ht Hb).
  destruct (has_room L payload).
  - destruct Ha as (L' & Hk' & H2 & H3 & H4 & H5 & H6 & E). exists L'.
    assert (with_chain L' (chain_after (concat runs)) = L') as Hsame.
    { rewrite <- (ok_chain _ _ _ Hk'). apply with_chain_same. }
    rewrite Hsame in E. by split_and!.
  - destruct Ha as (L' & e & E & He & Hk'). exists L', e.
    assert (with_chain L' (chain_after (concat runs)) = L') as Hsame.
    { rewrite <- (ok_chain _ _ _ Hk'). apply with_chain_same. }
    rewrite Hsame in E. by split_and!.
Qed.

(** ** Opening *)

Lemma stoul_segment i : 0 <= i < 1000 -> stoul (String.substring 8 5 (segment_name i)) = Some (i + 1).
Proof.
  intros Hi. pose proof (range_forall
    (fun i => match stoul (String.substring 8 5 (segment_name i)) with Some v => v =? i + 1 | None => false end) 1000) as R.
  specialize (R ltac:(vm_compute; reflexivity) i Hi). cbn beta in R.
  destruct (stoul _) as [v|]; [|done]. f_equal. by apply Z.eqb_eq.
Qed.

Lemma segment_name_long i : 0 <= i < 1000 -> (String.length (segment_name i) <? 12)%nat = false.
Proof.
  intros Hi. pose proof (range_forall (fun i => negb (String.length (segment_name i) <? 12)%nat) 1000) as R.
  specialize (R ltac:(vm_compute; reflexivity) i Hi). cbn beta in R. by apply negb_true_iff in R.
Qed.

Lemma discover_filter files acc names :
  result_fold (discover_step files) acc names = result_fold (discover_step files) acc (List.filter is_journal names).
Proof.
  revert acc; induction names as [|name names IH]; intros acc; [done|]. cbn [result_fold List.filter].
  destruct (is_journal name) eqn:E; cbn [result_fold].
  - destruct (discover_step files acc name); [apply IH|done].
  - unfold discover_step at 1. rewrite E. cbn [negb orb]. destruct acc as [[? ?] ?]. apply IH.
Qed.

(** The sizes of the first segments, in order. *)
Definition sizes (datas : list bytes) : Z := Z.of_nat (list_sum (map length datas)).

Lemma sizes_app d1 d2 : sizes (d1 ++ d2) = sizes d1 + sizes d2.
Proof. unfold sizes. rewrite map_app, list_sum_app. lia. Qed.

Lemma discover_run files datas :
  (forall name data, (name, data) ∈ journal_files datas -> map_find name files = Some data) ->
  zlength datas <= 1000 -> sizes datas < 2 ^ 64 ->
  result_fold (discover_step files) (0, 0, 0) (journal_files datas).*1
  = Ok (zlength datas, sizes datas, Z.max 0 (zlength datas - 1)).
Proof.
  induction datas as [|data datas IH] using rev_ind; intros Hfind Hn Hsize; [done|].
  rewrite zlength_app in *. change (zlength [data]) with 1 in *. rewrite sizes_app in *.
  assert (0 <= sizes [data]) by (unfold sizes; lia). pose proof (zlength_nonneg datas).
  rewrite journal_files_app in *. cbn [imap] in *. rewrite Z.add_0_r in *.
  rewrite fmap_app, result_fold_app. rewrite IH; [| |lia|lia].
  - cbn [fmap list_fmap fst result_fold]. unfold discover_step.
    rewrite is_journal_segment, segment_name_long, stoul_segment by lia. cbn [negb orb].
    unfold file_size. rewrite (Hfind (segment_name (zlength datas)) data) by set_solver. cbn [fmap option_fmap option_map].
    assert (zlength data = sizes [data]) as -> by (unfold zlength, sizes; simpl; lia).
    rewrite u64_small by (unfold sizes in *; lia).
    destruct (Z.max 0 (zlength datas - 1) + 1 <=? zlength datas + 1) eqn:E;
      [apply Z.leb_le in E|apply Z.leb_gt in E; lia].
    do 2 f_equal. lia.
  - intros name d Hin. apply Hfind. set_solver.
Qed.

Lemma discover_holds boot files datas :
  listable boot = true -> holds files datas -> zlength datas <= 1000 -> sizes datas < 2 ^ 64 ->
  discover boot files = Ok (zlength datas, sizes datas, Z.max 0 (zlength datas - 1)).
Proof.
  intros Hb Hh Hn Hs. unfold discover. rewrite Hb. cbn [negb].
  rewrite discover_filter, list_filter_keys. destruct Hh as [Hsort Hf]. rewrite Hf.
  apply discover_run; [|done|done]. intros name data Hin. apply (holds_find files datas); [by split|done].
Qed.

Lemma segments_sizes_total sequence link runs :
  is_link link -> sizes (encode_segments sequence link runs) = total_size runs.
Proof.
  intros Hl. unfold sizes, total_size. f_equal.
  pose proof (segments_sizes sequence link runs Hl) as Hs.
  induction Hs as [|data run datas runs' E Hs IH]; [done|]. simpl. by rewrite run_size_app, IH, E.
Qed.

(** The erased temporary of an atomic write is not a journal segment. *)
Lemma holds_erase files datas name : is_journal name = false -> holds files datas -> holds (map_erase name files) datas.
Proof.
  intros Hj [Hs Hf]. split; [by apply filter_keys_sorted|]. rewrite <- Hf. clear Hs Hf. unfold map_erase.
  induction files as [|[k v] files IH]; [done|]. rewrite filter_cons. cbn [fst].
  destruct (decide (k <> name)) as [Hk|Hk]; cbn [List.filter fst]; [by rewrite IH|].
  apply dec_stable in Hk as ->. by rewrite Hj.
Qed.

Lemma atomic_write_holds disk files datas name data :
  is_journal name = false -> is_journal (temporary_name name) = false -> holds files datas ->
  holds (write_file_atomic disk files name data).1 datas.
Proof.
  intros Hj1 Hj2 Hh. unfold write_file_atomic. destruct (can_open disk); cbn [negb fst]; [|done].
  destruct (write_loop _ _ _) as [written complete].
  destruct complete; cbn [negb fst]; [|by apply holds_other].
  destruct (can_sync disk); cbn [negb fst]; [|by apply holds_other].
  destruct (can_rename disk); cbn [negb fst]; [|by apply holds_other].
  apply holds_other; [|done]. apply holds_erase; [done|]. by apply holds_other.
Qed.

(** *** The state after opening *)

(** A host that serves every call. *)
Record boot_ok (boot : Boot) : Prop := {
  bok_host : host_serves;
  bok_ensure : ensure_directory boot = Ok tt;
  bok_within : within boot = true;
  bok_listable : listable boot = true;
  bok_random : length (random boot) = 16%nat /\ Forall is_byte (random boot);
  bok_disk : head_disk boot = healthy
}.

Lemma new_incarnation_ok r :
  length r = 16%nat /\ Forall is_byte r ->
  length (inc_bytes (new_incarnation r)) = 16%nat /\ Forall is_byte (inc_bytes (new_incarnation r)).
Proof.
  intros [Hl Hb]. unfold new_incarnation. case_bool; cbn [inc_bytes]; [|done].
  rewrite length_insert. split; [done|]. apply Forall_insert; [done|unfold is_byte; lia].
Qed.

Definition reopened (boot : Boot) (owner : CoordinatorId) (trust : Digest) (e b : Z) (l : history)
    (runs : list history) (bytes_in_last : Z) : Ledger :=
  mk_ledger
    (mk_head kHeadVersion owner trust (u64 (e + 1)) (new_incarnation (random boot)) (zlength l) (u64 (b + 1)))
    (match last (records_of l) with None => zero_digest | Some r => r_chain r end)
    (Z.max 0 (zlength runs - 1)) bytes_in_last (zlength runs) (total_size runs) true.

Definition last_run_size (runs : list history) : Z :=
  match last runs with None => 0 | Some run => Z.of_nat (run_size run) end.

(** The part of [open] after the scan and the repair. *)
Lemma reopened_ok boot files owner trust e b runs :
  boot_ok boot -> id_ok owner -> (length trust = 32%nat /\ Forall is_byte trust) ->
  holds files (segments_of runs) ->
  Forall (fun run => Z.of_nat (run_size run) <= kMaxSegmentBytes) runs -> Forall entry_valid (concat runs) ->
  total_size runs <= kMaxJournalBytes -> zlength runs <= kMaxLedgerSegments + 1 ->
  let L := reopened boot owner trust e b (concat runs) runs (last_run_size runs) in
  let files' := (write_file_atomic healthy files head_name (head_bytes (head_ L))).1 in
  discover boot files = Ok (zlength runs, total_size runs, Z.max 0 (zlength runs - 1))
  /\ default 0 (file_size files (segment_name (Z.max 0 (zlength runs - 1)))) = last_run_size runs
  /\ write_head healthy files L = (files', Ok tt)
  /\ map_find head_name files' = Some (head_bytes (head_ L)) /\ head_ok (head_ L)
  /\ ledger_ok (with_chain L (chain_after (concat runs))) files' runs.
Proof.
  intros Hboot Howner Htrust Hh Hsz Hv Htot Hn L files'.
  pose proof (zlength_nonneg runs) as H0n. unfold kMaxLedgerSegments in Hn.
  assert (kMaxJournalBytes < 2 ^ 32) by (vm_compute; reflexivity).
  assert (zlength (concat runs) < 2 ^ 32) as Hseq.
  { pose proof (run_size_ge (concat runs)). unfold total_size in Htot. unfold zlength. lia. }
  assert (zlength (segments_of runs) = zlength runs) as Hz by (unfold zlength; by rewrite segments_length).
  pose proof (segments_sizes_total 1 zero_digest runs zero_digest_link) as Hsizes.
  assert (head_ok (head_ L)) as Hhead.
  { split; cbn; try done; [apply u64_range|apply new_incarnation_ok, Hboot| |apply u64_range].
    pose proof (zlength_nonneg (concat runs)). lia. }
  assert (holds files' (segments_of runs)) as Hh' by by apply atomic_write_holds.
  split_and!.
  - rewrite (discover_holds boot files (segments_of runs)); rewrite ?Hz, ?Hsizes; done || lia || apply Hboot.
  - destruct runs as [|run0 runs0] using rev_ind.
    + unfold file_size. change (Z.max 0 (zlength (@nil history) - 1)) with (zlength (@nil bytes)).
      by rewrite (holds_find_new files []).
    + rewrite zlength_app in *. change (zlength [run0]) with 1 in *.
      replace (Z.max 0 (zlength runs0 + 1 - 1)) with (zlength runs0) by (pose proof (zlength_nonneg runs0); lia).
      rewrite segments_snoc in Hh.
      assert (zlength (segments_of runs0) = zlength runs0) as <- by (unfold zlength; by rewrite segments_length).
      unfold file_size. rewrite (holds_find_last _ _ _ Hh). unfold last_run_size. rewrite last_snoc. simpl.
      unfold zlength, current_bytes. rewrite encode_run_length; [done|]. apply run_chain_link, zero_digest_link.
  - rewrite write_head_writes by done. unfold files', write_file_atomic. cbn [healthy can_open writes negb].
    rewrite write_loop_nil. done.
  - unfold files', write_file_atomic. cbn [healthy can_open writes negb]. rewrite write_loop_nil.
    cbn [negb can_sync can_rename fst]. apply map_find_insert_eq.
  - done.
  - split; cbn [with_chain L reopened open_ head_ last_sequence chain_ segment_ segment_bytes_ segment_count_ retained_bytes_];
      try done; unfold kMaxLedgerSegments; try lia; [apply Hboot|].
    destruct runs as [|run0 runs0] using rev_ind; [left; done|]. right. exists runs0, run0.
    unfold with_chain, L, reopened, last_run_size. cbn [segment_ segment_bytes_].
    rewrite last_snoc, zlength_app. change (zlength [run0]) with 1.
    split_and!; [done| |done]. pose proof (zlength_nonneg runs0). lia.
Qed.

Definition with_recovered (rep : RecoveryReport) (present : bool) : RecoveryReport :=
  mk_report (recovered rep || negb present) (valid_records rep) (truncated_bytes rep) (last_valid_sequence rep)
    (valid_bytes rep) (excess_segments rep) (chain_break rep) (detail rep).

(** The bounds a journal of this build keeps. *)
Definition bounded (runs : list history) : Prop :=
  Forall (fun run => Z.of_nat (run_size run) <= kMaxSegmentBytes) runs /\ Forall entry_valid (concat runs)
  /\ total_size runs <= kMaxJournalBytes /\ zlength runs <= kMaxLedgerSegments + 1.

Lemma no_journal_files files datas : holds files datas -> existsb is_journal files.*1 = true -> datas <> [].
Proof.
  intros [_ Hf] E ->. apply existsb_exists in E as (name & Hin%list_elem_of_In & Hj).
  apply list_elem_of_fmap in Hin as [[k v] [-> Hin]].
  assert ((k, v) ∈ List.filter (fun p => is_journal p.1) files) as Hin'.
  { apply list_elem_of_In, filter_In. split; [by apply list_elem_of_In|done]. }
  rewrite Hf in Hin'. by apply elem_of_nil in Hin'.
Qed.

(** Opening, from the scan on. *)
Lemma open_scanned boot files owner trust e b present datas records rep :
  boot_ok boot -> check_head files owner trust = Ok (e, b, present) ->
  holds files datas -> (present = true \/ datas = []) ->
  read_frames true files = Ok (records, rep) ->
  open_ledger boot files owner trust =
    match (if 0 <? truncated_bytes rep then repair files rep else Ok files) with
    | Err err => (files, Err err)
    | Ok files =>
        match discover boot files with
        | Err err => (files, Err err)
        | Ok (count, retained, segment) =>
            let L := mk_ledger
              (mk_head kHeadVersion owner trust (u64 (e + 1)) (new_incarnation (random boot))
                 (last_valid_sequence rep) (u64 (b + 1)))
              (match last records with None => zero_digest | Some r => r_chain r end) segment
              (default 0 (file_size files (segment_name segment))) count retained true in
            let '(files, r) := write_head healthy files L in
            match r with Err err => (files, Err err) | Ok _ => (files, Ok (L, with_recovered rep present)) end
        end
    end.
Proof.
  intros Hboot Hc Hh Hp Hr. unfold open_ledger.
  rewrite (bok_ensure _ Hboot), (bok_within _ Hboot), Hc, (bok_listable _ Hboot), (bok_disk _ Hboot), Hr.
  cbn [negb andb]. destruct present; cbn [negb andb]; [done|].
  destruct Hp as [Hp| ->]; [done|].
  destruct (existsb is_journal files.*1) eqn:E; [|done]. by destruct (no_journal_files files [] Hh E).
Qed.

Lemma open_clean boot files owner trust e b present runs :
  boot_ok boot -> id_ok owner -> (length trust = 32%nat /\ Forall is_byte trust) ->
  check_head files owner trust = Ok (e, b, present) -> (present = true \/ runs = []) ->
  holds files (segments_of runs) -> bounded runs ->
  let L := reopened boot owner trust e b (concat runs) runs (last_run_size runs) in
  let files' := (write_file_atomic healthy files head_name (head_bytes (head_ L))).1 in
  open_ledger boot files owner trust = (files', Ok (L, with_recovered (clean_report runs) present))
  /\ map_find head_name files' = Some (head_bytes (head_ L)) /\ head_ok (head_ L)
  /\ ledger_ok (with_chain L (chain_after (concat runs))) files' runs.
Proof.
  intros Hboot Howner Htrust Hc Hp Hh (Hsz & Hv & Htot & Hn) L files'.
  destruct (reopened_ok boot files owner trust e b runs Hboot Howner Htrust Hh Hsz Hv Htot Hn)
    as (Hd & Hb & Hw & Hf & Hok & Hl).
  split; [|by split_and!]. fold L files' in Hw.
  rewrite (open_scanned boot files owner trust e b present (segments_of runs) (records_of (concat runs)) (clean_report runs) Hboot Hc Hh);
    [|destruct Hp as [->| ->]; auto|].
  - cbn [clean_report truncated_bytes]. change (0 <? 0) with false. cbn iota. rewrite Hd, Hb.
    cbn [clean_report last_valid_sequence]. fold (reopened boot owner trust e b (concat runs) runs (last_run_size runs)).
    fold L. by rewrite Hw.
  - apply read_frames_clean; [apply Hboot|done|by apply segments_fit|done|].
    pose proof (run_size_ge (concat runs)). unfold total_size, kMaxJournalBytes, kMaxLedgerSegments, kMaxSegmentBytes in Htot.
    unfold zlength. lia.
Qed.

(** Cutting a torn tail off. *)
Lemma repair_torn files init run extra (rep : RecoveryReport) :
  host_serves -> holds files (segments_of init ++ [current_bytes init run ++ extra]) -> zlength init <= 1000 ->
  excess_segments rep = 0 -> valid_bytes rep = Z.of_nat (run_size run) ->
  exists files', repair files rep = Ok files' /\ holds files' (segments_of (init ++ [run]))
    /\ (forall name, is_journal name = false -> map_find name files' = map_find name files).
Proof.
  intros [_ Htr] Hh Hn He Hv. unfold repair. rewrite He, Hv.
  assert (zlength (segments_of init) = zlength init) as Hz by (unfold zlength; by rewrite segments_length).
  rewrite (journal_names_holds _ _ Hh), journal_files_app. cbn [imap]. rewrite Z.add_0_r, Hz, fmap_app.
  cbn [fmap list_fmap fst]. rewrite zlength_app. change (zlength [segment_name (zlength init)]) with 1.
  assert (zlength (journal_files (segments_of init)).*1 = zlength init) as Hz'.
  { unfold zlength, journal_files in *. by rewrite length_fmap, length_imap. }
  rewrite Hz'. pose proof (zlength_nonneg init).
  rewrite (proj2 (Z.ltb_lt 0 (zlength init + 1))) by lia. rewrite Z.sub_0_r.
  rewrite (proj2 (Z.ltb_lt 0 (zlength init + 1))) by lia.
  replace (Z.to_nat (zlength init + 1 - 1)) with (length (journal_files (segments_of init)).*1)
    by (unfold zlength in *; lia).
  rewrite app_nth2, Nat.sub_diag by lia. cbn [nth]. unfold truncate_file. rewrite <- Hz.
  rewrite (holds_find_last _ _ _ Hh), Htr. cbn [negb]. rewrite Nat2Z.id.
  rewrite drop_ge by (rewrite length_app; unfold zlength in *; simpl; lia). cbn [fold_left].
  eexists. split; [done|].
  assert (length (current_bytes init run) = run_size run) as Hl.
  { apply encode_run_length, run_chain_link, zero_digest_link. }
  rewrite take_app_length' by done. rewrite length_app, Hl.
  replace (run_size run - (run_size run + length extra))%nat with 0%nat by lia. rewrite app_nil_r. split.
  - rewrite segments_snoc. apply (holds_last _ _ _ _ Hh). lia.
  - intros name Hj. apply map_find_insert_ne. intros ->. by rewrite is_journal_segment in Hj.
Qed.

Lemma open_torn boot files owner trust e b init run type payload n :
  boot_ok boot -> id_ok owner -> (length trust = 32%nat /\ Forall is_byte trust) ->
  check_head files owner trust = Ok (e, b, true) -> entry_valid (type, payload) ->
  let runs := init ++ [run] in
  let f := next_frame (concat runs) type payload in
  (0 < n < length f)%nat -> bounded runs ->
  Z.of_nat (run_size run + (92 + length payload)) <= kMaxSegmentBytes ->
  holds files (segments_of init ++ [current_bytes init run ++ take n f]) ->
  let L := reopened boot owner trust e b (concat runs) runs (last_run_size runs) in
  exists files', open_ledger boot files owner trust = (files', Ok (L, torn_report init run n 0))
  /\ map_find head_name files' = Some (head_bytes (head_ L)) /\ head_ok (head_ L)
  /\ ledger_ok (with_chain L (chain_after (concat runs))) files' runs.
Proof.
  intros Hboot Howner Htrust Hc He runs f Hn (Hsz & Hv & Htot & Hnum) Hroom Hh L.
  assert (concat runs = concat init ++ run) as Ec by (unfold runs; rewrite concat_app; simpl; by rewrite app_nil_r).
  assert (zlength init <= 1000) as Hinit.
  { unfold runs in Hnum. rewrite zlength_app in Hnum. change (zlength [run]) with 1 in Hnum.
    unfold kMaxLedgerSegments in Hnum. lia. }
  destruct (repair_torn files init run (take n f) (torn_report init run n 0) (bok_host _ Hboot) Hh Hinit eq_refl eq_refl)
    as (files1 & Hrep & Hh1 & Hother). fold runs in Hh1.
  destruct (reopened_ok boot files1 owner trust e b runs Hboot Howner Htrust Hh1 Hsz Hv Htot Hnum)
    as (Hd & Hb & Hw & Hf & Hok & Hl).
  eexists. split; [|split_and!; [exact Hf|exact Hok|exact Hl]].
  rewrite (open_scanned boot files owner trust e b true _ (records_of (concat runs)) (torn_report init run n 0) Hboot Hc Hh);
    [|by left|].
  - cbn [torn_report truncated_bytes]. rewrite (proj2 (Z.ltb_lt _ _)) by lia. fold (torn_report init run n 0).
    rewrite Hrep, Hd, Hb. cbn [torn_report last_valid_sequence]. rewrite <- Ec.
    fold (reopened boot owner trust e b (concat runs) runs (last_run_size runs)). fold L in Hw |- *.
    rewrite Hw. done.
  - rewrite Ec. pose proof (read_frames_torn files init run type payload n []) as R.
    change (zlength (@nil bytes)) with 0 in R. apply R; clear R.
    + apply Hboot.
    + unfold f, next_frame in Hh. rewrite Ec, run_chain_app in Hh. exact Hh.
    + apply Forall_app. split; [apply segments_fit; unfold runs in Hsz; by apply Forall_app in Hsz as [? _]|].
      constructor; [|constructor]. unfold fits, zlength. rewrite length_app, length_take. unfold current_bytes.
      rewrite encode_run_length by apply run_chain_link, zero_digest_link.
      unfold f in Hn |- *. rewrite next_frame_length in *. lia.
    + rewrite Ec in Hv. by apply Forall_app in Hv as [? _].
    + rewrite Ec in Hv. by apply Forall_app in Hv as [_ ?].
    + done.
    + rewrite <- Ec. pose proof (run_size_ge (concat runs)).
      unfold total_size, kMaxJournalBytes, kMaxLedgerSegments, kMaxSegmentBytes in Htot. unfold zlength. lia.
    + unfold f, next_frame in Hn. by rewrite Ec, run_chain_app in Hn.
Qed.

End Journal.

(** The whole journal of a list of segments: contents, records and running chain. *)
Notation segments_of := (encode_segments 1 zero_digest).
Notation records_of := (run_records 1 zero_digest).
Notation chain_after := (run_chain 1 zero_digest).
