(* ===== verification/Recovery.v ===== *)
(** * Properties of the durable journal

    Built on Journal.v: in the first session of a directory appending refines a list of
    records and what was acknowledged survives a crash; a boot record that can be read lets
    only its owner open the directory; and two executions in which the code makes a journal
    unreadable. *)
From Stdlib Require Import ZArith Lia Ascii String.
From stdpp Require Import base numbers option list strings sets.
From S2P Require Import Prelude Identity Errors Hash Json State Frame Ledger Boot Journal.

Section Recovery.
Context `{HashingOk} `{Host}.

(** ** Appending *)
Lemma append_healthy L files runs type payload :
  ledger_ok L files runs -> 0 <= type < 2 ^ 16 -> Forall is_byte payload -> has_room L payload = true ->
  exists files' L' runs', append healthy files L type payload = (files', L', Ok (zlength (concat runs) + 1))
    /\ concat runs' = concat runs ++ [(type, payload)] /\ ledger_ok L' files' runs'
    /\ (forall name, is_journal name = false -> map_find name files' = map_find name files).
Proof.
  intros Hk Ht Hb Hroom. pose proof (append_reaches_disk healthy L files runs type payload Hk Ht Hb) as Ha.
  rewrite Hroom in Ha. destruct Ha as (L' & Hk' & Hseg & Htot & He & _ & _ & ->).
  destruct (proj1 (position_current L' runs) (ok_position _ _ _ Hk')) as (init & run & Hc & Es & Eb).
  pose proof (ok_segment _ _ _ Hk') as Hn. unfold kMaxLedgerSegments in Hn.
  cbv zeta. rewrite Es. unfold append_file_flushed. cbn [healthy can_open writes negb].
  rewrite write_loop_nil. cbn [negb can_sync].
  pose proof (current_holds files runs init run (next_frame (concat runs) type payload)
                (ok_holds _ _ _ Hk') Hc ltac:(lia)) as Hh.
  eexists _, _, (init ++ [run ++ [(type, payload)]]). split; [reflexivity|]. split; [|split].
  - rewrite concat_app. simpl. by rewrite app_nil_r, app_assoc, <- (current_concat _ _ _ Hc).
  - rewrite <- Es in Hh |- *. eapply append_ok; try done.
    + lia.
    + rewrite <- (ok_retained _ _ _ Hk'). lia.
  - intros name Hj. apply map_find_insert_ne. intros ->. by rewrite is_journal_segment in Hj.
Qed.

(** A sequence of appends, with the records that were acknowledged. *)
Fixpoint append_all (files : Files) (L : Ledger) (accepted : history) (entries : history)
    : Files * Ledger * history :=
  match entries with
  | [] => (files, L, accepted)
  | (type, payload) :: rest =>
      let '(files, L, r) := append healthy files L type payload in
      append_all files L (if is_ok r then accepted ++ [(type, payload)] else accepted) rest
  end.

Lemma append_all_ok entries files L accepted runs :
  Forall (fun e => 0 <= e.1 < 2 ^ 16 /\ Forall is_byte e.2) entries ->
  ledger_ok L files runs -> concat runs = accepted ->
  let '(files', L', accepted') := append_all files L accepted entries in
  exists runs', concat runs' = accepted' /\ ledger_ok L' files' runs'.
Proof.
  intros He. revert files L accepted runs.
  induction He as [|[t p] entries [Ht Hp] He IH]; intros files L accepted runs Hk Hacc; cbn [append_all]; [eauto|].
  cbn [fst snd] in Ht, Hp. destruct (has_room L p) eqn:Hroom.
  - destruct (append_healthy L files runs t p Hk Ht Hp Hroom) as (files' & L' & runs' & -> & Ec & Hk' & _).
    cbn [is_ok]. eapply IH; [done|]. by rewrite Ec, Hacc.
  - pose proof (append_reaches_disk healthy L files runs t p Hk Ht Hp) as Ha. rewrite Hroom in Ha.
    destruct Ha as (L' & err & -> & _ & Hk'). cbn [is_ok]. by eapply IH.
Qed.

Lemma empty_bounded : bounded [].
Proof. repeat split; try constructor; vm_compute; discriminate. Qed.

Lemma check_head_empty owner trust : check_head [] owner trust = Ok (0, 0, false).
Proof. done. Qed.

(** Opening an empty directory gives a ledger of the empty journal. *)
Lemma open_empty boot owner trust :
  boot_ok boot -> id_ok owner -> (length trust = 32%nat /\ Forall is_byte trust) ->
  exists files L, open_ledger boot [] owner trust = (files, Ok (L, with_recovered empty_report false))
    /\ ledger_ok L files [] /\ map_find head_name files = Some (head_bytes (head_ L)) /\ head_ok (head_ L)
    /\ epoch (head_ L) = 1 /\ boot_count (head_ L) = 1 /\ coordinator (head_ L) = owner
    /\ trust_digest (head_ L) = trust.
Proof.
  intros Hb Ho Ht.
  destruct (open_clean boot [] owner trust 0 0 false [] Hb Ho Ht (check_head_empty owner trust)
    (or_intror eq_refl)) as (E & Hf & Hok & Hl).
  - by split.
  - apply empty_bounded.
  - eexists _, _. split; [exact E|]. split_and!; try done; try exact Hl.
Qed.

(** ** Any disk *)

(** The directory after an append, whatever the disk did: unchanged, or a prefix of the
    next frame at the end of a segment that had room for it. *)
Lemma append_any disk L files runs type payload :
  ledger_ok L files runs -> 0 <= type < 2 ^ 16 -> Forall is_byte payload ->
  let '(files', L', r) := append disk files L type payload in
  let f := next_frame (concat runs) type payload in
  (files' = files /\ is_ok r = false)
  \/ exists init run k, current runs init run /\ (k <= length f)%nat
       /\ holds files' (segments_of init ++ [current_bytes init run ++ take k f])
       /\ Z.of_nat (run_size run + (92 + length payload)) <= kMaxSegmentBytes
       /\ total_size runs + Z.of_nat (92 + length payload) <= kMaxJournalBytes
       /\ entry_valid (type, payload) /\ zlength init <= kMaxLedgerSegments
       /\ (is_ok r = true -> k = length f)
       /\ (forall name, is_journal name = false -> map_find name files' = map_find name files).
Proof.
  intros Hk Ht Hb. pose proof (append_reaches_disk disk L files runs type payload Hk Ht Hb) as Ha.
  destruct (has_room L payload).
  2: { destruct Ha as (L' & err & -> & _). by left. }
  destruct Ha as (L' & Hk' & Hseg & Htot & He & _ & _ & ->). cbv zeta.
  destruct (proj1 (position_current L' runs) (ok_position _ _ _ Hk')) as (init & run & Hc & Es & Eb).
  pose proof (ok_segment _ _ _ Hk') as Hn. rewrite Es in Hn |- *.
  pose proof (append_files disk files runs init run type payload (ok_holds _ _ _ Hk') Hc) as Hf.
  unfold kMaxLedgerSegments in Hn. specialize (Hf ltac:(lia)). cbv zeta in Hf.
  assert (forall name, is_journal name = false ->
     map_find name (append_file_flushed disk files (segment_name (zlength init))
       (next_frame (concat runs) type payload)).1 = map_find name files) as Hother.
  { intros name Hj. assert (name <> segment_name (zlength init)) as Hne.
    { intros ->. by rewrite is_journal_segment in Hj. }
    unfold append_file_flushed. destruct (can_open disk); cbn [negb fst]; [|done].
    destruct (write_loop _ _ _) as [written complete].
    destruct complete, (can_sync disk); cbn [negb fst]; by apply map_find_insert_ne. }
  destruct (append_file_flushed disk files _ _) as [files' r]. cbn [fst] in Hother.
  destruct Hf as [(-> & Hr & _)|(k & Hkl & Hh & Hr & _)].
  - destruct r; [done|]. by left.
  - assert (exists init run k, current runs init run /\ (k <= length (next_frame (concat runs) type payload))%nat
       /\ holds files' (segments_of init ++ [current_bytes init run ++ take k (next_frame (concat runs) type payload)])
       /\ Z.of_nat (run_size run + (92 + length payload)) <= kMaxSegmentBytes
       /\ total_size runs + Z.of_nat (92 + length payload) <= kMaxJournalBytes
       /\ entry_valid (type, payload) /\ zlength init <= kMaxLedgerSegments
       /\ (is_ok r = true -> k = length (next_frame (concat runs) type payload))
       /\ (forall name, is_journal name = false -> map_find name files' = map_find name files)) as Hgoal.
    { exists init, run, k. rewrite <- (ok_retained _ _ _ Hk').
      split_and!; try done; unfold kMaxLedgerSegments; lia. }
    by destruct r; right.
Qed.

(** ** Reopening after an interrupted append *)
Lemma ledger_bounded L files runs : ledger_ok L files runs -> bounded runs.
Proof.
  intros Hk. split_and!; try apply Hk. pose proof (ok_segment _ _ _ Hk).
  destruct (ok_position _ _ _ Hk) as [[E _]|(init & run & -> & E & _)]; [lia|].
  rewrite zlength_app. change (zlength [run]) with 1. lia.
Qed.

Lemma total_size_snoc init run : total_size (init ++ [run]) = total_size init + Z.of_nat (run_size run).
Proof. unfold total_size. rewrite concat_app, run_size_app. simpl. rewrite app_nil_r. lia. Qed.

Lemma bounded_current runs init run :
  bounded runs -> current runs init run -> zlength init <= kMaxLedgerSegments -> bounded (init ++ [run]).
Proof.
  intros (Hsz & Hv & Ht & Hn) [->|[-> ->]] Hi; [by split_and!|]. split_and!.
  - apply Forall_app. split; [done|]. repeat constructor. vm_compute. discriminate.
  - rewrite concat_app. simpl. by rewrite app_nil_r.
  - rewrite total_size_snoc. change (Z.of_nat (run_size [])) with 0. lia.
  - rewrite zlength_app. change (zlength [[]]) with 1. unfold zlength in *. simpl. lia.
Qed.

Lemma bounded_extend init run type payload :
  bounded (init ++ [run]) -> entry_valid (type, payload) ->
  Z.of_nat (run_size run + (92 + length payload)) <= kMaxSegmentBytes ->
  total_size (init ++ [run]) + Z.of_nat (92 + length payload) <= kMaxJournalBytes ->
  bounded (init ++ [run ++ [(type, payload)]]).
Proof.
  intros (Hsz & Hv & Ht & Hn) He Hroom Htot.
  assert (run_size [(type, payload)] = (92 + length payload)%nat) as Hone by (unfold run_size; simpl; lia).
  apply Forall_app in Hsz as [Hsz _]. rewrite concat_app in Hv. apply Forall_app in Hv as [Hv1 Hv2].
  cbn [concat] in Hv2. rewrite app_nil_r in Hv2. split_and!.
  - apply Forall_app. split; [done|]. constructor; [|constructor]. rewrite run_size_app, Hone. lia.
  - rewrite concat_app. apply Forall_app. split; [done|]. cbn [concat]. rewrite app_nil_r.
    apply Forall_app. split; [done|]. constructor; [exact He|constructor].
  - rewrite total_size_snoc in *. rewrite run_size_app, Hone. lia.
  - rewrite zlength_app in *. done.
Qed.

(** What opening gives: the journal of [runs], a new epoch, and everything but the running
    chain set up for appending. *)
Definition opened (files : Files) (L : Ledger) (runs : list history) (h : HeadRecord) : Prop :=
  read_all true files = Ok (records_of (concat runs), clean_report runs)
  /\ ledger_ok (with_chain L (chain_after (concat runs))) files runs
  /\ map_find head_name files = Some (head_bytes (head_ L)) /\ head_ok (head_ L)
  /\ epoch (head_ L) = u64 (epoch h + 1) /\ boot_count (head_ L) = u64 (boot_count h + 1)
  /\ last_sequence (head_ L) = zlength (concat runs)
  /\ coordinator (head_ L) = coordinator h /\ trust_digest (head_ L) = trust_digest h.

Lemma open_clean_opened boot files h runs :
  boot_ok boot -> head_ok h -> map_find head_name files = Some (head_bytes h) ->
  holds files (segments_of runs) -> bounded runs ->
  exists files' L, open_ledger boot files (coordinator h) (trust_digest h) = (files', Ok (L, clean_report runs))
    /\ opened files' L runs h
    /\ chain_ L = match last (records_of (concat runs)) with None => zero_digest | Some r => r_chain r end.
Proof.
  intros Hb Hh Hf Hhold Hbd. pose proof (check_head_reads files h (coordinator h) (trust_digest h) (proj1 (bok_host _ Hb) _) Hh Hf) as Hc.
  rewrite id_eqb_refl, bool_decide_true in Hc by done. cbn [negb] in Hc.
  destruct (open_clean boot files _ _ _ _ true runs Hb (hok_coordinator h Hh) (hok_trust h Hh) Hc
    (or_introl eq_refl) Hhold Hbd) as (E & Hf' & Hok & Hl).
  eexists _, _. split; [exact E|]. split; [|done]. split_and!; try done.
  by apply (ledger_reads _ _ _ Hl).
Qed.

Lemma open_torn_opened boot files h init run type payload n :
  boot_ok boot -> head_ok h -> map_find head_name files = Some (head_bytes h) -> entry_valid (type, payload) ->
  let runs := init ++ [run] in
  let f := next_frame (concat runs) type payload in
  (0 < n < length f)%nat -> bounded runs ->
  Z.of_nat (run_size run + (92 + length payload)) <= kMaxSegmentBytes ->
  holds files (segments_of init ++ [current_bytes init run ++ take n f]) ->
  exists files' L, open_ledger boot files (coordinator h) (trust_digest h)
                   = (files', Ok (L, torn_report init run n 0)) /\ opened files' L runs h.
Proof.
  intros Hb Hh Hf He runs f Hn Hbd Hroom Hhold.
  pose proof (check_head_reads files h (coordinator h) (trust_digest h) (proj1 (bok_host _ Hb) _) Hh Hf) as Hc.
  rewrite id_eqb_refl, bool_decide_true in Hc by done. cbn [negb] in Hc.
  destruct (open_torn boot files _ _ _ _ init run type payload n Hb (hok_coordinator h Hh) (hok_trust h Hh) Hc
    He Hn Hbd Hroom Hhold) as (files' & E & Hf' & Hok & Hl).
  eexists files', _. split; [exact E|]. split_and!; try done. by apply (ledger_reads _ _ _ Hl).
Qed.

(** ** Scans that are refused *)

(** A whole frame after the runs whose sequence is not the next, or whose link is not the
    running chain, ends the scan with an error. *)
Lemma read_frames_refused files init run type sequence payload c :
  let l := concat init ++ run in
  host_serves -> holds files (segments_of init ++ [current_bytes init run ++ frame type sequence payload c]) ->
  bounded (init ++ [run]) -> entry_ok type sequence payload c ->
  Z.of_nat (run_size run + (92 + length payload)) <= kMaxSegmentBytes + 1 ->
  sequence <> 1 + zlength l \/ c <> chain_after l ->
  exists s text, read_frames true files =
    Err (s, (if sequence =? 1 + zlength l then kLedgerCorrupt else kIndexGapDetected, text)).
Proof.
  intros l Hhost Hh (Hsz & Hv & Htot & Hn) He Hfit Hbad.
  assert (is_link c) as Hclink by (split; apply He).
  assert (concat (init ++ [run]) = l) as El by (rewrite concat_app; simpl; by rewrite app_nil_r).
  rewrite El in Hv. apply Forall_app in Hv as [Hv1 Hv2]. apply Forall_app in Hsz as [Hsz1 _].
  assert (zlength l < 2 ^ 32) as Hsmall.
  { pose proof (run_size_ge l). unfold total_size in Htot. rewrite El in Htot.
    unfold kMaxJournalBytes, kMaxLedgerSegments, kMaxSegmentBytes in Htot. unfold zlength. lia. }
  unfold l in Hsmall. rewrite zlength_app in Hsmall. pose proof (zlength_nonneg run). pose proof (zlength_nonneg (concat init)).
  assert (length (current_bytes init run) = run_size run) as Hcl.
  { apply encode_run_length, run_chain_link, zero_digest_link. }
  unfold read_frames. cbn [negb]. rewrite (scan_directory files _ Hhost Hh).
  2: { apply Forall_app. split; [by apply segments_fit|]. constructor; [|constructor].
       unfold fits, zlength. rewrite length_app, Hcl, frame_length by apply Hclink. lia. }
  rewrite result_fold_app. pose proof (scan_runs init start_scan Hv1 zero_digest_link eq_refl) as E.
  cbn [start_scan s_expected s_previous] in E. rewrite E by lia. clear E.
  rewrite advance_all_eq by apply zero_digest_link.
  cbn [start_scan s_records s_report s_expected s_previous s_torn]. set (rep := mk_report _ _ _ _ _ _ _ _).
  set (s := mk_scan _ rep _ _ _). cbn [result_fold]. unfold scan_data. cbn [s_torn s].
  set (f := frame type sequence payload c) in *. set (data := current_bytes init run ++ f).
  assert (is_link (s_previous s)) as Hs by apply run_chain_link, zero_digest_link.
  pose proof (scan_run run (length data) [] f s Hv2 Hs) as E. cbn [s_expected s_previous s app length] in E.
  fold (current_bytes init run) in E. fold data in E.
  assert (length data = (length (current_bytes init run) + length f)%nat) as Hdl by (unfold data; apply length_app).
  assert (length f = (92 + length payload)%nat) as Hfl by apply frame_length, Hclink.
  pose proof (encode_run_length_ge (1 + zlength (concat init)) (chain_after (concat init)) run Hs) as Hge.
  fold (current_bytes init run) in Hge. rewrite E by lia. clear E.
  destruct (length data - length run)%nat as [|fuel] eqn:Ef; [lia|]. cbn [scan_bytes Nat.add].
  rewrite (proj2 (Nat.ltb_lt _ _)) by lia. cbn [negb].
  pose proof (parse_build type sequence payload c (current_bytes init run) [] He) as Hparse.
  rewrite app_nil_r in Hparse. fold f in Hparse. fold data in Hparse. rewrite Hparse.
  rewrite advance_eq by done. unfold s.
  cbn [record_of r_sequence r_chain r_payload s_expected s_previous s_records s_report s_torn].
  assert (1 + zlength (concat init) + zlength run = 1 + zlength l) as -> by (unfold l; rewrite zlength_app; lia).
  destruct (sequence =? 1 + zlength l) eqn:Eseq; cbn [negb]; [|by eauto].
  apply Z.eqb_eq in Eseq. rewrite bool_decide_false; [by eauto|].
  destruct Hbad as [Hbad|Hbad]; [done|]. rewrite <- run_chain_app. exact Hbad.
Qed.

(** A boot record that is there but cannot be opened is taken for an absent one. *)
Lemma check_head_unreadable files owner trust raw :
  can_read head_name = false -> map_find head_name files = Some raw -> zlength raw <= kHeadBytes ->
  check_head files owner trust = Ok (0, 0, false).
Proof. intros Hr Hf Hl. unfold check_head, read_file. by rewrite Hf, (proj2 (Z.ltb_ge _ _) Hl), Hr. Qed.

Lemma no_journal_names (files : Files) : existsb is_journal files.*1 = false -> List.filter is_journal files.*1 = [].
Proof.
  intros E. induction files.*1 as [|name names IH]; [done|]. cbn [existsb List.filter] in *.
  apply orb_false_iff in E as [-> E]. by apply IH.
Qed.

(** Then a directory without segments is opened by anyone, who becomes its owner. *)
Lemma open_unreadable boot (files : Files) owner trust :
  ensure_directory boot = Ok tt -> within boot = true -> listable boot = true ->
  length (random boot) = 16%nat /\ Forall is_byte (random boot) -> head_disk boot = healthy ->
  id_ok owner -> length trust = 32%nat /\ Forall is_byte trust ->
  check_head files owner trust = Ok (0, 0, false) -> existsb is_journal files.*1 = false ->
  exists files2 L rep, open_ledger boot files owner trust = (files2, Ok (L, rep))
    /\ coordinator (head_ L) = owner /\ trust_digest (head_ L) = trust /\ epoch (head_ L) = 1
    /\ map_find head_name files2 = Some (head_bytes (head_ L)).
Proof.
  intros He Hw Hl Hr Hd Ho Ht Hc Hj. unfold open_ledger. rewrite He, Hw, Hl, Hc, Hj, Hd. cbn [negb andb].
  unfold read_frames, journal_names. rewrite (no_journal_names _ Hj). cbn [negb std_sort result_fold].
  cbn [start_scan s_report s_records empty_report truncated_bytes Z.ltb Z.compare].
  unfold discover. rewrite Hl, discover_filter, (no_journal_names _ Hj). cbn [negb result_fold].
  set (L := mk_ledger _ _ _ _ _ _ _).
  assert (head_ok (head_ L)) as Hok.
  { split; cbn; try done; try apply u64_range; by apply new_incarnation_ok. }
  rewrite write_head_writes by done.
  pose proof (atomic_write_outcome healthy files head_name (head_bytes (head_ L))) as Ha.
  unfold write_file_atomic in *. cbn [healthy can_open writes negb] in *. rewrite write_loop_nil in *.
  cbn [negb can_sync can_rename fst snd is_ok] in *. eexists _, L, _. split_and!; [done|done|done|done|exact Ha].
Qed.

(** An unreadable journal cannot be opened. *)
Lemma open_refused boot files h s e :
  boot_ok boot -> head_ok h -> map_find head_name files = Some (head_bytes h) ->
  read_frames true files = Err (s, e) ->
  open_ledger boot files (coordinator h) (trust_digest h) = (files, Err e).
Proof.
  intros Hb Hh Hf E. unfold open_ledger.
  rewrite (bok_ensure _ Hb), (bok_within _ Hb), (bok_listable _ Hb).
  rewrite (check_head_reads files h _ _ (proj1 (bok_host _ Hb) _) Hh Hf), id_eqb_refl, bool_decide_true by done. cbn [negb andb].
  by rewrite E.
Qed.

End Recovery.

(** ** Properties *)

(** Whatever the disk does to an append, the directory opens to the journal before it or
    after it. *)
Lemma interrupted_append `{HashingOk} `{Host} (disk : Disk) (boot : Boot) (L : Ledger) (files : Files)
    (runs : list history) (h : HeadRecord) (type : RecordType) (payload : bytes) :
  ledger_ok L files runs -> head_ok h -> map_find head_name files = Some (head_bytes h) -> boot_ok boot ->
  0 <= type < 2 ^ 16 -> Forall is_byte payload ->
  let '(files1, _, r) := append disk files L type payload in
  exists files2 L2 rep runs2,
    open_ledger boot files1 (coordinator h) (trust_digest h) = (files2, Ok (L2, rep))
    /\ (concat runs2 = concat runs \/ concat runs2 = concat runs ++ [(type, payload)])
    /\ (is_ok r = true -> concat runs2 = concat runs ++ [(type, payload)])
    /\ opened files2 L2 runs2 h
    /\ (recovered rep = false -> truncated_bytes rep = 0).
Proof.
  intros Hk Hh Hf Hb Ht Hp. pose proof (append_any disk L files runs type payload Hk Ht Hp) as Ha.
  pose proof (ledger_bounded _ _ _ Hk) as Hbd.
  destruct (append disk files L type payload) as [[files1 L1] r]. cbv zeta in Ha.
  destruct Ha as [[-> Hr]|(init & run & k & Hc & Hkl & Hhold & Hroom & Htot & He & Hi & Hr & Hother)].
  { destruct (open_clean_opened boot files h runs Hb Hh Hf (ok_holds _ _ _ Hk) Hbd) as (files2 & L2 & E & Ho & _).
    exists files2, L2, (clean_report runs), runs. rewrite Hr. split_and!; auto; discriminate. }
  pose proof (current_concat _ _ _ Hc) as Ec. pose proof (bounded_current _ _ _ Hbd Hc Hi) as Hbd'.
  assert (concat (init ++ [run]) = concat runs) as Ec'.
  { rewrite Ec, concat_app. simpl. by rewrite app_nil_r. }
  assert (map_find head_name files1 = Some (head_bytes h)) as Hf1 by by rewrite Hother.
  pose proof (next_frame_length (concat runs) type payload) as Hfl.
  destruct (decide (k = length (next_frame (concat runs) type payload))) as [->|Hne].
  - rewrite firstn_all in Hhold. unfold next_frame in Hhold.
    rewrite Ec, current_bytes_snoc, <- segments_snoc in Hhold.
    assert (bounded (init ++ [run ++ [(type, payload)]])) as Hbd2.
    { apply bounded_extend; try done. unfold total_size in *. by rewrite Ec'. }
    destruct (open_clean_opened boot files1 h _ Hb Hh Hf1 Hhold Hbd2) as (files2 & L2 & E & Ho & _).
    assert (concat (init ++ [run ++ [(type, payload)]]) = concat runs ++ [(type, payload)]) as Ec2.
    { rewrite concat_app. simpl. by rewrite app_nil_r, app_assoc, Ec. }
    eexists files2, L2, _, _. split_and!; [exact E|by right|done|done|done].
  - assert (is_ok r = false) as Hr' by (destruct (is_ok r); [by specialize (Hr eq_refl)|done]).
    destruct (decide (k = 0%nat)) as [->|Hk0].
    + rewrite take_0, app_nil_r, <- segments_snoc in Hhold.
      destruct (open_clean_opened boot files1 h _ Hb Hh Hf1 Hhold Hbd') as (files2 & L2 & E & Ho & _).
      eexists files2, L2, _, _. rewrite Hr'. split_and!; [exact E|by left|discriminate|done|done].
    + rewrite <- Ec' in Hhold, Hkl, Hne.
      destruct (open_torn_opened boot files1 h init run type payload k Hb Hh Hf1 He) as (files2 & L2 & E & Ho);
        [lia|done|done|done|].
      eexists files2, L2, _, _. rewrite Hr'. split_and!; [exact E|by left|discriminate|exact Ho|discriminate].
Qed.

(** C4: during the first session of a directory, acknowledged records survive a crash.
    Take a ledger whose running chain is that of the journal in its directory, as it is from
    the opening of a fresh directory on ([ledger_ok]; the ledger of a reopened directory
    that holds records is not such a ledger, see [reopened_append_breaks]), let an append be
    cut short at any byte by whatever the disk does, and open the directory again with the
    same owner and trust set: opening succeeds, the journal read back is the old one or the
    old one with the new record, it has the new record whenever the append reported success,
    a removed tail is reported, and all of the new ledger but its running chain describes
    the directory, with the epoch and the boot count advanced by one. *)
Theorem crash_recovery `{HashingOk} `{Host} (disk : Disk) (boot : Boot) (L : Ledger) (files : Files)
    (runs : list history) (h : HeadRecord) (type : RecordType) (payload : bytes) :
  ledger_ok L files runs -> head_ok h -> map_find head_name files = Some (head_bytes h) -> boot_ok boot ->
  0 <= type < 2 ^ 16 -> Forall is_byte payload ->
  let '(files1, _, r) := append disk files L type payload in
  exists files2 L2 rep runs2,
    open_ledger boot files1 (coordinator h) (trust_digest h) = (files2, Ok (L2, rep))
    /\ (concat runs2 = concat runs \/ concat runs2 = concat runs ++ [(type, payload)])
    /\ (is_ok r = true -> concat runs2 = concat runs ++ [(type, payload)])
    /\ opened files2 L2 runs2 h
    /\ (recovered rep = false -> truncated_bytes rep = 0).
Proof. apply interrupted_append. Qed.

(** C6: in a first session on a disk that works, the journal refines a list of records.
    Opening an empty directory and appending any records gives, at the end, a directory whose scan returns exactly the records whose
    append was acknowledged, in that order, numbered from 1 and linked, with a report of an
    intact journal, and the ledger's sequence is their number; a record whose append fails
    on a working disk is refused by a size bound and leaves the directory unchanged.  (After
    a failed flush, or once the directory was reopened, this is lost:
    [retry_after_failed_flush_breaks] and [reopened_append_breaks].) *)
Theorem journal_refines_history `{HashingOk} `{Host} (boot : Boot) (owner : CoordinatorId) (trust : Digest)
    (entries : history) :
  boot_ok boot -> id_ok owner -> length trust = 32%nat -> Forall is_byte trust ->
  Forall (fun e => 0 <= e.1 < 2 ^ 16 /\ Forall is_byte e.2) entries ->
  exists files0 L0, open_ledger boot [] owner trust = (files0, Ok (L0, with_recovered empty_report false))
    /\ let '(files, L, accepted) := append_all files0 L0 [] entries in
       exists rep, read_all true files = Ok (records_of accepted, rep)
         /\ recovered rep = false /\ truncated_bytes rep = 0 /\ valid_records rep = zlength accepted
         /\ last_sequence (head_ L) = zlength accepted
         /\ forall type payload, 0 <= type < 2 ^ 16 -> Forall is_byte payload ->
              let '(files', L', r) := append healthy files L type payload in
              if has_room L payload
              then r = Ok (zlength accepted + 1)
              else files' = files /\ exists text, r = Err (kLedgerOversized, text).
Proof.
  intros Hb Ho Hl Ht He.
  destruct (open_empty boot owner trust Hb Ho (conj Hl Ht)) as (files0 & L0 & E & Hk & _).
  exists files0, L0. split; [exact E|].
  pose proof (append_all_ok entries files0 L0 [] [] He Hk eq_refl) as Ha.
  destruct (append_all files0 L0 [] entries) as [[files L] accepted].
  destruct Ha as (runs & <- & Hk'). exists (clean_report runs).
  split_and!; try done; [by apply (ledger_reads _ _ _ Hk')|apply Hk'|].
  intros type payload Hty Hpb. destruct (has_room L payload) eqn:Hroom.
  - by destruct (append_healthy L files runs type payload Hk' Hty Hpb Hroom) as (files' & L' & runs' & -> & _).
  - pose proof (append_reaches_disk healthy L files runs type payload Hk' Hty Hpb) as Ha. rewrite Hroom in Ha.
    destruct Ha as (L' & [code text] & -> & Hcode & _). cbn [fst] in Hcode. subst code. eauto.
Qed.

(** A reopened journal cannot be appended to.  [open] takes the running chain from the
    link of the last record instead of that record's chain value, so after reopening a
    directory that holds a record the next append is acknowledged, and from then on the
    journal is reported corrupt and the directory can no longer be opened.  (Unless the
    last record's chain value happens to equal its own link.) *)
Theorem reopened_append_breaks `{HashingOk} `{Host} (boot : Boot) (L : Ledger) (files : Files)
    (runs : list history) (h : HeadRecord) (r : LedgerRecord) (type : RecordType) (payload : bytes) :
  ledger_ok L files runs -> head_ok h -> map_find head_name files = Some (head_bytes h) -> boot_ok boot ->
  last (records_of (concat runs)) = Some r -> r_chain r <> chain_after (concat runs) ->
  0 <= type < 2 ^ 16 -> Forall is_byte payload ->
  exists files1 L1, open_ledger boot files (coordinator h) (trust_digest h) = (files1, Ok (L1, clean_report runs))
    /\ (has_room L1 payload = true ->
        exists files2 L2 s text, append healthy files1 L1 type payload = (files2, L2, Ok (zlength (concat runs) + 1))
          /\ read_all true files2 = Err (s, (kLedgerCorrupt, text))
          /\ open_ledger boot files2 (coordinator h) (trust_digest h) = (files2, Err (kLedgerCorrupt, text))).
Proof.
  intros Hk Hh Hf Hb Hlast Hne Ht Hp.
  destruct (open_clean_opened boot files h runs Hb Hh Hf (ok_holds _ _ _ Hk) (ledger_bounded _ _ _ Hk))
    as (files1 & L1 & E & (Hread & Hk1 & Hf1 & Hh1 & _ & _ & _ & Eo & Et) & Hchain).
  rewrite Hlast in Hchain. exists files1, L1. split; [exact E|]. intros Hroom.
  assert (is_link (r_chain r)) as Hlink.
  { assert (r ∈ records_of (concat runs)) as Hin.
    { apply last_Some in Hlast as [l' ->]. set_solver. }
    clear -Hin H0. revert Hin. generalize 1 at 1. generalize zero_digest_link. generalize zero_digest.
    induction (concat runs) as [|[t p] l IH]; intros link Hl seq Hin; cbn [run_records] in Hin.
    - by apply elem_of_nil in Hin.
    - apply elem_of_cons in Hin as [->|Hin]; [done|]. by apply (IH _ (record_chain_link _ _ _) _ Hin). }
  set (Lok := with_chain L1 (chain_after (concat runs))) in *.
  assert (with_chain Lok (chain_ L1) = L1) as EL by by destruct L1.
  pose proof (append_with_chain healthy Lok files1 files1 runs (chain_ L1) type payload Hk1) as Ha.
  rewrite EL in Ha. change (has_room Lok payload) with (has_room L1 payload) in Ha. rewrite Hroom, Hchain in Ha.
  destruct (Ha Hlink Ht Hp) as (L' & Hk' & Hseg & Htot & He & _ & _ & Eapp).
  destruct (proj1 (position_current L' runs) (ok_position _ _ _ Hk')) as (init & run & Hc & Es & Eb).
  pose proof (ok_segment _ _ _ Hk') as Hn. unfold kMaxLedgerSegments in Hn. rewrite Es in Eapp, Hn.
  pose proof (current_concat _ _ _ Hc) as Ec.
  set (f := frame type (1 + zlength (concat runs)) payload (r_chain r)) in *.
  pose proof (current_holds files1 runs init run f (ok_holds _ _ _ Hk1) Hc ltac:(lia)) as Hhold.
  cbv zeta in Eapp. unfold append_file_flushed in Eapp. cbn [healthy can_open writes negb] in Eapp.
  rewrite write_loop_nil in Eapp. cbn [negb can_sync] in Eapp.
  set (files2 := map_insert _ _ files1) in *.
  assert (map_find head_name files2 = Some (head_bytes (head_ L1))) as Hf2.
  { unfold files2. rewrite map_find_insert_ne; [exact Hf1|]. intros En.
    pose proof (is_journal_segment (zlength init)) as Hj. rewrite <- En in Hj. discriminate Hj. }
  pose proof (ledger_sequence_small _ _ _ Hk) as Hsmall. pose proof (zlength_nonneg (concat runs)).
  destruct (read_frames_refused files2 init run type (1 + zlength (concat runs)) payload (r_chain r)) as (s & text & Er).
  - apply Hb.
  - exact Hhold.
  - eapply bounded_current; [by eapply ledger_bounded|exact Hc|unfold kMaxLedgerSegments; lia].
  - apply entry_valid_ok; [done|lia|done].
  - lia.
  - right. by rewrite <- Ec.
  - rewrite <- Ec, Z.eqb_refl in Er. eexists files2, _, s, text. split; [exact Eapp|]. split; [exact Er|].
    rewrite <- Eo, <- Et. by apply (open_refused boot files2 (head_ L1) s).
Qed.

(** The disk that takes the bytes of a write and then fails the flush. *)
Definition flush_fails : Disk := mk_disk true [] false true.

(** Retrying a failed append corrupts the journal.  When the flush of an append fails,
    its whole frame stays in the segment although the append reports failure; the retry is
    acknowledged under the same sequence, and from then on every reader refuses the
    journal. *)
Theorem retry_after_failed_flush_breaks `{HashingOk} `{Host} (L : Ledger) (files : Files)
    (runs : list history) (type : RecordType) (payload : bytes) :
  ledger_ok L files runs -> 0 <= type < 2 ^ 16 -> Forall is_byte payload ->
  zlength payload <= kMaxRecordBytes ->
  segment_bytes_ L + 2 * Z.of_nat (92 + length payload) <= kMaxSegmentBytes ->
  retained_bytes_ L + 2 * Z.of_nat (92 + length payload) <= kMaxJournalBytes ->
  exists files1 files2 L2 s text,
    append flush_fails files L type payload = (files1, L, Err (kAtomicReplaceFailed, "fsync failed"%string))
    /\ append healthy files1 L type payload = (files2, L2, Ok (zlength (concat runs) + 1))
    /\ read_all true files2 = Err (s, (kIndexGapDetected, text)).
Proof.
  intros Hk Ht Hp Hsize Hseg Htot.
  assert (has_room L payload = true) as Hroom.
  { unfold has_room. apply andb_true_iff. split; [apply andb_true_iff; split|]; [by apply Z.leb_le| |apply Z.leb_le; lia].
    apply orb_true_iff. left. apply Z.leb_le. lia. }
  assert (is_link (chain_ L)) as Hlink.
  { rewrite (ok_chain _ _ _ Hk). apply run_chain_link, zero_digest_link. }
  destruct (proj1 (position_current L runs) (ok_position _ _ _ Hk)) as (init & run & Hc & Es & Eb).
  pose proof (ok_segment _ _ _ Hk) as Hn. unfold kMaxLedgerSegments in Hn. rewrite Es in Hn.
  set (f := next_frame (concat runs) type payload).
  assert (forall disk files', append disk files' L type payload =
            (let '(files'', r) := append_file_flushed disk files' (segment_name (zlength init)) f in
            match r with
            | Err e => (files'', L, Err e)
            | Ok _ => (files'', mk_ledger (with_last_sequence (head_ L) (zlength (concat runs) + 1))
                (record_chain type (zlength (concat runs) + 1) payload) (zlength init)
                (segment_bytes_ L + Z.of_nat (92 + length payload)) (segment_count_ L)
                (retained_bytes_ L + Z.of_nat (92 + length payload)) (open_ L), Ok (zlength (concat runs) + 1))
            end) /\ entry_valid (type, payload)) as Happ.
  { intros disk files'. pose proof (append_with_chain disk L files' files runs (chain_ L) type payload Hk Hlink Ht Hp) as Ha.
    rewrite with_chain_same, Hroom in Ha. destruct Ha as (L' & _ & _ & _ & He & _ & Hsame & E).
    rewrite Hsame in E by lia. rewrite with_chain_same, Es, (ok_chain _ _ _ Hk) in E. split; [exact E|exact He]. }
  destruct (Happ healthy files) as [_ He].
  pose proof (current_holds files runs init run f (ok_holds _ _ _ Hk) Hc ltac:(lia)) as Hh1.
  cbv zeta in Hh1. set (files1 := map_insert _ _ files) in Hh1.
  pose proof (current_concat _ _ _ Hc) as Ec.
  assert (concat (init ++ [run ++ [(type, payload)]]) = concat runs ++ [(type, payload)]) as Ec1.
  { rewrite concat_app. simpl. by rewrite app_nil_r, app_assoc, Ec. }
  assert (concat (init ++ [run]) = concat runs) as Ec0 by (rewrite concat_app; simpl; by rewrite app_nil_r).
  assert (holds files1 (segments_of (init ++ [run ++ [(type, payload)]]))) as Hh1'.
  { rewrite segments_snoc, <- current_bytes_snoc, <- Ec. exact Hh1. }
  pose proof (current_holds files1 _ init (run ++ [(type, payload)]) f Hh1' (or_introl eq_refl) ltac:(lia)) as Hh2.
  cbv zeta in Hh2. set (files2 := map_insert _ _ files1) in Hh2.
  pose proof (ok_retained _ _ _ Hk) as Hret. pose proof (ledger_sequence_small _ _ _ Hk) as Hsmall.
  pose proof (zlength_nonneg (concat runs)).
  assert (bounded (init ++ [run ++ [(type, payload)]])) as Hbd.
  { apply bounded_extend; [|done|lia|].
    - eapply bounded_current; [by eapply ledger_bounded|exact Hc|unfold kMaxLedgerSegments; lia].
    - unfold total_size in *. rewrite Ec0. lia. }
  destruct (read_frames_refused files2 init (run ++ [(type, payload)]) type (1 + zlength (concat runs)) payload
    (chain_after (concat runs))) as (s & text & Er).
  - apply Hk.
  - exact Hh2.
  - done.
  - apply entry_valid_ok; [done|lia|]. apply run_chain_link, zero_digest_link.
  - rewrite run_size_app. change (run_size [(type, payload)]) with (92 + length payload + 0)%nat. lia.
  - left. rewrite app_assoc, <- Ec, zlength_app. change (zlength [(type, payload)]) with 1. lia.
  - rewrite app_assoc, <- Ec, zlength_app in Er. change (zlength [(type, payload)]) with 1 in Er.
    rewrite (proj2 (Z.eqb_neq _ _)) in Er by lia. eexists files1, files2, _, s, text.
    split; [|split; [|exact Er]].
    + rewrite (proj1 (Happ flush_fails files)). unfold append_file_flushed.
      cbn [flush_fails can_open writes negb]. rewrite write_loop_nil. done.
    + rewrite (proj1 (Happ healthy files1)). unfold append_file_flushed.
      cbn [healthy can_open writes negb]. rewrite write_loop_nil. done.
Qed.

(** C36: a boot record that can be read decides who opens the directory.  With a record of
    coordinator and trust set [h], opening as another coordinator or under another trust set
    is refused and changes nothing, and the reader of the record gets back the epoch and boot
    count that were written; a record with one changed byte is refused; journal segments
    without a record are refused.  A record that exists and cannot be opened for reading does
    not protect the directory: it counts as absent, so without segments anyone opens the
    directory, under epoch 1, and replaces the record by one of their own; only segments make
    the opening fail. *)
Theorem open_checks_owner `{HashingOk} `{Host} (boot : Boot) (files : Files) (h : HeadRecord)
    (owner : CoordinatorId) (trust : Digest) :
  head_ok h -> ensure_directory boot = Ok tt -> within boot = true -> listable boot = true ->
  (can_read head_name = true -> map_find head_name files = Some (head_bytes h) ->
     (owner <> coordinator h ->
        open_ledger boot files owner trust
        = (files, Err (kIndexMismatch, "state directory belongs to another coordinator identity"%string)))
     /\ (owner = coordinator h -> trust <> trust_digest h ->
        open_ledger boot files owner trust
        = (files, Err (kPublisherNotTrusted, "state directory was written under a different trust set"%string)))
     /\ check_head files (coordinator h) (trust_digest h) = Ok (epoch h, boot_count h, true))
  /\ (map_find head_name files = None -> existsb is_journal files.*1 = true ->
        open_ledger boot files owner trust
        = (files, Err (kRecoveryRequired, "journal segments exist without a head record"%string)))
  /\ (can_read head_name = true -> forall i x y, head_bytes h !! i = Some x -> is_byte y -> x <> y ->
        map_find head_name files = Some (<[i:=y]> (head_bytes h)) ->
        exists e, open_ledger boot files owner trust = (files, Err e))
  /\ (can_read head_name = false -> map_find head_name files = Some (head_bytes h) ->
        if existsb is_journal files.*1
        then open_ledger boot files owner trust
             = (files, Err (kRecoveryRequired, "journal segments exist without a head record"%string))
        else id_ok owner -> length trust = 32%nat /\ Forall is_byte trust ->
             length (random boot) = 16%nat /\ Forall is_byte (random boot) -> head_disk boot = healthy ->
             exists files2 L rep, open_ledger boot files owner trust = (files2, Ok (L, rep))
               /\ coordinator (head_ L) = owner /\ trust_digest (head_ L) = trust /\ epoch (head_ L) = 1
               /\ map_find head_name files2 = Some (head_bytes (head_ L))).
Proof.
  intros Hh He Hw Hl. split_and!.
  4: { intros Hr Hf. assert (check_head files owner trust = Ok (0, 0, false)) as Hc.
       { apply (check_head_unreadable _ _ _ (head_bytes h)); [done|done|]. unfold zlength. by rewrite head_bytes_length. }
       destruct (existsb is_journal files.*1) eqn:Hj; [|by intros; apply open_unreadable].
       unfold open_ledger. rewrite He, Hw, Hl, Hc, Hj. done. }
  all: unfold open_ledger; rewrite He, Hw, Hl; cbn [negb andb].
  - intros Hr Hf. rewrite !(check_head_reads files h _ _ Hr Hh Hf). split_and!.
    + intros Hne. destruct (id_eqb (coordinator h) owner) eqn:E; [|done].
      apply id_eqb_eq in E. by destruct Hne.
    + intros -> Hne. rewrite id_eqb_refl, bool_decide_false by congruence. done.
    + by rewrite id_eqb_refl, bool_decide_true by done.
  - intros Hf Hj. unfold check_head, read_file. rewrite Hf.
    change (code_eqb kStateUnavailable kStateUnavailable) with true. cbn iota. by rewrite Hj.
  - intros Hr i x y Hx Hy Hne Hf. destruct (changed_head_refused files h owner trust i x y Hh Hx Hy Hne Hf Hr) as [e ->].
    by exists e.
Qed.

(** Snapshots are written atomically and read back as they were.  A snapshot ahead of
    the durable sequence is refused without touching the directory; otherwise, whatever
    the disk does, reading gives the new snapshot when the write reported success and what
    was there before when it did not. *)
Theorem snapshot_roundtrip `{HashingOk} `{Host} (disk : Disk) (files : Files) (L : Ledger) (s : Snapshot) :
  snapshot_ok s -> can_read snapshot_name = true ->
  let '(files', r) := write_snapshot disk files L s in
  if last_sequence (head_ L) <? sn_sequence s
  then files' = files /\ exists text, r = Err (kRecoveryRequired, text)
  else read_snapshot files' = (if is_ok r then Ok (Some s) else read_snapshot files).
Proof.
  intros Hs Hread. unfold write_snapshot. destruct (last_sequence (head_ L) <? sn_sequence s); [by eauto|].
  pose proof (atomic_write_outcome disk files snapshot_name (snapshot_bytes s)) as Ha.
  destruct (write_file_atomic disk files snapshot_name (snapshot_bytes s)) as [files' r]. cbn [fst snd] in Ha.
  destruct (is_ok r); [by apply read_snapshot_file|]. unfold read_snapshot, read_file. by rewrite Ha.
Qed.

(** ** Witnesses: a directory with one record *)
Definition sample_host : Host := {|
  path_string := fun name => String.append "state/" name;
  error_text := "No such file or directory";
  can_read := fun _ => true;
  can_truncate := fun _ => true
|}.

Definition sample_boot : Boot := mk_boot (Ok tt) true true (repeat 7 16) healthy.

Definition sample_head : HeadRecord :=
  mk_head 1 zero_id zero_digest 1 (mk_incarnation (repeat 7 16)) 1 1.

Definition sample_history : history := [(kGenesis, [104; 105])].

Definition sample_files : Files := [
  (head_name, head_bytes sample_head);
  (segment_name 0, @encode_run toy_hashing 1 zero_digest sample_history)
].

Definition sample_ledger : Ledger :=
  mk_ledger sample_head (@run_chain toy_hashing 1 zero_digest sample_history) 0 94 1 94 true.

Lemma sample_host_serves : @host_serves sample_host.
Proof. by split. Qed.

Lemma sample_boot_ok : @boot_ok sample_host sample_boot.
Proof. split; try done. split; [done|]. repeat constructor; unfold is_byte; lia. Qed.

Lemma sample_head_ok : head_ok sample_head.
Proof.
  split; cbn; try lia; [apply zero_id_ok|apply zero_digest_link|].
  split; [done|]. repeat constructor; unfold is_byte; lia.
Qed.

Lemma sample_history_valid : Forall entry_valid sample_history.
Proof.
  constructor; [|constructor]. split_and!; [cbn; unfold kGenesis; lia|cbn; unfold kGenesis; lia|vm_compute; discriminate|].
  repeat constructor; unfold is_byte; lia.
Qed.

Lemma sample_ledger_ok : @ledger_ok toy_hashing sample_host sample_ledger sample_files [sample_history].
Proof.
  split; try done.
  - split; [|vm_compute; reflexivity]. vm_compute. by repeat constructor.
  - repeat constructor. vm_compute. discriminate.
  - cbn [concat]. rewrite app_nil_r. apply sample_history_valid.
  - right. exists [], sample_history. by split_and!.
Qed.

#[local] Existing Instance toy_hashing.
#[local] Existing Instance toy_hashing_ok.
#[local] Existing Instance sample_host.

Lemma sample_payload_bytes : Forall is_byte [1; 2; 3].
Proof. repeat constructor; unfold is_byte; lia. Qed.

(** An append whose process dies 50 bytes into the frame. *)
Lemma crash_recovery_witness :
  exists files2 L2 rep,
    open_ledger sample_boot (append (mk_disk true [50; 0] true true) sample_files sample_ledger 2 [1; 2; 3]).1.1
      (coordinator sample_head) (trust_digest sample_head) = (files2, Ok (L2, rep)).
Proof.
  pose proof (crash_recovery (mk_disk true [50; 0] true true) sample_boot sample_ledger sample_files [sample_history]
    sample_head 2 [1; 2; 3] sample_ledger_ok sample_head_ok eq_refl sample_boot_ok
    ltac:(lia) sample_payload_bytes) as Hc.
  destruct (append _ sample_files sample_ledger 2 [1; 2; 3]) as [[files1 L1] r].
  destruct Hc as (files2 & L2 & rep & runs2 & E & _). exists files2, L2, rep. exact E.
Defined.

Lemma journal_refines_history_witness :
  exists files0 L0, open_ledger sample_boot [] zero_id zero_digest = (files0, Ok (L0, with_recovered empty_report false)).
Proof.
  destruct (journal_refines_history sample_boot zero_id zero_digest [(1, [1; 2; 3])] sample_boot_ok zero_id_ok
    eq_refl (proj2 zero_digest_link)) as (files0 & L0 & E & _).
  - constructor; [|constructor]. split; [cbn; lia|apply sample_payload_bytes].
  - exists files0, L0. exact E.
Defined.

Lemma reopened_append_breaks_witness :
  exists files1 L1, open_ledger sample_boot sample_files zero_id zero_digest
                    = (files1, Ok (L1, clean_report [sample_history])).
Proof.
  destruct (reopened_append_breaks sample_boot sample_ledger sample_files [sample_history] sample_head
    (record_of 1 1 [104; 105] zero_digest) 2 [1; 2; 3] sample_ledger_ok sample_head_ok eq_refl sample_boot_ok
    eq_refl ltac:(vm_compute; discriminate) ltac:(lia) sample_payload_bytes) as (files1 & L1 & E & _).
  exists files1, L1. exact E.
Defined.

Lemma retry_after_failed_flush_breaks_witness :
  exists files1 files2 L2,
    append flush_fails sample_files sample_ledger 2 [1; 2; 3]
    = (files1, sample_ledger, Err (kAtomicReplaceFailed, "fsync failed"%string))
    /\ append healthy files1 sample_ledger 2 [1; 2; 3] = (files2, L2, Ok 2).
Proof.
  destruct (retry_after_failed_flush_breaks sample_ledger sample_files [sample_history] 2 [1; 2; 3]
    sample_ledger_ok ltac:(lia) sample_payload_bytes ltac:(vm_compute; discriminate)
    ltac:(vm_compute; discriminate) ltac:(vm_compute; discriminate)) as (files1 & files2 & L2 & s & text & E1 & E2 & _).
  exists files1, files2, L2. split; [exact E1|exact E2].
Defined.

Lemma open_checks_owner_witness :
  open_ledger sample_boot sample_files (mk_id (char_string 64 "1")) zero_digest
  = (sample_files, Err (kIndexMismatch, "state directory belongs to another coordinator identity"%string)).
Proof.
  apply (proj1 (@open_checks_owner toy_hashing toy_hashing_ok sample_host sample_boot sample_files sample_head (mk_id (char_string 64 "1")) zero_digest
    sample_head_ok eq_refl eq_refl eq_refl) eq_refl eq_refl). vm_compute. discriminate.
Defined.

Lemma snapshot_roundtrip_witness :
  read_snapshot (write_snapshot healthy sample_files sample_ledger (mk_snapshot 1 1 [1; 2; 3])).1
  = Ok (Some (mk_snapshot 1 1 [1; 2; 3])).
Proof.
  assert (snapshot_ok (mk_snapshot 1 1 [1; 2; 3])) as Hs.
  { split_and!; cbn; try lia; [apply sample_payload_bytes|vm_compute; discriminate]. }
  pose proof (snapshot_roundtrip healthy sample_files sample_ledger (mk_snapshot 1 1 [1; 2; 3]) Hs eq_refl) as Hr.
  destruct (write_snapshot _ _ _ _) as [files' r] eqn:E. cbn [fst]. vm_compute in E. injection E as <- <-. exact Hr.
Defined.
