(* ===== verification/ScanSound.v ===== *)
(** * The scan accepts nothing else

    The converse of the scan lemmas of Journal.v: whatever the files hold, a scan that
    succeeds has read a chain of frames from the first byte on, and the bytes it did not
    turn into records are one incomplete frame and the segments behind it. *)
From Stdlib Require Import ZArith Lia Ascii String.
From stdpp Require Import base numbers option list strings sets.
From S2P Require Import Prelude Identity Errors Hash Json State Frame Ledger Boot Journal Recovery.

Section ScanSound.
Context `{HashingOk} `{Host}.

(** What a scan from state [s] over some bytes has established: the records of [l] were
    read, and [tail] is the incomplete frame it stopped at, if any. *)
Definition scanned (s s' : Scan) (l : history) (tail : bytes) : Prop :=
  Forall entry_valid l
  /\ s_records s' = s_records s ++ run_records (s_expected s) (s_previous s) l
  /\ s_expected s' = s_expected s + zlength l
  /\ s_previous s' = run_chain (s_expected s) (s_previous s) l
  /\ last_valid_sequence (s_report s') =
       match l with [] => last_valid_sequence (s_report s) | _ => s_expected s + zlength l - 1 end
  /\ excess_segments (s_report s') = excess_segments (s_report s)
  /\ chain_break (s_report s') = chain_break (s_report s)
  /\ if s_torn s'
     then recovered (s_report s') = true /\ truncated_bytes (s_report s') = zlength tail /\ tail <> []
          /\ exists text, parse_frame tail 0 = Err (kLedgerTruncated, text)
     else tail = [] /\ recovered (s_report s') = recovered (s_report s)
          /\ truncated_bytes (s_report s') = truncated_bytes (s_report s).

Lemma code_eqb_truncated c : code_eqb c kLedgerTruncated = true -> c = kLedgerTruncated.
Proof. destruct c; vm_compute; done. Qed.

Lemma scan_bytes_sound fuel data offset s s' :
  Forall is_byte data -> (length data - offset <= fuel)%nat -> is_link (s_previous s) -> s_torn s = false ->
  0 <= s_expected s -> s_expected s + Z.of_nat (length data - offset) < 2 ^ 64 ->
  scan_bytes fuel data offset s = Ok s' ->
  exists l tail, drop offset data = encode_run (s_expected s) (s_previous s) l ++ tail /\ scanned s s' l tail.
Proof.
  intros Hb. revert offset s. induction fuel as [|fuel IH]; intros offset s Hf Hl Ht H0s Hs E; cbn [scan_bytes] in E.
  - injection E as <-. exists [], []. rewrite drop_ge by lia. split; [done|]. unfold scanned. rewrite Ht. cbn.
    rewrite app_nil_r, Z.add_0_r. by split_and!.
  - destruct (offset <? length data)%nat eqn:Eo; cbn [negb] in E.
    2: { injection E as <-. apply Nat.ltb_ge in Eo. exists [], []. rewrite drop_ge by lia. split; [done|].
         unfold scanned. rewrite Ht. cbn. rewrite app_nil_r, Z.add_0_r. by split_and!. }
    apply Nat.ltb_lt in Eo. destruct (parse_frame data offset) as [[r consumed]|[code text]] eqn:Ep.
    2: { destruct (code_eqb code kLedgerTruncated) eqn:Ec; cbn [negb] in E; [|discriminate E].
         apply code_eqb_truncated in Ec as ->. injection E as <-.
         assert (length (drop offset data) = (length data - offset)%nat) as Hd by apply length_drop.
         exists [], (drop offset data). split; [done|]. unfold scanned.
         cbn [s_records s_expected s_previous s_torn s_report recovered truncated_bytes last_valid_sequence
           excess_segments chain_break run_records run_chain]. change (zlength []) with 0.
         rewrite app_nil_r, Z.add_0_r. split_and!; try done.
         - unfold zlength. rewrite Hd. lia.
         - intros Hnil. rewrite Hnil in Hd. simpl in Hd. lia.
         - exists text. rewrite <- Ep. symmetry. apply parse_frame_drop. }
    destruct (parse_frame_inv data offset r consumed Hb Ep) as (He & Er & Hd & Hc).
    destruct (r_sequence r =? s_expected s) eqn:Eseq; cbn [negb] in E; [|discriminate E].
    destruct (bool_decide (r_chain r = s_previous s)) eqn:Echain; cbn [negb] in E; [|discriminate E].
    apply Z.eqb_eq in Eseq. apply bool_decide_eq_true in Echain.
    set (t := r_type r) in *. set (p := r_payload r) in *. rewrite Eseq, Echain in *.
    assert (length (frame t (s_expected s) p (s_previous s)) = (92 + length p)%nat) as Hfl by by apply frame_length, Hl.
    assert (length (drop offset data) = (length data - offset)%nat) as Hdl by apply length_drop.
    rewrite Hd, length_app, Hfl in Hdl.
    assert (chain_of (zero_link (take 88 (drop offset data))) p = record_chain t (s_expected s) p) as Eder.
    { rewrite Hd. apply (derived_chain t (s_expected s) p (s_previous s) []). done. }
    rewrite Eder, u64_small in E by lia.
    apply IH in E as (l & tail & Htail & Hsc); cbn [s_expected s_previous s_torn]; try done; try lia.
    2: apply record_chain_link.
    cbn [s_expected s_previous s_torn] in Htail.
    exists ((t, p) :: l), tail. cbn [encode_run]. split; [by rewrite Hd, Htail, app_assoc|].
    destruct Hsc as (Hv & E1 & E2 & E3 & E4 & E5 & E6 & E7).
    cbn [s_records s_expected s_previous s_torn s_report recovered truncated_bytes last_valid_sequence
      excess_segments chain_break] in *.
    assert (zlength ((t, p) :: l) = zlength l + 1) as Hz by (unfold zlength; simpl; lia).
    unfold scanned. rewrite Hz. cbn [run_records run_chain]. split_and!; try done.
    + constructor; [|done]. destruct He as (? & ? & ? & ? & ? & ?). unfold entry_valid. cbn [fst snd]. tauto.
    + rewrite E1, Er, <- app_assoc. done.
    + lia.
    + rewrite E4. destruct l; [unfold zlength; simpl; lia|lia].
Qed.

(** The segments of a torn scan are only counted. *)
Lemma scan_data_torn datas s s' :
  s_torn s = true -> result_fold scan_data s datas = Ok s' ->
  s_records s' = s_records s /\ s_torn s' = true
  /\ last_valid_sequence (s_report s') = last_valid_sequence (s_report s)
  /\ recovered (s_report s') = recovered (s_report s)
  /\ truncated_bytes (s_report s') = truncated_bytes (s_report s)
  /\ chain_break (s_report s') = chain_break (s_report s)
  /\ excess_segments (s_report s') = excess_segments (s_report s) + zlength datas.
Proof. intros Ht. rewrite scan_excess by done. intros [= <-]. by split_and!. Qed.

Lemma scan_datas_sound datas s s' :
  Forall (Forall is_byte) datas -> is_link (s_previous s) -> s_torn s = false ->
  0 <= s_expected s -> s_expected s + sizes datas < 2 ^ 64 -> excess_segments (s_report s) = 0 ->
  result_fold scan_data s datas = Ok s' ->
  exists l tail rest,
    concat datas = encode_run (s_expected s) (s_previous s) l ++ tail ++ concat rest
    /\ Forall entry_valid l
    /\ s_records s' = s_records s ++ run_records (s_expected s) (s_previous s) l
    /\ last_valid_sequence (s_report s') =
         match l with [] => last_valid_sequence (s_report s) | _ => s_expected s + zlength l - 1 end
    /\ excess_segments (s_report s') = zlength rest
    /\ chain_break (s_report s') = chain_break (s_report s)
    /\ if s_torn s'
       then recovered (s_report s') = true /\ truncated_bytes (s_report s') = zlength tail /\ tail <> []
            /\ exists text, parse_frame tail 0 = Err (kLedgerTruncated, text)
       else tail = [] /\ rest = [] /\ recovered (s_report s') = recovered (s_report s)
            /\ truncated_bytes (s_report s') = truncated_bytes (s_report s).
Proof.
  intros Hb. revert s; induction Hb as [|data datas Hd Hb IH]; intros s Hl Ht H0s Hs Hex E; cbn [result_fold] in E.
  - injection E as <-. exists [], [], []. cbn. rewrite Ht, app_nil_r. by split_and!.
  - destruct (scan_data s data) as [s1|] eqn:E1; [|discriminate E]. unfold scan_data in E1. rewrite Ht in E1.
    assert (sizes (data :: datas) = zlength data + sizes datas) as Hsz by (unfold sizes, zlength; simpl; lia).
    assert (0 <= sizes datas) by (unfold sizes; lia).
    apply scan_bytes_sound in E1 as (l1 & tail1 & Ed & Hsc); try done; try lia.
    2: { unfold zlength in Hsz. lia. }
    rewrite drop_0 in Ed. destruct Hsc as (Hv & R1 & R2 & R3 & R4 & R5 & R6 & R7).
    pose proof (f_equal length Ed) as Elen. rewrite length_app, encode_run_length in Elen by done.
    pose proof (run_size_ge l1) as Hge. destruct (s_torn s1) eqn:Et.
    + destruct (scan_data_torn datas s1 s' Et E) as (T1 & T2 & T3 & T4 & T5 & T6 & T7).
      exists l1, tail1, datas. cbn [concat]. rewrite T1, T2, T3, T4, T5, T6, T7, R5, R6, Hex.
      split_and!; first [done|apply R7|lia|by rewrite Ed, <- app_assoc].
    + destruct R7 as (-> & R8 & R9). rewrite app_nil_r in Ed.
      apply IH in E as (l2 & tail & rest & Ec & Hv2 & S1 & S2 & S3 & S4 & S5); try done.
      2: { rewrite R3. by apply run_chain_link. }
      2: { rewrite R2. pose proof (zlength_nonneg l1). lia. }
      2: { rewrite R2. unfold zlength in *. lia. }
      2: { by rewrite R5. }
      rewrite R2, R3 in *. exists (l1 ++ l2), tail, rest. cbn [concat].
      rewrite encode_run_app, run_records_app, zlength_app, <- app_assoc, Ed, Ec.
      split_and!; try done.
      * by apply Forall_app.
      * by rewrite S1, R1, app_assoc.
      * rewrite S2. destruct l2; [rewrite app_nil_r, R4; change (zlength []) with 0|].
        { destruct l1; [done|lia]. }
        { destruct l1; cbn [app]; lia. }
      * by rewrite S4.
      * destruct (s_torn s'); [done|]. destruct S5 as (-> & -> & S6 & S7). by rewrite S6, S7.
Qed.

(** A scan that succeeds read every segment it looked into, whatever the host refuses. *)
Lemma scan_names_Ok files (part : Files) s s' :
  Forall (fun p => map_find p.1 files = Some p.2 /\ fits p.2) part ->
  result_fold (scan_segment files) s part.*1 = Ok s' -> result_fold scan_data s part.*2 = Ok s'.
Proof.
  intros Hp. revert s; induction Hp as [|[name data] part [Hfind Hfit] Hp IH]; intros s; [done|].
  cbn [fmap list_fmap fst snd result_fold] in *.
  assert (is_ok (scan_segment files s name) = true -> scan_segment files s name = scan_data s data) as Heq.
  { unfold scan_segment, scan_data, read_file. destruct (s_torn s); [done|].
    rewrite Hfind, (proj2 (Z.ltb_ge _ _) Hfit). by destruct (can_read name). }
  destruct (scan_segment files s name) as [s1|e]; [|done]. rewrite <- (Heq eq_refl). apply IH.
Qed.

Lemma scan_directory_Ok files datas s' :
  holds files datas -> Forall fits datas ->
  result_fold (scan_segment files) start_scan (journal_names files) = Ok s' ->
  result_fold scan_data start_scan datas = Ok s'.
Proof.
  intros Hh Hfit E. rewrite (journal_names_holds files datas) in E by done.
  apply scan_names_Ok in E; [by rewrite journal_files_data in E|]. apply Forall_forall. intros [name data] Hin. split; [by apply (holds_find files datas)|].
  rewrite Forall_forall in Hfit. apply Hfit. rewrite <- (journal_files_data datas). by apply (list_elem_of_fmap_2 snd).
Qed.

End ScanSound.

(** C31: the journal scan is sound.  Whatever bytes the segments of a directory hold, a scan
    that succeeds returns the records of a chain: the concatenated segments start with
    exactly the frames of those records, numbered from 1 without a gap and each linked to
    the one before; nothing of the rest was read as a record, and unless the journal ends
    there the report says so, with an incomplete frame as the only reason. *)
Theorem journal_scan_sound `{HashingOk} `{Host} (files : Files) (datas : list bytes)
    (records : list LedgerRecord) (rep : RecoveryReport) :
  holds files datas -> Forall fits datas -> Forall (Forall is_byte) datas -> sizes datas < 2 ^ 64 - 1 ->
  read_all true files = Ok (records, rep) ->
  exists l tail rest,
    concat datas = encode_run 1 zero_digest l ++ tail ++ concat rest
    /\ Forall entry_valid l /\ records = records_of l
    /\ valid_records rep = zlength l /\ last_valid_sequence rep = zlength l
    /\ excess_segments rep = zlength rest /\ chain_break rep = false
    /\ if recovered rep
       then truncated_bytes rep = zlength tail /\ tail <> []
            /\ exists text, parse_frame tail 0 = Err (kLedgerTruncated, text)
       else tail = [] /\ rest = [] /\ truncated_bytes rep = 0.
Proof.
  intros Hh Hf Hb Hs E. unfold read_all, read_frames in E. cbn [negb] in E.
  destruct (result_fold (scan_segment files) start_scan _) as [s'|] eqn:Es; [|discriminate E].
  injection E as <- <-. apply (scan_directory_Ok files datas _ Hh Hf) in Es.
  apply scan_datas_sound in Es as (l & tail & rest & Ec & Hv & S1 & S2 & S3 & S4 & S5); try done.
  2: apply zero_digest_link.
  2: { cbn [start_scan s_expected]. lia. }
  cbn [start_scan s_records s_report s_expected s_previous empty_report recovered truncated_bytes
    last_valid_sequence chain_break app valid_records excess_segments] in *.
  exists l, tail, rest. rewrite S1, S2, S3, S4, zlength_records. split_and!; try done.
  - destruct l; [done|lia].
  - destruct (s_torn s').
    + destruct S5 as (-> & S5). done.
    + destruct S5 as (-> & -> & -> & ->). done.
Qed.

Lemma journal_scan_sound_witness :
  exists l, @read_all toy_hashing sample_host true sample_files
            = Ok (@run_records toy_hashing 1 zero_digest l, @clean_report [sample_history])
    /\ Forall entry_valid l.
Proof.
  pose proof (@ledger_reads toy_hashing toy_hashing_ok sample_host _ _ _ sample_ledger_ok) as E.
  destruct (@journal_scan_sound toy_hashing toy_hashing_ok sample_host sample_files
    (@encode_segments toy_hashing 1 zero_digest [sample_history])
    (@run_records toy_hashing 1 zero_digest (concat [sample_history])) (@clean_report [sample_history])
    (ok_holds _ _ _ sample_ledger_ok)) as (l & tail & rest & _ & Hv & Er & _).
  - repeat constructor. vm_compute. discriminate.
  - constructor; [|constructor]. apply (@encode_run_bytes toy_hashing toy_hashing_ok);
      [apply sample_history_valid|apply zero_digest_link].
  - vm_compute. reflexivity.
  - exact E.
  - exists l. split; [|exact Hv]. rewrite <- Er. exact E.
Defined.
