(* ===== verification/Wire.v ===== *)
(** * The wire protocol

    Models [include/wnc/wire.hpp] and [src/wire.cpp]: the framed transport between the
    coordinator and its tools.  Bodies and frames are lists of byte values.  What a
    system call answers is an argument: a [Peer] is the byte stream a socket delivers, cut
    into the pieces successive [recv] calls find, and how it ends; [sends] are the results
    of successive [send] calls; a [Candidate] is one resolved address with what [socket],
    [bind], [listen] or [connect] return for it.

    The integers are read and written by the functions of [Frame]: the two files of the
    program define them alike. *)
From Stdlib Require Import ZArith Lia Ascii String.
From stdpp Require Import base numbers option list strings.
From S2P Require Import Prelude Identity Errors Hash Json State Frame.

Definition kHeaderBytes : nat := 28.
Definition kWireMagic : Z := 1464746801.
Definition kWireVersion : Z := 1.

(** ** Message types

    [enum class MessageType : std::uint16_t]: a frame may carry any 16 bit value. *)
Notation MessageType := Z (only parsing).
Definition kUnknown : MessageType := 0.
Definition kHello : MessageType := 1.
Definition kHelloReply : MessageType := 2.
Definition kRegisterWorkload : MessageType := 3.
Definition kPublishContract : MessageType := 4.
Definition kAttachEvidence : MessageType := 5.
Definition kEvaluate : MessageType := 6.
Definition kStatus : MessageType := 7.
Definition kDescribeContract : MessageType := 8.
Definition kInstallPolicy : MessageType := 9.
Definition kRetireWorkload : MessageType := 10.
Definition kListWorkloads : MessageType := 11.
Definition kRetireReplyGeneric : MessageType := 12.
Definition kError : MessageType := 255.

Definition kMessageTokens : list (MessageType * string) := [
  (kUnknown, "unknown"%string); (kHello, "hello"%string); (kHelloReply, "hello_reply"%string);
  (kRegisterWorkload, "register_workload"%string); (kPublishContract, "publish_contract"%string);
  (kAttachEvidence, "attach_evidence"%string); (kEvaluate, "evaluate"%string);
  (kStatus, "status"%string); (kDescribeContract, "describe_contract"%string);
  (kInstallPolicy, "install_policy"%string); (kRetireWorkload, "retire_workload"%string);
  (kListWorkloads, "list_workloads"%string); (kError, "error"%string)
].

Definition message_type_token (type : MessageType) : string :=
  match List.find (fun entry => entry.1 =? type) kMessageTokens with
  | Some entry => entry.2
  | None => "unknown"
  end.

Definition parse_message_type (text : string) : option MessageType :=
  fst <$> List.find (fun entry => String.eqb entry.2 text) kMessageTokens.

(** ** Frames *)
Record Header := mk_header {
  version : Z;
  h_type : MessageType;
  flags : Z;
  body_length : Z;
  request_id : Z
}.

Record Frame := mk_frame { header : Header; body : bytes }.

Definition encode_frame (type : MessageType) (request_id : Z) (body : bytes) (out : bytes)
    : result io_error bytes :=
  if kMaxFrameBytes - Z.of_nat kHeaderBytes <? zlength body
  then Err (kBodyTooLarge,
    String.append "frame body of " (String.append (to_string (zlength body)) " bytes exceeds the bound"))
  else
    let header := write_u32 kWireMagic ++ write_u16 kWireVersion ++ write_u16 type ++ write_u32 0
      ++ write_u32 (zlength body) ++ write_u64 request_id in
    let header := header ++ write_u32 (crc32 header) in
    Ok (out ++ header ++ body).

(** The frame and [consumed]; a failure leaves [consumed] at zero. *)
Definition decode_frame (data : bytes) : result io_error (Frame * nat) :=
  if (length data <? kHeaderBytes)%nat
  then Err (kTruncatedFrame, "frame header is incomplete"%string)
  else if negb (read_u32 data =? kWireMagic)
  then Err (kBadMagic, "frame magic does not match this protocol"%string)
  else
    let version := read_u16 (drop 4 data) in
    if negb (version =? kWireVersion)
    then Err (kBadVersion,
      String.append "frame version " (String.append (to_string version) " is not supported"))
    else if negb (read_u32 (drop 24 data) =? crc32 (take 24 data))
    then Err (kFrameCrcMismatch, "frame header integrity check failed"%string)
    else
      let header := mk_header version (read_u16 (drop 6 data)) (read_u32 (drop 8 data))
        (read_u32 (drop 12 data)) (read_u64 (drop 16 data)) in
      if kMaxFrameBytes - Z.of_nat kHeaderBytes <? body_length header
      then Err (kFrameTooLarge,
        String.append "frame declares " (String.append (to_string (body_length header)) " body bytes"))
      else
        let total := (kHeaderBytes + Z.to_nat (body_length header))%nat in
        if (length data <? total)%nat
        then Err (kTruncatedFrame, "frame body is incomplete"%string)
        else Ok (mk_frame header (slice 28 (Z.to_nat (body_length header)) data), total).

(** ** Sockets *)

(** What [recv] finds: the pieces in which the bytes arrive, then the end of the stream,
    which is the peer's close ([0]) or an error (negative). *)
Record Peer := mk_peer { arriving : list bytes; stream_end : Z }.

(** [recv] into a buffer of [n] bytes takes what has arrived, at most [n] bytes of it. *)
Definition recv (n : nat) (peer : Peer) : Peer * (Z * bytes) :=
  match arriving peer with
  | [] => (peer, (stream_end peer, []))
  | piece :: rest =>
      if (length piece <=? n)%nat
      then (mk_peer rest (stream_end peer), (zlength piece, piece))
      else (mk_peer (drop n piece :: rest) (stream_end peer), (Z.of_nat n, take n piece))
  end.

(** [while (offset < buffer.size())]: [left] bounds the iterations, since each takes at
    least one byte. *)
Fixpoint read_exact_loop (fuel : nat) (size : nat) (peer : Peer) (buffer : bytes)
    : Peer * result io_error bytes :=
  match fuel with
  | O => (peer, Ok buffer)
  | S fuel =>
      if (length buffer <? size)%nat then
        let '(peer, (received, piece)) := recv (size - length buffer) peer in
        if received =? 0 then (peer, Err (kSessionClosed, "peer closed the connection"%string))
        else if received <? 0 then (peer, Err (kIoFailed, "receive failed"%string))
        else read_exact_loop fuel size peer (buffer ++ piece)
      else (peer, Ok buffer)
  end.

Definition read_exact (size : nat) (peer : Peer) : Peer * result io_error bytes :=
  read_exact_loop size size peer [].

(** The bytes handed to the peer and the outcome.  A [send] beyond the list takes
    everything it is given. *)
Definition write_all (sends : list Z) (data : bytes) : bytes * result io_error unit :=
  let '(sent, complete) := write_loop sends [] data in
  (sent, if complete then Ok tt else Err (kIoFailed, "send failed"%string)).

Definition read_frame (peer : Peer) : Peer * result io_error Frame :=
  let '(peer, r) := read_exact kHeaderBytes peer in
  match r with
  | Err e => (peer, Err e)
  | Ok raw =>
      if negb (read_u32 raw =? kWireMagic)
      then (peer, Err (kBadMagic, "frame magic does not match this protocol"%string))
      else
        let version := read_u16 (drop 4 raw) in
        if negb (version =? kWireVersion)
        then (peer, Err (kBadVersion, "frame version is not supported"%string))
        else if negb (read_u32 (drop 24 raw) =? crc32 (take 24 raw))
        then (peer, Err (kFrameCrcMismatch, "frame header integrity check failed"%string))
        else
          let body_length := read_u32 (drop 12 raw) in
          if kMaxFrameBytes - Z.of_nat kHeaderBytes <? body_length
          then (peer, Err (kFrameTooLarge,
            String.append "frame declares " (String.append (to_string body_length) " body bytes")))
          else
            let header := mk_header version (read_u16 (drop 6 raw)) (read_u32 (drop 8 raw))
              body_length (read_u64 (drop 16 raw)) in
            if 0 <? body_length then
              let '(peer, r) := read_exact (Z.to_nat body_length) peer in
              match r with
              | Err e => (peer, Err e)
              | Ok body => (peer, Ok (mk_frame header body))
              end
            else (peer, Ok (mk_frame header []))
  end.

Definition send_frame (sends : list Z) (type : MessageType) (request_id : Z) (body : bytes)
    : bytes * result io_error unit :=
  match encode_frame type request_id body [] with
  | Err e => ([], Err e)
  | Ok frame => write_all sends frame
  end.

(** The [timeval] of [wait_readable], and its answer to what [select] returns. *)
Definition select_timeout (timeout_millis : Z) : Z * Z :=
  (timeout_millis / 1000, timeout_millis mod 1000 * 1000).

Definition wait_readable (ready : Z) : result io_error unit :=
  if ready =? 0 then Err (kDeadlineExceeded, "no frame arrived within the bounded wait"%string)
  else if ready <? 0 then Err (kIoFailed, "select failed"%string)
  else Ok tt.

Definition accept_one (ready handle : Z) : result io_error Z :=
  match wait_readable ready with
  | Err e => Err e
  | Ok _ => if handle <? 0 then Err (kIoFailed, "accept failed"%string) else Ok handle
  end.

(** One address of the resolver: the descriptor [socket] returns and whether the calls
    that must succeed on it ([bind] and [listen], or [connect]) do. *)
Record Candidate := mk_candidate { descriptor : Z; usable : bool }.

(** [~0ull] *)
Definition kInvalidHandle : Z := 18446744073709551615.

(** The loop over the addresses: the handle it ends with and the descriptors it closed. *)
Fixpoint first_usable (candidates : list Candidate) (closed : list Z) : Z * list Z :=
  match candidates with
  | [] => (kInvalidHandle, closed)
  | candidate :: rest =>
      if descriptor candidate <? 0 then first_usable rest closed
      else if negb (usable candidate) then first_usable rest (closed ++ [descriptor candidate])
      else (descriptor candidate, closed)
  end.

(** [None] is a failed [getaddrinfo] or an empty answer. *)
Definition open_socket (unresolved failed : io_error) (resolved : option (list Candidate))
    : list Z * result io_error Z :=
  match resolved with
  | None => ([], Err unresolved)
  | Some candidates =>
      let '(handle, closed) := first_usable candidates [] in
      (closed, if handle =? kInvalidHandle then Err failed else Ok handle)
  end.

Definition listen_on : option (list Candidate) -> list Z * result io_error Z :=
  open_socket (kBindFailed, "cannot resolve the listen address"%string)
    (kBindFailed, "no address could be bound"%string).

Definition connect_to : option (list Candidate) -> list Z * result io_error Z :=
  open_socket (kConnectFailed, "cannot resolve the coordinator address"%string)
    (kConnectFailed, "no address could be connected"%string).

#[global] Arguments read_exact : simpl never.

(** ** Header fields *)

(** Bytes 0..23 of a header. *)
Definition wire_prefix (type flags length request_id : Z) : bytes :=
  write_u32 kWireMagic ++ write_u16 kWireVersion ++ write_u16 type ++ write_u32 flags
  ++ write_u32 length ++ write_u64 request_id.

(** The bytes of a frame with any flags. *)
Definition wire_header (type flags length request_id : Z) : bytes :=
  let prefix := wire_prefix type flags length request_id in prefix ++ write_u32 (crc32 prefix).

Lemma wire_prefix_length type flags len req : length (wire_prefix type flags len req) = 24%nat.
Proof. unfold wire_prefix, write_u16, write_u32, write_u64. by rewrite !length_app, !write_le_length. Qed.

Lemma wire_prefix_bytes type flags len req : Forall is_byte (wire_prefix type flags len req).
Proof. unfold wire_prefix. rewrite !Forall_app. split_and!; apply write_le_bytes. Qed.

Lemma wire_header_length type flags len req : length (wire_header type flags len req) = 28%nat.
Proof.
  unfold wire_header. rewrite length_app, wire_prefix_length. unfold write_u32. by rewrite write_le_length.
Qed.

Lemma wire_header_bytes type flags len req : Forall is_byte (wire_header type flags len req).
Proof. apply Forall_app. split; [apply wire_prefix_bytes|apply write_le_bytes]. Qed.

(** The values the fields of a frame can take. *)
Definition fields_ok (type flags len req : Z) : Prop :=
  0 <= type < 2 ^ 16 /\ 0 <= flags < 2 ^ 32 /\ 0 <= len < 2 ^ 32 /\ 0 <= req < 2 ^ 64.

Lemma wire_header_fields type flags len req rest :
  fields_ok type flags len req ->
  let data := wire_header type flags len req ++ rest in
  read_u32 data = kWireMagic /\ read_u16 (drop 4 data) = kWireVersion
  /\ read_u16 (drop 6 data) = type /\ read_u32 (drop 8 data) = flags
  /\ read_u32 (drop 12 data) = len /\ read_u64 (drop 16 data) = req
  /\ read_u32 (drop 24 data) = crc32 (take 24 data) /\ drop 28 data = rest.
Proof.
  intros (Ht & Hf & Hl & Hr) data. unfold data, wire_header. rewrite <- app_assoc.
  rewrite (take_app_length' _ _ 24), (drop_app_length' _ _ 24) by (by rewrite wire_prefix_length).
  assert (read_u32 (write_u32 (crc32 (wire_prefix type flags len req)) ++ rest)
          = crc32 (wire_prefix type flags len req)) as ->.
  { apply read_write_u32, crc32_u32, wire_prefix_bytes. }
  set (tail := write_u32 (crc32 _) ++ rest).
  assert (drop 28 (wire_prefix type flags len req ++ tail) = rest) as ->.
  { rewrite drop_app_ge by (rewrite wire_prefix_length; lia). rewrite wire_prefix_length.
    unfold tail. by apply drop_app_length'. }
  unfold wire_prefix. rewrite <- !app_assoc.
  repeat split; skip_fields; (apply read_write_u32 || apply read_write_u16 || apply read_write_u64);
    (done || (unfold kWireMagic, kWireVersion; lia)).
Qed.

(** The header bytes whose fields pass the checks are those of a header. *)
Lemma wire_header_inv data :
  Forall is_byte data -> (28 <= length data)%nat ->
  read_u32 data = kWireMagic -> read_u16 (drop 4 data) = kWireVersion ->
  read_u32 (drop 24 data) = crc32 (take 24 data) ->
  data = wire_header (read_u16 (drop 6 data)) (read_u32 (drop 8 data)) (read_u32 (drop 12 data))
           (read_u64 (drop 16 data)) ++ drop 28 data.
Proof.
  intros Hb Hl F0 F4 F24.
  assert (take 24 data = wire_prefix (read_u16 (drop 6 data)) (read_u32 (drop 8 data))
            (read_u32 (drop 12 data)) (read_u64 (drop 16 data))) as Et.
  { unfold wire_prefix. rewrite <- F0, <- F4.
    assert (data = write_u32 (read_u32 data) ++ write_u16 (read_u16 (drop 4 data))
      ++ write_u16 (read_u16 (drop 6 data)) ++ write_u32 (read_u32 (drop 8 data))
      ++ write_u32 (read_u32 (drop 12 data)) ++ write_u64 (read_u64 (drop 16 data)) ++ drop 24 data) as E.
    { etransitivity; [apply (field_split 4 data); (done || lia)|f_equal].
      etransitivity; [apply (field_split_at 2 4 data); (done || lia)|f_equal].
      etransitivity; [apply (field_split_at 2 6 data); (done || lia)|f_equal].
      etransitivity; [apply (field_split_at 4 8 data); (done || lia)|f_equal].
      etransitivity; [apply (field_split_at 4 12 data); (done || lia)|f_equal].
      apply (field_split_at 8 16 data); (done || lia). }
    etransitivity; [exact (f_equal (take 24) E)|]. rewrite !app_assoc. apply take_app_length'.
    unfold write_u16, write_u32, write_u64. by rewrite !length_app, !write_le_length. }
  unfold wire_header. rewrite <- Et, <- F24, <- app_assoc.
  etransitivity; [symmetry; apply (take_drop 24)|f_equal].
  apply (field_split_at 4 24 data); (done || lia).
Qed.

Lemma read_fields_ok data :
  Forall is_byte data ->
  fields_ok (read_u16 (drop 6 data)) (read_u32 (drop 8 data)) (read_u32 (drop 12 data))
    (read_u64 (drop 16 data)).
Proof.
  intros Hb. assert (forall k, Forall is_byte (drop k data)) as Hd by (intros; by apply Forall_drop).
  unfold fields_ok. split_and!;
    first [apply (read_le_range 2 _ (Hd _))|apply (read_le_range 4 _ (Hd _))|apply (read_le_range 8 _ (Hd _))].
Qed.

(** ** The checks of a header

    What [decode_frame] and [read_frame] check in the 28 header bytes, given the text for a
    version that is not supported. *)
Definition check_header (bad_version : Z -> string) (data : bytes) : result io_error Header :=
  if negb (read_u32 data =? kWireMagic)
  then Err (kBadMagic, "frame magic does not match this protocol"%string)
  else if negb (read_u16 (drop 4 data) =? kWireVersion)
  then Err (kBadVersion, bad_version (read_u16 (drop 4 data)))
  else if negb (read_u32 (drop 24 data) =? crc32 (take 24 data))
  then Err (kFrameCrcMismatch, "frame header integrity check failed"%string)
  else if kMaxFrameBytes - Z.of_nat kHeaderBytes <? read_u32 (drop 12 data)
  then Err (kFrameTooLarge,
    String.append "frame declares " (String.append (to_string (read_u32 (drop 12 data))) " body bytes"))
  else Ok (mk_header (read_u16 (drop 4 data)) (read_u16 (drop 6 data)) (read_u32 (drop 8 data))
             (read_u32 (drop 12 data)) (read_u64 (drop 16 data))).

Definition version_named (version : Z) : string :=
  String.append "frame version " (String.append (to_string version) " is not supported").

Definition version_unnamed (_ : Z) : string := "frame version is not supported".

Lemma decode_frame_eq data :
  decode_frame data =
    if (length data <? 28)%nat then Err (kTruncatedFrame, "frame header is incomplete"%string)
    else match check_header version_named data with
         | Err e => Err e
         | Ok h =>
             if (length data <? 28 + Z.to_nat (body_length h))%nat
             then Err (kTruncatedFrame, "frame body is incomplete"%string)
             else Ok (mk_frame h (slice 28 (Z.to_nat (body_length h)) data), (28 + Z.to_nat (body_length h))%nat)
         end.
Proof.
  unfold decode_frame, check_header, kHeaderBytes. cbv zeta. cbn [body_length].
  by repeat (case_bool; [done|]).
Qed.

Lemma check_header_Ok bad data h :
  check_header bad data = Ok h ->
  read_u32 data = kWireMagic /\ read_u16 (drop 4 data) = kWireVersion
  /\ read_u32 (drop 24 data) = crc32 (take 24 data)
  /\ body_length h <= kMaxFrameBytes - 28
  /\ h = mk_header kWireVersion (read_u16 (drop 6 data)) (read_u32 (drop 8 data))
             (read_u32 (drop 12 data)) (read_u64 (drop 16 data)).
Proof.
  unfold check_header. intros E.
  destruct (negb (_ =? kWireMagic)) eqn:E1 in E; [discriminate E|].
  destruct (negb (_ =? kWireVersion)) eqn:E2 in E; [discriminate E|].
  destruct (negb (_ =? crc32 _)) eqn:E3 in E; [discriminate E|].
  destruct (_ <? _) eqn:E4 in E; [discriminate E|]. bool_hyps. rewrite Z.eqb_eq in *.
  apply Z.ltb_ge in E4. injection E as <-. rewrite E2. cbn [body_length]. split_and!; try done.
Qed.

Lemma check_header_wire bad type flags len req rest :
  fields_ok type flags len req -> len <= kMaxFrameBytes - 28 ->
  check_header bad (wire_header type flags len req ++ rest) = Ok (mk_header kWireVersion type flags len req).
Proof.
  intros Hf Hl. destruct (wire_header_fields type flags len req rest Hf)
    as (F0 & F4 & F6 & F8 & F12 & F16 & F24 & _).
  unfold check_header. rewrite F0, F4, F6, F8, F12, F16, F24, !Z.eqb_refl. cbn [negb].
  by rewrite (proj2 (Z.ltb_ge _ _)) by (unfold kHeaderBytes; lia).
Qed.

(** The checks look at the 28 header bytes only. *)
Lemma check_header_take bad data :
  (28 <= length data)%nat -> check_header bad (take 28 data) = check_header bad data.
Proof.
  intros Hl. rewrite <- (take_drop 28 data) at 2.
  assert (length (take 28 data) = 28%nat) as H28 by (rewrite length_take; lia).
  set (raw := take 28 data) in *. set (rest := drop 28 data). unfold check_header, read_u16, read_u32, read_u64.
  rewrite !drop_app_le, take_app_le by lia.
  rewrite !read_le_app by (rewrite ?length_drop; lia). done.
Qed.

(** The two readers differ in one message. *)
Lemma check_header_code bad bad' data :
  match check_header bad data, check_header bad' data with
  | Ok h, Ok h' => h = h'
  | Err e, Err e' => e.1 = e'.1 /\ e.1 <> kTruncatedFrame
  | _, _ => False
  end.
Proof. unfold check_header. by repeat (case_bool; [by split|]). Qed.

(** ** Streams *)

(** A stream: no piece is empty and the end is not a positive count. *)
Definition stream_ok (peer : Peer) : Prop :=
  Forall (fun piece => piece <> []) (arriving peer) /\ stream_end peer <= 0.

(** The bytes still to be read. *)
Definition pending (peer : Peer) : bytes := concat (arriving peer).

(** What a read past the end reports. *)
Definition end_error (peer : Peer) : io_error :=
  if stream_end peer =? 0 then (kSessionClosed, "peer closed the connection"%string)
  else (kIoFailed, "receive failed"%string).

(** One [recv] with room for [n] bytes: the end of the stream, or some of the next bytes. *)
Lemma recv_cases n peer :
  stream_ok peer -> (0 < n)%nat ->
  (arriving peer = [] /\ recv n peer = (peer, (stream_end peer, [])))
  \/ exists peer' piece, recv n peer = (peer', (zlength piece, piece))
       /\ stream_ok peer' /\ stream_end peer' = stream_end peer
       /\ (0 < length piece <= n)%nat /\ pending peer = piece ++ pending peer'.
Proof.
  intros [Hp He] Hn. unfold recv, pending. destruct peer as [[|piece rest] stop]; cbn [arriving stream_end] in *.
  { left. done. }
  right. inv Hp. destruct (length piece <=? n)%nat eqn:E.
  - apply Nat.leb_le in E. exists (mk_peer rest stop), piece. split_and!; try done.
    destruct piece; [done|]. simpl. lia.
  - apply Nat.leb_gt in E. exists (mk_peer (drop n piece :: rest) stop), (take n piece).
    assert (length (take n piece) = n) as Ht by (rewrite length_take; lia).
    unfold zlength. rewrite Ht. split_and!; try done; try lia.
    + split; [|done]. constructor; [|done]. intros F. apply (f_equal length) in F.
      rewrite length_drop in F. simpl in F. lia.
    + cbn [arriving concat]. by rewrite app_assoc, take_drop.
Qed.

Lemma read_exact_loop_spec fuel size peer buffer :
  stream_ok peer -> (length buffer <= size)%nat -> (size - length buffer <= fuel)%nat ->
  let '(peer', r) := read_exact_loop fuel size peer buffer in
  stream_ok peer' /\ stream_end peer' = stream_end peer /\
  match r with
  | Ok data => (size <= length buffer + length (pending peer))%nat
      /\ buffer ++ pending peer = data ++ pending peer' /\ length data = size
  | Err e => (length buffer + length (pending peer) < size)%nat /\ arriving peer' = [] /\ e = end_error peer
  end.
Proof.
  revert peer buffer; induction fuel as [|fuel IH]; intros peer buffer Hs Hb Hf.
  { cbn [read_exact_loop]. split_and!; try done; lia. }
  cbn [read_exact_loop]. destruct (length buffer <? size)%nat eqn:E; cycle 1.
  { apply Nat.ltb_ge in E. split_and!; try done; lia. }
  apply Nat.ltb_lt in E.
  destruct (recv_cases (size - length buffer) peer Hs) as
    [[Ha ->]|(peer' & piece & -> & Hs' & He & Hl & Hp)]; [lia| |].
  - assert (pending peer = []) as Hp by (unfold pending; by rewrite Ha). unfold end_error.
    destruct Hs as [Hs He]. destruct (stream_end peer =? 0) eqn:E0.
    + rewrite Hp. cbn [length]. split_and!; try done; lia.
    + apply Z.eqb_neq in E0. rewrite (proj2 (Z.ltb_lt _ _)) by lia. rewrite Hp. cbn [length].
      split_and!; try done; lia.
  - unfold zlength. destruct (_ =? 0) eqn:E0; [apply Z.eqb_eq in E0; lia|].
    destruct (_ <? 0) eqn:E1; [apply Z.ltb_lt in E1; lia|].
    assert (length (buffer ++ piece) = (length buffer + length piece)%nat) as Hlen by apply length_app.
    specialize (IH peer' (buffer ++ piece) Hs'). unfold end_error in *. rewrite He in IH.
    destruct (read_exact_loop fuel size peer' (buffer ++ piece)) as [peer'' r].
    destruct IH as (I1 & I2 & I3); [lia..|]. split_and!; try done.
    rewrite Hp, length_app. rewrite <- app_assoc in I3. rewrite Hlen in I3.
    destruct r as [data|e]; destruct I3 as (I3 & I4 & I5); split_and!; try done; lia.
Qed.

(** [read_exact] delivers the next [size] bytes, or the way the stream ends before. *)
Lemma read_exact_spec size peer :
  stream_ok peer ->
  let '(peer', r) := read_exact size peer in
  stream_ok peer' /\ stream_end peer' = stream_end peer /\
  match r with
  | Ok data => (size <= length (pending peer))%nat /\ data = take size (pending peer)
      /\ pending peer' = drop size (pending peer)
  | Err e => (length (pending peer) < size)%nat /\ pending peer' = [] /\ e = end_error peer
  end.
Proof.
  intros Hs. pose proof (read_exact_loop_spec size size peer [] Hs) as L. unfold read_exact.
  destruct (read_exact_loop size size peer []) as [peer' r]. cbn [length app] in L.
  destruct L as (L1 & L2 & L3); [lia..|]. split_and!; try done. destruct r as [data|e].
  - destruct L3 as (Hl & E & <-). rewrite Nat.add_0_l in Hl. split; [done|].
    by rewrite E, take_app_length, drop_app_length.
  - destruct L3 as (Hl & Ha & ->). split_and!; try done. unfold pending. by rewrite Ha.
Qed.

Lemma read_frame_eq peer :
  read_frame peer =
    let '(peer, r) := read_exact 28 peer in
    match r with
    | Err e => (peer, Err e)
    | Ok raw =>
        match check_header version_unnamed raw with
        | Err e => (peer, Err e)
        | Ok h =>
            let '(peer, r) := if 0 <? body_length h then read_exact (Z.to_nat (body_length h)) peer else (peer, Ok []) in
            match r with
            | Err e => (peer, Err e)
            | Ok body => (peer, Ok (mk_frame h body))
            end
        end
    end.
Proof.
  unfold read_frame, check_header, kHeaderBytes. destruct (read_exact 28 peer) as [peer' [raw|e]]; [|done].
  repeat (case_bool; [done|]). cbn [body_length].
  by destruct (0 <? read_u32 (drop 12 raw)).
Qed.

(** An empty body is the read of no bytes. *)
Lemma read_body_eq (peer : Peer) (n : Z) :
  (if 0 <? n then read_exact (Z.to_nat n) peer else (peer, Ok [])) = read_exact (Z.to_nat n) peer.
Proof.
  destruct (0 <? n) eqn:E; [done|]. apply Z.ltb_ge in E. by replace (Z.to_nat n) with 0%nat by lia.
Qed.

(** ** Encoding and decoding *)
Lemma encode_frame_eq type req body out :
  zlength body <= kMaxFrameBytes - 28 ->
  encode_frame type req body out = Ok (out ++ wire_header type 0 (zlength body) req ++ body).
Proof.
  intros Hl. unfold encode_frame. by rewrite (proj2 (Z.ltb_ge _ _)) by (unfold kHeaderBytes; lia).
Qed.

Lemma body_fields_ok type flags req (body : bytes) :
  0 <= type < 2 ^ 16 -> 0 <= flags < 2 ^ 32 -> 0 <= req < 2 ^ 64 -> zlength body <= kMaxFrameBytes - 28 ->
  fields_ok type flags (zlength body) req.
Proof. unfold fields_ok, zlength, kMaxFrameBytes. lia. Qed.

Lemma decode_wire type flags req body rest :
  fields_ok type flags (zlength body) req -> zlength body <= kMaxFrameBytes - 28 ->
  decode_frame (wire_header type flags (zlength body) req ++ body ++ rest)
  = Ok (mk_frame (mk_header kWireVersion type flags (zlength body) req) body, (28 + length body)%nat).
Proof.
  intros Hf Hl. rewrite decode_frame_eq, check_header_wire by done. cbn [body_length].
  pose proof (wire_header_length type flags (zlength body) req) as H28.
  assert (Z.to_nat (zlength body) = length body) as -> by apply Nat2Z.id.
  rewrite !(proj2 (Nat.ltb_ge _ _)) by (rewrite !length_app; lia).
  unfold slice. rewrite drop_app_length' by done. by rewrite take_app_length.
Qed.

Lemma decode_wire_torn type flags req body n :
  fields_ok type flags (zlength body) req -> zlength body <= kMaxFrameBytes - 28 ->
  (n < 28 + length body)%nat ->
  exists text, decode_frame (take n (wire_header type flags (zlength body) req ++ body))
    = Err (kTruncatedFrame, text).
Proof.
  intros Hf Hl Hn. pose proof (wire_header_length type flags (zlength body) req) as H28.
  rewrite decode_frame_eq. destruct (_ <? 28)%nat eqn:E; [by eexists|].
  apply Nat.ltb_ge in E. rewrite length_take, length_app in E.
  rewrite take_app_ge, H28, check_header_wire by (done || lia). cbn [body_length].
  rewrite (proj2 (Nat.ltb_lt _ _)); [by eexists|].
  rewrite length_app, H28, length_take. unfold zlength. lia.
Qed.

Lemma decode_frame_inv data f consumed :
  Forall is_byte data -> decode_frame data = Ok (f, consumed) ->
  exists type flags req,
    fields_ok type flags (zlength (body f)) req /\ zlength (body f) <= kMaxFrameBytes - 28
    /\ header f = mk_header kWireVersion type flags (zlength (body f)) req
    /\ data = wire_header type flags (zlength (body f)) req ++ body f ++ drop consumed data
    /\ consumed = (28 + length (body f))%nat.
Proof.
  intros Hb. rewrite decode_frame_eq. destruct (_ <? 28)%nat eqn:E1; [done|]. apply Nat.ltb_ge in E1.
  destruct (check_header version_named data) as [h|] eqn:Ec; [|done].
  destruct (_ <? _)%nat eqn:E2; [done|]. apply Nat.ltb_ge in E2. intros [= <- <-]. cbn [body header].
  apply check_header_Ok in Ec as (F0 & F4 & F24 & Hl & Hh).
  pose proof (read_fields_ok data Hb) as Hf. set (n := Z.to_nat (body_length h)) in *.
  assert (length (slice 28 n data) = n) as Hn by (apply slice_length; lia).
  assert (zlength (slice 28 n data) = body_length h) as Hz.
  { unfold zlength. rewrite Hn. unfold n. rewrite Hh. cbn [body_length]. apply Z2Nat.id, Hf. }
  exists (read_u16 (drop 6 data)), (read_u32 (drop 8 data)), (read_u64 (drop 16 data)).
  rewrite Hz, Hn. split_and!; try done; try (rewrite Hh; apply Hf).
  - by rewrite Hh.
  - etransitivity; [by apply wire_header_inv|]. rewrite Hh at 1. cbn [body_length]. f_equal.
    apply (slice_split n 28 data).
Qed.

(** ** Properties *)

(** The frame codec of the wire is exact.  [encode_frame] refuses a body above the
    bound and otherwise appends a frame that decodes, whatever bytes follow it, to the type,
    request identifier and body it was built from, consuming exactly the frame; every proper
    prefix of it is a truncated frame.  Conversely an accepted frame without flags is byte
    for byte what [encode_frame] writes for the decoded fields, so a message has one
    encoding. *)
Theorem wire_frame_exact (type request_id : Z) (data out post : bytes) :
  0 <= type < 2 ^ 16 -> 0 <= request_id < 2 ^ 64 -> Forall is_byte data ->
  match encode_frame type request_id data out with
  | Err e => e.1 = kBodyTooLarge /\ kMaxFrameBytes - 28 < zlength data
  | Ok sent => exists f, sent = out ++ f /\ zlength data <= kMaxFrameBytes - 28
      /\ decode_frame (f ++ post)
         = Ok (mk_frame (mk_header kWireVersion type 0 (zlength data) request_id) data, length f)
      /\ forall n, (n < length f)%nat -> exists text, decode_frame (take n f) = Err (kTruncatedFrame, text)
  end
  /\ forall f consumed, decode_frame data = Ok (f, consumed) ->
       (consumed <= length data)%nat /\ length (body f) = (consumed - 28)%nat
       /\ (flags (header f) = 0 ->
           encode_frame (h_type (header f)) (Wire.request_id (header f)) (body f) []
           = Ok (take consumed data)).
Proof.
  intros Ht Hr Hb. split.
  - destruct (decide (zlength data <= kMaxFrameBytes - 28)) as [Hl|Hl]; cycle 1.
    { unfold encode_frame. rewrite (proj2 (Z.ltb_lt _ _)) by (unfold kHeaderBytes; lia). split; [done|lia]. }
    assert (fields_ok type 0 (zlength data) request_id) as Hf by (apply body_fields_ok; lia).
    rewrite encode_frame_eq by done. eexists. split; [done|]. split; [done|].
    rewrite <- app_assoc, decode_wire by done. rewrite length_app, wire_header_length.
    split; [done|]. intros n. by apply decode_wire_torn.
  - intros f consumed E. destruct (decode_frame_inv _ _ _ Hb E) as (t & fl & r & Hf & Hl & Hh & Hd & ->).
    assert (28 + length (body f) <= length data)%nat as Hlen.
    { rewrite Hd, !length_app, wire_header_length. lia. }
    rewrite Hh. cbn [flags h_type Wire.request_id]. split; [done|]. split; [lia|]. intros ->.
    rewrite encode_frame_eq by done. cbn [app]. f_equal.
    rewrite Hd, app_assoc at 1. symmetry. apply take_app_length'. rewrite length_app, wire_header_length. lia.
Qed.

(** Reading from a socket is decoding the stream.  However the bytes of the peer are
    split over [recv] calls, [read_frame] returns the frame [decode_frame] finds at their
    front and leaves exactly the bytes after it; where the header is refused it reports the
    same code after taking the 28 header bytes and nothing of the body, so a declared length
    above the bound never causes a read; and where the stream ends too early it reports how
    it ended. *)
Lemma read_frame_exact (peer : Peer) :
  stream_ok peer ->
  let '(peer', r) := read_frame peer in
  match r with
  | Ok f => exists consumed, decode_frame (pending peer) = Ok (f, consumed)
      /\ pending peer' = drop consumed (pending peer)
  | Err e => exists e', decode_frame (pending peer) = Err e' /\
      if decide (e'.1 = kTruncatedFrame) then e = end_error peer /\ pending peer' = []
      else e.1 = e'.1 /\ pending peer' = drop 28 (pending peer)
  end.
Proof.
  intros Hs. rewrite read_frame_eq, decode_frame_eq.
  pose proof (read_exact_spec 28 peer Hs) as R. destruct (read_exact 28 peer) as [p1 [raw|e]].
  2:{ destruct R as (_ & _ & Hl & Hp & ->). rewrite (proj2 (Nat.ltb_lt _ _)) by done.
      eexists. split; [done|]. by rewrite decide_True. }
  destruct R as (Hs1 & He1 & Hl & -> & Hp). rewrite (proj2 (Nat.ltb_ge _ _)) by done.
  rewrite check_header_take by done.
  pose proof (check_header_code version_unnamed version_named (pending peer)) as C.
  destruct (check_header version_unnamed (pending peer)) as [h|e],
    (check_header version_named (pending peer)) as [h'|e'] eqn:Ec; try done.
  2:{ eexists. split; [done|]. destruct C as [C1 C2]. rewrite <- C1. by rewrite decide_False. }
  subst h'. apply check_header_Ok in Ec as (_ & _ & _ & Hb & _).
  rewrite read_body_eq. set (n := Z.to_nat (body_length h)).
  pose proof (read_exact_spec n p1 Hs1) as R. destruct (read_exact n p1) as [p2 [body|e]].
  - destruct R as (_ & _ & Hl2 & -> & Hp2). rewrite Hp, length_drop in Hl2.
    rewrite (proj2 (Nat.ltb_ge _ _)) by lia. eexists. split; [by rewrite Hp|].
    by rewrite Hp2, Hp, drop_drop.
  - destruct R as (_ & _ & Hl2 & Hp2 & ->). rewrite Hp, length_drop in Hl2.
    rewrite (proj2 (Nat.ltb_lt _ _)) by lia. eexists. split; [done|].
    rewrite decide_True by done. split; [|done]. unfold end_error. by rewrite He1.
Qed.

(** One damaged header byte is never delivered.  A frame in which any one byte of the
    28 header bytes was changed is refused, whether it is decoded from a buffer or read from
    a socket, and whatever bytes follow it. *)
Theorem wire_header_tamper (type request_id : Z) (data out post : bytes) (i : nat) (x y : Z) :
  encode_frame type request_id data [] = Ok out ->
  (i < 28)%nat -> out !! i = Some x -> is_byte y -> x <> y ->
  is_ok (decode_frame (<[i:=y]> out ++ post)) = false
  /\ forall peer, stream_ok peer -> pending peer = <[i:=y]> out ++ post ->
       is_ok (read_frame peer).2 = false.
Proof.
  intros E Hi Hx Hy Hne.
  assert (zlength data <= kMaxFrameBytes - 28) as Hl.
  { unfold encode_frame in E. destruct (_ <? _) eqn:El in E; [done|]. apply Z.ltb_ge in El.
    unfold kHeaderBytes in El. lia. }
  rewrite encode_frame_eq, app_nil_l in E by done.
  assert (out = wire_header type 0 (zlength data) request_id ++ data) as -> by congruence. clear E.
  set (h := wire_header type 0 (zlength data) request_id) in *.
  pose proof (wire_header_length type 0 (zlength data) request_id) as H28. fold h in H28.
  rewrite lookup_app_l in Hx by lia. rewrite insert_app_l, <- app_assoc by lia.
  assert (forall bad, is_ok (check_header bad (<[i:=y]> h ++ data ++ post)) = false) as Hc.
  { intros bad. destruct (check_header bad _) as [hd|] eqn:Ec; [exfalso|done].
    apply check_header_Ok in Ec as (_ & _ & F & _). revert F. unfold h.
    apply crc_field_change with (x := x); first [done|apply wire_prefix_bytes|apply wire_prefix_length]. }
  split.
  - rewrite decode_frame_eq. case_bool; [done|]. specialize (Hc version_named). by destruct (check_header _ _).
  - intros peer Hs Hp. rewrite read_frame_eq. pose proof (read_exact_spec 28 peer Hs) as R.
    destruct (read_exact 28 peer) as [p1 [raw|e]]; [|done]. destruct R as (_ & _ & Hl2 & -> & _).
    rewrite check_header_take, Hp by done. specialize (Hc version_unnamed). by destruct (check_header _ _).
Qed.

(** The loop over the addresses closes every socket it does not return. *)
Theorem first_usable_owns (candidates : list Candidate) :
  Forall (fun c => descriptor c < kInvalidHandle) candidates ->
  let '(handle, closed) := first_usable candidates [] in
  exists tried rest, candidates = tried ++ rest
    /\ filter (fun d => 0 <= d) (map descriptor tried)
       = closed ++ (if handle =? kInvalidHandle then [] else [handle])
    /\ (handle = kInvalidHandle -> rest = []).
Proof.
  intros Hc. assert (forall acc, let '(handle, closed) := first_usable candidates acc in
    exists tried rest, candidates = tried ++ rest
      /\ acc ++ filter (fun d => 0 <= d) (map descriptor tried)
         = closed ++ (if handle =? kInvalidHandle then [] else [handle])
      /\ (handle = kInvalidHandle -> rest = [])) as L; [|exact (L [])].
  induction Hc as [|c l Hd Hc IH]; intros acc; cbn [first_usable].
  { exists [], []. by rewrite Z.eqb_refl. }
  destruct (descriptor c <? 0) eqn:E1; [|destruct (negb (usable c))].
  - specialize (IH acc). destruct (first_usable l acc) as [h closed].
    destruct IH as (tried & rest & -> & E & Hr). exists (c :: tried), rest. apply Z.ltb_lt in E1.
    cbn [map]. rewrite filter_cons_False by lia. done.
  - specialize (IH (acc ++ [descriptor c])). destruct (first_usable l _) as [h closed].
    destruct IH as (tried & rest & -> & E & Hr). exists (c :: tried), rest. apply Z.ltb_ge in E1.
    cbn [map]. rewrite filter_cons_True by lia. rewrite <- app_assoc in E. done.
  - exists [c], l. apply Z.ltb_ge in E1. cbn [map]. rewrite filter_cons_True by lia.
    destruct (descriptor c =? kInvalidHandle) eqn:E2; [apply Z.eqb_eq in E2; lia|].
    split_and!; try done. intros E. apply Z.eqb_neq in E2. congruence.
Qed.

(** ** Witnesses *)
Lemma hello_bytes : Forall is_byte [123; 125].
Proof. repeat constructor; unfold is_byte; lia. Qed.

Lemma wire_frame_exact_witness :
  exists f, encode_frame kHello 7 [123; 125] [] = Ok f
    /\ decode_frame (f ++ [1]) = Ok (mk_frame (mk_header 1 kHello 0 2 7) [123; 125], 30%nat).
Proof.
  assert (exists f, encode_frame kHello 7 [123; 125] [] = Ok f) as [f E] by (eexists; reflexivity).
  exists f. split; [exact E|].
  assert (0 <= kHello < 2 ^ 16) as Ht by (unfold kHello; lia). assert (0 <= 7 < 2 ^ 64) as Hr by lia.
  pose proof (proj1 (wire_frame_exact kHello 7 [123; 125] [] [1] Ht Hr hello_bytes)) as W.
  destruct W as (g & Eg & _ & D & _).
  assert (f = g) as ->.
  { assert (@Ok io_error bytes f = Ok g) as F by (rewrite <- E; exact (f_equal Ok Eg)). congruence. }
  assert (length g = 30%nat) as Hg.
  { rewrite encode_frame_eq in E by (unfold zlength, kMaxFrameBytes; simpl; lia).
    injection E as <-. reflexivity. }
  by rewrite D, Hg.
Defined.

(** A frame that arrives in two pieces, with the next byte of the stream already there. *)
Definition sample_peer : Peer :=
  let f := wire_header kHello 0 2 7 ++ [123; 125] in mk_peer [take 11 f; drop 11 f ++ [1]] 0.

Lemma sample_peer_ok : stream_ok sample_peer.
Proof.
  split; [|done]. unfold sample_peer. cbv zeta. cbn [arriving].
  repeat (constructor; [by vm_compute|]). constructor.
Qed.

Lemma read_frame_exact_witness :
  stream_ok sample_peer
  /\ match (read_frame sample_peer).2 with
     | Ok f => exists n, decode_frame (pending sample_peer) = Ok (f, n)
         /\ pending (read_frame sample_peer).1 = drop n (pending sample_peer)
     | Err _ => False
     end.
Proof.
  split; [exact sample_peer_ok|].
  pose proof (read_frame_exact sample_peer sample_peer_ok) as R.
  destruct (read_frame sample_peer) as [p [f|e]] eqn:E; cbn [fst snd].
  - exact R.
  - vm_compute in E. discriminate E.
Defined.

Lemma wire_header_tamper_witness :
  exists f, encode_frame kHello 7 [] [] = Ok f /\ is_ok (decode_frame (<[12%nat:=1]> f ++ [9])) = false.
Proof.
  eexists. split; [reflexivity|].
  refine (proj1 (wire_header_tamper kHello 7 [] _ [9] 12 0 1 eq_refl _ _ _ _)); [lia|reflexivity|unfold is_byte; lia|lia].
Defined.
