(* ===== verification/Sockets.v ===== *)
(** * Sockets and their handles

    Models what [src/src/wire.cpp] does around the system calls: the [Socket] class, which owns
    a handle of the operating system, [bound_port], [set_non_blocking] and the start of the
    transport.  Handles are numbers the system may reuse once they are closed; the model keeps
    the handles that are open, and [misclosed] records a close of one that is not. *)
From Stdlib Require Import ZArith Lia Ascii String.
From stdpp Require Import base numbers option list strings sets gmap relations.
From S2P Require Import Prelude Errors State Wire.

(** ** The class *)

(** The handles of the [Socket] objects, and those of the operating system. *)
Record Handles := mk_handles { objects : list Z; open_handles : gset Z; misclosed : bool }.

Definition valid (handle : Z) : bool := negb (handle =? kInvalidHandle).

(** [Socket(handle)]: a new object, with the handle of a call that succeeded. *)
Definition construct (handle : Z) (S : Handles) : Handles :=
  mk_handles (objects S ++ [handle]) ({[ handle ]} ∪ open_handles S) (misclosed S).

(** [close], which is also the destructor. *)
Definition close (i : nat) (S : Handles) : Handles :=
  match objects S !! i with
  | Some handle =>
      if handle =? kInvalidHandle then S
      else mk_handles (<[i := kInvalidHandle]> (objects S)) (open_handles S ∖ {[ handle ]})
             (misclosed S || negb (bool_decide (handle ∈ open_handles S)))
  | None => S
  end.

(** [Socket(Socket&& other)]: a new object takes the handle of object [j]. *)
Definition move_construct (j : nat) (S : Handles) : Handles :=
  match objects S !! j with
  | Some handle => mk_handles (<[j := kInvalidHandle]> (objects S) ++ [handle]) (open_handles S) (misclosed S)
  | None => S
  end.

(** [operator=(Socket&& other)]: object [i] closes what it holds and takes the handle of [j]. *)
Definition move_assign (i j : nat) (S : Handles) : Handles :=
  if (i =? j)%nat then S
  else
    let S := close i S in
    match objects S !! i, objects S !! j with
    | Some _, Some handle =>
        mk_handles (<[j := kInvalidHandle]> (<[i := handle]> (objects S))) (open_handles S) (misclosed S)
    | _, _ => S
    end.

(** The system never gives a handle that is open. *)
Inductive handle_step (S : Handles) : Handles -> Prop :=
| step_construct handle : handle ∉ open_handles S -> handle <> kInvalidHandle -> handle_step S (construct handle S)
| step_close i : handle_step S (close i S)
| step_move_construct j : handle_step S (move_construct j S)
| step_move_assign i j : handle_step S (move_assign i j S).

(** ** Calls around the system *)

(** [getsockname] fills a port in network order. *)
Definition ntohs (port : Z) : Z := Z.lor (Z.shiftl (Z.land port 255) 8) (Z.shiftr port 8).

Definition bound_port (listener : Z) (name : option Z) : Z :=
  if negb (valid listener) then 0
  else match name with None => 0 | Some port => ntohs port end.

(** [set_non_blocking] through [fcntl]: the flags read, and the flags written. *)
Definition set_non_blocking (O_NONBLOCK : Z) (flags : Z) (enabled : bool) (set_flags : Z -> bool) : result io_error Z :=
  if flags <? 0 then Err (kIoFailed, "cannot read the socket flags"%string)
  else
    let updated := if enabled then Z.lor flags O_NONBLOCK else Z.land flags (Z.lnot O_NONBLOCK) in
    if negb (set_flags updated) then Err (kIoFailed, "cannot change the socket blocking mode"%string) else Ok updated.

(** [start_transport] on Windows: the two static flags. *)
Record Transport := mk_transport { transport_started : bool; transport_ok : bool }.

Definition start_transport (startup : bool) (t : Transport) : Transport * result io_error unit :=
  let t := if transport_started t then t else mk_transport true startup in
  (t, if negb (transport_ok t) then Err (kListenFailed, "Winsock could not be initialised"%string) else Ok tt).

(** ** Ownership *)
Definition owned (S : Handles) : list Z := List.filter valid (objects S).

(** Every open handle has exactly one owner, and none was closed twice. *)
Record owners_ok (S : Handles) : Prop := {
  ow_unique : forall i j h, objects S !! i = Some h -> objects S !! j = Some h -> h <> kInvalidHandle -> i = j;
  ow_open : forall h, h ∈ open_handles S <-> h <> kInvalidHandle /\ h ∈ objects S;
  ow_closed : misclosed S = false
}.

Lemma close_ok i S : owners_ok S -> owners_ok (close i S).
Proof.
  intros [Hu Ho Hc]. unfold close. destruct (objects S !! i) as [handle|] eqn:Ei; [|done].
  destruct (Z.eqb_spec handle kInvalidHandle) as [|Hne]; [done|].
  assert (handle ∈ open_handles S) as Hin by (apply Ho; split; [done|by eapply list_elem_of_lookup_2]).
  split; cbn [objects open_handles misclosed].
  - intros a b h Ha Hb Hh. apply list_lookup_insert_Some in Ha as [(_ & <- & _)|[_ Ha]]; [done|].
    apply list_lookup_insert_Some in Hb as [(_ & <- & _)|[_ Hb]]; [done|]. by eapply Hu.
  - intros h. rewrite elem_of_difference, elem_of_singleton, Ho, !list_elem_of_lookup. split.
    + intros [[Hh [a Ha]] Hn]. split; [done|]. exists a. rewrite list_lookup_insert_ne; [done|]. intros <-. congruence.
    + intros [Hh [a Ha]]. apply list_lookup_insert_Some in Ha as [(_ & <- & _)|[Hai Ha]]; [done|].
      split; [split; [done|by exists a]|]. intros ->. apply Hai. by eapply Hu.
  - by rewrite Hc, bool_decide_true.
Qed.

(** Moving a handle from [j] to a place that holds none. *)
Lemma move_ok S l j handle :
  owners_ok S -> objects S !! j = Some handle ->
  (forall h, h <> kInvalidHandle -> h ∈ l <-> h ∈ objects S) ->
  (forall a b h, l !! a = Some h -> l !! b = Some h -> h <> kInvalidHandle -> a = b) ->
  owners_ok (mk_handles l (open_handles S) (misclosed S)).
Proof.
  intros [Hu Ho Hc] Hj Hl Hd. split; cbn [objects open_handles misclosed]; [done| |done].
  intros h. rewrite Ho. split; intros [Hh Hin]; (split; [done|]); by apply Hl.
Qed.

Lemma move_construct_ok j S : owners_ok S -> owners_ok (move_construct j S).
Proof.
  intros Hok. unfold move_construct. destruct (objects S !! j) as [handle|] eqn:Ej; [|done].
  pose proof (lookup_lt_Some _ _ _ Ej) as Hlt. pose proof Hok as [Hu _ _].
  assert (forall a h, (<[j := kInvalidHandle]> (objects S) ++ [handle]) !! a = Some h -> h <> kInvalidHandle ->
    objects S !! (if decide (a = length (objects S)) then j else a) = Some h /\ (a <> length (objects S) -> a <> j)) as Hback.
  { intros a h Ha Hh. destruct (decide (a = length (objects S))) as [->|Hn].
    - rewrite lookup_app_r in Ha by (rewrite length_insert; lia). rewrite length_insert, Nat.sub_diag in Ha.
      injection Ha as <-. done.
    - apply lookup_app_Some in Ha as [Ha|[Hge Ha]].
      + apply list_lookup_insert_Some in Ha as [(_ & <- & _)|[Hne Ha]]; [done|]. by split; [|intros _ ->].
      + rewrite length_insert in *. apply lookup_lt_Some in Ha. simpl in Ha. lia. }
  apply (move_ok S _ j handle Hok Ej).
  - intros h Hh. rewrite !list_elem_of_lookup. split.
    + intros [a Ha]. destruct (Hback a h Ha Hh) as [Hb _]. by eexists.
    + intros [a Ha]. destruct (decide (a = j)) as [->|Hne].
      * exists (length (objects S)). rewrite lookup_app_r by (rewrite length_insert; lia).
        rewrite length_insert, Nat.sub_diag. cbn. congruence.
      * exists a. rewrite lookup_app_l by (rewrite length_insert; by eapply lookup_lt_Some). by rewrite list_lookup_insert_ne.
  - intros a b h Ha Hb Hh. destruct (Hback a h Ha Hh) as [Ha' Na], (Hback b h Hb Hh) as [Hb' Nb].
    pose proof (Hu _ _ _ Ha' Hb' Hh) as E. repeat case_decide; try congruence; naive_solver.
Qed.

Lemma move_assign_ok i j S : owners_ok S -> owners_ok (move_assign i j S).
Proof.
  intros H0. unfold move_assign. destruct (Nat.eqb_spec i j) as [|Hij]; [done|].
  assert (owners_ok (close i S) /\ forall h, objects (close i S) !! i = Some h -> h = kInvalidHandle) as [Hok Hi].
  { split; [by apply close_ok|]. intros h. unfold close. destruct (objects S !! i) as [x|] eqn:Ei; [|congruence].
    destruct (Z.eqb_spec x kInvalidHandle); [congruence|]. cbn [objects].
    rewrite list_lookup_insert_eq by (by eapply lookup_lt_Some). congruence. }
  clear H0. cbv zeta. set (S1 := close i S) in *. clearbody S1. clear S. destruct (objects S1 !! i) as [old|] eqn:Ei; [|done].
  destruct (objects S1 !! j) as [handle|] eqn:Ej; [|done]. pose proof (Hi old eq_refl) as ->.
  pose proof (lookup_lt_Some _ _ _ Ei) as Hli. pose proof (lookup_lt_Some _ _ _ Ej) as Hlj. pose proof Hok as [Hu _ _].
  assert (forall a h, <[j := kInvalidHandle]> (<[i := handle]> (objects S1)) !! a = Some h -> h <> kInvalidHandle ->
    a <> j /\ objects S1 !! (if decide (a = i) then j else a) = Some h) as Hback.
  { intros a h Ha Hh. apply list_lookup_insert_Some in Ha as [(_ & <- & _)|[Hne Ha]]; [done|]. split; [done|].
    apply list_lookup_insert_Some in Ha as [(<- & <- & _)|[Hnei Ha]]; [by rewrite decide_True|by rewrite decide_False]. }
  apply (move_ok S1 _ j handle Hok Ej).
  - intros h Hh. rewrite !list_elem_of_lookup. split.
    + intros [a Ha]. destruct (Hback a h Ha Hh) as [_ Hb]. by eexists.
    + intros [a Ha]. destruct (decide (a = j)) as [->|Hne].
      * exists i. rewrite list_lookup_insert_ne by done. rewrite list_lookup_insert_eq by done. congruence.
      * exists a. rewrite list_lookup_insert_ne by done. rewrite list_lookup_insert_ne; [done|]. intros <-. congruence.
  - intros a b h Ha Hb Hh. destruct (Hback a h Ha Hh) as [Na Ha'], (Hback b h Hb Hh) as [Nb Hb'].
    pose proof (Hu _ _ _ Ha' Hb' Hh) as E. repeat case_decide; congruence.
Qed.

(** A process that keeps its sockets in objects closes every handle at most once, loses none,
    and never has two objects that would close the same one, whatever it constructs, moves
    and closes and in whatever order. *)
Theorem handles_owned S : rtc handle_step (mk_handles [] ∅ false) S -> owners_ok S.
Proof.
  assert (owners_ok (mk_handles [] ∅ false)) as H0 by (split; [done| |done]; intros h; cbn; set_solver).
  intros Hr. revert H0. induction Hr as [|S1 S2 S3 Hs _ IH]; [done|]. intros H1. apply IH. clear IH.
  destruct Hs as [handle Hf Hn|i|j|i j]; [|by apply close_ok|by apply move_construct_ok|by apply move_assign_ok].
  destruct H1 as [Hu Ho Hc]. split; cbn [construct objects open_handles misclosed]; [| |done].
  - assert (forall a, objects S1 !! a <> Some handle) as Hfresh.
    { intros a Ha. apply Hf, Ho. split; [done|]. by eapply list_elem_of_lookup_2. }
    intros a b h Ha Hb Hh. apply lookup_app_Some in Ha as [Ha|[Hla Ha]], Hb as [Hb|[Hlb Hb]].
    + by eapply Hu.
    + apply list_lookup_singleton_Some in Hb as [_ <-]. by destruct (Hfresh a).
    + apply list_lookup_singleton_Some in Ha as [_ <-]. by destruct (Hfresh b).
    + apply list_lookup_singleton_Some in Ha as [? _], Hb as [? _]. lia.
  - intros h. rewrite elem_of_union, elem_of_singleton, Ho, elem_of_app, list_elem_of_singleton. naive_solver.
Qed.

(** What [set_non_blocking] writes differs from what it read in the one flag only. *)
Lemma set_non_blocking_flag flag flags enabled set_flags updated i :
  0 <= flag -> 0 <= i -> set_non_blocking (2 ^ flag) flags enabled set_flags = Ok updated ->
  Z.testbit updated i = if i =? flag then enabled else Z.testbit flags i.
Proof.
  intros Hf Hi. unfold set_non_blocking. destruct (flags <? 0); [done|]. destruct (negb _); [done|]. intros [= <-].
  destruct enabled; rewrite ?Z.lor_spec, ?Z.land_spec, ?Z.lnot_spec, Z.pow2_bits_eqb by done;
    destruct (Z.eqb_spec i flag), (Z.eqb_spec flag i); try lia; simpl; by rewrite ?orb_true_r, ?orb_false_r, ?andb_false_r, ?andb_true_r.
Qed.
