(* ===== verification/Wncctl.v ===== *)
(** * The command line tool

    Models [src/tools/wncctl_main.cpp].  A command is a function of the arguments, of the
    files it may open and, for the two client commands, of what the network does; its
    value is a [Run]: the exit code and the bytes written to the two output streams.
    [printf] of a C string stops at the first NUL byte ([c_str]); [%g] is computed with
    exact integers ([format_g]).  [std::filesystem::path::filename] is the POSIX one. *)
From Stdlib Require Import ZArith Lia Floats.SpecFloat Ascii String Sorted.
From stdpp Require Import base numbers option list strings pretty.
From S2P Require Import Prelude Console Doubles Identity Errors Hash Json JsonParser Rounding RealText JsonText Signature State Wire Contract ContractValidate ContractDecode ContractText Policy Composition Evaluation.

(** The bytes [%s] prints. *)
Fixpoint c_str (s : string) : string :=
  match s with
  | EmptyString => EmptyString
  | String c s' => if byte_of_ascii c =? 0 then EmptyString else String c (c_str s')
  end.

(** [%g]: six significant digits, to nearest, ties to even; trailing zeros removed. *)
Definition g_digits (num den : Z) : Z * Z :=
  let k := decimal_exponent num den in
  let x := k - 5 in
  let digits := if 0 <=? x then round_half_even num (den * 10 ^ x) else round_half_even (num * 10 ^ (- x)) den in
  if digits =? 10 ^ 6 then (10 ^ 5, x + 1) else (digits, x).

Definition fixed_digits (digits exponent : Z) : string :=
  let text := to_string digits in
  let len := Z.of_nat (String.length text) in
  if 0 <=? exponent then text ++ zeros (Z.to_nat exponent)
  else if len + exponent <=? 0 then "0." ++ zeros (Z.to_nat (- (len + exponent))) ++ text
  else substring 0 (Z.to_nat (len + exponent)) text ++ "."
       ++ substring (Z.to_nat (len + exponent)) (Z.to_nat (- exponent)) text.

Definition format_g (d : double) : string :=
  match d with
  | S754_zero s => (if s then "-" else EmptyString) ++ "0"
  | S754_infinity s => (if s then "-" else EmptyString) ++ "inf"
  | S754_nan => "nan"
  | S754_finite s m e =>
      let '(num, den) := scaled (Zpos m) e in
      let '(digits, x) := g_digits num den in
      let '(shown, exponent) := strip_zeros 6 digits x in
      (if s then "-" else EmptyString)
      ++ (if (-4 <=? x + 5) && (x + 5 <? 6) then fixed_digits shown exponent
          else scientific_notation shown exponent)
  end.

Definition usage_text : string := "usage: wncctl <command> [options]

  seal     --body <file>          complete a body and print the contract
  validate --contract <file> | --body <file> | --policy <file> | --evidence <file>
  digest   --contract <file>
  explain  --contract <file> [--evidence <file>]
  diff     --before <file> --after <file>
  compose  --base <file> --layer <file> [--layer <file> ...]
  status   --host <host> --port <port>
  evaluate --host <host> --port <port> --workload <id>

Every command prints deterministic text on stdout and a refusal
reason on stderr. Nothing is written outside the paths named.
".

Definition usage : Run := err usage_text (finish 2).

(** ** Arguments

    [for (int i = 1; i + 1 < argc; ++i)]: an argument is compared with the name only when
    another one follows it. *)
Fixpoint option_in (args : list string) (name : string) : option string :=
  match args with
  | a :: ((b :: _) as rest) => if String.eqb name a then Some b else option_in rest name
  | _ => None
  end.

Fixpoint all_options_in (args : list string) (name : string) : list string :=
  match args with
  | a :: ((b :: _) as rest) => ((if String.eqb name a then [b] else []) ++ all_options_in rest name)%list
  | _ => []
  end.

Definition option_ (argv : list string) (name : string) : option string := option_in (tail argv) name.
Definition all_options (argv : list string) (name : string) : list string := all_options_in (tail argv) name.

(** ** Diagnostics *)
Definition diagnostic_lines (log : DiagnosticLog) : list string :=
  (map (fun d => line ("  " ++ c_str (render d))) (entries log)
   ++ (if truncated log then [line "  (further reasons omitted at the diagnostic bound)"] else []))%list.

Definition print_diagnostics (log : DiagnosticLog) (r : Run) : Run := errs (diagnostic_lines log) r.

(** [what refused: token: message], with exit code 1. *)
Definition refused_as (what : string) (e : Code * string) : Run :=
  err (line (what ++ ": " ++ code_token e.1 ++ ": " ++ c_str e.2)) (finish 1).

Definition zero_digest_text : string := char_string (Z.to_nat kSha256HexChars) "0".

Section Commands.
Context `{Hashing}.

(** What [std::ifstream] reads from a path: [None] when the file cannot be opened. *)
Context (files : string -> option string).

Definition read_text_file (path : string) (k : string -> Run) : Run :=
  match files path with
  | None => err (line ("cannot open " ++ path)) (finish 2)
  | Some text => k text
  end.

(** ** seal and validate *)
Definition not_json (path : string) (e : JsonError) : Run :=
  err (line (path ++ " is not valid JSON: " ++ c_str (err_message e))) (finish 1).

(** A document without a body is the body. *)
Definition seal_envelope (document : Json) : Json :=
  match find document "body" with
  | Some _ => document
  | None => set (set JNull "body" document) "digest" (JString zero_digest_text)
  end.

Definition command_seal (path : string) : Run :=
  read_text_file path (fun text =>
    match json_decode text default_options with
    | Err e => not_json path e
    | Ok document =>
        match contract_from_json (seal_envelope document) with
        | Err e => refused_as "body refused" e
        | Ok decoded =>
            let contract := canonicalize decoded in
            let validation := validate_contract contract in
            if negb (validation_ok validation)
            then err (line "body is not a valid contract:") (print_diagnostics (diagnostics validation) (finish 1))
            else
              out (line (c_str (dump (contract_to_json contract))))
                (errs [line ("workload=" ++ view (wl_id (workload (body contract))));
                       line ("contract=" ++ view (contract_id (body contract)));
                       line ("digest=" ++ hex_encode (digest contract));
                       line ("requirements=" ++ to_string (zlength (requirements (body contract))))] (finish 0))
        end
    end).

Definition validate_body_file (path : string) : Run :=
  read_text_file path (fun text =>
    match json_decode text default_options with
    | Err e => not_json path e
    | Ok document =>
        let envelope := set (set JNull "body" (default document (find document "body")))
                          "digest" (JString zero_digest_text) in
        match contract_from_json envelope with
        | Err e => refused_as "body refused" e
        | Ok decoded =>
            let contract := canonicalize decoded in
            let validation := validate_contract contract in
            if negb (validation_ok validation)
            then err (line "body is not a valid contract:") (print_diagnostics (diagnostics validation) (finish 1))
            else
              outs [line "body valid"; line ("digest=" ++ hex_encode (digest contract));
                    line ("contract=" ++ view (contract_id (body contract)))] (finish 0)
        end
    end).

(** A contract file, read and decoded; a refusal is reported as [what]. *)
Definition with_contract (what path : string) (k : Contract -> Run) : Run :=
  read_text_file path (fun text =>
    match contract_from_text text default_options with
    | Err e => refused_as what e
    | Ok c => k c
    end).

(** What [validate --contract] prints of a valid contract. *)
Definition contract_lines (c : Contract) : list string :=
  [line "contract valid"; line ("workload=" ++ view (wl_id (workload (body c))));
   line ("contract=" ++ view (contract_id (body c))); line ("digest=" ++ hex_encode (digest c));
   line ("generation=" ++ to_string (generation (body c)));
   line ("scopes=" ++ to_string (zlength (scopes (body c))));
   line ("requirements=" ++ to_string (zlength (requirements (body c))))].

Definition validate_contract_file (path : string) : Run :=
  with_contract "contract refused" path (fun c =>
    let validation := validate_contract c in
    if negb (validation_ok validation)
    then err (line "contract is not valid:") (print_diagnostics (diagnostics validation) (finish 1))
    else outs (contract_lines c) (finish 0)).

Definition validate_policy_file (path : string) : Run :=
  read_text_file path (fun text =>
    match policy_from_text text with
    | Err e => refused_as "policy refused" e
    | Ok p =>
        let validation := validate_policy p in
        if negb (policy_ok validation)
        then err (line "policy is not valid:") (print_diagnostics (policy_log validation) (finish 1))
        else
          outs [line "policy valid"; line ("policy=" ++ view (policy_id p));
                line ("generation=" ++ to_string (pol_generation p));
                line ("rules=" ++ to_string (zlength (rules p)))] (finish 0)
    end).

Definition validate_evidence_file (path : string) : Run :=
  read_text_file path (fun text =>
    match evidence_from_text text with
    | Err e => refused_as "evidence refused" e
    | Ok e =>
        outs [line "evidence valid"; line ("evidence=" ++ view (evidence_id e));
              line ("generation=" ++ to_string (ev_generation e));
              line ("entries=" ++ to_string (zlength (ev_entries e)))] (finish 0)
    end).

Definition command_validate (argv : list string) : Run :=
  match option_ argv "--body" with
  | Some path => validate_body_file path
  | None =>
      match option_ argv "--contract" with
      | Some path => validate_contract_file path
      | None =>
          match option_ argv "--policy" with
          | Some path => validate_policy_file path
          | None =>
              match option_ argv "--evidence" with
              | Some path => validate_evidence_file path
              | None => usage
              end
          end
      end
  end.

(** ** digest and explain *)
Definition command_digest (argv : list string) : Run :=
  match option_ argv "--contract" with
  | None => usage
  | Some path =>
      with_contract "contract refused" path (fun c =>
        outs [line ("digest=" ++ hex_encode (digest c));
              line ("canonical_bytes=" ++ to_string (size (dump (contract_to_json c))))] (finish 0))
  end.

(** [if (!text.empty()) printf(" label=%s", text)] *)
Definition labelled (label text : string) : string :=
  if is_empty text then EmptyString else label ++ c_str text.

Definition requirement_line (r : Requirement) : string :=
  "  " ++ c_str (scope r) ++ " " ++ requirement_kind_token (kind r) ++ " " ++ requirement_strength_token (strength r)
  ++ (if has_numeric r then " target=" ++ format_g (target r) ++ " minimum=" ++ format_g (minimum r) else EmptyString)
  ++ labelled " value=" (value r) ++ labelled " preferred=" (preferred_value r) ++ labelled " key=" (req_key r)
  ++ line (" id=" ++ view (req_id r)).

Definition explain_lines (c : Contract) : list string :=
  let b := body c in
  ([line ("workload " ++ c_str (wl_name (workload b)) ++ " (" ++ view (wl_id (workload b)) ++ ") generation "
          ++ to_string (wl_generation (workload b)));
    line ("contract " ++ view (contract_id b) ++ " generation " ++ to_string (generation b)
          ++ " policy generation " ++ to_string (policy_generation b));
    line ("version " ++ to_string (major b) ++ "." ++ to_string (minor b) ++ "." ++ to_string (patch b)
          ++ " digest " ++ hex_encode (digest c))]
   ++ (if has_supersedes c then [line ("supersedes generation " ++ to_string (supersedes c))] else [])
   ++ ["scopes:"%string] ++ map (fun s => (" " ++ c_str (sc_name s))%string) (scopes b) ++ [line EmptyString]
   ++ map requirement_line (requirements b))%list.

(** The evidence as the tool stamps it: captured now, in the epoch of its set, current. *)
Definition stamp_current (incarnation : Incarnation) (e : EvidenceSet) : EvidenceSet :=
  with_entries e
    (map (fun entry => mk_entry (ent_scope entry) (ent_id entry) (ent_publisher entry) (ent_generation entry)
            incarnation (ev_epoch e) (ent_produced entry) (candidate entry) kCurrent) (ev_entries e)).

Definition verdict_line (v : RequirementEvaluation) : string :=
  "  " ++ c_str (re_scope v) ++ " " ++ requirement_kind_token (re_kind v) ++ " " ++ satisfaction_token (re_satisfaction v)
  ++ match re_observed v with Some x => " observed=" ++ format_g x | None => EmptyString end
  ++ " reason=" ++ code_token (re_code v) ++ line (" (" ++ c_str (re_reason v) ++ ")").

Definition evaluation_lines (e : ContractEvaluation) : list string :=
  line ("aggregate " ++ satisfaction_token (aggregate e)) :: map verdict_line (eval_requirements e).

(** [random] is what the entropy source returns, [now_millis] the wall clock. *)
Definition command_explain (random : bytes) (now_millis : Z) (argv : list string) : Run :=
  match option_ argv "--contract" with
  | None => usage
  | Some path =>
      with_contract "contract refused" path (fun c =>
        outs (explain_lines c)
          match option_ argv "--evidence" with
          | None => finish 0
          | Some evidence_path =>
              read_text_file evidence_path (fun text =>
                match evidence_from_text text with
                | Err e => refused_as "evidence refused" e
                | Ok evidence =>
                    let incarnation := new_incarnation random in
                    outs (evaluation_lines
                            (evaluate_contract c (stamp_current incarnation evidence) incarnation now_millis 0))
                      (finish 0)
                end)
          end)
  end.

(** ** diff *)
Definition verdict_text (v : CompatibilityVerdict) : string :=
  match v with
  | kCompatible => "compatible"
  | kCompatibleWithAdditions => "compatible with additions"
  | kIncompatible => "incompatible"
  end.

(** [same]: the fields a change of which is reported. *)
Definition same_terms (l r : Requirement) : bool :=
  strength_eqb (strength l) (strength r) && deq (target l) (target r) && deq (minimum l) (minimum r)
  && String.eqb (value l) (value r) && String.eqb (preferred_value l) (preferred_value r).

Definition key_line (sign : string) (k : RequirementKey) : string :=
  line (sign ++ " " ++ c_str (rk_scope k) ++ " " ++ requirement_kind_token (rk_kind k)).

Definition change_line (l r : Requirement) : string :=
  "~ " ++ c_str (scope l) ++ " " ++ requirement_kind_token (kind l) ++ " strength "
  ++ requirement_strength_token (strength l) ++ " -> " ++ requirement_strength_token (strength r)
  ++ (if has_numeric l || has_numeric r
      then " target " ++ format_g (target l) ++ " -> " ++ format_g (target r)
           ++ " minimum " ++ format_g (minimum l) ++ " -> " ++ format_g (minimum r)
      else EmptyString)
  ++ (if negb (String.eqb (value l) (value r))
      then " value '" ++ c_str (value l) ++ "' -> '" ++ c_str (value r) ++ "'" else EmptyString)
  ++ line EmptyString.

Notation key_map := (list (RequirementKey * Requirement)).

(** The loop over the keys before: what is gone and what changed. *)
Definition change_lines (before_keys after_keys : key_map) : list string :=
  concat (map (fun entry =>
    match map_find entry.1 after_keys with
    | None => [key_line "-" entry.1]
    | Some after => if same_terms entry.2 after then [] else [change_line entry.2 after]
    end) before_keys).

Definition added_lines (before_keys after_keys : key_map) : list string :=
  concat (map (fun entry => if map_has entry.1 before_keys then [] else [key_line "+" entry.1]) after_keys).

Definition diff_lines (before after : Contract) : list string :=
  let compatibility := check_compatibility (body before) (body after) in
  let before_keys := emplace_all composite_key (requirements (body before)) [] in
  let after_keys := emplace_all composite_key (requirements (body after)) [] in
  (line ("compatibility: " ++ verdict_text (verdict compatibility))
   :: map (fun reason => line ("  " ++ c_str reason)) (reasons (compat_log compatibility))
   ++ change_lines before_keys after_keys ++ added_lines before_keys after_keys)%list.

Definition digest_line (label : string) (c : Contract) : string :=
  line (label ++ hex_encode (digest c) ++ " generation=" ++ to_string (generation (body c))).

Definition outcome_text (r : decoding Contract) : string :=
  match r with Ok _ => "ok" | Err e => c_str e.2 end.

Definition diff_texts (before_text after_text : string) : Run :=
  match contract_from_text before_text default_options, contract_from_text after_text default_options with
  | Ok before, Ok after =>
      outs [digest_line "before digest=" before; digest_line "after  digest=" after]
        (if String.eqb (hex_encode (digest before)) (hex_encode (digest after))
         then out (line "identical") (finish 0)
         else outs (diff_lines before after) (finish 0))
  | before, after =>
      err (line ("one of the contracts was refused: " ++ outcome_text before ++ " / " ++ outcome_text after)) (finish 1)
  end.

Definition command_diff (argv : list string) : Run :=
  match option_ argv "--before", option_ argv "--after" with
  | Some before_path, Some after_path =>
      read_text_file before_path (fun before_text =>
        read_text_file after_path (fun after_text => diff_texts before_text after_text))
  | _, _ => usage
  end.

(** ** compose *)

(** [std::filesystem::path::filename]: what follows the last separator. *)
Fixpoint filename_from (name path : string) : string :=
  match path with
  | EmptyString => name
  | String c path' => filename_from (if Ascii.eqb c "/" then EmptyString else name ++ String c EmptyString) path'
  end.

Definition filename (path : string) : string := filename_from EmptyString path.

(** [if (document.find(key) == nullptr) document.set(key, value)] *)
Definition set_missing (key : string) (v : Json) (document : Json) : Json :=
  match find document key with Some _ => document | None => set document key v end.

Definition layer_workload (layer_path : string) : Json :=
  set_all JNull
    [("id"%string, JString (view (from_digest (Tag := WorkloadTag) (sha256 (bytes_of_string ("layer:" ++ layer_path))))));
     ("name"%string, JString (filename layer_path)); ("generation"%string, JInt 1)].

Definition layer_version : Json :=
  set_all JNull [("major"%string, JInt 1); ("minor"%string, JInt 0); ("patch"%string, JInt 0)].

(** The body of a layer, bare or in an envelope, with the fields of a complete contract. *)
Definition layer_document (layer_path : string) (decoded : Json) : Json :=
  let given := match find decoded "body" with
               | Some b => if is_object b then b else decoded
               | None => decoded
               end in
  set_missing "scopes" (JArray [])
    (set_missing "description" (JString EmptyString)
      (set_missing "version" layer_version
        (set_missing "policy_generation" (JInt 1)
          (set_missing "contract_generation" (JInt 1)
            (set_missing "contract_id" (JString zero_digest_text)
              (set_missing "workload" (layer_workload layer_path)
                (set_missing "schema_version" (JInt 1) given))))))).

(** One turn of the loop over the layers: the overlay, or the run that ends here. *)
Definition read_layer (layer_path : string) : result Run OverlayLayer :=
  match files layer_path with
  | None => Err (read_text_file layer_path (fun _ => finish 0))
  | Some layer_text =>
      match json_decode layer_text default_options with
      | Err e => Err (err (line ("layer " ++ layer_path ++ " is not valid JSON: " ++ c_str (err_message e))) (finish 1))
      | Ok decoded =>
          if negb (is_object decoded)
          then Err (err (line ("layer " ++ layer_path ++ " must be a JSON object")) (finish 1))
          else
            let document := layer_document layer_path decoded in
            match find document "requirements" with
            | None => Err (err (line ("layer " ++ layer_path ++ " declares no requirements")) (finish 1))
            | Some _ =>
                match contract_from_json (set JNull "body" document) with
                | Err e => Err (refused_as ("layer " ++ layer_path ++ " refused") e)
                | Ok layer => Ok (mk_layer (filename layer_path) (scopes (body layer)) (requirements (body layer)))
                end
            end
      end
  end.

Fixpoint read_layers (paths : list string) : result Run (list OverlayLayer) :=
  match paths with
  | [] => Ok []
  | p :: rest => layer ← read_layer p; layers ← read_layers rest; Ok (layer :: layers)
  end.

Definition decision_line (d : CompositionDecision) : string :=
  line ("  decision " ++ composition_decision_token (decision_kind d) ++ " layer=" ++ c_str (decision_layer d)
        ++ " scope=" ++ c_str (decision_scope d) ++ " key=" ++ c_str (decision_key d) ++ ": "
        ++ c_str (decision_reason d)).

(** The contract that is printed: a fresh one around the composed body. *)
Definition unsealed (b : ContractBody) : Contract := mk_contract b zero_digest default_envelope 0 zero_digest.

Definition compose_run (composed : CompositionResult) : Run :=
  if negb (comp_ok composed) then
    err (line ("composition refused: " ++ code_token (comp_code composed) ++ ": " ++ c_str (comp_message composed)))
      (print_diagnostics (comp_log composed) (errs (map decision_line (decisions composed)) (finish 1)))
  else
    out (line (c_str (dump (contract_to_json (unsealed (comp_body composed))))))
      (errs (map decision_line (decisions composed)) (finish 0)).

Definition command_compose (argv : list string) : Run :=
  match option_ argv "--base" with
  | None => usage
  | Some base_path =>
      with_contract "base contract refused" base_path (fun base =>
        match read_layers (all_options argv "--layer") with
        | Err r => r
        | Ok layers => compose_run (compose (body base) layers kMaxCompositionLayers)
        end)
  end.
End Commands.

(** ** The client of a running coordinator *)

(** [std::strtoul(text, nullptr, 10)] with a 64-bit [unsigned long]. *)
Definition is_space (c : ascii) : bool := char_in "009" "013" c || Ascii.eqb c " ".

Fixpoint skip_spaces (s : string) : string :=
  match s with String c s' => if is_space c then skip_spaces s' else s | EmptyString => EmptyString end.

Definition strtoul (text : string) : Z :=
  let rest := skip_spaces text in
  let negative := starts_with (Ascii.eqb "-") rest in
  let rest := if starts_with (fun c => Ascii.eqb c "+" || Ascii.eqb c "-") rest then tail_of rest else rest in
  let magnitude := digits_value (scan_digits rest).1 in
  if uint64_max <? magnitude then uint64_max else if negative then u64 (- magnitude) else magnitude.

(** What the network does: the addresses a host and port resolve to, what each [send]
    takes, and what the peer sends back for the bytes it was given. *)
Record Network := mk_network {
  resolve : string -> Z -> option (list Wire.Candidate);
  send_results : list Z;
  answers : bytes -> Peer
}.

Record Client := mk_client { client_network : Network; last_request_id : Z }.

(** [Client::connect]; a failure ends the command. *)
Definition connect (N : Network) (host : string) (port : Z) (k : Client -> Run) : Run :=
  match (connect_to (resolve N host port)).2 with
  | Err e => err (line ("cannot connect to " ++ host ++ ":" ++ to_string port ++ ": " ++ c_str e.2)) (finish 3)
  | Ok _ => k (mk_client N 0)
  end.

(** [Client::call]; a failure ends the command. *)
Definition call (client : Client) (type : MessageType) (document : Json) (k : Json -> Run) : Run :=
  let N := client_network client in
  let id := u64 (last_request_id client + 1) in
  let '(sent, r) := send_frame (send_results N) type id (bytes_of_string (dump document)) in
  match r with
  | Err e => err (line ("send failed: " ++ c_str e.2)) (finish 3)
  | Ok _ =>
      match (read_frame (answers N sent)).2 with
      | Err e => err (line ("receive failed: " ++ c_str e.2)) (finish 3)
      | Ok reply =>
          match json_decode (string_of_bytes (Wire.body reply)) default_options with
          | Err e => err (line ("reply is not canonical JSON: " ++ c_str (err_message e))) (finish 3)
          | Ok v => k v
          end
      end
  end.

Definition given_host (argv : list string) : string := default "127.0.0.1"%string (option_ argv "--host").
Definition given_port (argv : list string) : Z := u16 (strtoul (default "0"%string (option_ argv "--port"))).

Definition status_request : Json := set JNull "schema" (JString "wnc/v1/status").
Definition evaluate_request (workload : string) : Json :=
  set (set JNull "schema" (JString "wnc/v1/evaluate")) "workload" (JString workload).

Definition reply_line (reply : Json) : string := line (c_str (dump reply)).

Definition command_status (N : Network) (argv : list string) : Run :=
  connect N (given_host argv) (given_port argv) (fun client =>
    call client kStatus status_request (fun reply => out (reply_line reply) (finish 0))).

Definition aggregate_text (evaluation : Json) : string :=
  match find evaluation "aggregate" with Some (JString s) => c_str s | _ => "unknown" end.

Definition command_evaluate (N : Network) (argv : list string) : Run :=
  match option_ argv "--workload" with
  | None => usage
  | Some workload =>
      connect N (given_host argv) (given_port argv) (fun client =>
        call client kEvaluate (evaluate_request workload) (fun reply =>
          out (reply_line reply)
            match find reply "evaluation" with
            | None => finish 1
            | Some evaluation => err (line ("aggregate " ++ aggregate_text evaluation)) (finish 0)
            end))
  end.

(** ** main *)

(** What the process is started with. *)
Record Environment := mk_environment {
  env_files : string -> option string;
  env_random : bytes;
  env_now : Z;
  env_network : Network
}.

Definition main `{Hashing} (E : Environment) (argv : list string) : Run :=
  match argv with
  | _ :: command :: _ =>
      if String.eqb command "validate" then command_validate (env_files E) argv
      else if String.eqb command "seal" then
        match option_ argv "--body" with
        | None => err (line "seal requires --body <file>") (finish 2)
        | Some path => command_seal (env_files E) path
        end
      else if String.eqb command "digest" then command_digest (env_files E) argv
      else if String.eqb command "explain" then command_explain (env_files E) (env_random E) (env_now E) argv
      else if String.eqb command "diff" then command_diff (env_files E) argv
      else if String.eqb command "compose" then command_compose (env_files E) argv
      else if String.eqb command "status" then command_status (env_network E) argv
      else if String.eqb command "evaluate" then command_evaluate (env_network E) argv
      else usage
  | _ => usage
  end.

(** ** What is printed *)

(** No NUL byte: [%s] prints all of the text. *)
Definition no_nul (c : ascii) : bool := negb (byte_of_ascii c =? 0).

Lemma c_str_no_nul s : all_chars no_nul s = true -> c_str s = s.
Proof.
  induction s as [|c s IH]; simpl; [done|]. intros H. bool_hyps. unfold no_nul in H.
  destruct (byte_of_ascii c =? 0); [done|]. by rewrite IH.
Qed.

Lemma digits_no_nul s : all_chars is_digit s = true -> all_chars no_nul s = true.
Proof. apply all_chars_impl, char_impl, ascii_forall. by vm_compute. Qed.

Lemma to_string_no_nul z : all_chars no_nul (to_string z) = true.
Proof.
  destruct (Z.le_gt_cases 0 z) as [Hz|Hz]; [apply digits_no_nul; by destruct (to_string_nonneg z Hz)|].
  destruct z as [|p|p]; try lia.
  assert (to_string (Zneg p) = String "-" (to_string (Zpos p))) as ->.
  { unfold to_string, pretty, pretty_Z, pretty, pretty_positive. reflexivity. }
  cbn [all_chars]. rewrite digits_no_nul; [done|]. by destruct (to_string_nonneg (Zpos p)).
Qed.

Lemma escaped_no_nul s : all_chars no_nul (escaped_string s) = true.
Proof.
  unfold escaped_string. cbn [all_chars]. rewrite all_chars_append. cbn [all_chars].
  assert (all_chars no_nul (escape_body s) = true) as ->; [|done].
  induction s as [|c s IH]; [done|]. cbn [escape_body]. rewrite all_chars_append, IH, andb_true_r.
  apply (ascii_forall (fun c => all_chars no_nul (escape_char c))). by vm_compute.
Qed.

Lemma text_no_nul v : readable_reals v = true -> all_chars no_nul (text_of v) = true.
Proof.
  induction v as [|b|i|d|s|l IH|m IH] using json_rect; intros Hr; cbn [text_of].
  - done.
  - by destruct b.
  - apply to_string_no_nul.
  - destruct d as [[]| | |[] m e]; try done. cbn [readable_reals readable_real negb] in Hr. bool_hyps.
    destruct (format_canonical_real _) as [t|] eqn:Et; [|done].
    apply format_real_plain in Et as (I & F & -> & HP); [|done].
    rewrite all_chars_append, digits_no_nul by apply HP. cbn [all_chars]. by rewrite digits_no_nul by apply HP.
  - apply escaped_no_nul.
  - cbn [readable_reals] in Hr. cbn [all_chars].
    assert (forall first, all_chars no_nul (join_items text_of first l) = true) as ->; [|done].
    induction IH as [|x l Hx _ IHl]; intros first; [done|]. simpl in Hr. bool_hyps. cbn [join_items].
    rewrite !all_chars_append, Hx, IHl by done. by destruct first.
  - cbn [readable_reals] in Hr. cbn [all_chars].
    assert (forall first, all_chars no_nul (join_members text_of first m) = true) as ->; [|done].
    induction IH as [|[k x] m Hx _ IHm]; intros first; [done|]. simpl in Hr, Hx. bool_hyps. cbn [join_members].
    rewrite !all_chars_append. cbn [all_chars]. rewrite all_chars_append, escaped_no_nul, Hx, IHm by done.
    by destruct first.
Qed.

(** ** Sealing *)
Section Sealing.
Context `{HH : Hashing} {HHok : HashingOk}.

Lemma find_body v c : contract_from_json v = Ok c -> is_Some (find v "body").
Proof using.
  unfold contract_from_json. destruct (is_object v) eqn:E; [|done]. destruct v as [| | | | | |m]; try done. cbn [negb object find].
  by destruct (map_find "body"%string m).
Qed.

Lemma set_representable v k x : representable_object (object v) -> representable x -> representable (set v k x).
Proof using.
  intros Hv Hx. constructor. by apply (Forall_map_insert (fun p => representable p.2)).
Qed.

Lemma set_utf8 v k x : utf8_object (object v) -> utf8_json x -> utf8_json (set v k x).
Proof using. intros Hv Hx. constructor. by apply (Forall_map_insert (fun p => utf8_json p.2)). Qed.

(** The contract a sealed file holds. *)
Record sealed (c : Contract) : Prop := {
  se_codable : contract_codable c;
  se_text : contract_text c;
  se_canonical : canonicalize c = c;
  se_valid : validation_ok (validate_contract c) = true
}.

(** What a successful [seal] prints. *)
Definition sealed_run (c : Contract) : Run :=
  out (line (dump (contract_to_json c)))
    (errs [line ("workload=" ++ view (wl_id (workload (body c))));
           line ("contract=" ++ view (contract_id (body c)));
           line ("digest=" ++ hex_encode (digest c));
           line ("requirements=" ++ to_string (zlength (requirements (body c))))] (finish 0)).


(** The contract that [seal] makes of a text, if it does. *)
Definition sealing (text : string) : option Contract :=
  match json_decode text default_options with
  | Err _ => None
  | Ok document =>
      match contract_from_json (seal_envelope document) with
      | Err _ => None
      | Ok decoded =>
          let c := canonicalize decoded in if validation_ok (validate_contract c) then Some c else None
      end
  end.

Lemma seal_exit files path :
  exit_code (command_seal files path) = 0 <-> exists text c, files path = Some text /\ sealing text = Some c.
Proof using.
  unfold command_seal, read_text_file, sealing. split.
  - destruct (files path) as [text|]; [|done]. intros Hx. exists text. revert Hx.
    destruct (json_decode text default_options) as [document|e]; [|done].
    destruct (contract_from_json _) as [decoded|e]; [|done].
    destruct (validation_ok _); cbn [negb]; [by eexists|].
    intros Hx. exfalso. revert Hx. cbn [err exit_code]. unfold print_diagnostics. by rewrite errs_exit.
  - intros (text & c & -> & Hs). destruct (json_decode text default_options) as [document|e]; [|done].
    destruct (contract_from_json _) as [decoded|e]; [|done].
    destruct (validation_ok _); cbn [negb]; [|done]. cbn [out exit_code]. by rewrite errs_exit.
Qed.

Lemma sealing_sealed text c : sealing text = Some c -> sealed c.
Proof using HHok.
  unfold sealing. destruct (json_decode text default_options) as [document|e] eqn:Ej; [|done].
  pose proof (json_decode_outcome text default_options ltac:(done) ltac:(done)) as Hwf. rewrite Ej in Hwf.
  pose proof (json_wf_representable _ _ _ Hwf) as Hr. pose proof (json_wf_utf8 _ _ _ Hwf) as Hx.
  assert (representable (seal_envelope document) /\ utf8_json (seal_envelope document)) as [Hre Hte].
  { unfold seal_envelope. destruct (find document "body"); [done|]. split.
    - apply set_representable; [|constructor]. apply (representable_members (set _ _ _)).
      apply set_representable; [constructor|done].
    - apply set_utf8; [|constructor; by apply ascii_utf8]. apply (utf8_members (set _ _ _)).
      apply set_utf8; [constructor|done]. }
  destruct (contract_from_json _) as [decoded|e] eqn:Ec; [|done].
  destruct (validation_ok (validate_contract (canonicalize decoded))) eqn:Ev; [|done]. intros [= <-].
  assert (supersedes decoded = 0 -> supersedes_digest decoded = zero_digest) as Hs.
  { apply validate_contract_spec in Ev as (_ & _ & _ & [[_ E]|(E & _)]); [done|]. intros E0. by destruct E. }
  split; [| |apply canonicalize_idempotent|done].
  - apply canonicalize_codable. by eapply decoded_codable.
  - apply canonicalize_text. by eapply decoded_text.
Qed.

Lemma size_line t : size (line t) - 1 = size t.
Proof using. unfold line. rewrite size_append. change (size (String "010" EmptyString)) with 1. lia. Qed.

Lemma printed_document v :
  readable_reals v = true -> size (text_of v) < kMaxDocumentBytes -> c_str (dump v) = dump v.
Proof using.
  intros Hr Hs. rewrite c_str_no_nul; [done|]. rewrite dump_text by (unfold kMaxDocumentBytes in *; lia).
  by apply text_no_nul.
Qed.

Lemma seal_run files path text c :
  files path = Some text -> sealing text = Some c -> contract_fits c -> command_seal files path = sealed_run c.
Proof using.
  intros Hf Hs [Hr Hz]. unfold command_seal, read_text_file. rewrite Hf. unfold sealing in Hs.
  destruct (json_decode text default_options) as [document|e]; [|done].
  destruct (contract_from_json _) as [decoded|e]; [|done].
  destruct (validation_ok _) eqn:Ev; [|done]. injection Hs as <-. cbn [negb].
  unfold sealed_run. by rewrite printed_document.
Qed.

(** A sealed file. *)
Lemma sealed_text_decodes c :
  sealed c -> contract_fits c ->
  sealing (line (dump (contract_to_json c))) = Some c
  /\ contract_from_text (line (dump (contract_to_json c))) default_options = Ok c.
Proof using HHok.
  intros [Hc Ht Hcan Hv] Hfit.
  assert (digest c = body_digest (body c)) as Hd by (by apply validate_contract_spec in Hv as (_ & ? & _)).
  destruct (contract_text_decodes c Hc Ht Hd Hfit) as (E & Ej & Ed).
  split; [|exact Ed]. unfold sealing, line. rewrite Ej.
  pose proof (contract_decode_encode c Hc Hd) as Edec. unfold seal_envelope. destruct (find_body _ _ Edec) as [b ->].
  by rewrite Edec, Hcan, Hv.
Qed.

End Sealing.

(** ** Refusals *)

(** A command that failed says why on the error stream, and nothing on the other one. *)
Definition refusal (r : Run) : Prop :=
  (exit_code r = 1 \/ exit_code r = 2) /\ out_text r = EmptyString /\ err_text r <> EmptyString.

Definition settled (r : Run) : Prop := exit_code r = 0 \/ refusal r.

(** The same, without the promise on standard output. *)
Definition explained (r : Run) : Prop :=
  exit_code r = 0 \/ (exit_code r = 1 \/ exit_code r = 2) /\ err_text r <> EmptyString.



Lemma refusal_err text r :
  text <> EmptyString -> exit_code r = 1 \/ exit_code r = 2 -> out_text r = EmptyString -> refusal (err text r).
Proof. intros Ht Hc Ho. split; [done|]. split; [done|]. by apply append_not_empty. Qed.

Lemma settled_line text code : code = 1 \/ code = 2 -> settled (err (line text) (finish code)).
Proof. intros Hc. right. by apply refusal_err; [apply line_not_empty|..]. Qed.

Lemma settled_listing text log tail :
  settled (err (line text) (print_diagnostics log (errs tail (finish 1)))).
Proof.
  right. apply refusal_err; [apply line_not_empty|..]; unfold print_diagnostics; rewrite ?errs_exit, ?errs_out; auto.
Qed.


Lemma settled_outs texts : settled (outs texts (finish 0)).
Proof. left. by rewrite outs_exit. Qed.

Lemma settled_usage : settled usage.
Proof. right. by apply refusal_err; [|right|]. Qed.

Lemma settled_read files path k : (forall text, settled (k text)) -> settled (read_text_file files path k).
Proof.
  intros Hk. unfold read_text_file. destruct (files path) as [text|]; [apply Hk|]. apply settled_line. by right.
Qed.

Lemma settled_contract `{Hashing} files what path k :
  (forall c, settled (k c)) -> settled (with_contract files what path k).
Proof.
  intros Hk. apply settled_read. intros text. destruct (contract_from_text _ _); [apply Hk|].
  apply settled_line. by left.
Qed.

(** One step into a command: what it reads or decodes, what it refuses, what it prints. *)
Ltac settle :=
  repeat first
    [ apply settled_usage | apply settled_outs | apply settled_listing
    | apply (settled_listing _ _ []) | apply settled_line; solve [auto]
    | apply settled_contract; intros ? | apply settled_read; intros ?
    | match goal with |- settled (match ?x with _ => _ end) => destruct x end ].

Section Refusals.
Context `{Hashing}.

Lemma validate_settled files argv : settled (command_validate files argv).
Proof using.
  unfold command_validate, validate_body_file, validate_contract_file, validate_policy_file, validate_evidence_file,
    not_json, refused_as. settle.
Qed.

Lemma seal_settled files path : settled (command_seal files path).
Proof using. unfold command_seal, not_json, refused_as. settle. left. cbn [out exit_code]. by rewrite errs_exit. Qed.

Lemma digest_settled files argv : settled (command_digest files argv).
Proof using. unfold command_digest. settle. Qed.

Lemma diff_settled files argv : settled (command_diff files argv).
Proof using. unfold command_diff, diff_texts. settle. left. rewrite outs_exit.
  destruct (String.eqb _ _); [done|by rewrite outs_exit].
Qed.

Lemma read_layers_settled files paths r : read_layers files paths = Err r -> settled r.
Proof using.
  induction paths as [|p rest IH]; cbn [read_layers mbind result_bind]; [done|]. unfold read_layer.
  assert (forall r', @Err Run OverlayLayer r' = Err r -> settled r' -> settled r) as Hr by (by intros ? [= ->]).
  unfold read_text_file, refused_as. destruct (files p) as [text|]; [|intros [= <-]; settle].
  destruct (json_decode text default_options) as [decoded|]; [|intros [= <-]; settle].
  destruct (negb (is_object decoded)); [intros [= <-]; settle|].
  destruct (find (layer_document p decoded) "requirements"); [|intros [= <-]; settle].
  destruct (contract_from_json _) as [layer|]; [|intros [= <-]; settle].
  destruct (read_layers files rest) as [layers|]; [done|]. intros [= ->]. by apply IH.
Qed.

Lemma compose_settled files argv : settled (command_compose files argv).
Proof using.
  unfold command_compose. destruct (option_ argv "--base"); [|apply settled_usage]. apply settled_contract. intros c.
  destruct (read_layers _ _) eqn:E; [|by eapply read_layers_settled]. unfold compose_run. settle. left. cbn [out exit_code]. by rewrite errs_exit.
Qed.

Lemma explained_outs texts r : settled r -> explained (outs texts r).
Proof using.
  intros [H0|(H1 & _ & H2)]; [left|right]; rewrite outs_exit; [done|]. by rewrite outs_err.
Qed.

Lemma explain_explained files random now argv : explained (command_explain files random now argv).
Proof using.
  assert (forall r, settled r -> explained r) as Hs by (intros r Hr; exact (explained_outs [] r Hr)).
  unfold command_explain. destruct (option_ argv "--contract"); [|by apply Hs, settled_usage].
  unfold with_contract, read_text_file at 1. destruct (files _) as [text|]; [|by apply Hs, settled_line; right].
  destruct (contract_from_text text default_options) as [c|]; [|by apply Hs, settled_line; left].
  apply explained_outs. unfold refused_as. settle. by left.
Qed.

End Refusals.

(** ** The outcome of a client command *)

(** What a failure of the transport ends with. *)
Definition transport_failure (r : Run) : Prop :=
  exit_code r = 3 /\ out_text r = EmptyString /\ err_text r <> EmptyString.

Lemma transport_line text : transport_failure (err (line text) (finish 3)).
Proof. split; [done|]. split; [done|]. by apply append_not_empty, line_not_empty. Qed.

(** [connect] and [call] fail, or go on with a connected client and a decoded reply. *)
Lemma connect_cases (P : Run -> Prop) N host port k :
  (forall r, transport_failure r -> P r) -> (forall client, P (k client)) -> P (connect N host port k).
Proof. intros Hf Hk. unfold connect. destruct (connect_to _).2; [apply Hk|apply Hf, transport_line]. Qed.

Lemma call_cases (P : Run -> Prop) client type document k :
  (forall r, transport_failure r -> P r) -> (forall reply, P (k reply)) -> P (call client type document k).
Proof.
  intros Hf Hk. unfold call. destruct (send_frame _ _ _ _) as [sent [u|e]]; [|apply Hf, transport_line].
  destruct (read_frame _).2 as [reply|e]; [|apply Hf, transport_line].
  destruct (json_decode _ _) as [v|e]; [apply Hk|apply Hf, transport_line].
Qed.

Definition command_of (argv : list string) : string :=
  match argv with _ :: command :: _ => command | _ => EmptyString end.

(** What each command may end with. *)
Definition outcome_of (command : string) (r : Run) : Prop :=
  if String.eqb command "status" then exit_code r = 0 \/ transport_failure r
  else if String.eqb command "evaluate"
  then exit_code r = 0 \/ transport_failure r \/ refusal r \/ (exit_code r = 1 /\ err_text r = EmptyString)
  else if String.eqb command "explain" then explained r
  else settled r.

Lemma status_outcome N argv : exit_code (command_status N argv) = 0 \/ transport_failure (command_status N argv).
Proof.
  apply (connect_cases (fun r => exit_code r = 0 \/ transport_failure r)); [by right|]. intros client.
  apply (call_cases (fun r => exit_code r = 0 \/ transport_failure r)); [by right|]. intros reply. by left.
Qed.

Lemma evaluate_outcome N argv :
  let r := command_evaluate N argv in
  exit_code r = 0 \/ transport_failure r \/ refusal r \/ (exit_code r = 1 /\ err_text r = EmptyString).
Proof.
  cbv zeta. unfold command_evaluate. destruct (option_ argv "--workload") as [w|].
  2:{ right. right. left. by apply refusal_err; [|right|]. }
  set (P := fun r => exit_code r = 0 \/ transport_failure r \/ refusal r \/ (exit_code r = 1 /\ err_text r = EmptyString)).
  apply (connect_cases P); [by right; left|]. intros client. apply (call_cases P); [by right; left|]. intros reply.
  unfold P. destruct (find reply "evaluation"); [by left|by right; right; right].
Qed.

Lemma main_outcome `{Hashing} E argv : outcome_of (command_of argv) (main E argv).
Proof.
  unfold main. destruct argv as [|prog [|command rest]]; [exact settled_usage..|]. cbn [command_of].
  set (argv := prog :: command :: rest). unfold outcome_of.
  destruct (String.eqb_spec command "validate") as [->|]; [apply validate_settled|].
  destruct (String.eqb_spec command "seal") as [->|].
  { change (String.eqb "seal" "status") with false. destruct (option_ argv "--body"); [apply seal_settled|].
    apply settled_line. by right. }
  destruct (String.eqb_spec command "digest") as [->|]; [apply digest_settled|].
  destruct (String.eqb_spec command "explain") as [->|]; [apply explain_explained|].
  destruct (String.eqb_spec command "diff") as [->|]; [apply diff_settled|].
  destruct (String.eqb_spec command "compose") as [->|]; [apply compose_settled|].
  destruct (String.eqb_spec command "status") as [->|]; [apply status_outcome|].
  destruct (String.eqb_spec command "evaluate") as [->|]; [apply evaluate_outcome|exact settled_usage].
Qed.

(** ** Differences *)
Lemma emplace_all_sorted {K V : Type} `{StdLessOk K} (key : V -> K) l m :
  keys_sorted m -> keys_sorted (emplace_all key l m).
Proof.
  revert m. induction l as [|x l IH]; intros m Hm; [done|]. apply IH. unfold map_emplace.
  destruct (map_has (key x) m); [done|]. by apply map_insert_sorted.
Qed.

Notation keys l := (emplace_all composite_key l []).

Lemma keys_entry l k r : NoDup (composite_key <$> l) -> (k, r) ∈ keys l <-> r ∈ l /\ composite_key r = k.
Proof.
  intros Hnd. split.
  - intros Hin. apply keys_sorted_find in Hin; [|by apply emplace_all_sorted]. by apply emplace_all_Some in Hin.
  - intros [Hr <-]. apply map_find_Some_in. destruct (map_find (composite_key r) (keys l)) as [r'|] eqn:E.
    + apply emplace_all_Some in E as [Hr' Ek]. f_equal. by apply (NoDup_keys_inj composite_key l Hnd).
    + apply emplace_all_None in E. destruct E. by apply list_elem_of_fmap_2.
Qed.

Lemma keys_find l k r : NoDup (composite_key <$> l) -> map_find k (keys l) = Some r <-> r ∈ l /\ composite_key r = k.
Proof.
  intros Hnd. split; [by intros E%emplace_all_Some|]. intros H%(keys_entry l k r Hnd).
  apply keys_sorted_find; [by apply emplace_all_sorted|done].
Qed.

Lemma keys_missing l k : map_find k (keys l) = None <-> forall r, r ∈ l -> composite_key r <> k.
Proof.
  rewrite emplace_all_None, list_elem_of_fmap. split.
  - intros Hn r Hr <-. apply Hn. by exists r.
  - intros Hn (r & -> & Hr). by apply (Hn r).
Qed.

(** What a line of the listing says. *)
Inductive reported (before after : list Requirement) : string -> Prop :=
| removed l : l ∈ before -> (forall r, r ∈ after -> composite_key r <> composite_key l) ->
    reported before after (key_line "-" (composite_key l))
| changed l r : l ∈ before -> r ∈ after -> composite_key r = composite_key l -> same_terms l r = false ->
    reported before after (change_line l r)
| added r : r ∈ after -> (forall l, l ∈ before -> composite_key l <> composite_key r) ->
    reported before after (key_line "+" (composite_key r)).

Lemma change_lines_spec before after x :
  NoDup (composite_key <$> before) -> NoDup (composite_key <$> after) ->
  x ∈ (change_lines (keys before) (keys after) ++ added_lines (keys before) (keys after))%list
  <-> reported before after x.
Proof.
  intros Hb Ha. unfold change_lines, added_lines. rewrite elem_of_app, !list_elem_of_In, !in_concat. split.
  - intros [(ls & Hls & Hx)|(ls & Hls & Hx)]; apply in_map_iff in Hls as ([k l] & <- & Hin);
      apply list_elem_of_In, keys_entry in Hin as [Hl <-]; try done; cbn [fst snd] in Hx.
    + destruct (map_find _ (keys after)) as [r|] eqn:E.
      * apply keys_find in E as [Hr Ek]; [|done]. destruct (same_terms l r) eqn:Es; [done|].
        destruct Hx as [<-|[]]. by constructor.
      * destruct Hx as [<-|[]]. constructor; [done|]. by apply keys_missing.
    + unfold map_has in Hx. destruct (map_find _ (keys before)) as [l'|] eqn:E; [done|].
      destruct Hx as [<-|[]]. constructor; [done|]. by apply keys_missing.
  - assert (forall l0 r0, NoDup (composite_key <$> l0) -> r0 ∈ l0 -> In (composite_key r0, r0) (keys l0)) as Hin
      by (intros; apply list_elem_of_In, keys_entry; done).
    intros [l Hl Hn|l r Hl Hr Ek Es|r Hr Hn].
    + left. eexists. split; [apply in_map_iff; exists (composite_key l, l); split; [reflexivity|by apply Hin]|].
      cbn [fst snd]. apply keys_missing in Hn as ->. by left.
    + left. eexists. split; [apply in_map_iff; exists (composite_key l, l); split; [reflexivity|by apply Hin]|].
      cbn [fst snd]. rewrite (proj2 (keys_find after (composite_key l) r Ha)) by done. rewrite Es. by left.
    + right. eexists. split; [apply in_map_iff; exists (composite_key r, r); split; [reflexivity|by apply Hin]|].
      cbn [fst snd]. apply keys_missing in Hn. unfold map_has. rewrite Hn. by left.
Qed.

(** ** Properties *)

(** C17: a contract can be sealed and read back.  [seal] succeeds exactly on a readable file
    whose text it makes a valid contract of; when the sealed contract fits a document, the
    text printed for it is accepted by [validate --contract], which prints the identities,
    the digest and the counts of that same contract; [digest] prints its digest and the
    size of its canonical text; and sealing the printed text again prints it again. *)
Theorem seal_then_validate `{HH : Hashing} `{HHok : !HashingOk} (E : Environment) (prog path text : string) (c : Contract) :
  let sealing_run := main E [prog; "seal"; "--body"; path]%string in
  (exit_code sealing_run = 0 <-> exists t d, env_files E path = Some t /\ sealing t = Some d)
  /\ (env_files E path = Some text -> sealing text = Some c -> contract_fits c ->
      sealing_run = sealed_run c
      /\ forall E' file, env_files E' file = Some (out_text sealing_run) ->
         main E' [prog; "validate"; "--contract"; file]%string = outs (contract_lines c) (finish 0)
         /\ main E' [prog; "digest"; "--contract"; file]%string
            = outs [line ("digest=" ++ hex_encode (digest c));
                    line ("canonical_bytes=" ++ to_string (size (out_text sealing_run) - 1))] (finish 0)
         /\ main E' [prog; "seal"; "--body"; file]%string = sealing_run).
Proof.
  cbv zeta. change (main E [prog; "seal"; "--body"; path]%string) with (command_seal (env_files E) path).
  split; [apply seal_exit|]. intros Hf Hs Hfit. rewrite (seal_run _ _ _ _ Hf Hs Hfit). split; [done|].
  assert (out_text (sealed_run c) = line (dump (contract_to_json c))) as Eo.
  { unfold sealed_run. cbn [out out_text]. rewrite errs_out. apply append_nil_r. }
  rewrite Eo. destruct (sealed_text_decodes c (sealing_sealed _ _ Hs) Hfit) as [E1 E2].
  intros E' file Hf'. split_and!.
  - change (validate_contract_file (env_files E') file = outs (contract_lines c) (finish 0)).
    unfold validate_contract_file, with_contract, read_text_file. rewrite Hf', E2.
    by rewrite (se_valid _ (sealing_sealed _ _ Hs)).
  - change (with_contract (env_files E') "contract refused" file (fun c =>
        outs [line ("digest=" ++ hex_encode (digest c));
              line ("canonical_bytes=" ++ to_string (size (dump (contract_to_json c))))] (finish 0))
      = outs [line ("digest=" ++ hex_encode (digest c));
              line ("canonical_bytes=" ++ to_string (size (line (dump (contract_to_json c))) - 1))] (finish 0)).
    unfold with_contract, read_text_file. rewrite Hf', E2. by rewrite size_line.
  - change (command_seal (env_files E') file = sealed_run c). by eapply seal_run.
Qed.

(** A body in a file, and the network nobody answers on. *)
Definition no_network : Network := mk_network (fun _ _ => None) [] (fun _ => mk_peer [] 0).
Definition with_file (path text : string) : Environment :=
  mk_environment (fun p => if String.eqb p path then Some text else None) (repeat 7 16) 0 no_network.

Definition sample_body_text : string := dump (contract_body_to_json (body sample_valid)).
Definition sample_sealed : Contract := @canonicalize toy_hashing sample_valid.

Lemma seal_then_validate_witness :
  let run := @main toy_hashing (with_file "body.json" sample_body_text) ["wncctl"; "seal"; "--body"; "body.json"]%string in
  run = sealed_run sample_sealed
  /\ exit_code (@main toy_hashing (with_file "sealed.json" (out_text run))
                  ["wncctl"; "validate"; "--contract"; "sealed.json"]%string) = 0.
Proof.
  cbv zeta.
  destruct (@seal_then_validate toy_hashing toy_hashing_ok (with_file "body.json" sample_body_text) "wncctl" "body.json"
    sample_body_text sample_sealed) as [_ H].
  destruct H as [H1 H2]; [reflexivity|vm_compute; reflexivity|split; vm_compute; reflexivity|].
  split; [exact H1|]. destruct (H2 (with_file "sealed.json" (out_text (main (with_file "body.json" sample_body_text)
    ["wncctl"; "seal"; "--body"; "body.json"]%string))) "sealed.json"%string eq_refl) as (-> & _). reflexivity.
Defined.

(** The exit code and the streams.  Whatever the arguments, the files and the network, the
    tool ends with 0, 1, 2 or 3; it ends with 3 only in the two client commands, and then,
    as after every refusal of the other commands, standard output is empty and the error
    stream says why.  Two commands keep less of this: [explain] may have printed the
    contract when the evidence is refused, and [evaluate] ends with 1 without a word when
    the reply carries no evaluation. *)
Theorem refusals_explained `{Hashing} (E : Environment) (argv : list string) :
  let r := main E argv in
  let command := command_of argv in
  (exit_code r = 0 \/ exit_code r = 1 \/ exit_code r = 2 \/ exit_code r = 3)
  /\ (exit_code r = 3 -> command = "status"%string \/ command = "evaluate"%string)
  /\ (exit_code r <> 0 -> command <> "explain"%string -> command <> "evaluate"%string ->
        out_text r = EmptyString /\ err_text r <> EmptyString)
  /\ (exit_code r <> 0 -> command = "explain"%string -> err_text r <> EmptyString)
  /\ (exit_code r <> 0 -> command = "evaluate"%string ->
        err_text r <> EmptyString /\ out_text r = EmptyString \/ exit_code r = 1 /\ err_text r = EmptyString).
Proof.
  cbv zeta. pose proof (main_outcome E argv) as Ho. unfold outcome_of in Ho. set (r := main E argv) in *. clearbody r.
  destruct (String.eqb_spec (command_of argv) "status") as [->|H1].
  { unfold transport_failure in Ho. split_and!; try (intros; done); [tauto| |]; naive_solver. }
  destruct (String.eqb_spec (command_of argv) "evaluate") as [->|H2].
  { unfold transport_failure, refusal in Ho. split_and!; naive_solver. }
  destruct (String.eqb_spec (command_of argv) "explain") as [->|H3].
  { unfold explained in Ho. split_and!; naive_solver lia. }
  unfold settled, refusal in Ho. split_and!; naive_solver lia.
Qed.

(** The differences [diff] lists.  Of two contracts whose requirements have distinct keys it
    lists, besides the verdict and its reasons, exactly a line for every key that is gone,
    one for every key whose strength, bounds or values changed, and one for every new key.
    A change of the members, of the attributes or of anything outside the requirements has
    no line. *)
Theorem diff_lines_exact (before after : Contract) (x : string) :
  NoDup (composite_key <$> requirements (body before)) -> NoDup (composite_key <$> requirements (body after)) ->
  (exists listing,
     diff_lines before after
     = (line ("compatibility: " ++ verdict_text (verdict (check_compatibility (body before) (body after))))
        :: map (fun reason => line ("  " ++ c_str reason)) (reasons (compat_log (check_compatibility (body before) (body after))))
        ++ listing)%list
     /\ (x ∈ listing <-> reported (requirements (body before)) (requirements (body after)) x))
  /\ forall l r, same_terms l r = true <->
       strength l = strength r /\ deq (target l) (target r) = true /\ deq (minimum l) (minimum r) = true
       /\ value l = value r /\ preferred_value l = preferred_value r.
Proof.
  intros Hb Ha. split.
  - eexists. split; [reflexivity|]. by apply change_lines_spec.
  - intros l r. unfold same_terms. rewrite !andb_true_iff, strength_eqb_eq, !String.eqb_eq. tauto.
Qed.

Lemma diff_lines_exact_witness :
  let contract b := mk_contract b zero_digest default_envelope 0 zero_digest in
  change_line (latency_requirement kRequired 20 20) (latency_requirement kRequired 30 30)
  ∈ diff_lines (contract (latency_body 1 20)) (contract (latency_body 2 30)).
Proof.
  intros contract.
  set (l := hd default_requirement (requirements (latency_body 1 20))).
  set (r := hd default_requirement (requirements (latency_body 2 30))).
  destruct (diff_lines_exact (contract (latency_body 1 20)) (contract (latency_body 2 30)) (change_line l r))
    as [(listing & -> & [_ Hx]) _].
  - apply (bool_decide_unpack _). vm_compute. exact I.
  - apply (bool_decide_unpack _). vm_compute. exact I.
  - apply elem_of_cons. right. apply elem_of_app. right. apply Hx.
    apply changed; [left|left|reflexivity|vm_compute; reflexivity].
Defined.

(** Two contracts that differ in one attribute value only: [diff] lists nothing. *)
Definition zoned (zone : string) : Contract :=
  @canonicalize toy_hashing (mk_contract
    (sample_body [sample_scope "root"] [sample_requirement "root" "k" [("zone"%string, zone)]])
    zero_digest default_envelope 0 zero_digest).

Lemma diff_misses_attributes :
  let before := zoned "1" in
  let after := zoned "2" in
  digest_eqb (digest before) (digest after) = false
  /\ (change_lines (keys (requirements (body before))) (keys (requirements (body after)))
      ++ added_lines (keys (requirements (body before))) (keys (requirements (body after))))%list = [].
Proof. vm_compute. split; reflexivity. Qed.
