(* ===== verification/Runtime.v ===== *)
(** * The coordinator runtime

    Models [include/wnc/runtime.hpp] and [src/runtime.cpp]: the state of the coordinator,
    the five requests that change it, evaluation, the queries, and the replay of the
    journal when a state directory is opened.

    A method takes what the operating system does with its append ([Disk]), the files of
    the state directory, and the clock: [now n] is the [n]-th reading of the wall clock
    within the call.  It returns the new files, the new runtime and a result whose error is
    the code and message of the source's result structure. *)
From Stdlib Require Import ZArith Lia Ascii String.
From stdpp Require Import base numbers option list strings.
From S2P Require Import Prelude Identity Errors Hash Json JsonParser Signature Contract ContractValidate ContractDecode Policy Evaluation State Frame Ledger.

Definition kDomainRegistration : string := "wnc/v1/submission/registration".
Definition kDomainPublication : string := "wnc/v1/submission/publication".
Definition kDefaultEvidenceMaxAgeMillis : Z := 30000.
Definition kMaxRetainedGenerations : Z := 4096.

(** ** State *)
Record GenerationRecord := mk_generation {
  gr_generation : Z;
  gr_digest : Digest;
  gr_contract_id : ContractId;
  gr_body : Contract;
  gr_recorded : Z;
  gr_superseded : bool;
  gr_retired : bool
}.

Record StoredEvaluation := mk_stored {
  stored_evaluation : ContractEvaluation;
  stored_valid : bool;
  invalidation_reason : string
}.

Record WorkloadState := mk_workload_state {
  ws_id : WorkloadId;
  ws_name : string;
  ws_workload_generation : Z;
  ws_contract_generation : Z;
  ws_digest : Digest;
  ws_contract : ContractId;
  ws_policy_generation : Z;
  ws_evidence_generation : Z;
  ws_retired : bool;
  ws_generations : list GenerationRecord;
  ws_evidence : option EvidenceSet;
  ws_evaluation : option StoredEvaluation
}.

Definition empty_workload : WorkloadState :=
  mk_workload_state zero_id EmptyString 0 0 zero_digest zero_id 0 0 false [] None None.

(** [std::map<WorkloadId, WorkloadState>]. *)
Notation Workloads := (list (WorkloadId * WorkloadState)).

Record RuntimeState := mk_state {
  st_workloads : Workloads;
  st_policy : option Policy;
  st_policy_digest : Digest;
  st_policy_generation : Z;
  evidence_floor : Z;
  contract_floor : Z
}.

Definition empty_state : RuntimeState := mk_state [] None zero_digest 0 0 0.

Record RuntimeInfo := mk_info {
  info_coordinator : CoordinatorId;
  info_incarnation : Incarnation;
  info_epoch : Z;
  info_trust_digest : Digest;
  started_at : Z;
  info_recovered : bool;
  recovered_records : Z;
  info_truncated_bytes : Z
}.

Record Runtime := mk_runtime {
  info_ : RuntimeInfo;
  state_ : RuntimeState;
  trust_ : TrustSet;
  ledger_ : Ledger;
  evidence_max_age_millis_ : Z
}.

Definition with_workloads (st : RuntimeState) (w : Workloads) : RuntimeState :=
  mk_state w (st_policy st) (st_policy_digest st) (st_policy_generation st) (evidence_floor st) (contract_floor st).

Definition with_floor (st : RuntimeState) (floor : Z) : RuntimeState :=
  mk_state (st_workloads st) (st_policy st) (st_policy_digest st) (st_policy_generation st) floor (contract_floor st).

Definition with_state (R : Runtime) (st : RuntimeState) : Runtime :=
  mk_runtime (info_ R) st (trust_ R) (ledger_ R) (evidence_max_age_millis_ R).

Definition with_ledger (R : Runtime) (L : Ledger) : Runtime :=
  mk_runtime (info_ R) (state_ R) (trust_ R) L (evidence_max_age_millis_ R).

Definition find_workload (st : RuntimeState) (id : WorkloadId) : option WorkloadState :=
  map_find id (st_workloads st).

(** [state.workloads[id] = f(state.workloads[id])]. *)
Definition update_workload (w : Workloads) (id : WorkloadId) (f : WorkloadState -> WorkloadState) : Workloads :=
  map_insert id (f (default empty_workload (map_find id w))) w.

(** [if (evaluation.has_value()) { valid = false; invalidation_reason = reason; }] *)
Definition invalidate (reason : string) (e : option StoredEvaluation) : option StoredEvaluation :=
  (fun s => mk_stored (stored_evaluation s) false reason) <$> e.

Definition with_evaluation (w : WorkloadState) (e : option StoredEvaluation) : WorkloadState :=
  mk_workload_state (ws_id w) (ws_name w) (ws_workload_generation w) (ws_contract_generation w) (ws_digest w)
    (ws_contract w) (ws_policy_generation w) (ws_evidence_generation w) (ws_retired w) (ws_generations w)
    (ws_evidence w) e.

Definition supersede (g : GenerationRecord) : GenerationRecord :=
  mk_generation (gr_generation g) (gr_digest g) (gr_contract_id g) (gr_body g) (gr_recorded g) true (gr_retired g).

Definition retire_generation (g : GenerationRecord) : GenerationRecord :=
  mk_generation (gr_generation g) (gr_digest g) (gr_contract_id g) (gr_body g) (gr_recorded g)
    (gr_superseded g) true.

(** The record of a contract's generation. *)
Definition generation_of (c : Contract) (recorded : Z) : GenerationRecord :=
  mk_generation (generation (body c)) (digest c) (contract_id (body c)) c recorded false false.

(** [generations.back().body]; the program never keeps a workload without generations. *)
Definition current_contract (w : WorkloadState) : option Contract := gr_body <$> last (ws_generations w).

(** ** Messages and payloads *)

(** [for (const std::string& reason : reasons()) message.append("; ").append(reason)]. *)
Definition with_reasons (text : string) (log : DiagnosticLog) : string :=
  fold_left (fun m reason => String.append m (String.append "; " reason)) (reasons log) text.

Definition key_digest_payload (domain : string) (d : Digest) : Json :=
  set_all JNull [("domain"%string, JString domain); ("digest"%string, JString (hex_encode d))].

Definition submission_bytes (c : Contract) : string := dump (contract_body_to_json (body c)).

Definition signature_of (e : ContractEnvelope) : SignatureBytes :=
  mk_signature (env_algorithm e) (env_key_id e) (signature e).

Definition journal_decode_options : JsonDecodeOptions :=
  mk_options kMaxRecordBytes kMaxJsonDepth kMaxRecordBytes (require_object_option default_options)
    (allow_trailing_whitespace default_options).

Definition effective_max_age (configured : Z) : Z :=
  if configured =? 0 then kDefaultEvidenceMaxAgeMillis else configured.

(** ** Requests *)
Record RegisterResult := mk_register_result {
  reg_workload : WorkloadId;
  reg_workload_generation : Z;
  reg_contract : ContractId;
  reg_contract_generation : Z;
  reg_digest : Digest;
  reg_sequence : Z
}.

Record PublishResult := mk_publish_result {
  pub_workload : WorkloadId;
  pub_contract : ContractId;
  pub_generation : Z;
  pub_digest : Digest;
  pub_sequence : Z
}.

Record AttachEvidenceResult := mk_attach_result {
  att_evidence : EvidenceId;
  att_generation : Z;
  att_sequence : Z;
  invalidated_evaluations : Z
}.

Record RuntimePolicyResult := mk_runtime_policy_result {
  rp_policy : PolicyId;
  rp_generation : Z;
  rp_sequence : Z
}.

Section Runtime.
Context `{Hashing} `{Ed25519} `{Host}.

Definition commit (disk : Disk) (files : Files) (R : Runtime) (type : RecordType) (payload : Json)
    : Files * Runtime * result io_error Z :=
  let data := dump payload in
  if kMaxRecordBytes <? size data
  then (files, R, Err (kLedgerOversized, "record payload exceeds the configured bound"%string))
  else
    let '(files, L, r) := append disk files (ledger_ R) type (bytes_of_string data) in
    (files, with_ledger R L, r).

(** The block of [register_workload] and [publish] that asks the installed policy. *)
Definition policy_gate (st : RuntimeState) (b : ContractBody) : result io_error unit :=
  match st_policy st with
  | None => Ok tt
  | Some policy =>
      if negb (policy_generation b =? st_policy_generation st)
      then Err (kUnknownPolicy, "submitted policy generation is not the installed generation"%string)
      else
        let policy_check := check_contract_against_policy policy b in
        if negb (policy_ok policy_check)
        then Err (first_error_code (policy_log policy_check),
                  with_reasons "submitted contract violates the installed policy" (policy_log policy_check))
        else Ok tt
  end.

Definition validation_gate (c : Contract) : result io_error unit :=
  let validation := validate_contract c in
  if negb (validation_ok validation)
  then Err (first_error_code (diagnostics validation),
            with_reasons "submitted contract is not valid" (diagnostics validation))
  else Ok tt.

Definition signature_gate (trust : TrustSet) (domain : string) (c : Contract) : result io_error VerifyOutcome :=
  match verify_signature trust (publisher (envelope c)) domain (submission_bytes c) (signature_of (envelope c)) with
  | Err outcome => Err (outcome_code outcome, outcome_message outcome)
  | Ok outcome => Ok outcome
  end.

(** The checks of [register_workload] before its durability point. *)
Definition register_checks (R : Runtime) (c : Contract) : result io_error unit :=
  _ ← validation_gate c;
  _ ← require (generation (body c) =? 1)
        (kGenerationGap, "the first registration of a workload must be generation 1"%string);
  _ ← require (negb (has_supersedes c))
        (kStaleGeneration, "the first registration of a workload must not supersede anything"%string);
  _ ← signature_gate (trust_ R) kDomainRegistration c;
  _ ← policy_gate (state_ R) (body c);
  require (negb (map_has (wl_id (workload (body c))) (st_workloads (state_ R))))
    (kDuplicateWorkload, "workload already has a registered contract"%string).

Definition registration_payload (now : nat -> Z) (c : Contract) : Json :=
  set_all JNull
    [("workload"%string, JString (view (wl_id (workload (body c)))));
     ("contract_generation"%string, json_uint (generation (body c)));
     ("digest"%string, JString (hex_encode (digest c)));
     ("publisher"%string, JString (view (publisher (envelope c))));
     ("recorded_at_millis"%string, json_uint (now 0%nat));
     ("contract"%string, contract_to_json c);
     ("proof"%string, key_digest_payload kDomainRegistration (digest c))].

Definition registered_workload (c : Contract) (recorded : Z) : WorkloadState :=
  let b := body c in
  mk_workload_state (wl_id (workload b)) (wl_name (workload b)) (wl_generation (workload b)) (generation b)
    (digest c) (contract_id b) (policy_generation b) 0 false [generation_of c recorded] None None.

Definition register_workload (disk : Disk) (now : nat -> Z) (files : Files) (R : Runtime) (submitted : Contract)
    : Files * Runtime * result io_error RegisterResult :=
  let b := body submitted in
  match register_checks R submitted with
  | Err e => (files, R, Err e)
  | Ok _ =>
      let '(files, R, outcome) := commit disk files R kWorkloadRegistered (registration_payload now submitted) in
      match outcome with
      | Err e => (files, R, Err e)
      | Ok sequence =>
          let w := registered_workload submitted (now 1%nat) in
          let st := state_ R in
          (files, with_state R (with_workloads st (map_emplace (ws_id w) w (st_workloads st)).1),
           Ok (mk_register_result (wl_id (workload b)) (wl_generation (workload b)) (contract_id b) (generation b)
                 (digest submitted) sequence))
      end
  end.

(** The checks of [publish] before its durability point; they give the verified
    publisher. *)
Definition publish_checks (R : Runtime) (c : Contract) : result io_error PublisherId :=
  let b := body c in
  _ ← validation_gate c;
  match find_workload (state_ R) (wl_id (workload b)) with
  | None => Err (kUnknownWorkload, "no contract is registered for that workload"%string)
  | Some current =>
  match current_contract current with
  | None => Err (kInternalInvariant, EmptyString)
  | Some previous =>
      let expected := u64 (ws_contract_generation current + 1) in
      _ ← require (negb (ws_retired current))
            (kContractRetired, "workload is retired and accepts no further generations"%string);
      _ ← require (negb (generation b <? expected))
            (kReplayRejected, String.append "generation " (String.append (to_string (generation b))
               (String.append " was already applied; the next generation is " (to_string expected))));
      _ ← require (negb (expected <? generation b))
            (kGenerationGap, String.append "generation " (String.append (to_string (generation b))
               (String.append " skips past the next expected generation " (to_string expected))));
      _ ← require (has_supersedes c && (supersedes c =? ws_contract_generation current)
                   && digest_eqb (supersedes_digest c) (ws_digest current))
            (kStaleGeneration, "a superseding contract must name the current generation and its digest"%string);
      _ ← require (major b =? major (body previous))
            (kIncompatibleMajor, "a superseding contract must keep the major version"%string);
      verified ← signature_gate (trust_ R) kDomainPublication c;
      _ ← require (id_eqb (publisher (envelope previous)) (outcome_publisher verified))
            (kNotContractOwner, "only the publisher that owns the current generation may supersede it"%string);
      _ ← policy_gate (state_ R) b;
      let compatibility := check_compatibility (body previous) b in
      _ ← require (compatible compatibility)
            (first_error_code (compat_log compatibility),
             with_reasons "submitted contract is not compatible with the current generation" (compat_log compatibility));
      _ ← require (zlength (ws_generations current) <? kMaxRetainedGenerations)
            (kRetentionExceeded, "workload reached the retained generation bound"%string);
      Ok (outcome_publisher verified)
  end end.

Definition publication_payload (now : nat -> Z) (verified : PublisherId) (c : Contract) : Json :=
  set_all JNull
    [("workload"%string, JString (view (wl_id (workload (body c)))));
     ("contract_generation"%string, json_uint (generation (body c)));
     ("digest"%string, JString (hex_encode (digest c)));
     ("publisher"%string, JString (view verified));
     ("supersedes"%string, json_uint (supersedes c));
     ("supersedes_digest"%string, JString (hex_encode (supersedes_digest c)));
     ("recorded_at_millis"%string, json_uint (now 0%nat));
     ("contract"%string, contract_to_json c);
     ("proof"%string, key_digest_payload kDomainPublication (digest c))].

(** The new state of a workload; its name stays. *)
Definition published_workload (c : Contract) (recorded : Z) (w : WorkloadState) : WorkloadState :=
  let b := body c in
  mk_workload_state (ws_id w) (ws_name w) (wl_generation (workload b)) (generation b) (digest c)
    (contract_id b) (policy_generation b) (ws_evidence_generation w) (ws_retired w)
    (map supersede (ws_generations w) ++ [generation_of c recorded]) (ws_evidence w)
    (invalidate "the contract generation changed" (ws_evaluation w)).

Definition publish (disk : Disk) (now : nat -> Z) (files : Files) (R : Runtime) (submitted : Contract)
    : Files * Runtime * result io_error PublishResult :=
  let b := body submitted in
  match publish_checks R submitted with
  | Err e => (files, R, Err e)
  | Ok verified =>
      let '(files, R, outcome) :=
        commit disk files R kContractPublished (publication_payload now verified submitted) in
      match outcome with
      | Err e => (files, R, Err e)
      | Ok sequence =>
          let st := state_ R in
          let w := update_workload (st_workloads st) (wl_id (workload b)) (published_workload submitted (now 1%nat)) in
          (files, with_state R (with_workloads st w),
           Ok (mk_publish_result (wl_id (workload b)) (contract_id b) (generation b) (digest submitted) sequence))
      end
  end.

(** *** Evidence *)

(** The stamp of the entries; an entry without a time reads the clock.  The second
    component counts the readings. *)
Fixpoint stamp_entries (now : nat -> Z) (info : RuntimeInfo) (who : PublisherId) (reading : nat)
    (l : list EvidenceEntry) : list EvidenceEntry * nat :=
  match l with
  | [] => ([], reading)
  | e :: l' =>
      let '(produced, reading) := if ent_produced e =? 0 then (now reading, S reading) else (ent_produced e, reading) in
      let e := mk_entry (ent_scope e) (ent_id e) who (ent_generation e) (info_incarnation info) (info_epoch info)
                 produced (candidate e) kCurrent in
      let '(rest, reading) := stamp_entries now info who reading l' in (e :: rest, reading)
  end.

Definition stamp_evidence (now : nat -> Z) (info : RuntimeInfo) (submitted : EvidenceSet) : EvidenceSet * nat :=
  let '(l, reading) := stamp_entries now info (ev_publisher submitted) 0 (ev_entries submitted) in
  let stamped := mk_evidence (evidence_id submitted) (ev_generation submitted) (info_epoch info)
                   (ev_publisher submitted) (ev_produced submitted) l in
  (with_evidence_id stamped (derive_evidence_id (evidence_digest stamped)), reading).

Definition declares (w : WorkloadState) (e : EvidenceEntry) : bool :=
  match current_contract w with
  | None => false
  | Some c => existsb (fun s => String.eqb (sc_name s) (ent_scope e)) (scopes (body c))
  end.

(** [std::unique]. *)
Fixpoint unique_ids (l : list WorkloadId) : list WorkloadId :=
  match l with
  | a :: ((b :: _) as l') => if id_eqb a b then unique_ids l' else a :: unique_ids l'
  | _ => l
  end.

(** One entry of the affected list for each workload and each entry whose scope it
    declares, then sorted and reduced. *)
Definition affected (w : Workloads) (l : list EvidenceEntry) : list WorkloadId :=
  let hits p := if ws_retired p.2 then [] else map (fun _ => p.1) (List.filter (declares p.2) l) in
  unique_ids (std_sort std_less (concat (map hits w))).

Definition evidence_payload (now : Z) (stamped : EvidenceSet) : Json :=
  set_all JNull
    [("evidence"%string, evidence_to_json stamped); ("publisher"%string, JString (view (ev_publisher stamped)));
     ("recorded_at_millis"%string, json_uint now)].

Definition attach_to (stamped : EvidenceSet) (w : WorkloadState) : WorkloadState :=
  mk_workload_state (ws_id w) (ws_name w) (ws_workload_generation w) (ws_contract_generation w) (ws_digest w)
    (ws_contract w) (ws_policy_generation w) (ev_generation stamped) (ws_retired w) (ws_generations w)
    (Some stamped) (invalidate "the evidence generation changed" (ws_evaluation w)).

Definition attach_checks (R : Runtime) (submitted : EvidenceSet) : result io_error unit :=
  let floor := evidence_floor (state_ R) in
  _ ← require (negb (zlength (ev_entries submitted) =? 0))
        (kEvaluationNoEvidence, "evidence carries no entries"%string);
  _ ← require (negb (negb (ev_generation submitted =? 0) && (ev_generation submitted <=? floor)))
        (kEvidenceGenerationBackwards,
         String.append "evidence generation does not advance past " (to_string floor));
  match find_issuer (trust_ R) (ev_publisher submitted) with
  | None => Err (kPublisherNotTrusted, "evidence publisher is not present in the trust set"%string)
  | Some _ => Ok tt
  end.

Definition attach_evidence (disk : Disk) (now : nat -> Z) (files : Files) (R : Runtime) (submitted : EvidenceSet)
    : Files * Runtime * result io_error AttachEvidenceResult :=
  match attach_checks R submitted with
  | Err e => (files, R, Err e)
  | Ok _ =>
      let '(stamped, reading) := stamp_evidence now (info_ R) submitted in
      let ids := affected (st_workloads (state_ R)) (ev_entries stamped) in
      let '(files, R, outcome) :=
        commit disk files R kEvidenceAttached (evidence_payload (now reading) stamped) in
      match outcome with
      | Err e => (files, R, Err e)
      | Ok sequence =>
          let st := state_ R in
          let has_decision id := match map_find id (st_workloads st) with
                                 | Some w => is_some (ws_evaluation w) | None => false end in
          let w := fold_left (fun w id => update_workload w id (attach_to stamped)) ids (st_workloads st) in
          (files, with_state R (with_floor (with_workloads st w) (ev_generation stamped)),
           Ok (mk_attach_result (evidence_id stamped) (ev_generation submitted) sequence
                 (zlength (List.filter has_decision ids))))
      end
  end.

(** *** Policies *)
Definition policy_payload (now : nat -> Z) (p : Policy) : Json :=
  set_all JNull
    [("policy"%string, policy_to_json p); ("digest"%string, JString (hex_encode (policy_digest p)));
     ("recorded_at_millis"%string, json_uint (now 0%nat))].

Definition install_checks (R : Runtime) (p : Policy) : result io_error unit :=
  let st := state_ R in
  let validation := validate_policy p in
  _ ← require (policy_ok validation)
        (first_error_code (policy_log validation), with_reasons "policy is not valid" (policy_log validation));
  match st_policy st with
  | None => Ok tt
  | Some installed =>
      _ ← require (negb (pol_generation p <? st_policy_generation st))
            (kStaleGeneration, "policy generation is behind the installed generation"%string);
      require (negb ((pol_generation p =? st_policy_generation st)
                     && negb (id_eqb (policy_id p) (policy_id installed))))
        (kDuplicateWorkload, "policy generation is already installed with different content"%string)
  end.

Definition install_policy (disk : Disk) (now : nat -> Z) (files : Files) (R : Runtime) (p : Policy)
    : Files * Runtime * result io_error RuntimePolicyResult :=
  match install_checks R p with
  | Err e => (files, R, Err e)
  | Ok _ =>
      let '(files, R, outcome) := commit disk files R kPolicyInstalled (policy_payload now p) in
      match outcome with
      | Err e => (files, R, Err e)
      | Ok sequence =>
          let st := state_ R in
          let w := map (fun entry => (entry.1, with_evaluation entry.2
                     (invalidate "the policy generation changed" (ws_evaluation entry.2)))) (st_workloads st) in
          (files,
           with_state R (mk_state w (Some p) (policy_digest p) (pol_generation p) (evidence_floor st)
                           (contract_floor st)),
           Ok (mk_runtime_policy_result (policy_id p) (pol_generation p) sequence))
      end
  end.

(** *** Retirement *)
Definition retirement_payload (now : nat -> Z) (id : WorkloadId) : Json :=
  set_all JNull
    [("workload"%string, JString (view id)); ("recorded_at_millis"%string, json_uint (now 0%nat))].

Definition retired_workload (w : WorkloadState) : WorkloadState :=
  mk_workload_state (ws_id w) (ws_name w) (ws_workload_generation w) (ws_contract_generation w) (ws_digest w)
    (ws_contract w) (ws_policy_generation w) (ws_evidence_generation w) true
    (map retire_generation (ws_generations w)) (ws_evidence w)
    (invalidate "the workload was retired" (ws_evaluation w)).

Definition retire_checks (R : Runtime) (id : WorkloadId) : result io_error unit :=
  match find_workload (state_ R) id with
  | None => Err (kUnknownWorkload, "no contract is registered for that workload"%string)
  | Some w => require (negb (ws_retired w)) (kContractRetired, "workload is already retired"%string)
  end.

Definition retire (disk : Disk) (now : nat -> Z) (files : Files) (R : Runtime) (id : WorkloadId)
    : Files * Runtime * result io_error Z :=
  match retire_checks R id with
  | Err e => (files, R, Err e)
  | Ok _ =>
      let '(files, R, outcome) := commit disk files R kWorkloadRetired (retirement_payload now id) in
      match outcome with
      | Err e => (files, R, Err e)
      | Ok sequence =>
          let st := state_ R in
          (files, with_state R (with_workloads st (update_workload (st_workloads st) id retired_workload)), Ok sequence)
      end
  end.

(** ** Evaluation *)
Record EvaluationResult := mk_evaluation_result {
  res_code : Code;
  res_message : string;
  res_evaluation : ContractEvaluation
}.

Definition unknown_workload : io_error :=
  (kUnknownWorkload, "no contract is registered for that workload"%string).

(** The verdict of one requirement for which no evidence was ever supplied. *)
Definition unsupplied (r : Requirement) : RequirementEvaluation :=
  let inert := strength_eqb (strength r) kInformational in
  mk_req_evaluation (req_id r) (scope r) (kind r) (strength r)
    (if inert then kNotApplicable else Contract.kUnknown)
    (if inert then kOk else kEvaluationNoEvidence)
    (if inert then "informational requirements are recorded but not evaluated"
     else String.append "no evidence has been supplied for scope '" (String.append (scope r) "'"))
    zero_id 0 kRevalidationNeeded None.

Definition count_unsupplied (s : EvaluationSummary) (e : RequirementEvaluation) : EvaluationSummary :=
  let required := strength_eqb (re_strength e) kRequired in
  let preferred := strength_eqb (re_strength e) kPreferred in
  let other := negb required && negb preferred in
  mk_summary (required_total s + one_if required) (required_satisfied s) (required_unsatisfied s)
    (required_unknown s + one_if required) (preferred_satisfied s) (preferred_unsatisfied s)
    (preferred_unknown s + one_if preferred) (informational s + one_if other) (not_applicable s + one_if other).

Definition no_evidence (now : nat -> Z) (R : Runtime) (id : WorkloadId) (c : Contract) : ContractEvaluation :=
  let b := body c in
  let verdicts := map unsupplied (requirements b) in
  mk_evaluation id (contract_id b) (generation b) (digest c) (policy_generation b) 0
    (info_incarnation (info_ R)) (info_epoch (info_ R)) (now 0%nat) Contract.kUnknown
    (fold_left count_unsupplied verdicts empty_summary) verdicts.

(** The cached decision of a workload, when it may be served. *)
Definition cached (R : Runtime) (w : WorkloadState) (c : Contract) : option ContractEvaluation :=
  match ws_evaluation w with
  | None => None
  | Some stored =>
      let e := stored_evaluation stored in
      if stored_valid stored && incarnation_eqb (evaluated_by e) (info_incarnation (info_ R))
         && digest_eqb (eval_digest e) (digest c)
         && (eval_policy_generation e =? policy_generation (body c))
         && (eval_evidence_generation e =? ws_evidence_generation w)
      then Some e else None
  end.

(** The evidence an evaluation with supplied evidence runs on. *)
Definition restamp (info : RuntimeInfo) (ev : EvidenceSet) : EvidenceSet :=
  mk_evidence (evidence_id ev) (ev_generation ev) (info_epoch info) (ev_publisher ev) (ev_produced ev)
    (map (fun e => mk_entry (ent_scope e) (ent_id e) (ent_publisher e) (ent_generation e) (info_incarnation info)
                     (info_epoch info) (ent_produced e) (candidate e) (freshness e)) (ev_entries ev)).

Definition evaluated (now : nat -> Z) (reading : nat) (R : Runtime) (c : Contract) (ev : EvidenceSet)
    : result io_error EvaluationResult :=
  Ok (mk_evaluation_result kOk
        (String.append "evaluated against evidence generation " (to_string (ev_generation ev)))
        (evaluate_contract c ev (info_incarnation (info_ R)) (now reading) (evidence_max_age_millis_ R))).

Definition evaluate_internal (now : nat -> Z) (R : Runtime) (w : WorkloadState) (supplied : option EvidenceSet)
    (allow_cached : bool) : result io_error EvaluationResult :=
  match current_contract w with
  | None => Err (kInternalInvariant, EmptyString)
  | Some c =>
      match (if allow_cached then cached R w c else None) with
      | Some e => Ok (mk_evaluation_result kOk "cached decision for the current generations" e)
      | None =>
          match supplied with
          | Some ev =>
              let '(ev, validated) := validate_evidence (restamp (info_ R) ev) (body c) (info_incarnation (info_ R))
                                        (now 0%nat) (evidence_max_age_millis_ R) in
              if negb (evidence_ok validated)
              then Err (first_error_code (evidence_log validated),
                        with_reasons "supplied evidence was rejected" (evidence_log validated))
              else evaluated now 1 R c ev
          | None =>
              match ws_evidence w with
              | Some ev => evaluated now 0 R c ev
              | None =>
                  Ok (mk_evaluation_result kEvaluationNoEvidence
                        "no evidence is available; every required verdict is unknown"
                        (no_evidence now R (ws_id w) c))
              end
          end
      end
  end.

Definition evaluate (now : nat -> Z) (R : Runtime) (id : WorkloadId) : result io_error EvaluationResult :=
  match find_workload (state_ R) id with
  | None => Err unknown_workload
  | Some w => evaluate_internal now R w None true
  end.

Definition evaluate_with_evidence (now : nat -> Z) (R : Runtime) (id : WorkloadId) (ev : EvidenceSet)
    : result io_error EvaluationResult :=
  match find_workload (state_ R) id with
  | None => Err unknown_workload
  | Some w => evaluate_internal now R w (Some ev) false
  end.

(** ** Queries *)
Record GenerationHistory := mk_history {
  gh_generation : Z;
  gh_digest : Digest;
  gh_contract_id : ContractId;
  gh_recorded : Z;
  gh_superseded : bool;
  gh_retired : bool
}.

Record WorkloadSnapshot := mk_workload_snapshot {
  wsn_id : WorkloadId;
  wsn_name : string;
  wsn_workload_generation : Z;
  wsn_contract_generation : Z;
  wsn_digest : Digest;
  wsn_contract : ContractId;
  wsn_policy_generation : Z;
  wsn_evidence_generation : Z;
  wsn_retired : bool;
  wsn_history : list GenerationHistory
}.

Definition history_of (g : GenerationRecord) : GenerationHistory :=
  mk_history (gr_generation g) (gr_digest g) (gr_contract_id g) (gr_recorded g) (gr_superseded g) (gr_retired g).

Definition snapshot (R : Runtime) (id : WorkloadId) : option WorkloadSnapshot :=
  match find_workload (state_ R) id with
  | None => None
  | Some w => Some (mk_workload_snapshot (ws_id w) (ws_name w) (ws_workload_generation w) (ws_contract_generation w)
                      (ws_digest w) (ws_contract w) (ws_policy_generation w) (ws_evidence_generation w)
                      (ws_retired w) (map history_of (ws_generations w)))
  end.

Definition contract_at (R : Runtime) (id : WorkloadId) (g : Z) : option Contract :=
  match find_workload (state_ R) id with
  | None => None
  | Some w => gr_body <$> List.find (fun r => gr_generation r =? g) (ws_generations w)
  end.

Definition workloads (R : Runtime) : list WorkloadId := map fst (st_workloads (state_ R)).

(** One record of the loop of [verify_history]. *)
Definition check_record (st : RuntimeState) (r : LedgerRecord) : result io_error unit :=
  if negb (r_type r =? kContractPublished) && negb (r_type r =? kWorkloadRegistered) then Ok tt
  else
    let record := String.append "record " (to_string (r_sequence r)) in
    match json_decode (string_of_bytes (r_payload r)) default_options with
    | Err _ => Err (kLedgerCorrupt, String.append record " is not canonical JSON")
    | Ok v =>
        match find v "workload", find v "contract_generation", find v "digest" with
        | Some id, Some g, Some d =>
            match parse_id (as_string id) with
            | None => Err (kLedgerCorrupt, String.append record " names an invalid workload")
            | Some id =>
                match find_workload st id with
                | None => Err (kIndexMismatch, "journal holds a contract for a workload the index does not"%string)
                | Some w =>
                    if existsb (fun x => (gr_generation x =? u64 (as_int g))
                                         && String.eqb (hex_encode (gr_digest x)) (as_string d)) (ws_generations w)
                    then Ok tt
                    else Err (kIndexMismatch, "journal and index disagree about a contract generation"%string)
                end
            end
        | _, _, _ => Err (kLedgerCorrupt, String.append record " is missing contract fields")
        end
    end.

Definition verify_history (listable : bool) (files : Files) (R : Runtime) : result io_error unit :=
  match read_all listable files with
  | Err (_, e) => Err e
  | Ok (records, report) =>
      if recovered report
      then Err (kLedgerTruncated, String.append "journal has a torn tail: " (detail report))
      else result_fold (fun _ r => check_record (state_ R) r) tt records
  end.

(** ** Replay

    One record of the journal applied to the state: the [switch] of [Runtime::open]. *)
Definition corrupt {A} (text : string) : result io_error A := Err (kLedgerCorrupt, text).

Definition replayed_workload (c : Contract) (recorded : Z) (w : WorkloadState) : WorkloadState :=
  let b := body c in
  let older g := if gr_generation g <? generation b then supersede g else g in
  mk_workload_state (wl_id (workload b)) (wl_name (workload b)) (wl_generation (workload b)) (generation b)
    (digest c) (contract_id b) (policy_generation b) (ws_evidence_generation w) (ws_retired w)
    (map older (ws_generations w) ++ [generation_of c recorded]) (ws_evidence w) (ws_evaluation w).

Definition replay_contract (st : RuntimeState) (payload : Json) : result io_error RuntimeState :=
  match find payload "contract" with
  | None => corrupt "contract record has no contract body"
  | Some contract_json =>
      match contract_from_json contract_json with
      | Err e => corrupt (String.append "contract record cannot be decoded: " e.2)
      | Ok c =>
          let id := wl_id (workload (body c)) in
          let w := default empty_workload (find_workload st id) in
          let recorded := match find payload "recorded_at_millis" with
                          | Some (JInt i) => u64 i | _ => 0 end in
          match last (ws_generations w) with
          | Some newest =>
              if gr_generation newest =? generation (body c)
              then Err (kDuplicateWorkload,
                        String.append "journal repeats contract generation " (to_string (generation (body c))))
              else Ok (with_workloads st (update_workload (st_workloads st) id (replayed_workload c recorded)))
          | None => Ok (with_workloads st (update_workload (st_workloads st) id (replayed_workload c recorded)))
          end
      end
  end.

Definition mark_retired (w : WorkloadState) : WorkloadState :=
  mk_workload_state (ws_id w) (ws_name w) (ws_workload_generation w) (ws_contract_generation w) (ws_digest w)
    (ws_contract w) (ws_policy_generation w) (ws_evidence_generation w) true (ws_generations w) (ws_evidence w)
    (ws_evaluation w).

Definition replay_retirement (st : RuntimeState) (payload : Json) : result io_error RuntimeState :=
  match find payload "workload" with
  | Some (JString text) =>
      match parse_id text with
      | None => corrupt "retirement record names an invalid workload identity"
      | Some id =>
          if map_has id (st_workloads st)
          then Ok (with_workloads st (update_workload (st_workloads st) id mark_retired))
          else corrupt "retirement record names an unknown workload"
      end
  | _ => corrupt "retirement record has no workload identity"
  end.

(** Every entry of a restored evidence set has to be revalidated. *)
Definition restored_evidence (ev : EvidenceSet) : EvidenceSet :=
  with_entries ev (map (fun e => with_freshness e kRevalidationNeeded) (ev_entries ev)).

Definition restore_to (ev : EvidenceSet) (w : WorkloadState) : WorkloadState :=
  mk_workload_state (ws_id w) (ws_name w) (ws_workload_generation w) (ws_contract_generation w) (ws_digest w)
    (ws_contract w) (ws_policy_generation w) (ev_generation ev) (ws_retired w) (ws_generations w)
    (Some ev) None.

Definition replay_evidence (st : RuntimeState) (payload : Json) : result io_error RuntimeState :=
  match find payload "evidence" with
  | None => corrupt "evidence record has no evidence body"
  | Some evidence_json =>
      match evidence_from_json evidence_json with
      | Err e => corrupt (String.append "evidence record cannot be decoded: " e.2)
      | Ok ev =>
          let ev := restored_evidence ev in
          let hit p := existsb (declares p.2) (ev_entries ev) in
          let ids := map fst (List.filter hit (st_workloads st)) in
          if zlength ids =? 0 then Ok st
          else
            let w := fold_left (fun w id => if map_has id w then update_workload w id (restore_to ev) else w)
                       ids (st_workloads st) in
            let floor := if evidence_floor st <? ev_generation ev then ev_generation ev else evidence_floor st in
            Ok (with_floor (with_workloads st w) floor)
      end
  end.

Definition replay_policy (st : RuntimeState) (payload : Json) : result io_error RuntimeState :=
  match find payload "policy" with
  | None => corrupt "policy record has no policy body"
  | Some policy_json =>
      match policy_from_json policy_json with
      | Err e => corrupt (String.append "policy record cannot be decoded: " e.2)
      | Ok p => Ok (mk_state (st_workloads st) (Some p) (policy_digest p) (pol_generation p) (evidence_floor st)
                      (contract_floor st))
      end
  end.

(** The default member initialisers. *)
Definition empty_evaluation : ContractEvaluation :=
  mk_evaluation zero_id zero_id 0 zero_digest 0 0 zero_incarnation 0 0 Contract.kUnknown empty_summary [].

Definition restore_evaluation (w : WorkloadState) : WorkloadState :=
  with_evaluation w
    (Some (mk_stored (match ws_evaluation w with Some s => stored_evaluation s | None => empty_evaluation end) false
             "restored from durable history after a coordinator restart")).

Definition replay_evaluation (st : RuntimeState) (payload : Json) : result io_error RuntimeState :=
  match find payload "workload", find payload "evaluation" with
  | Some (JString text), Some _ =>
      match parse_id text with
      | None => corrupt "evaluation record names an invalid workload identity"
      | Some id =>
          if map_has id (st_workloads st)
          then Ok (with_workloads st (update_workload (st_workloads st) id restore_evaluation))
          else corrupt "evaluation record names an unknown workload"
      end
  | _, _ => corrupt "evaluation record is incomplete"
  end.

Definition replay_payload (st : RuntimeState) (type : RecordType) (sequence : Z) (payload : Json)
    : result io_error RuntimeState :=
  if type =? kGenesis then Ok st
  else if (type =? kWorkloadRegistered) || (type =? kContractPublished) then replay_contract st payload
  else if type =? kWorkloadRetired then replay_retirement st payload
  else if type =? kEvidenceAttached then replay_evidence st payload
  else if type =? kPolicyInstalled then replay_policy st payload
  else if type =? kEvaluationRecorded then replay_evaluation st payload
  else Err (kLedgerIncompatible, String.append "journal record "
         (String.append (to_string sequence) " has a record type this build does not define")).

Definition replay_record (st : RuntimeState) (r : LedgerRecord) : result io_error RuntimeState :=
  match json_decode (string_of_bytes (r_payload r)) journal_decode_options with
  | Ok (JObject m) => replay_payload st (r_type r) (r_sequence r) (JObject m)
  | _ => Err (kLedgerCorrupt, String.append "journal record "
           (String.append (to_string (r_sequence r)) " does not hold a canonical JSON object"))
  end.

(** The loop that clears derived decisions. *)
Definition clear_decision (w : WorkloadState) : WorkloadState :=
  with_evaluation w
    ((fun s => mk_stored (stored_evaluation s) false
                 (if is_empty (invalidation_reason s)
                  then "the coordinator restarted; the decision must be recomputed" else invalidation_reason s))
     <$> ws_evaluation w).

(** ** Opening *)
Record Options := mk_runtime_options {
  state_directory : string;
  opt_trust : TrustSet;
  opt_evidence_max_age_millis : Z;
  opt_max_sessions : Z
}.

Definition coordinator_identity (trust : TrustSet) : CoordinatorId :=
  from_digest (sha256_parts
    ["wnc/v1/coordinator"%string; view (tool_identity "wnc-coordinator"); hex_encode (Signature.trust_digest trust)]).

(** The sequence a usable snapshot stands for. *)
Definition snapshot_sequence (files : Files) (L : Ledger) : result io_error Z :=
  match read_snapshot files with
  | Err e => Err e
  | Ok None => Ok 0
  | Ok (Some sn) =>
      if last_sequence (head_ L) <? sn_sequence sn
      then Err (kRecoveryRequired, "snapshot is ahead of the durable journal sequence"%string)
      else match json_decode (string_of_bytes (sn_payload sn)) default_options with
           | Ok (JObject _) => Ok (sn_sequence sn)
           | _ => Ok 0
           end
  end.

Definition open_runtime (boot : Boot) (now : nat -> Z) (files : Files) (options : Options)
    : Files * result io_error Runtime :=
  if is_empty (state_directory options)
  then (files, Err (kStateUnavailable, "a state directory is required"%string))
  else
    let trust := opt_trust options in
    let owner := coordinator_identity trust in
    let '(files, r) := open_ledger boot files owner (Signature.trust_digest trust) in
    match r with
    | Err e => (files, Err e)
    | Ok (L, recovery) =>
        let info := mk_info owner (incarnation (head_ L)) (epoch (head_ L)) (Signature.trust_digest trust) (now 0%nat)
                      (recovered recovery) (valid_records recovery) (truncated_bytes recovery) in
        (files,
         sequence ← snapshot_sequence files L;
         match read_after (listable boot) files sequence with
         | Err (_, e) => Err e
         | Ok (records, _) =>
             st ← result_fold replay_record empty_state records;
             Ok (mk_runtime info
                   (with_workloads st (map (fun p => (p.1, clear_decision p.2)) (st_workloads st)))
                   trust L (effective_max_age (opt_evidence_max_age_millis options)))
         end)
    end.

End Runtime.
