(* ===== verification/Authority.v ===== *)
(** * What a running coordinator maintains

    The requests of Runtime.v as transactions: checks, one journal record, one change of the
    state.  Proves the invariant of the state every request keeps, what an acknowledgement
    means for the journal, and that every later generation keeps the terms of what a
    published contract requires. *)
From Stdlib Require Import ZArith Lia Ascii String.
From stdpp Require Import base numbers option list strings sets relations.
From S2P Require Import Prelude Doubles Identity Errors Hash Json JsonParser Signature Contract ContractValidate ContractDecode Policy Evaluation State Frame Ledger Boot Journal Recovery Runtime.

(** ** Lemmas on maps *)
Section MapFacts.
Context {K V : Type} `{StdLessOk K} (P : K * V -> Prop).

Lemma map_insert_Forall k v (m : list (K * V)) : P (k, v) -> Forall P m -> Forall P (map_insert k v m).
Proof.
  intros Hp. induction 1 as [|[k' v'] m Hk Hm IH]; simpl; [by constructor|].
  destruct (std_less k k') eqn:E1; [by do 2 (constructor; [done|])|].
  destruct (std_less k' k) eqn:E2; [by constructor|]. pose proof (std_less_total _ _ E1 E2) as <-. by constructor.
Qed.

Lemma map_find_Forall k v (m : list (K * V)) : Forall P m -> map_find k m = Some v -> P (k, v).
Proof.
  intros Hm Hf. apply map_find_Some_in in Hf. rewrite Forall_forall in Hm. by apply Hm.
Qed.

End MapFacts.

Lemma map_values_sorted {K V} `{StdLess K} (f : V -> V) (m : list (K * V)) :
  keys_sorted m -> keys_sorted (map (fun p => (p.1, f p.2)) m).
Proof.
  induction m as [|[k v] m IH]; [done|]. intros [Hlt Hs]. split; [|by apply IH].
  rewrite Forall_map. exact Hlt.
Qed.

(** ** Requests *)
Inductive request :=
| RegisterRequest (c : Contract)
| PublishRequest (c : Contract)
| AttachRequest (ev : EvidenceSet)
| PolicyRequest (p : Policy)
| RetireRequest (id : WorkloadId).

Definition map_ok {E A B} (f : A -> B) (r : result E A) : result E B :=
  match r with Ok a => Ok (f a) | Err e => Err e end.

Section Requests.
Context `{Hashing} `{Ed25519} `{Host}.

(** The handler of a request; the result is the sequence it was given. *)
Definition perform (disk : Disk) (now : nat -> Z) (files : Files) (R : Runtime) (q : request)
    : Files * Runtime * result io_error Z :=
  match q with
  | RegisterRequest c => let '(f, R, r) := register_workload disk now files R c in (f, R, map_ok reg_sequence r)
  | PublishRequest c => let '(f, R, r) := publish disk now files R c in (f, R, map_ok pub_sequence r)
  | AttachRequest ev => let '(f, R, r) := attach_evidence disk now files R ev in (f, R, map_ok att_sequence r)
  | PolicyRequest p => let '(f, R, r) := install_policy disk now files R p in (f, R, map_ok rp_sequence r)
  | RetireRequest id => retire disk now files R id
  end.

(** What a request does to the state once its record is durable. *)
Definition effect (now : nat -> Z) (info : RuntimeInfo) (q : request) (st : RuntimeState) : RuntimeState :=
  match q with
  | RegisterRequest c =>
      let w := registered_workload c (now 1%nat) in
      with_workloads st (map_emplace (ws_id w) w (st_workloads st)).1
  | PublishRequest c =>
      with_workloads st (update_workload (st_workloads st) (wl_id (workload (body c)))
                           (published_workload c (now 1%nat)))
  | AttachRequest ev =>
      let stamped := (stamp_evidence now info ev).1 in
      with_floor (with_workloads st
        (fold_left (fun w id => update_workload w id (attach_to stamped))
           (affected (st_workloads st) (ev_entries stamped)) (st_workloads st))) (ev_generation stamped)
  | PolicyRequest p =>
      mk_state (map (fun entry => (entry.1, with_evaluation entry.2
                  (invalidate "the policy generation changed" (ws_evaluation entry.2)))) (st_workloads st))
        (Some p) (policy_digest p) (pol_generation p) (evidence_floor st) (contract_floor st)
  | RetireRequest id => with_workloads st (update_workload (st_workloads st) id retired_workload)
  end.

Definition request_type (q : request) : RecordType :=
  match q with
  | RegisterRequest _ => kWorkloadRegistered
  | PublishRequest _ => kContractPublished
  | AttachRequest _ => kEvidenceAttached
  | PolicyRequest _ => kPolicyInstalled
  | RetireRequest _ => kWorkloadRetired
  end.

(** The checks of a request and the record it appends. *)
Definition plan (now : nat -> Z) (R : Runtime) (q : request) : result io_error (RecordType * Json) :=
  match q with
  | RegisterRequest c => _ ← register_checks R c; Ok (kWorkloadRegistered, registration_payload now c)
  | PublishRequest c => verified ← publish_checks R c; Ok (kContractPublished, publication_payload now verified c)
  | AttachRequest ev =>
      _ ← attach_checks R ev;
      let '(stamped, reading) := stamp_evidence now (info_ R) ev in
      Ok (kEvidenceAttached, evidence_payload (now reading) stamped)
  | PolicyRequest p => _ ← install_checks R p; Ok (kPolicyInstalled, policy_payload now p)
  | RetireRequest id => _ ← retire_checks R id; Ok (kWorkloadRetired, retirement_payload now id)
  end.

(** A commit touches the ledger and the files only. *)
Lemma commit_frame disk files R type payload :
  let '(_, R', _) := commit disk files R type payload in
  info_ R' = info_ R /\ state_ R' = state_ R /\ trust_ R' = trust_ R
  /\ evidence_max_age_millis_ R' = evidence_max_age_millis_ R.
Proof. unfold commit. case_bool; [done|]. by destruct (append _ _ _ _ _) as [[f L] r]. Qed.

(** Every request is the same transaction. *)
Lemma perform_plan disk now files R q :
  perform disk now files R q =
    match plan now R q with
    | Err e => (files, R, Err e)
    | Ok (type, payload) =>
        let '(files, R', outcome) := commit disk files R type payload in
        match outcome with
        | Err e => (files, R', Err e)
        | Ok sequence => (files, with_state R' (effect now (info_ R) q (state_ R')), Ok sequence)
        end
    end.
Proof.
  destruct q as [c|c|ev|p|id]; cbn [perform plan].
  - unfold register_workload. destruct (register_checks R c); [|reflexivity]. cbn [mbind result_bind].
    by destruct (commit _ _ _ _ _) as [[files' R'] [s|e]].
  - unfold publish. destruct (publish_checks R c); [|reflexivity]. cbn [mbind result_bind].
    by destruct (commit _ _ _ _ _) as [[files' R'] [s|e]].
  - unfold attach_evidence, effect. destruct (attach_checks R ev); [|reflexivity]. cbn [mbind result_bind].
    destruct (stamp_evidence now (info_ R) ev) as [stamped reading] eqn:Es.
    pose proof (commit_frame disk files R kEvidenceAttached (evidence_payload (now reading) stamped)) as C.
    destruct (commit _ _ _ _ _) as [[files' R'] [s|e]]; [|reflexivity]. destruct C as (_ & Es' & _).
    cbn [map_ok fst]. rewrite Es'. reflexivity.
  - unfold install_policy. destruct (install_checks R p); [|reflexivity]. cbn [mbind result_bind].
    by destruct (commit _ _ _ _ _) as [[files' R'] [s|e]].
  - unfold retire. destruct (retire_checks R id); [|reflexivity]. cbn [mbind result_bind].
    by destruct (commit _ _ _ _ _) as [[files' R'] [s|e]].
Qed.

Lemma plan_type now R q type payload : plan now R q = Ok (type, payload) -> type = request_type q.
Proof using.
  destruct q as [c|c|ev|p|id]; cbn [plan request_type].
  - destruct (register_checks R c); [|done]. by intros [= <- _].
  - destruct (publish_checks R c); [|done]. by intros [= <- _].
  - destruct (attach_checks R ev); [|done]. cbn [mbind result_bind].
    destruct (stamp_evidence _ _ _). by intros [= <- _].
  - destruct (install_checks R p); [|done]. by intros [= <- _].
  - destruct (retire_checks R id); [|done]. by intros [= <- _].
Qed.

Lemma request_type_range q : 0 <= request_type q < 2 ^ 16.
Proof using. destruct q; vm_compute; split; done || discriminate. Qed.

(** A request changes the state exactly when it is acknowledged. *)
Lemma perform_cases disk now files R q :
  let '(_, R', r) := perform disk now files R q in
  info_ R' = info_ R /\ trust_ R' = trust_ R
  /\ match r with
     | Ok _ => is_ok (plan now R q) = true /\ state_ R' = effect now (info_ R) q (state_ R)
     | Err _ => state_ R' = state_ R
     end.
Proof.
  rewrite perform_plan. destruct (plan now R q) as [[type payload]|e]; [|done].
  pose proof (commit_frame disk files R type payload) as C.
  destruct (commit disk files R type payload) as [[files' R'] [s|e]]; destruct C as (Hi & Hs & Ht & _);
    cbn [with_state info_ state_ trust_ is_ok]; rewrite ?Hs; by split_and!.
Qed.

(** ** The invariant *)

(** A contract accepted as generation [g] of workload [id], under the trust set. *)
Record generation_ok (trust : TrustSet) (id : WorkloadId) (g : GenerationRecord) : Prop := {
  go_generation : gr_generation g = generation (body (gr_body g));
  go_digest : gr_digest g = digest (gr_body g);
  go_contract : gr_contract_id g = contract_id (body (gr_body g));
  go_workload : wl_id (workload (body (gr_body g))) = id;
  go_valid : validation_ok (validate_contract (gr_body g)) = true;
  go_signed : is_ok (signature_gate trust
    (if gr_generation g =? 1 then kDomainRegistration else kDomainPublication) (gr_body g)) = true
}.

(** A generation and the one that superseded it. *)
Record succeeds (g h : GenerationRecord) : Prop := {
  su_generation : gr_generation h = gr_generation g + 1;
  su_names : supersedes (gr_body h) = gr_generation g /\ supersedes_digest (gr_body h) = gr_digest g;
  su_owner : publisher (envelope (gr_body h)) = publisher (envelope (gr_body g));
  su_compatible : publish_step (body (gr_body g)) (body (gr_body h))
}.

Fixpoint history_linked (l : list GenerationRecord) : Prop :=
  match l with
  | g :: ((h :: _) as l') => succeeds g h /\ history_linked l'
  | _ => True
  end.

Record workload_ok (trust : TrustSet) (id : WorkloadId) (w : WorkloadState) : Prop := {
  wo_id : ws_id w = id;
  wo_generations : Forall (generation_ok trust id) (ws_generations w);
  wo_first : gr_generation <$> head (ws_generations w) = Some 1;
  wo_linked : history_linked (ws_generations w);
  wo_bound : zlength (ws_generations w) <= kMaxRetainedGenerations;
  wo_current : forall g, last (ws_generations w) = Some g ->
    ws_contract_generation w = gr_generation g /\ ws_digest w = gr_digest g
    /\ ws_contract w = gr_contract_id g /\ ws_policy_generation w = policy_generation (body (gr_body g))
    /\ ws_workload_generation w = wl_generation (workload (body (gr_body g)))
    /\ gr_superseded g = false;
  wo_superseded : forall init g, ws_generations w = init ++ [g] -> Forall (fun x => gr_superseded x = true) init;
  wo_retired : Forall (fun g => gr_retired g = ws_retired w) (ws_generations w);
  wo_undecided : ws_evaluation w = None
}.

Record state_ok (trust : TrustSet) (st : RuntimeState) : Prop := {
  so_sorted : keys_sorted (st_workloads st);
  so_workloads : Forall (fun p => workload_ok trust p.1 p.2) (st_workloads st);
  so_policy : forall p, st_policy st = Some p ->
    policy_ok (validate_policy p) = true /\ st_policy_digest st = policy_digest p
    /\ st_policy_generation st = pol_generation p
}.

(** ** What the checks accept *)
Lemma bind_Ok_iff {E A B} (r : result E A) (f : A -> result E B) (b : B) :
  (r ≫= f) = Ok b <-> exists a, r = Ok a /\ f a = Ok b.
Proof using. split; [apply result_bind_Ok|]. by intros (a & -> & Ha). Qed.

Lemma bind_unit_iff {E B} (r : result E unit) (f : unit -> result E B) (b : B) :
  (r ≫= f) = Ok b <-> r = Ok tt /\ f tt = Ok b.
Proof using. rewrite bind_Ok_iff. split; [by intros ([] & ? & ?)|]. intros []. by exists tt. Qed.

Lemma require_bind_iff {E B} (t : bool) (e : E) (f : unit -> result E B) (b : B) :
  (require t e ≫= f) = Ok b <-> t = true /\ f tt = Ok b.
Proof using. by rewrite bind_unit_iff, require_Ok. Qed.

Lemma validation_gate_Ok c : validation_gate c = Ok tt <-> validation_ok (validate_contract c) = true.
Proof using. unfold validation_gate. by destruct (validation_ok _). Qed.

(** The publisher of a verified submission is the one it claims. *)
Lemma signature_gate_publisher trust domain c o :
  signature_gate trust domain c = Ok o -> outcome_publisher o = publisher (envelope c).
Proof using.
  unfold signature_gate. destruct (verify_signature _ _ _ _ _) as [o'|] eqn:E; [|done]. intros [= <-].
  unfold verify_signature in E. cbv zeta in E.
  destruct (is_zero _) in E; [discriminate E|]. destruct (_ || _) in E; [discriminate E|].
  destruct (negb _) in E; [discriminate E|].
  destruct (find_key _ _ _) as [i|] eqn:Ek; [|by destruct (find_issuer _ _)].
  apply find_key_spec in Ek as (_ & <- & _). break_hyp E; by injection E as <-.
Qed.

Lemma register_checks_Ok R c :
  register_checks R c = Ok tt <->
  validation_ok (validate_contract c) = true /\ generation (body c) = 1 /\ supersedes c = 0
  /\ is_ok (signature_gate (trust_ R) kDomainRegistration c) = true
  /\ policy_gate (state_ R) (body c) = Ok tt
  /\ find_workload (state_ R) (wl_id (workload (body c))) = None.
Proof using.
  unfold register_checks. rewrite bind_unit_iff, validation_gate_Ok, !require_bind_iff, Z.eqb_eq, negb_true_iff.
  unfold has_supersedes. rewrite negb_false_iff, Z.eqb_eq, bind_Ok_iff.
  setoid_rewrite bind_unit_iff. setoid_rewrite require_Ok. setoid_rewrite negb_true_iff.
  unfold map_has, find_workload.
  destruct (signature_gate _ _ _) as [o|e]; cbn [is_ok]; [|naive_solver].
  destruct (map_find _ _); naive_solver.
Qed.

(** What [publish] asks of a submission that follows generation [g] of workload [w]. *)
Record publishable (R : Runtime) (w : WorkloadState) (g : GenerationRecord) (c : Contract) : Prop := {
  pb_valid : validation_ok (validate_contract c) = true;
  pb_live : ws_retired w = false;
  pb_generation : generation (body c) = u64 (ws_contract_generation w + 1);
  pb_supersedes : supersedes c <> 0 /\ supersedes c = ws_contract_generation w /\ supersedes_digest c = ws_digest w;
  pb_major : major (body c) = major (body (gr_body g));
  pb_signed : is_ok (signature_gate (trust_ R) kDomainPublication c) = true;
  pb_owner : publisher (envelope c) = publisher (envelope (gr_body g));
  pb_policy : policy_gate (state_ R) (body c) = Ok tt;
  pb_compatible : compatible (check_compatibility (body (gr_body g)) (body c)) = true;
  pb_room : zlength (ws_generations w) < kMaxRetainedGenerations
}.

Lemma publish_checks_Ok R c who :
  publish_checks R c = Ok who <->
  exists w g, find_workload (state_ R) (wl_id (workload (body c))) = Some w
    /\ last (ws_generations w) = Some g /\ publishable R w g c /\ who = publisher (envelope c).
Proof using.
  unfold publish_checks. rewrite bind_unit_iff, validation_gate_Ok.
  destruct (find_workload _ _) as [w|]; [|naive_solver].
  unfold current_contract. destruct (last (ws_generations w)) as [g|] eqn:Hlast; cbn [fmap option_fmap option_map].
  2:{ split; [by intros [_ ?]|]. intros (w' & g & [= <-] & Hg & _). congruence. }
  cbv zeta. rewrite !require_bind_iff, bind_Ok_iff. setoid_rewrite require_bind_iff. setoid_rewrite bind_unit_iff.
  setoid_rewrite require_bind_iff. unfold has_supersedes, digest_eqb.
  rewrite !andb_true_iff, !negb_true_iff, !Z.ltb_ge, Z.eqb_neq, !Z.eqb_eq, bool_decide_eq_true.
  split.
  - intros (Hv & Hr & Hge & Hle & [[Hs1 Hs2] Hs3] & Hm & o & Hs & Ho & Hp & Hc & Hw).
    apply require_bind_iff in Hw as [Hroom Hw]. injection Hw as <-.
    pose proof (signature_gate_publisher _ _ _ _ Hs) as Hpub. apply id_eqb_eq in Ho. apply Z.ltb_lt in Hroom.
    exists w, g. split_and!; try done. split; try done; try lia; [|congruence]. by rewrite Hs.
  - intros (w' & g' & [= <-] & Hg & [] & ->). assert (g' = g) as -> by congruence.
    destruct (signature_gate _ _ _) as [o|e] eqn:Hs; [|done].
    pose proof (signature_gate_publisher _ _ _ _ Hs) as Hpub.
    split_and!; try done; try lia; try tauto. exists o. rewrite require_bind_iff, id_eqb_eq, Z.ltb_lt.
    split_and!; try done; congruence.
Qed.

(** ** Histories *)

(** Two records of the same generation, up to their flags and times. *)
Definition same_generation (g h : GenerationRecord) : Prop :=
  gr_generation g = gr_generation h /\ gr_digest g = gr_digest h /\ gr_contract_id g = gr_contract_id h
  /\ gr_body g = gr_body h.

Lemma succeeds_same g h g' h' : same_generation g g' -> same_generation h h' -> succeeds g h -> succeeds g' h'.
Proof using.
  intros (Eg & Ed & _ & Eb) (Eg' & _ & _ & Eb') []. by split; rewrite <- ?Eg, <- ?Ed, <- ?Eb, <- ?Eg', <- ?Eb'.
Qed.

Lemma generation_ok_same trust id g g' : same_generation g g' -> generation_ok trust id g -> generation_ok trust id g'.
Proof using. intros (Eg & Ed & Ec & Eb) []. by split; rewrite <- ?Eg, <- ?Ed, <- ?Ec, <- ?Eb. Qed.

Lemma history_linked_map (f : GenerationRecord -> GenerationRecord) l :
  (forall g, same_generation g (f g)) -> history_linked l -> history_linked (map f l).
Proof using.
  intros Hf. induction l as [|g [|h l] IH]; [done|done|]. intros [Hs Hl].
  split; [by eapply succeeds_same|by apply IH].
Qed.

Lemma history_linked_snoc l g h : history_linked (l ++ [g]) -> succeeds g h -> history_linked (l ++ [g; h]).
Proof using.
  induction l as [|x [|y l] IH]; [done| |]; cbn; intros [Hx Hl] Hs; (split; [done|]); [done|by apply IH].
Qed.

Lemma history_numbers l k i g :
  history_linked l -> gr_generation <$> head l = Some k -> l !! i = Some g -> gr_generation g = k + Z.of_nat i.
Proof using.
  revert k i; induction l as [|x [|y l] IH]; intros k i Hl Hk Hi; [done| |].
  - injection Hk as <-. destruct i; [injection Hi as <-; lia|done].
  - injection Hk as <-. destruct Hl as [Hs Hl]. destruct i; [injection Hi as <-; lia|].
    rewrite (IH (gr_generation y) i Hl eq_refl Hi), (su_generation _ _ Hs). lia.
Qed.

(** The generations of a workload are 1 to their number. *)
Lemma workload_numbers trust id w i g :
  workload_ok trust id w -> ws_generations w !! i = Some g -> gr_generation g = Z.of_nat i + 1.
Proof using. intros [] Hi. rewrite (history_numbers (ws_generations w) 1 i g); done || lia. Qed.

Lemma workload_last trust id w g :
  workload_ok trust id w -> last (ws_generations w) = Some g -> gr_generation g = zlength (ws_generations w).
Proof using.
  intros Hw Hl. rewrite last_lookup in Hl. rewrite (workload_numbers _ _ _ _ _ Hw Hl).
  destruct (ws_generations w); [done|]. unfold zlength. simpl. lia.
Qed.

Lemma state_find trust st id w : state_ok trust st -> find_workload st id = Some w -> workload_ok trust id w.
Proof using. intros [_ Hw _] Hf. exact (map_find_Forall (fun p => workload_ok trust p.1 p.2) _ _ _ Hw Hf). Qed.

Lemma update_ok trust w id f s :
  Forall (fun p => workload_ok trust p.1 p.2) w -> map_find id w = Some s -> workload_ok trust id (f s) ->
  Forall (fun p => workload_ok trust p.1 p.2) (update_workload w id f).
Proof using. intros Hw Hf Hs. unfold update_workload. rewrite Hf. by apply map_insert_Forall. Qed.

(** A change of a workload that leaves its generations alone. *)
Lemma same_history_ok trust id w w' :
  workload_ok trust id w -> ws_id w' = ws_id w -> ws_generations w' = ws_generations w ->
  ws_contract_generation w' = ws_contract_generation w -> ws_digest w' = ws_digest w ->
  ws_contract w' = ws_contract w -> ws_policy_generation w' = ws_policy_generation w ->
  ws_workload_generation w' = ws_workload_generation w -> ws_retired w' = ws_retired w ->
  ws_evaluation w' = None -> workload_ok trust id w'.
Proof using. intros [] E1 E2 E3 E4 E5 E6 E7 E8 E9. split; rewrite ?E1, ?E2, ?E3, ?E4, ?E5, ?E6, ?E7, ?E8; done. Qed.

(** ** Each request keeps the invariant *)
Lemma registered_ok R c t :
  register_checks R c = Ok tt -> workload_ok (trust_ R) (wl_id (workload (body c))) (registered_workload c t).
Proof using.
  intros (Hv & Hg & _ & Hs & _ & _)%register_checks_Ok. split; cbn; try done.
  - constructor; [|constructor]. split; cbn; try done. by rewrite Hg.
  - by rewrite Hg.
  - intros g [= <-]. done.
  - intros init g E. destruct init as [|x [|y init]]; [constructor|discriminate E|discriminate E].
  - by constructor.
Qed.

Lemma generation_body_valid trust id g : generation_ok trust id g -> body_valid (body (gr_body g)).
Proof using.
  intros Hg. apply body_diagnostics_nil. pose proof (proj1 (validate_contract_nil _) (go_valid _ _ _ Hg)) as E.
  by apply app_nil in E as [E _].
Qed.

Lemma valid_contract_body c : validation_ok (validate_contract c) = true -> body_valid (body c).
Proof using.
  intros Hv. apply body_diagnostics_nil. apply validate_contract_nil in Hv. by apply app_nil in Hv as [E _].
Qed.

Lemma published_ok R w g c t :
  let id := wl_id (workload (body c)) in
  workload_ok (trust_ R) id w -> last (ws_generations w) = Some g -> publishable R w g c ->
  workload_ok (trust_ R) id (published_workload c t w).
Proof using.
  intros id Hw Hl Hp. pose proof (workload_last _ _ _ _ Hw Hl) as Hn.
  destruct (wo_current _ _ _ Hw _ Hl) as (Eg & Ed & _).
  pose proof (wo_bound _ _ _ Hw) as Hb. pose proof (zlength_nonneg (ws_generations w)) as Hnn.
  unfold kMaxRetainedGenerations in Hb.
  assert (generation (body c) = gr_generation g + 1) as Hgen.
  { rewrite (pb_generation _ _ _ _ Hp), Eg. apply u64_small. lia. }
  apply last_Some in Hl as [init Hi].
  assert (generation_ok (trust_ R) id g) as Hgo.
  { pose proof (wo_generations _ _ _ Hw) as Hf. rewrite Hi, Forall_app, Forall_singleton in Hf. tauto. }
  assert (succeeds g (generation_of c t)) as Hs.
  { split; cbn; [done| |apply (pb_owner _ _ _ _ Hp)|].
    - destruct (pb_supersedes _ _ _ _ Hp) as (_ & -> & ->). done.
    - split_and!; [by eapply generation_body_valid|apply valid_contract_body, (pb_valid _ _ _ _ Hp)|
        apply (pb_compatible _ _ _ _ Hp)]. }
  split; cbn [published_workload ws_id ws_generations ws_contract_generation ws_digest ws_contract
    ws_policy_generation ws_workload_generation ws_retired ws_evaluation].
  - apply Hw.
  - rewrite Forall_app, Forall_map, Forall_singleton. split.
    + eapply Forall_impl; [apply (wo_generations _ _ _ Hw)|]. intros x. by apply generation_ok_same.
    + split; cbn; try done; [apply (pb_valid _ _ _ _ Hp)|].
      rewrite Hgen, Hn. rewrite (proj2 (Z.eqb_neq _ _)); [apply (pb_signed _ _ _ _ Hp)|].
      rewrite Hi. unfold zlength. rewrite length_app. simpl. lia.
  - pose proof (wo_first _ _ _ Hw) as Hf. rewrite Hi in *. by destruct init.
  - pose proof (wo_linked _ _ _ Hw) as Hlk. rewrite Hi in Hlk |- *. rewrite map_app, <- app_assoc. cbn [map app].
    apply history_linked_snoc; [|by eapply (succeeds_same g); [..|exact Hs]].
    apply (history_linked_map supersede) in Hlk; [|done]. by rewrite map_app in Hlk.
  - pose proof (pb_room _ _ _ _ Hp). unfold zlength in *. rewrite length_app, length_map. simpl. lia.
  - intros x. rewrite last_snoc. intros [= <-]. done.
  - intros init' x E. apply app_inj_tail in E as [<- <-]. by apply Forall_map, Forall_true.
  - rewrite Forall_app, Forall_map, Forall_singleton. split; [apply (wo_retired _ _ _ Hw)|].
    cbn. symmetry. apply (pb_live _ _ _ _ Hp).
  - by rewrite (wo_undecided _ _ _ Hw).
Qed.

Lemma retired_ok trust id w : workload_ok trust id w -> workload_ok trust id (retired_workload w).
Proof using.
  intros [Hid Hg Hf Hl Hb Hc Hs Hr Hu].
  split; cbn [retired_workload ws_id ws_generations ws_contract_generation ws_digest ws_contract
    ws_policy_generation ws_workload_generation ws_retired ws_evaluation]; try done.
  - rewrite Forall_map. eapply Forall_impl; [exact Hg|]. intros x. by apply generation_ok_same.
  - by destruct (ws_generations w).
  - by apply history_linked_map.
  - unfold zlength in *. by rewrite length_map.
  - intros x Hx. change (map retire_generation ?l) with (retire_generation <$> l) in Hx.
    rewrite fmap_last in Hx. apply fmap_Some in Hx as (g & E & ->). exact (Hc g E).
  - intros init x E. apply map_eq_app in E as (l1 & l2 & E & <- & E2).
    destruct l2 as [|y [|z l2]]; [discriminate E2| |discriminate E2]. rewrite Forall_map. by apply (Hs l1 y).
  - by apply Forall_map, Forall_true.
  - by rewrite Hu.
Qed.

Lemma unique_ids_elem l id : id ∈ unique_ids l <-> id ∈ l.
Proof using.
  induction l as [|a [|b l] IH]; [done|done|].
  change (unique_ids (a :: b :: l)) with (if id_eqb a b then unique_ids (b :: l) else a :: unique_ids (b :: l)).
  destruct (id_eqb a b) eqn:E; [apply id_eqb_eq in E as ->|]; rewrite ?elem_of_cons, IH, ?elem_of_cons; tauto.
Qed.

(** The workloads a submission of evidence reaches. *)
Lemma affected_elem w l id :
  id ∈ affected w l <->
  exists s, (id, s) ∈ w /\ ws_retired s = false /\ exists e, e ∈ l /\ declares s e = true.
Proof using.
  unfold affected. rewrite unique_ids_elem, std_sort_perm, list_elem_of_In, in_concat. split.
  - intros (ids & Hids & Hin). apply in_map_iff in Hids as ([id' s] & <- & Hs). cbn [fst snd] in Hin.
    destruct (ws_retired s) eqn:Er; [done|]. apply in_map_iff in Hin as (e & <- & [He Hd]%filter_In).
    exists s. split_and!; [by apply list_elem_of_In|done|]. exists e. by rewrite list_elem_of_In.
  - intros (s & Hs & Er & e & He & Hd). apply list_elem_of_In in Hs, He.
    exists (map (fun _ => id) (List.filter (declares s) l)). split.
    + apply in_map_iff. exists (id, s). cbn [fst snd]. by rewrite Er.
    + apply in_map_iff. exists e. split; [done|]. by apply filter_In.
Qed.

Lemma update_keys w id f k : k ∈ w.*1 -> k ∈ (update_workload w id f).*1.
Proof using. intros Hk. apply map_insert_keys. by right. Qed.

(** Updating workloads of the map, one after the other. *)
Lemma update_all_ok trust f ids w :
  (forall id s, workload_ok trust id s -> workload_ok trust id (f s)) ->
  Forall (fun id => id ∈ w.*1) ids ->
  keys_sorted w -> Forall (fun p => workload_ok trust p.1 p.2) w ->
  let w' := fold_left (fun w id => update_workload w id f) ids w in
  keys_sorted w' /\ Forall (fun p => workload_ok trust p.1 p.2) w'.
Proof using.
  intros Hf. revert w; induction ids as [|id ids IH]; intros w Hids Hs Hw; [done|]. inv Hids. cbn [fold_left].
  destruct (map_find id w) as [s|] eqn:Es; [|by apply map_find_None in Es].
  apply IH.
  - eapply Forall_impl; [done|]. intros k. apply update_keys.
  - by apply map_insert_sorted.
  - eapply update_ok; [done|exact Es|]. apply Hf. exact (map_find_Forall (fun p => workload_ok trust p.1 p.2) _ _ _ Hw Es).
Qed.

Lemma effect_ok now R q :
  state_ok (trust_ R) (state_ R) -> is_ok (plan now R q) = true ->
  state_ok (trust_ R) (effect now (info_ R) q (state_ R)).
Proof using.
  intros [Hs Hw Hp]. destruct q as [c|c|ev|p|id]; cbn [plan effect].
  - destruct (register_checks R c) as [[]|] eqn:E; [|done]. intros _.
    pose proof (registered_ok R c (now 1%nat) E) as Hok.
    unfold map_emplace. cbn [registered_workload ws_id] in *. case_bool; [by split|].
    split; cbn [with_workloads st_workloads st_policy fst]; [by apply map_insert_sorted| |done].
    by apply map_insert_Forall.
  - destruct (publish_checks R c) as [who|] eqn:E; [|done]. intros _.
    apply publish_checks_Ok in E as (w & g & Hf & Hl & Hpb & _).
    split; cbn [with_workloads st_workloads st_policy]; [by apply map_insert_sorted| |done].
    eapply update_ok; [done|exact Hf|]. apply (published_ok R w g); [|done|done].
    exact (map_find_Forall (fun p => workload_ok (trust_ R) p.1 p.2) _ _ _ Hw Hf).
  - intros _. set (stamped := (stamp_evidence now (info_ R) ev).1).
    destruct (update_all_ok (trust_ R) (attach_to stamped) (affected (st_workloads (state_ R)) (ev_entries stamped))
                (st_workloads (state_ R))) as [Hs' Hw']; try done.
    { intros id s Hok. apply (same_history_ok _ _ s); try done. cbn. by rewrite (wo_undecided _ _ _ Hok). }
    { apply Forall_forall. intros id (s & Hin & _)%affected_elem. by apply (list_elem_of_fmap_2 fst) in Hin. }
  - destruct (install_checks R p) as [[]|] eqn:E; [|done]. intros _.
    unfold install_checks in E. apply require_bind_iff in E as [Hv _].
    split; cbn [st_workloads st_policy st_policy_digest st_policy_generation].
    + apply (map_values_sorted (fun w => with_evaluation w (invalidate "the policy generation changed" (ws_evaluation w)))).
      done.
    + rewrite Forall_map. eapply Forall_impl; [exact Hw|]. intros [id s] Hok. cbn [fst snd] in *.
      apply (same_history_ok _ _ s); try done. cbn. by rewrite (wo_undecided _ _ _ Hok).
    + intros p' [= <-]. done.
  - destruct (retire_checks R id) as [[]|] eqn:E; [|done]. intros _.
    unfold retire_checks in E. destruct (find_workload _ _) as [w|] eqn:Hf; [|done].
    split; cbn [with_workloads st_workloads st_policy]; [by apply map_insert_sorted| |done].
    eapply update_ok; [done|exact Hf|]. apply retired_ok.
    exact (map_find_Forall (fun p => workload_ok (trust_ R) p.1 p.2) _ _ _ Hw Hf).
Qed.

(** ** Reachable states *)

(** One request, whatever the clock says and the disk does. *)
Inductive step : Files * Runtime -> Files * Runtime -> Prop :=
| step_request disk now files R q files' R' r :
    perform disk now files R q = (files', R', r) -> step (files, R) (files', R').

Definition reachable (start : Runtime) (R : Runtime) : Prop :=
  exists files0 files, rtc step (files0, start) (files, R).

Lemma step_ok s s' :
  step s s' -> state_ok (trust_ s.2) (state_ s.2) -> trust_ s'.2 = trust_ s.2 /\ state_ok (trust_ s'.2) (state_ s'.2).
Proof using.
  intros [disk now files R q files' R' r E] Hok. cbn [snd] in *.
  pose proof (perform_cases disk now files R q) as C. rewrite E in C. destruct C as (_ & Ht & C). split; [done|].
  rewrite Ht. destruct r as [n|e]; [|by rewrite C]. destruct C as [Hp ->]. by apply effect_ok.
Qed.

Lemma steps_ok s s' :
  rtc step s s' -> state_ok (trust_ s.2) (state_ s.2) -> trust_ s'.2 = trust_ s.2 /\ state_ok (trust_ s'.2) (state_ s'.2).
Proof using.
  induction 1 as [s|s s1 s' Hs _ IH]; [done|]. intros Hok.
  destruct (step_ok _ _ Hs Hok) as [Et Hok']. destruct (IH Hok') as [Et' Hok'']. split; [congruence|done].
Qed.

(** A required requirement of a generation is upheld by every later one. *)
Lemma linked_upholds l i j g h r :
  history_linked l -> l !! i = Some g -> l !! j = Some h -> (i <= j)%nat ->
  Forall (fun g => body_valid (body (gr_body g))) l ->
  r ∈ requirements (body (gr_body g)) -> strength r = kRequired ->
  exists c, c ∈ requirements (body (gr_body h)) /\ terms_upheld r c.
Proof using.
  revert i j g r; induction l as [|x l IH]; intros i j g r Hl Hi Hj Hij Hv Hr Hs; [done|].
  inv Hv. destruct i as [|i]; cycle 1.
  { destruct j as [|j]; [lia|]. destruct l as [|y l]; [done|]. destruct Hl as [_ Hl].
    apply (IH i j g r); try done. lia. }
  injection Hi as ->. destruct j as [|j].
  - injection Hj as ->. exists r. split; [done|].
    split; try done. intros Hn. unfold at_least. destruct (valid_finite _ r ltac:(done) Hr Hn).
    by case_bool; split; apply dle_refl.
  - destruct l as [|y l]; [done|]. destruct Hl as [Hxy Hl].
    destruct (publish_step_upholds _ _ _ (su_compatible _ _ Hxy) Hr Hs) as (c & Hc & Hu).
    destruct (IH 0%nat j y c Hl eq_refl Hj ltac:(lia)) as (d & Hd & Hud); try done; [apply (up_strength _ _ Hu)|].
    match goal with Hf : Forall _ (y :: l) |- _ => pose proof Hf as Hall; apply Forall_cons in Hf as [Hvy _] end.
    assert (body_valid (body (gr_body h))) by (rewrite Forall_lookup in Hall; exact (Hall j h Hj)).
    exists d. split; [done|]. apply (upholds_trans r c d); eauto using valid_finite.
Qed.

(** ** A submission is applied once *)

(** The contracts of a workload, in the order they were published. *)
Definition contracts (w : WorkloadState) : list Contract := map gr_body (ws_generations w).

(** No workload and no contract is lost. *)
Definition keeps_contracts (st st' : RuntimeState) : Prop :=
  forall id w, find_workload st id = Some w ->
    exists w', find_workload st' id = Some w' /\ contracts w `prefix_of` contracts w'.

Lemma update_keeps w id f :
  (forall s, contracts s `prefix_of` contracts (f s)) ->
  forall k s, map_find k w = Some s ->
    exists s', map_find k (update_workload w id f) = Some s' /\ contracts s `prefix_of` contracts s'.
Proof using.
  intros Hf k s Hk. unfold update_workload. destruct (decide (k = id)) as [->|Hne].
  - rewrite map_find_insert_eq, Hk. by eexists.
  - rewrite map_find_insert_ne by done. by exists s.
Qed.

Lemma contracts_map f w (l : list GenerationRecord) :
  (forall g, gr_body (f g) = gr_body g) -> map gr_body (map f (ws_generations w) ++ l) = contracts w ++ map gr_body l.
Proof using. intros Hf. rewrite map_app, map_map. unfold contracts. f_equal. by apply map_ext. Qed.

Lemma update_all_keeps f ids w :
  (forall s, contracts s `prefix_of` contracts (f s)) ->
  forall k s, map_find k w = Some s ->
    exists s', map_find k (fold_left (fun w id => update_workload w id f) ids w) = Some s'
      /\ contracts s `prefix_of` contracts s'.
Proof using.
  intros Hf. revert w; induction ids as [|id ids IH]; intros w k s Hk; [by exists s|]. cbn [fold_left].
  destruct (update_keeps w id f Hf k s Hk) as (s1 & F1 & P1). destruct (IH _ k s1 F1) as (s2 & F2 & P2).
  exists s2. split; [done|]. by etransitivity.
Qed.

Lemma map_values_find (f : WorkloadState -> WorkloadState) (w : Workloads) k :
  map_find k (map (fun p => (p.1, f p.2)) w) = f <$> map_find k w.
Proof using. induction w as [|[k' s] w IH]; [done|]. cbn [map map_find fst snd]. by destruct (key_equiv _ _). Qed.

Lemma effect_keeps now info q st : keeps_contracts st (effect now info q st).
Proof using.
  unfold keeps_contracts, find_workload. destruct q as [c|c|ev|p|id]; cbn [effect]; intros k s Hk.
  - cbn [with_workloads st_workloads]. unfold map_emplace. cbn [registered_workload ws_id].
    destruct (map_has _ _) eqn:E; cbn [fst]; [by exists s|]. exists s. split; [|done].
    rewrite map_find_insert_ne; [done|]. intros ->. unfold map_has in E. by rewrite Hk in E.
  - apply update_keeps; [|done]. intros w. unfold contracts at 2. cbn [published_workload ws_generations].
    rewrite contracts_map by done. by apply prefix_app_r.
  - cbn [with_floor with_workloads st_workloads]. by apply update_all_keeps.
  - cbn [st_workloads].
    rewrite (map_values_find (fun w => with_evaluation w (invalidate "the policy generation changed" (ws_evaluation w)))).
    rewrite Hk. eexists. split; [done|]. done.
  - apply update_keeps; [|done]. intros w. unfold contracts at 2. cbn [retired_workload ws_generations].
    rewrite <- (app_nil_r (map retire_generation _)), contracts_map by done. by rewrite app_nil_r.
Qed.

Lemma steps_keep s s' : rtc step s s' -> keeps_contracts (state_ s.2) (state_ s'.2).
Proof using.
  induction 1 as [s|s s1 s' [disk now files R q files' R' r E] _ IH]; [by intros k w Hk; exists w|].
  intros k w Hk. cbn [snd] in *. assert (keeps_contracts (state_ R) (state_ R')) as Hstep.
  { pose proof (perform_cases disk now files R q) as C. rewrite E in C. destruct C as (_ & _ & C).
    destruct r as [n|e]; [destruct C as [_ ->]; apply effect_keeps|]. rewrite C. by intros k' w' Hk'; exists w'. }
  destruct (Hstep k w Hk) as (w1 & F1 & P1). destruct (IH k w1 F1) as (w2 & F2 & P2).
  exists w2. split; [done|]. by etransitivity.
Qed.

(** A contract a workload already has is refused, as a registration and as a publication. *)
Lemma applied_refused R id w c :
  state_ok (trust_ R) (state_ R) -> find_workload (state_ R) id = Some w -> c ∈ contracts w ->
  (exists text, publish_checks R c = Err (if ws_retired w then kContractRetired else kReplayRejected, text))
  /\ is_ok (register_checks R c) = false.
Proof using.
  intros Hok Hf Hin. pose proof (state_find _ _ _ _ Hok Hf) as Hw.
  unfold contracts in Hin. apply list_elem_of_In, in_map_iff in Hin as (g & <- & Hin%list_elem_of_In).
  pose proof (wo_generations _ _ _ Hw) as Hgs. rewrite Forall_forall in Hgs. pose proof (Hgs g Hin) as Hg.
  apply list_elem_of_lookup in Hin as [i Hi]. pose proof (workload_numbers _ _ _ _ _ Hw Hi) as Hn.
  pose proof (lookup_lt_Some _ _ _ Hi) as Hlt. pose proof (wo_bound _ _ _ Hw) as Hb.
  unfold zlength, kMaxRetainedGenerations in Hb.
  destruct (last (ws_generations w)) as [z|] eqn:El.
  2: { apply last_None in El. by rewrite El in Hi. }
  destruct (wo_current _ _ _ Hw _ El) as (Ec & _). pose proof (workload_last _ _ _ _ Hw El) as Hz.
  unfold zlength in Hz. split.
  - unfold publish_checks. rewrite (proj2 (validation_gate_Ok _) (go_valid _ _ _ Hg)). cbn [mbind result_bind].
    rewrite (go_workload _ _ _ Hg), Hf. unfold current_contract. rewrite El. cbn [fmap option_fmap option_map].
    cbv zeta. rewrite u64_small by lia. unfold require.
    destruct (ws_retired w); cbn [negb mbind result_bind]; [by eexists|].
    rewrite (proj2 (Z.ltb_lt (generation (body (gr_body g))) (ws_contract_generation w + 1))); [by eexists|].
    rewrite <- (go_generation _ _ _ Hg). lia.
  - destruct (register_checks R (gr_body g)) as [[]|] eqn:E; [|done].
    apply register_checks_Ok in E as (_ & _ & _ & _ & _ & E). rewrite (go_workload _ _ _ Hg) in E. congruence.
Qed.

(** ** Durability *)

(** An acknowledged append, whatever the disk: the journal has the record. *)
Lemma append_acknowledged `{!HashingOk} disk files L runs type payload files' L' n :
  ledger_ok L files runs -> 0 <= type < 2 ^ 16 -> Forall is_byte payload ->
  append disk files L type payload = (files', L', Ok n) ->
  exists runs', concat runs' = concat runs ++ [(type, payload)] /\ ledger_ok L' files' runs'
    /\ n = zlength (concat runs') /\ head_ L' = with_last_sequence (head_ L) n
    /\ (forall name, is_journal name = false -> map_find name files' = map_find name files).
Proof using.
  intros Hk Ht Hb E. pose proof (append_reaches_disk disk L files runs type payload Hk Ht Hb) as Ha.
  pose proof (append_any disk L files runs type payload Hk Ht Hb) as Hany. rewrite E in Ha, Hany. cbv zeta in Hany.
  destruct Hany as [[_ Hf]|(init0 & run0 & k & Hc0 & _ & Hh0 & _ & _ & _ & _ & Hk0 & Hother)]; [done|].
  rewrite (Hk0 eq_refl), firstn_all in Hh0. clear Hk0 k.
  destruct (has_room L payload); cycle 1.
  { destruct Ha as (L1 & e & Ea & _). discriminate Ea. }
  destruct Ha as (L1 & Hk1 & Hseg & Htot & He & Hhead & _ & Ea). cbv zeta in Ea.
  destruct (proj1 (position_current L1 runs) (ok_position _ _ _ Hk1)) as (init & run & Hc & Es & Eb).
  destruct (append_file_flushed disk files _ _) as [f1 [u|e]] eqn:Eflush; [|discriminate Ea]. injection Ea as -> -> ->.
  exists (init ++ [run ++ [(type, payload)]]).
  assert (concat (init ++ [run ++ [(type, payload)]]) = concat runs ++ [(type, payload)]) as Ec.
  { rewrite concat_app. simpl. by rewrite app_nil_r, app_assoc, <- (current_concat _ _ _ Hc). }
  split; [done|]. rewrite Ec, zlength_app. split_and!; [|done|by cbn; rewrite Hhead|done].
  eapply append_ok; try done; [lia|rewrite <- (ok_retained _ _ _ Hk1); lia|].
  pose proof (ok_segment _ _ _ Hk1) as Hn. unfold kMaxLedgerSegments in Hn. rewrite Es in Eflush, Hn.
  pose proof (append_files disk files runs init run type payload (ok_holds _ _ _ Hk1) Hc ltac:(lia)) as Hf.
  cbv zeta in Hf. rewrite Eflush in Hf. destruct Hf as [(_ & Hr & _)|(k & _ & Hh & Hr & _)]; [done|].
  rewrite (Hr eq_refl), firstn_all in Hh. exact Hh.
Qed.

End Requests.

(** ** Properties *)

(** C1: the authority invariant.  Starting from a state that satisfies it (the empty one
    does), every state a coordinator can reach, by any sequence of requests, at any times
    and whatever the disk does to its appends, satisfies it: every workload has generations
    numbered from 1 without a gap, each of them validated and signed by a trusted key for the
    right purpose, each after the first naming its predecessor and its digest, owned by the
    same publisher and compatible with it; the workload's own fields are those of the last
    generation, which alone is not superseded; and the installed policy is a valid one. *)
Theorem runtime_authority `{Hashing} `{Ed25519} `{Host} (start R : Runtime) :
  state_ok (trust_ start) (state_ start) -> reachable start R ->
  trust_ R = trust_ start /\ state_ok (trust_ R) (state_ R)
  /\ (forall id w i g, find_workload (state_ R) id = Some w -> ws_generations w !! i = Some g ->
        gr_generation g = Z.of_nat i + 1)
  /\ (forall id w, find_workload (state_ R) id = Some w ->
        ws_contract_generation w = zlength (ws_generations w)).
Proof.
  intros Hok (files0 & files & Hr). destruct (steps_ok _ _ Hr Hok) as [Ht Hok']. cbn [snd] in *.
  split_and!; [done|done| |].
  - intros id w i g Hf. apply (workload_numbers (trust_ R) id). by apply (state_find _ (state_ R)).
  - intros id w Hf. pose proof (state_find _ _ _ _ Hok' Hf) as Hw.
    destruct (last (ws_generations w)) as [g|] eqn:El.
    + destruct (wo_current _ _ _ Hw _ El) as [-> _]. by apply (workload_last (trust_ R) id).
    + apply last_None in El. pose proof (wo_first _ _ _ Hw) as Hf1. by rewrite El in Hf1.
Qed.

(** C5: a running coordinator keeps the terms of every required requirement.  In any
    reachable state, a required requirement of any generation of a workload is there in every
    later generation: the same key is still required, with bounds at least as strict or the
    same values, and every observation that meets the later requirement meets the earlier
    one, as long as a collective keeps its members.  Members are not part of the comparison:
    a later generation may drop some ([Policy.required_collective_loses_member]). *)
Theorem promises_persist `{Hashing} `{Ed25519} `{Host} (start R : Runtime) (id : WorkloadId) (w : WorkloadState)
    (i j : nat) (g h : GenerationRecord) (r : Requirement) :
  state_ok (trust_ start) (state_ start) -> reachable start R -> find_workload (state_ R) id = Some w ->
  ws_generations w !! i = Some g -> ws_generations w !! j = Some h -> (i <= j)%nat ->
  r ∈ requirements (body (gr_body g)) -> strength r = kRequired ->
  exists c, c ∈ requirements (body (gr_body h)) /\ terms_upheld r c
    /\ (keeps_members r c -> forall x, meets c x -> meets r x).
Proof.
  intros Hok (files0 & files & Hr) Hf Hi Hj Hij Hin Hs. destruct (steps_ok _ _ Hr Hok) as [_ Hok']. cbn [snd] in *.
  pose proof (state_find _ _ _ _ Hok' Hf) as Hw.
  assert (Forall (fun g => body_valid (body (gr_body g))) (ws_generations w)) as Hv.
  { eapply Forall_impl; [apply (wo_generations _ _ _ Hw)|]. intros x. apply generation_body_valid. }
  destruct (linked_upholds (ws_generations w) i j g h r) as (c & Hc & Hu); try done; [apply Hw|].
  exists c. split_and!; [done..|]. intros Hm x. apply terms_upheld_meets; [done| |done].
  rewrite Forall_lookup in Hv. by eapply valid_numeric; [apply (Hv i g)|].
Qed.

(** C8: a submission is applied at most once.  From the moment a workload has a contract, in
    every state that can be reached afterwards the same contract is refused, whenever it is
    submitted again: as a publication it is a replay (or the workload is retired), as a
    registration it is refused too, and neither changes the state or the directory. *)
Theorem replay_refused `{Hashing} `{Ed25519} `{Host} (start R later : Runtime) (id : WorkloadId) (w : WorkloadState)
    (c : Contract) (disk : Disk) (now : nat -> Z) (files : Files) :
  state_ok (trust_ start) (state_ start) -> reachable start R -> find_workload (state_ R) id = Some w ->
  c ∈ contracts w -> reachable R later ->
  (exists code text, perform disk now files later (PublishRequest c) = (files, later, Err (code, text))
     /\ (code = kReplayRejected \/ code = kContractRetired))
  /\ (exists e, perform disk now files later (RegisterRequest c) = (files, later, Err e)).
Proof.
  intros Hok (f0 & f1 & Hr) Hf Hin (f2 & f3 & Hl).
  destruct (steps_ok _ _ Hr Hok) as [_ Hok1]. cbn [snd] in Hok1.
  destruct (steps_ok _ _ Hl Hok1) as [_ Hok2]. cbn [snd] in Hok2.
  destruct (steps_keep _ _ Hl id w Hf) as (w' & Hf' & Hp). cbn [snd] in Hf'.
  assert (c ∈ contracts w') as Hin' by by eapply elem_of_prefix.
  destruct (applied_refused later id w' c Hok2 Hf' Hin') as [(text & Ep) Er]. rewrite !perform_plan. cbn [plan].
  rewrite Ep. destruct (register_checks later c) as [[]|e]; [done|]. cbn [mbind result_bind]. split; [|by exists e].
  eexists _, text. split; [done|]. destruct (ws_retired w'); auto.
Qed.

(** C7: an acknowledgement comes after the durability point, and nothing changes without one.
    Whatever the disk does, a request that is acknowledged with a sequence passed its checks,
    its record is in the journal that is read back, under that sequence and after every
    earlier record, and only then does the state change, by exactly the request's effect; a
    request that is refused, or whose append fails, leaves the state as it was, and one
    refused by its checks leaves the directory as it was. *)
Theorem request_durable `{HashingOk} `{Ed25519} `{Host} (disk : Disk) (now : nat -> Z) (files : Files) (R : Runtime)
    (runs : list history) (q : request) :
  ledger_ok (ledger_ R) files runs ->
  let '(files', R', r) := perform disk now files R q in
  match r with
  | Ok sequence => exists type payload runs', plan now R q = Ok (type, payload)
      /\ concat runs' = concat runs ++ [(type, bytes_of_string (dump payload))]
      /\ ledger_ok (ledger_ R') files' runs' /\ sequence = zlength (concat runs')
      /\ read_all true files' = Ok (records_of (concat runs'), clean_report runs')
      /\ state_ R' = effect now (info_ R) q (state_ R)
  | Err e => state_ R' = state_ R /\ (plan now R q = Err e -> files' = files /\ R' = R)
  end.
Proof.
  intros Hk. rewrite perform_plan. destruct (plan now R q) as [[type payload]|e] eqn:Ep; [|done].
  pose proof (commit_frame disk files R type payload) as C.
  destruct (commit disk files R type payload) as [[files' R'] [n|e]] eqn:Ec; destruct C as (_ & Hs & _); [|done].
  unfold commit in Ec. destruct (_ <? _) in Ec; [discriminate Ec|].
  destruct (append disk files (ledger_ R) type _) as [[f L] o] eqn:Ea. injection Ec as -> <- ->.
  assert (0 <= type < 2 ^ 16) as Ht by (rewrite (plan_type _ _ _ _ _ Ep); apply request_type_range).
  destruct (append_acknowledged _ _ _ _ _ _ _ _ _ Hk Ht (bytes_of_string_bytes _) Ea)
    as (runs' & Ec & Hk' & Hn & _).
  exists type, payload, runs'. split_and!; try done. exact (ledger_reads _ _ _ Hk').
Qed.

(** ** A concrete run *)
#[local] Existing Instance toy_hashing.
#[local] Existing Instance toy_hashing_ok.
#[local] Existing Instance toy_ed25519.
#[local] Existing Instance sample_host.

Definition sign_submission (domain : string) (c : Contract) : Contract :=
  let s := sign_with_local_signer toy_signer domain (submission_bytes c) in
  mk_contract (body c) (digest c)
    (mk_envelope (sig_publisher toy_signer) (algorithm s) (key_id s) (sig_bytes s) 0) (supersedes c)
    (supersedes_digest c).

Definition with_generation (b : ContractBody) (g : Z) : ContractBody :=
  mk_body (schema_version b) (workload b) (contract_id b) g (policy_generation b) (major b) (minor b) (patch b)
    (body_description b) (scopes b) (requirements b).

(** The first generation of a workload and the second, which supersedes it; both are stored
    as values. *)
Definition first_contract : Contract :=
  Eval vm_compute in sign_submission kDomainRegistration (canonicalize sample_valid).

Definition second_contract : Contract :=
  Eval vm_compute in
  let c := canonicalize (mk_contract (with_generation (body sample_valid) 2) [] default_envelope 1 (digest first_contract)) in
  sign_submission kDomainPublication c.

Definition sample_workload : WorkloadId := wl_id (workload (body first_contract)).

Definition sample_evidence (generation : Z) (scope : string) : EvidenceSet :=
  mk_evidence zero_id generation 0 (sig_publisher toy_signer) 0
    [mk_entry scope zero_id zero_id 1 zero_incarnation 0 5
       (mk_candidate None (Some (double_of_int 5)) None None None None None None None None None None None None []) kCurrent].

Definition sample_options : Options := mk_runtime_options "state" toy_trust 0 0.

Definition clock : nat -> Z := fun n => 1000 + Z.of_nat n.

(** The first run on an empty directory. *)
Definition sample_start : Files * Runtime :=
  Eval vm_compute in
  match open_runtime sample_boot clock [] sample_options with
  | (files, Ok R) => (files, R)
  | (files, Err _) =>
      (files, mk_runtime (mk_info zero_id zero_incarnation 0 [] 0 false 0 0) empty_state [] sample_ledger 0)
  end.

Fixpoint perform_all (s : Files * Runtime) (l : list request) : Files * Runtime :=
  match l with
  | [] => s
  | q :: l' => perform_all (perform healthy clock s.1 s.2 q).1 l'
  end.

Lemma perform_all_reachable s l : rtc step s (perform_all s l).
Proof.
  revert s; induction l as [|q l IH]; intros [files R]; cbn [perform_all]; [constructor|].
  eapply rtc_l; [|apply IH]. cbn [fst snd].
  destruct (perform healthy clock files R q) as [[files' R'] r] eqn:E. by econstructor.
Qed.

Definition sample_end : Files * Runtime :=
  Eval vm_compute in perform_all sample_start [RegisterRequest first_contract; PublishRequest second_contract].

Definition sample_runtime : Runtime := sample_end.2.

Lemma sample_reachable : reachable sample_start.2 sample_runtime.
Proof.
  exists sample_start.1, sample_end.1.
  pose proof (perform_all_reachable sample_start [RegisterRequest first_contract; PublishRequest second_contract]) as Hr.
  assert (perform_all sample_start [RegisterRequest first_contract; PublishRequest second_contract] = sample_end) as E
    by (vm_compute; reflexivity).
  rewrite E in Hr. exact Hr.
Qed.

Lemma empty_state_ok trust : state_ok trust empty_state.
Proof. split; [done|constructor|done]. Qed.

Lemma sample_start_state : state_ sample_start.2 = empty_state.
Proof. vm_compute. reflexivity. Qed.

Lemma sample_start_ok : state_ok (trust_ sample_start.2) (state_ sample_start.2).
Proof. rewrite sample_start_state. apply empty_state_ok. Qed.

Lemma sample_generations :
  exists w g h, find_workload (state_ sample_runtime) sample_workload = Some w
    /\ ws_generations w = [g; h] /\ gr_body g = first_contract.
Proof.
  assert (match find_workload (state_ sample_runtime) sample_workload with
          | Some w => match ws_generations w with [g; _] => gr_body g = first_contract | _ => False end
          | None => False
          end) as Hp by (vm_compute; reflexivity).
  destruct (find_workload _ _) as [w|]; [|done]. exists w.
  destruct (ws_generations w) as [|g [|h [|]]]; try done. by exists g, h.
Qed.

(** ** Witnesses *)
Lemma runtime_authority_witness :
  exists w, find_workload (state_ sample_runtime) sample_workload = Some w
    /\ ws_contract_generation w = 2.
Proof.
  destruct (runtime_authority sample_start.2 sample_runtime sample_start_ok sample_reachable) as (_ & _ & _ & Hn).
  destruct sample_generations as (w & g & h & E & Eg & _). exists w. split; [exact E|].
  rewrite (Hn sample_workload w E), Eg. reflexivity.
Defined.

(** The required requirement of the first generation, in the second one. *)
Lemma promises_persist_witness :
  exists w h c, find_workload (state_ sample_runtime) sample_workload = Some w
    /\ ws_generations w !! 1%nat = Some h /\ c ∈ requirements (body (gr_body h))
    /\ terms_upheld (nth 0 (requirements (body first_contract)) default_requirement) c.
Proof.
  destruct sample_generations as (w & g & h & E & Eg & Eb).
  assert (nth 0 (requirements (body first_contract)) default_requirement ∈ requirements (body (gr_body g))) as Hr.
  { rewrite Eb. apply list_elem_of_In. vm_compute. left. reflexivity. }
  assert (ws_generations w !! 0%nat = Some g) as E0 by by rewrite Eg.
  assert (ws_generations w !! 1%nat = Some h) as E1 by by rewrite Eg.
  assert (strength (nth 0 (requirements (body first_contract)) default_requirement) = kRequired) as Es
    by (vm_compute; reflexivity).
  destruct (promises_persist sample_start.2 sample_runtime sample_workload w 0 1 g h _
    sample_start_ok sample_reachable E E0 E1 ltac:(lia) Hr Es) as (c & Hc & Hu & _).
  exists w, h, c. split_and!; [exact E|exact E1|exact Hc|exact Hu].
Defined.

(** A registration on a directory that holds one record. *)
Definition one_record_runtime : Runtime :=
  mk_runtime (info_ sample_start.2) empty_state toy_trust sample_ledger 0.

Lemma request_durable_witness :
  exists files' R' payload runs',
    perform healthy clock sample_files one_record_runtime (RegisterRequest first_contract) = (files', R', Ok 2)
    /\ concat runs' = sample_history ++ [(kWorkloadRegistered, payload)] /\ ledger_ok (ledger_ R') files' runs'.
Proof.
  pose proof (request_durable healthy clock sample_files one_record_runtime [sample_history]
    (RegisterRequest first_contract) sample_ledger_ok) as D.
  assert (match (perform healthy clock sample_files one_record_runtime (RegisterRequest first_contract)).2 with
          | Ok n => n = 2 | Err _ => False end) as Hr by (vm_compute; reflexivity).
  destruct (perform _ _ _ _ _) as [[files' R'] [n|e]]; [|done]. cbn [snd] in Hr. subst n.
  destruct D as (type & payload & runs' & Hp & Hc & Hk & _). apply plan_type in Hp as ->.
  exists files', R', (bytes_of_string (dump payload)), runs'. split_and!; [reflexivity|exact Hc|exact Hk].
Defined.

Lemma replay_refused_witness :
  exists code text, perform healthy clock [] sample_runtime (PublishRequest first_contract)
    = ([], sample_runtime, Err (code, text)).
Proof.
  destruct sample_generations as (w & g & h & E & Eg & Eb).
  assert (first_contract ∈ contracts w) as Hin by (unfold contracts; rewrite Eg; simpl; rewrite Eb; left).
  assert (reachable sample_runtime sample_runtime) as Hr by (exists [], []; constructor).
  destruct (replay_refused sample_start.2 sample_runtime sample_runtime sample_workload w first_contract healthy clock []
    sample_start_ok sample_reachable E Hin Hr) as [(code & text & Hp & _) _].
  exists code, text. exact Hp.
Defined.
