(* ===== verification/Replay.v ===== *)
(** * Restarting a coordinator

    What [Runtime::open] rebuilds from the journal.  Replaying the record of a request on a
    restored state gives the restored effect of the request (a simulation, one diagram per
    request), so a directory written by one session of requests whose records read back,
    whatever happens to its last append, opens to the state the coordinator had: everything acknowledged is there, and the
    evidence is there with every entry marked for revalidation. *)
From Stdlib Require Import ZArith Lia Ascii String.
From stdpp Require Import base numbers option list strings sets relations.
From S2P Require Import Prelude Doubles Identity Errors Hash Json JsonParser JsonText Signature Contract ContractValidate ContractDecode Policy Evaluation State Frame Ledger Boot Journal Recovery Runtime Authority.

(** ** The simulation relation *)

(** A generation and the one replay rebuilds: the time of the record and the retired mark
    are not compared, the journal's time being read earlier and the mark not replayed. *)
Definition same_version (g g' : GenerationRecord) : Prop :=
  same_generation g g' /\ gr_superseded g = gr_superseded g'.

Definition all_stale (ev : EvidenceSet) : Prop :=
  Forall (fun e => freshness e = kRevalidationNeeded) (ev_entries ev).

(** A workload and what replay rebuilds.  The evidence of a retired workload is history
    either way; a publication renames the workload only when it is replayed. *)
Record restored_workload (w w' : WorkloadState) : Prop := {
  rw_id : ws_id w' = ws_id w;
  rw_name : forall g, last (ws_generations w') = Some g -> ws_name w' = wl_name (workload (body (gr_body g)));
  rw_workload_generation : ws_workload_generation w' = ws_workload_generation w;
  rw_contract_generation : ws_contract_generation w' = ws_contract_generation w;
  rw_digest : ws_digest w' = ws_digest w;
  rw_contract : ws_contract w' = ws_contract w;
  rw_policy : ws_policy_generation w' = ws_policy_generation w;
  rw_retired : ws_retired w' = ws_retired w;
  rw_generations : Forall2 same_version (ws_generations w) (ws_generations w');
  rw_evidence : ws_retired w = false ->
    ws_evidence w' = restored_evidence <$> ws_evidence w /\ ws_evidence_generation w' = ws_evidence_generation w;
  rw_stale : forall ev, ws_evidence w' = Some ev -> all_stale ev;
  rw_undecided : ws_evaluation w' = None
}.

Record restored (st st' : RuntimeState) : Prop := {
  rs_sorted : keys_sorted (st_workloads st');
  rs_workloads : forall id, option_Forall2 restored_workload (find_workload st id) (find_workload st' id);
  rs_policy : st_policy st' = st_policy st;
  rs_policy_digest : st_policy_digest st' = st_policy_digest st;
  rs_policy_generation : st_policy_generation st' = st_policy_generation st
}.

Lemma empty_restored : restored empty_state empty_state.
Proof. split; try done. intros id. constructor. Qed.

(** ** Maps *)
Lemma update_find w id f k :
  map_find k (update_workload w id f)
  = if decide (k = id) then Some (f (default empty_workload (map_find id w))) else map_find k w.
Proof.
  unfold update_workload. destruct (decide (k = id)) as [->|Hne];
    [apply map_find_insert_eq|by apply map_find_insert_ne].
Qed.

(** Repeated updates with an idempotent function, each key at most counting once. *)
Lemma update_all_find f ids w k :
  (forall s, f (f s) = f s) ->
  map_find k (fold_left (fun w id => update_workload w id f) ids w)
  = if decide (k ∈ ids) then Some (f (default empty_workload (map_find k w))) else map_find k w.
Proof.
  intros Hf. revert w; induction ids as [|id ids IH]; intros w; [done|]. cbn [fold_left].
  rewrite IH, update_find. destruct (decide (k = id)) as [->|Hne].
  - rewrite (decide_True (P := id ∈ id :: ids)) by apply list_elem_of_here. cbn [default from_option Datatypes.id].
    rewrite Hf. by destruct (decide _).
  - destruct (decide (k ∈ ids)); destruct (decide (k ∈ id :: ids)) as [Hin|Hn]; try done; set_solver.
Qed.

Lemma guarded_update_all_find f ids w k :
  (forall s, f (f s) = f s) ->
  map_find k (fold_left (fun w id => if map_has id w then update_workload w id f else w) ids w)
  = if decide (k ∈ ids) then f <$> map_find k w else map_find k w.
Proof.
  intros Hf. revert w; induction ids as [|id ids IH]; intros w; [done|]. cbn [fold_left]. rewrite IH.
  destruct (decide (k = id)) as [->|Hne].
  - rewrite (decide_True (P := id ∈ id :: ids)) by apply list_elem_of_here. unfold map_has.
    destruct (map_find id w) as [s|] eqn:E.
    + rewrite update_find, (decide_True (P := id = id)), E by done. cbn [default from_option Datatypes.id fmap option_fmap option_map].
      rewrite Hf. by destruct (decide _).
    + rewrite E. by destruct (decide _).
  - assert (map_find k (if map_has id w then update_workload w id f else w) = map_find k w) as ->.
    { destruct (map_has id w); [|done]. by rewrite update_find, decide_False. }
    destruct (decide (k ∈ ids)); destruct (decide (k ∈ id :: ids)) as [Hin|Hn]; try done; set_solver.
Qed.

Lemma guarded_update_sorted f ids (w : Workloads) :
  keys_sorted w ->
  keys_sorted (fold_left (fun w id => if map_has id w then update_workload w id f else w) ids w).
Proof.
  revert w; induction ids as [|id ids IH]; intros w Hs; [done|]. cbn [fold_left]. apply IH.
  destruct (map_has id w); [by apply map_insert_sorted|done].
Qed.

(** Two related maps stay related when one key is updated on both sides. *)
Lemma update_restored st st' id f f' :
  restored st st' ->
  option_Forall2 restored_workload (Some (f (default empty_workload (find_workload st id))))
    (Some (f' (default empty_workload (find_workload st' id)))) ->
  restored (with_workloads st (update_workload (st_workloads st) id f))
    (with_workloads st' (update_workload (st_workloads st') id f')).
Proof.
  intros [Hs Hw Hp Hd Hg] Hid. split; try done; [by apply map_insert_sorted|].
  intros k. unfold find_workload in *. cbn [with_workloads st_workloads]. rewrite !update_find.
  by destruct (decide (k = id)) as [->|].
Qed.

(** ** Records that can be read back *)

(** The text of a record decodes to its payload, which it does for every document that
    fits and has readable reals (lemma [record_readable_text]). *)
Definition record_readable (payload : Json) : Prop := json_decode (dump payload) journal_decode_options = Ok payload.

Lemma record_readable_text payload :
  json_wf journal_decode_options 0 payload -> readable_reals payload = true -> is_object payload = true ->
  size (text_of payload) <= kMaxDocumentBytes -> record_readable payload.
Proof.
  intros Hw Hr Ho Hs. unfold record_readable. rewrite dump_text by (unfold kMaxDocumentBytes in *; lia).
  by apply json_decode_text; try right.
Qed.

Section Replay.
Context `{HashingOk} `{Ed25519} `{Host}.

(** What a submission must be for its record to be read back: within the bounds of the
    codecs, with the identity the reader derives. *)
Definition recoverable (now : nat -> Z) (info : RuntimeInfo) (q : request) : Prop :=
  match q with
  | RegisterRequest c | PublishRequest c => contract_codable c
  | AttachRequest ev => evidence_id ev = zero_id /\ evidence_codable (stamp_evidence now info ev).1
  | PolicyRequest p => policy_codable p /\ policy_id p = canonical_policy_id p
  | RetireRequest wid => id_ok wid
  end.

(** ** One record *)
Lemma restored_last w w' :
  restored_workload w w' -> gr_body <$> last (ws_generations w') = gr_body <$> last (ws_generations w).
Proof using.
  intros Hr. induction (rw_generations _ _ Hr) as [|x y l l' [(_ & _ & _ & E) _] Hl IH]; [done|].
  destruct Hl; [simpl; by rewrite E|exact IH].
Qed.

Lemma restored_declares w w' e : restored_workload w w' -> declares w' e = declares w e.
Proof using. intros Hr. unfold declares, current_contract. by rewrite (restored_last _ _ Hr). Qed.

Lemma validate_contract_digest c : validation_ok (validate_contract c) = true -> digest c = body_digest (body c).
Proof using.
  rewrite validate_contract_nil, app_nil. intros [_ Hd]. unfold contract_diagnostics in Hd.
  apply app_nil in Hd as [Hd _]. rewrite add_if_nil, negb_false_iff in Hd. by apply bool_decide_eq_true in Hd.
Qed.

Lemma restored_reaches w w' l : restored_workload w w' -> existsb (declares w') l = existsb (declares w) l.
Proof using.
  intros Hr. induction l as [|e l IH]; [done|]. cbn [existsb]. by rewrite IH, (restored_declares _ _ _ Hr).
Qed.

(** A contract that decodes from the record of its publication. *)
Lemma replay_decoded_contract st c payload recorded :
  contract_codable c -> validation_ok (validate_contract c) = true ->
  find payload "contract" = Some (contract_to_json c) ->
  (match find payload "recorded_at_millis" with Some (JInt i) => u64 i | _ => 0 end) = recorded ->
  (forall w g, find_workload st (wl_id (workload (body c))) = Some w -> last (ws_generations w) = Some g ->
     gr_generation g <> generation (body c)) ->
  replay_contract st payload
  = Ok (with_workloads st (update_workload (st_workloads st) (wl_id (workload (body c)))
                             (replayed_workload c recorded))).
Proof using All.
  intros Hc Hv Hf <- Hn. unfold replay_contract. rewrite Hf.
  assert (digest c = body_digest (body c)) as Hd by by apply validate_contract_digest.
  rewrite (contract_decode_encode c Hc Hd). cbv zeta.
  destruct (find_workload st _) as [w|]; cbn [default from_option Datatypes.id]; [|done].
  destruct (last (ws_generations w)) as [g|] eqn:E; [|done]. by rewrite (proj2 (Z.eqb_neq _ _)) by eauto.
Qed.

Lemma replay_registration st st' R c now seq :
  restored st st' -> state_ R = st -> register_checks R c = Ok tt -> contract_codable c ->
  exists st2, replay_payload st' kWorkloadRegistered seq (registration_payload now c) = Ok st2
    /\ restored (effect now (info_ R) (RegisterRequest c) st) st2.
Proof using All.
  intros Hr <- (Hv & Hg & _ & _ & _ & Hf)%register_checks_Ok Hc.
  pose proof (rs_workloads _ _ Hr (wl_id (workload (body c)))) as Hw. rewrite Hf in Hw.
  destruct (find_workload st' _) as [w'|] eqn:Hf' in Hw; [inversion Hw|].
  eexists. split.
  - change (replay_payload st' kWorkloadRegistered seq ?p) with (replay_contract st' p).
    apply replay_decoded_contract; [done|done|rewrite find_object; unfold registration_payload; find_json|reflexivity|].
    intros w g E. congruence.
  - cbn [effect]. unfold map_emplace, map_has. cbn [registered_workload ws_id]. unfold find_workload in Hf.
    rewrite Hf. cbn [fst]. destruct Hr as [Hs Hws Hp Hd Hpg]. split; try done; [by apply map_insert_sorted|].
    intros k. unfold find_workload. cbn [with_workloads st_workloads]. rewrite update_find.
    destruct (decide (k = wl_id (workload (body c)))) as [->|Hne].
    + rewrite map_find_insert_eq. unfold find_workload in Hf'. rewrite Hf'. constructor. split; try done; [by intros g [= <-]|].
      by repeat constructor.
    + rewrite map_find_insert_ne by done. apply Hws.
Qed.

(** Superseding by number marks every earlier generation. *)
Lemma replayed_generations n l l' :
  Forall2 same_version l l' -> Forall (fun g => gr_generation g < n) l ->
  Forall2 same_version (map supersede l) (map (fun g => if gr_generation g <? n then supersede g else g) l').
Proof using.
  induction 1 as [|g g' l l' [Hg Hs] Hl IH]; intros Hn; [constructor|]. apply Forall_cons in Hn as [Hgn Hn].
  cbn [map]. constructor; [|by apply IH]. pose proof Hg as (E & _).
  rewrite (proj2 (Z.ltb_lt (gr_generation g') n)) by lia. by split.
Qed.

Lemma replay_publication st st' R c who now seq :
  restored st st' -> state_ R = st -> state_ok (trust_ R) st -> publish_checks R c = Ok who -> contract_codable c ->
  exists st2, replay_payload st' kContractPublished seq (publication_payload now who c) = Ok st2
    /\ restored (effect now (info_ R) (PublishRequest c) st) st2.
Proof using All.
  intros Hr <- Hok (w & g & Hf & Hl & Hp & _)%publish_checks_Ok Hc.
  pose proof (state_find _ _ _ _ Hok Hf) as Hw. pose proof (rs_workloads _ _ Hr (wl_id (workload (body c)))) as Hrw.
  rewrite Hf in Hrw. destruct (find_workload st' _) as [w'|] eqn:Hf' in Hrw; [|inversion Hrw].
  inversion Hrw as [? ? Hww'|]; subst. pose proof (rw_generations _ _ Hww') as Hg.
  pose proof (published_ok R w g c (now 1%nat) Hw Hl Hp) as Hnew.
  assert (Forall (fun x => gr_generation x < generation (body c)) (ws_generations w)) as Hlt.
  { apply Forall_lookup. intros i x Hi. pose proof (workload_numbers _ _ _ _ _ Hw Hi).
    pose proof (lookup_lt_Some _ _ _ Hi). pose proof (workload_last _ _ _ _ Hw Hl) as El.
    destruct (wo_current _ _ _ Hw _ Hl) as (Eg & _). pose proof (wo_bound _ _ _ Hw).
    rewrite (pb_generation _ _ _ _ Hp), Eg, El. unfold zlength, kMaxRetainedGenerations in *. rewrite u64_small; lia. }
  eexists. split.
  - change (replay_payload st' kContractPublished seq ?p) with (replay_contract st' p).
    apply replay_decoded_contract; [done|apply (pb_valid _ _ _ _ Hp)| |reflexivity|].
    { rewrite find_object. unfold publication_payload. find_json. }
    intros w1 g1 E El. assert (w1 = w') as -> by congruence. apply last_Some_elem_of in El.
    apply list_elem_of_lookup in El as [i Hi]. destruct (Forall2_lookup_r _ _ _ _ _ Hg Hi) as (x & Hx & [(Ex & _) _]).
    rewrite Forall_lookup in Hlt. pose proof (Hlt i x Hx). lia.
  - cbn [effect]. apply update_restored; [done|]. rewrite Hf, Hf'. cbn [default from_option Datatypes.id]. constructor.
    destruct Hww'. split; cbn [replayed_workload published_workload ws_id ws_name ws_workload_generation
      ws_contract_generation ws_digest ws_contract ws_policy_generation ws_retired ws_generations ws_evidence
      ws_evidence_generation ws_evaluation]; try done.
    + symmetry. apply (wo_id _ _ _ Hw).
    + intros x. rewrite last_snoc. by intros [= <-].
    + apply Forall2_app; [by apply replayed_generations|]. by repeat constructor.
Qed.

Lemma replay_retire st st' R wid now seq :
  restored st st' -> state_ R = st -> retire_checks R wid = Ok tt -> id_ok wid ->
  exists st2, replay_payload st' kWorkloadRetired seq (retirement_payload now wid) = Ok st2
    /\ restored (effect now (info_ R) (RetireRequest wid) st) st2.
Proof using All.
  intros Hr <- Hc Hid. unfold retire_checks in Hc. destruct (find_workload _ _) as [w|] eqn:Hf; [|done].
  pose proof (rs_workloads _ _ Hr wid) as Hrw. rewrite Hf in Hrw.
  destruct (find_workload st' _) as [w'|] eqn:Hf' in Hrw; [|inversion Hrw]. inversion Hrw as [? ? Hww'|]; subst.
  change (replay_payload st' kWorkloadRetired seq ?p) with (replay_retirement st' p).
  unfold replay_retirement. rewrite find_object.
  assert (map_find "workload"%string (object (retirement_payload now wid)) = Some (JString (view wid))) as ->
    by (unfold retirement_payload; find_json).
  rewrite parse_id_view by done. unfold map_has. unfold find_workload in Hf'. rewrite Hf'.
  eexists. split; [reflexivity|]. cbn [effect]. apply update_restored; [done|]. rewrite Hf. unfold find_workload.
  rewrite Hf'. cbn [default from_option Datatypes.id]. constructor. destruct Hww'.
  split; cbn [mark_retired retired_workload ws_id ws_name ws_workload_generation
      ws_contract_generation ws_digest ws_contract ws_policy_generation ws_retired ws_generations ws_evidence
      ws_evidence_generation ws_evaluation]; try done.
  apply Forall2_fmap_l. eapply Forall2_impl; [done|]. intros x y [Hx Hs]. by split.
Qed.

Lemma replay_install st st' R p now seq :
  restored st st' -> state_ R = st -> state_ok (trust_ R) st -> policy_codable p -> policy_id p = canonical_policy_id p ->
  exists st2, replay_payload st' kPolicyInstalled seq (policy_payload now p) = Ok st2
    /\ restored (effect now (info_ R) (PolicyRequest p) st) st2.
Proof using All.
  intros Hr <- Hok Hp Hid. change (replay_payload st' kPolicyInstalled seq ?p) with (replay_policy st' p).
  unfold replay_policy. rewrite find_object.
  assert (map_find "policy"%string (object (policy_payload now p)) = Some (policy_to_json p)) as ->
    by (unfold policy_payload; find_json).
  rewrite (policy_roundtrip_spec p Hp Hid). eexists. split; [reflexivity|]. cbn [effect].
  destruct Hr as [Hs Hws _ _ _]. split; try done. intros k. unfold find_workload in *. cbn [st_workloads].
  rewrite (map_values_find (fun w => with_evaluation w (invalidate "the policy generation changed" (ws_evaluation w)))).
  pose proof (Hws k) as Hk. destruct (map_find k (st_workloads (state_ R))) as [w|]; [|inversion Hk; constructor].
  inversion Hk as [? ? Hww'|]; subst. constructor. by destruct Hww'.
Qed.

Lemma stamped_canonical now info ev :
  evidence_id ev = zero_id ->
  evidence_id (stamp_evidence now info ev).1 = canonical_evidence_id (stamp_evidence now info ev).1.
Proof using.
  intros Hz. unfold stamp_evidence. destruct (stamp_entries _ _ _ _ _) as [l reading].
  unfold canonical_evidence_id. cbn [fst evidence_id with_evidence_id ev_generation ev_epoch ev_publisher ev_produced
    ev_entries]. by rewrite Hz.
Qed.

Lemma attach_twice ev w : attach_to ev (attach_to ev w) = attach_to ev w.
Proof using. unfold attach_to. cbn. by destruct (ws_evaluation w). Qed.

Lemma restored_all_stale ev : all_stale (restored_evidence ev).
Proof using. unfold all_stale, restored_evidence. cbn. by apply Forall_map, Forall_true. Qed.

Lemma hits_restored w ev : existsb (declares w) (ev_entries (restored_evidence ev)) = existsb (declares w) (ev_entries ev).
Proof using. unfold restored_evidence. cbn. induction (ev_entries ev) as [|e l IH]; [done|]. cbn. by rewrite IH. Qed.

(** The workloads a replayed submission reaches. *)
Lemma replay_reaches ev (w : Workloads) k s :
  keys_sorted w -> map_find k w = Some s ->
  (k ∈ map fst (List.filter (fun p => existsb (declares p.2) (ev_entries (restored_evidence ev))) w)
   <-> existsb (declares s) (ev_entries ev) = true).
Proof using.
  intros Hs Hk. rewrite list_elem_of_In, in_map_iff. split.
  - intros ([k' s'] & <- & [Hin Hh]%filter_In). apply list_elem_of_In, keys_sorted_find in Hin; [|done].
    cbn [fst snd] in *. rewrite hits_restored in Hh. congruence.
  - intros Hh. exists (k, s). split; [done|]. apply filter_In. cbn [fst snd]. rewrite hits_restored. split; [|done].
    by apply list_elem_of_In, map_find_Some_in.
Qed.

Lemma affected_reaches l (w : Workloads) k s :
  keys_sorted w -> map_find k w = Some s ->
  (k ∈ affected w l <-> ws_retired s = false /\ existsb (declares s) l = true).
Proof using.
  intros Hs Hk. rewrite affected_elem, existsb_exists. setoid_rewrite <- list_elem_of_In. split.
  - intros (s' & Hin & Hr & Hd). apply keys_sorted_find in Hin; [|done]. assert (s' = s) as -> by congruence. done.
  - intros [Hr Hd]. exists s. split_and!; try done. by apply map_find_Some_in.
Qed.

Lemma replay_attach st st' R ev now seq reading :
  restored st st' -> state_ R = st -> state_ok (trust_ R) st -> evidence_id ev = zero_id ->
  evidence_codable (stamp_evidence now (info_ R) ev).1 ->
  exists st2, replay_payload st' kEvidenceAttached seq (evidence_payload (now reading) (stamp_evidence now (info_ R) ev).1) = Ok st2
    /\ restored (effect now (info_ R) (AttachRequest ev) st) st2.
Proof using All.
  intros Hr <- Hok Hz Hc. change (replay_payload st' kEvidenceAttached seq ?p) with (replay_evidence st' p).
  cbn [effect]. pose proof (stamped_canonical now (info_ R) ev Hz) as Hid.
  set (stamped := (stamp_evidence now (info_ R) ev).1) in *. unfold replay_evidence. rewrite find_object.
  assert (map_find "evidence"%string (object (evidence_payload (now reading) stamped)) = Some (evidence_to_json stamped))
    as -> by (unfold evidence_payload; find_json).
  rewrite (evidence_roundtrip_spec stamped Hc Hid). cbv zeta.
  set (ids := map fst _). set (w' := fold_left _ ids _).
  assert (forall floor, restored (with_floor (with_workloads (state_ R) (fold_left (fun w wid =>
            update_workload w wid (attach_to stamped)) (affected (st_workloads (state_ R)) (ev_entries stamped))
            (st_workloads (state_ R)))) (ev_generation stamped)) (with_floor (with_workloads st' w') floor)) as Hgoal.
  { destruct Hr as [Hs Hws Hp Hd Hpg]. intros floor. split; try done; [by apply guarded_update_sorted|].
    intros k. unfold find_workload. cbn [with_floor with_workloads st_workloads]. pose proof (Hws k) as Hk.
    unfold find_workload in Hk. rewrite update_all_find by (intros; apply attach_twice). unfold w'.
    rewrite guarded_update_all_find by done.
    inversion Hk as [w s' Hww' Ek Ek'|Ek Ek']; symmetry in Ek, Ek'.
    - pose proof (affected_reaches (ev_entries stamped) _ _ _ (so_sorted _ _ Hok) Ek) as Ha.
      pose proof (replay_reaches stamped _ _ _ Hs Ek') as Hb. fold ids in Hb.
      assert (existsb (declares s') (ev_entries stamped) = existsb (declares w) (ev_entries stamped)) as Ed.
      { apply restored_reaches, Hww'. }
      cbn [default from_option Datatypes.id fmap option_fmap option_map].
      destruct (decide (k ∈ affected _ _)) as [Hin|Hn].
      + apply Ha in Hin as [Er Eh]. rewrite decide_True by (apply Hb; congruence). constructor.
        destruct Hww'. split; try done. cbn. intros e [= <-]. apply restored_all_stale.
      + destruct (decide (k ∈ ids)) as [Hin'|Hn']; constructor; [|done].
        assert (ws_retired w = true) as Er.
        { destruct (ws_retired w) eqn:Er; [done|]. destruct Hn. apply Ha. split; [done|]. rewrite <- Ed. by apply Hb. }
        destruct Hww'. split; try done; cbn; [congruence|]. intros e [= <-]. apply restored_all_stale.
    - rewrite decide_False; [destruct (decide _); constructor|].
      rewrite affected_elem. intros (s & Hin & _). apply keys_sorted_find in Hin; [|apply Hok]. congruence. }
  destruct (zlength ids =? 0) eqn:E; [|by eexists]. eexists. split; [reflexivity|].
  assert (ids = []) as Ei by (apply Z.eqb_eq in E; unfold zlength in E; destruct ids; [done|simpl in E; lia]).
  specialize (Hgoal (evidence_floor st')). unfold w' in Hgoal. rewrite Ei in Hgoal. by destruct st'.
Qed.

(** Every request accepted in a state of which the journal rebuilds a restored copy adds a
    record that takes the copy to a restored copy of the effect. *)
Definition durable (now : nat -> Z) (R : Runtime) (q : request) : Prop :=
  forall type payload, plan now R q = Ok (type, payload) ->
    record_readable payload /\ recoverable now (info_ R) q.

Lemma plan_object now R q type payload : plan now R q = Ok (type, payload) -> is_object payload = true.
Proof using.
  destruct q as [c|c|ev|p|wid]; cbn [plan]; intros (? & _ & E)%bind_Ok_iff; try by injection E as _ <-.
  destruct (stamp_evidence _ _ _). by injection E as _ <-.
Qed.

Lemma replay_planned st' R q now type payload seq :
  restored (state_ R) st' -> state_ok (trust_ R) (state_ R) -> plan now R q = Ok (type, payload) ->
  recoverable now (info_ R) q ->
  exists st2, replay_payload st' type seq payload = Ok st2 /\ restored (effect now (info_ R) q (state_ R)) st2.
Proof using All.
  intros Hr Hok Hp Hq. destruct q as [c|c|ev|p|wid]; cbn [plan recoverable] in *; apply bind_Ok_iff in Hp as (a & Ha & Hp).
  - injection Hp as <- <-. destruct a. by eapply replay_registration.
  - injection Hp as <- <-. by eapply replay_publication.
  - destruct Hq as [Hz Hc]. pose proof (replay_attach _ _ R ev now seq (stamp_evidence now (info_ R) ev).2 Hr eq_refl Hok Hz Hc) as Hst.
    destruct (stamp_evidence now (info_ R) ev) as [stamped reading]. injection Hp as <- <-. exact Hst.
  - injection Hp as <- <-. destruct Hq as [Hc Hid]. by eapply replay_install.
  - injection Hp as <- <-. destruct a. by eapply replay_retire.
Qed.

Lemma replay_request st' R q now type payload r :
  restored (state_ R) st' -> state_ok (trust_ R) (state_ R) -> plan now R q = Ok (type, payload) -> durable now R q ->
  r_type r = type -> r_payload r = bytes_of_string (dump payload) ->
  exists st2, replay_record st' r = Ok st2 /\ restored (effect now (info_ R) q (state_ R)) st2.
Proof using All.
  intros Hr Hok Hp Hd <- Hb. destruct (Hd _ _ Hp) as [Hread Hq].
  destruct (replay_planned st' R q now _ payload (r_sequence r) Hr Hok Hp Hq) as (st2 & E & Hr2).
  exists st2. split; [|done]. pose proof (plan_object _ _ _ _ _ Hp) as Ho. unfold replay_record.
  rewrite Hb, string_of_bytes_of_string, Hread. by destruct payload.
Qed.

(** ** Opening *)
Lemma clear_restored st st' :
  restored st st' ->
  restored st (with_workloads st' (map (fun p => (p.1, clear_decision p.2)) (st_workloads st'))).
Proof using.
  intros [Hs Hw Hp Hd Hg]. split; try done; [by apply map_values_sorted|]. intros k. unfold find_workload in *.
  cbn [with_workloads st_workloads]. rewrite map_values_find. pose proof (Hw k) as Hk.
  destruct (map_find k (st_workloads st')) as [w'|]; [|exact Hk]. inversion Hk as [w ? Hww'|]; subst. constructor.
  destruct Hww' as [? ? ? ? ? ? ? ? ? ? ? Hu]. split; try done. cbn. by rewrite Hu.
Qed.

Lemma records_after seq link l : 1 <= seq -> List.filter (fun r => 0 <? r_sequence r) (run_records seq link l) = run_records seq link l.
Proof using.
  revert seq link; induction l as [|[t p] l IH]; intros seq link Hs; [done|]. cbn [run_records List.filter].
  change (r_sequence (record_of t seq p link)) with seq. rewrite (proj2 (Z.ltb_lt 0 seq)) by lia. by rewrite IH by lia.
Qed.

(** Without a snapshot, opening replays the whole journal. *)
Lemma open_replays boot now files options files2 L rep l report :
  state_directory options <> EmptyString -> boot_ok boot ->
  open_ledger boot files (coordinator_identity (opt_trust options)) (Signature.trust_digest (opt_trust options))
  = (files2, Ok (L, report)) ->
  map_find snapshot_name files2 = None -> read_all true files2 = Ok (records_of l, rep) ->
  exists info, open_runtime boot now files options
    = (files2, match result_fold replay_record empty_state (records_of l) with
               | Ok st => Ok (mk_runtime info
                   (with_workloads st (map (fun p => (p.1, clear_decision p.2)) (st_workloads st)))
                   (opt_trust options) L (effective_max_age (opt_evidence_max_age_millis options)))
               | Err e => Err e
               end).
Proof using All.
  intros Hd Hb E Hsn Hread. unfold open_runtime. destruct (is_empty (state_directory options)) eqn:Ed.
  { by destruct (state_directory options). }
  cbv zeta. rewrite E. unfold snapshot_sequence, read_snapshot, read_file. rewrite Hsn.
  change (code_eqb kStateUnavailable kStateUnavailable) with true. cbn [mbind result_bind].
  unfold read_after. unfold read_all in Hread. rewrite (bok_listable _ Hb), Hread.
  rewrite records_after by lia. eexists. by destruct (result_fold _ _ _).
Qed.

(** ** Files the ledger leaves alone *)
Definition foreign (name : string) : Prop :=
  is_journal name = false /\ name <> EmptyString /\ name <> head_name /\ name <> temporary_name head_name.

Lemma snapshot_foreign : foreign snapshot_name.
Proof. by split_and!. Qed.

Lemma atomic_write_other disk files name data other :
  other <> name -> other <> temporary_name name ->
  map_find other (write_file_atomic disk files name data).1 = map_find other files.
Proof.
  intros Hn Ht. unfold write_file_atomic. destruct (can_open disk); cbn [negb fst]; [|done].
  destruct (write_loop (writes disk) [] data) as [written complete].
  destruct complete; cbn [negb fst]; [|by apply map_find_insert_ne].
  destruct (can_sync disk); cbn [negb fst]; [|by apply map_find_insert_ne].
  destruct (can_rename disk); cbn [negb fst]; [|by apply map_find_insert_ne].
  by rewrite map_find_insert_ne, map_erase_ne, map_find_insert_ne by done.
Qed.

Lemma repair_other files scan files' other :
  foreign other -> repair files scan = Ok files' -> map_find other files' = map_find other files.
Proof.
  intros (Hj & He & _ & _). unfold repair. set (kept := if excess_segments scan <? _ then _ else _).
  assert (forall name, name = EmptyString \/ name ∈ journal_names files -> other <> name) as Hne.
  { intros name Hn E. subst name. destruct Hn as [Hn|Hin]; [done|]. unfold journal_names in Hin.
    rewrite std_sort_perm in Hin.
    apply list_elem_of_In, filter_In in Hin as [_ Hin]. congruence. }
  assert (forall fs, map_find other (fold_left remove_file (drop (Z.to_nat kept) (journal_names files)) fs)
            = map_find other fs) as Hrm.
  { assert (forall name, name ∈ drop (Z.to_nat kept) (journal_names files) -> name ∈ journal_names files) as Hl.
    { intros name Hin. rewrite <- (take_drop (Z.to_nat kept) (journal_names files)). apply elem_of_app. by right. }
    revert Hl. generalize (drop (Z.to_nat kept) (journal_names files)).
    intros l. induction l as [|x l IH]; intros Hl fs; [done|]. cbn [fold_left]. rewrite IH by set_solver.
    apply map_erase_ne, Hne. right. set_solver. }
  destruct (0 <? kept).
  - set (name := nth _ _ _). unfold truncate_file. destruct (map_find name files) as [d|]; [|done].
    destruct (negb (can_truncate name)); [done|]. intros [= <-]. rewrite Hrm by done.
    apply map_find_insert_ne, Hne. destruct (nth_in_or_default (Z.to_nat (kept - 1)) (journal_names files) EmptyString);
      [right; by apply list_elem_of_In|by left].
  - intros [= <-]. by apply Hrm.
Qed.

Lemma open_ledger_other boot files owner trust other :
  foreign other -> map_find other (open_ledger boot files owner trust).1 = map_find other files.
Proof.
  intros Ho. unfold open_ledger. destruct (ensure_directory boot); [|done]. destruct (within boot); [|done].
  cbn [negb]. destruct (check_head _ _ _) as [[[pe pb] present]|]; [|done].
  destruct (_ && _); [done|]. destruct (read_frames _ _) as [[records scan]|[? ?]]; [|done].
  assert (forall fs, map_find other (write_head (head_disk boot) fs
            (mk_ledger (mk_head kHeadVersion owner trust (u64 (pe + 1)) (new_incarnation (random boot))
               (last_valid_sequence scan) (u64 (pb + 1))) zero_digest 0 0 0 0 true)).1 = map_find other fs) as Hw.
  { intros fs. unfold write_head. destruct (_ || _); [done|]. by apply atomic_write_other; apply Ho. }
  destruct (if 0 <? truncated_bytes scan then repair files scan else Ok files) as [fs|] eqn:Er; [|done].
  assert (map_find other fs = map_find other files) as Hfs.
  { destruct (0 <? truncated_bytes scan); [by eapply repair_other|by injection Er as <-]. }
  destruct (discover boot fs) as [[[count retained] segment]|]; [|by cbn]. rewrite <- Hfs, <- (Hw fs).
  unfold write_head. cbn [head_ with_chain]. destruct (_ || _); [done|].
  by destruct (write_file_atomic _ _ _ _) as [fs' [u|e]].
Qed.

(** ** A session *)

(** The first session on a fresh directory: opening it, then any requests, refused or
    accepted, over a disk that works. *)
Inductive session (options : Options) : Files -> Runtime -> Prop :=
| session_open boot now files R :
    boot_ok boot -> open_runtime boot now [] options = (files, Ok R) -> session options files R
| session_request now files R q files' R' r :
    session options files R -> durable now R q -> perform healthy now files R q = (files', R', r) ->
    session options files' R'.

(** What holds during a session: the journal of [runs] replays to a restored copy of the state. *)
Record session_ok (options : Options) (files : Files) (R : Runtime) (runs : list history) (h : HeadRecord)
    (st' : RuntimeState) : Prop := {
  se_trust : trust_ R = opt_trust options;
  se_ledger : ledger_ok (ledger_ R) files runs;
  se_head : head_ok h /\ map_find head_name files = Some (head_bytes h);
  se_owner : coordinator h = coordinator_identity (opt_trust options)
    /\ trust_digest h = Signature.trust_digest (opt_trust options);
  se_snapshot : map_find snapshot_name files = None;
  se_state : state_ok (trust_ R) (state_ R);
  se_replay : result_fold replay_record empty_state (records_of (concat runs)) = Ok st';
  se_restored : restored (state_ R) st'
}.

Lemma session_start options boot now files R :
  boot_ok boot -> open_runtime boot now [] options = (files, Ok R) ->
  exists runs h st', session_ok options files R runs h st'.
Proof.
  intros Hb E. unfold open_runtime in E. destruct (is_empty (state_directory options)); [discriminate E|].
  cbv zeta in E. set (owner := coordinator_identity _) in *. set (digest := Signature.trust_digest _) in *.
  assert (id_ok owner) as Ho by (apply from_digest_ok; [apply sha256_parts_length|apply sha256_parts_bytes]).
  assert (length digest = 32%nat /\ Forall is_byte digest) as Hd by (split; [apply sha256_parts_length|apply sha256_parts_bytes]).
  destruct (open_empty boot owner digest Hb Ho Hd) as (files0 & L & Eo & Hk & Hf & Hh & _ & _ & Hco & Htr).
  assert (map_find snapshot_name files0 = None) as Hs.
  { pose proof (open_ledger_other boot [] owner digest snapshot_name snapshot_foreign) as Hs. by rewrite Eo in Hs. }
  rewrite Eo in E. unfold snapshot_sequence, read_snapshot, read_file in E. rewrite Hs in E.
  change (code_eqb kStateUnavailable kStateUnavailable) with true in E. cbn [mbind result_bind] in E.
  unfold read_after in E. rewrite (bok_listable _ Hb), (ledger_reads _ _ _ Hk) in E.
  cbn [concat run_records List.filter result_fold mbind result_bind] in E. injection E as <- <-.
  exists [], (head_ L), empty_state. split; try done. apply empty_restored.
Qed.

Lemma payload_bytes payload : Forall is_byte (bytes_of_string (dump payload)).
Proof. apply bytes_of_string_bytes. Qed.

Lemma records_snoc l type payload :
  records_of (l ++ [(type, payload)]) = records_of l ++ [record_of type (1 + zlength l) payload (chain_after l)].
Proof. by rewrite run_records_app. Qed.

(** An accepted request whose record is appended. *)
Lemma replay_appended options files R runs h st' now q type payload :
  session_ok options files R runs h st' -> plan now R q = Ok (type, payload) -> durable now R q ->
  exists st2, result_fold replay_record empty_state (records_of (concat runs ++ [(type, bytes_of_string (dump payload))])) = Ok st2
    /\ restored (effect now (info_ R) q (state_ R)) st2.
Proof.
  intros Hs Hp Hd. rewrite records_snoc, result_fold_app, (se_replay _ _ _ _ _ _ Hs). cbn [mbind result_bind result_fold].
  destruct (replay_request st' R q now type payload (record_of type (1 + zlength (concat runs))
    (bytes_of_string (dump payload)) (chain_after (concat runs))) (se_restored _ _ _ _ _ _ Hs)
    (se_state _ _ _ _ _ _ Hs) Hp Hd eq_refl eq_refl) as (st2 & -> & Hr). by exists st2.
Qed.

Lemma session_invariant options files R : session options files R -> exists runs h st', session_ok options files R runs h st'.
Proof.
  induction 1 as [boot now files R Hb E|now files R q files' R' r _ (runs & h & st' & Hs) Hd E];
    [by eapply session_start|]. rewrite perform_plan in E.
  destruct (plan now R q) as [[type payload]|e] eqn:Ep; [|injection E as <- <- _; eauto].
  pose proof (commit_frame healthy files R type payload) as Hf. unfold commit in *. destruct (_ <? _).
  { injection E as <- <- _. eauto. }
  assert (0 <= type < 2 ^ 16) as Ht by (rewrite (plan_type _ _ _ _ _ Ep); apply request_type_range).
  pose proof (payload_bytes payload) as Hb. destruct Hs as [Htr Hk [Hh Hhf] Ho Hsn Hst Hrep Hres].
  destruct (has_room (ledger_ R) (bytes_of_string (dump payload))) eqn:Hroom.
  - destruct (append_healthy (ledger_ R) files runs type _ Hk Ht Hb Hroom) as (f1 & L1 & runs1 & Ea & Ec & Hk1 & Hother).
    rewrite Ea in E. injection E as <- <- _. destruct (replay_appended options files R runs h st' now q type payload)
      as (st2 & E2 & Hr2); [by split|done|done|].
    exists runs1, h, st2. split; cbn [with_state with_ledger trust_ ledger_ state_ info_]; try done.
    + by rewrite Hother.
    + by rewrite Hother.
    + apply effect_ok; [done|by rewrite Ep].
    + by rewrite Ec.
  - pose proof (append_reaches_disk healthy (ledger_ R) files runs type _ Hk Ht Hb) as Ha. rewrite Hroom in Ha.
    destruct Ha as (L1 & e & Ea & _ & Hk1). rewrite Ea in E. injection E as <- <- _. exists runs, h, st'. by split.
Qed.

(** The ledger opens, and its journal replays to [r]. *)
Definition reopens_to (boot : Boot) (files : Files) (h : HeadRecord) (r : result io_error RuntimeState) : Prop :=
  exists files2 L2 rep report l,
    open_ledger boot files (coordinator h) (trust_digest h) = (files2, Ok (L2, report))
    /\ map_find snapshot_name files2 = None /\ read_all true files2 = Ok (records_of l, rep)
    /\ result_fold replay_record empty_state (records_of l) = r.

Lemma opened_reopens boot files h files2 L2 report runs r :
  open_ledger boot files (coordinator h) (trust_digest h) = (files2, Ok (L2, report)) -> opened files2 L2 runs h ->
  map_find snapshot_name files = None -> result_fold replay_record empty_state (records_of (concat runs)) = r ->
  reopens_to boot files h r.
Proof.
  intros E (Hread & _) Hsn Hst. exists files2, L2, (clean_report runs), report, (concat runs). split_and!; try done.
  pose proof (open_ledger_other boot files (coordinator h) (trust_digest h) _ snapshot_foreign) as Hx. rewrite E in Hx.
  by rewrite <- Hsn.
Qed.


(** What [open_runtime] makes of it. *)
Lemma reopens_opens options boot now files h r :
  state_directory options <> EmptyString -> boot_ok boot -> coordinator h = coordinator_identity (opt_trust options) ->
  trust_digest h = Signature.trust_digest (opt_trust options) -> reopens_to boot files h r ->
  match r with
  | Ok st => exists files2 R2, open_runtime boot now files options = (files2, Ok R2)
      /\ (forall st0, restored st0 st -> restored st0 (state_ R2)) /\ trust_ R2 = opt_trust options
  | Err e => exists files2, open_runtime boot now files options = (files2, Err e)
  end.
Proof.
  intros Hd Hb Ho Ht (files2 & L2 & rep & report & l & E & Hsn & Hread & <-). rewrite Ho, Ht in E.
  destruct (open_replays boot now files options files2 L2 rep l report Hd Hb E Hsn Hread) as [info ->].
  destruct (result_fold _ _ _) as [st|e]; [|by eexists]. eexists files2, _. split_and!; try done.
  intros st0. apply clear_restored.
Qed.

(** The record of a submission that carried an identity of its own. *)
Lemma replay_foreign_identity st' stamped now seq :
  evidence_codable stamped -> id_ok (evidence_id stamped) -> evidence_id stamped <> canonical_evidence_id stamped ->
  String.eqb (view (evidence_id stamped)) (char_string 64 "0") = false ->
  exists text, replay_payload st' kEvidenceAttached seq (evidence_payload now stamped) = Err (kLedgerCorrupt, text).
Proof.
  intros Hc Hok Hi Hz. change (replay_payload st' kEvidenceAttached seq ?p) with (replay_evidence st' p).
  unfold replay_evidence. rewrite find_object.
  assert (map_find "evidence"%string (object (evidence_payload now stamped)) = Some (evidence_to_json stamped)) as ->
    by (unfold evidence_payload; find_json).
  rewrite (evidence_foreign_id stamped Hc Hok Hi Hz). by eexists.
Qed.

(** ** Nothing that is replayed is current *)
Definition workload_stale (w : WorkloadState) : Prop :=
  (forall ev, ws_evidence w = Some ev -> all_stale ev)
  /\ (forall e, ws_evaluation w = Some e -> stored_valid e = false).

Definition state_stale (st : RuntimeState) : Prop := Forall (fun p => workload_stale p.2) (st_workloads st).

Lemma update_stale w wid f :
  Forall (fun p => workload_stale p.2) w -> (forall s, workload_stale s -> workload_stale (f s)) ->
  Forall (fun p => workload_stale p.2) (update_workload w wid f).
Proof.
  intros Hw Hf. apply map_insert_Forall; [|done]. apply Hf. destruct (map_find wid w) as [s|] eqn:E; [|by split].
  exact (map_find_Forall (fun p => workload_stale p.2) _ _ _ Hw E).
Qed.

Lemma restore_all_stale ev ids w :
  Forall (fun p => workload_stale p.2) w ->
  Forall (fun p => workload_stale p.2) (fold_left (fun w wid => if map_has wid w
    then update_workload w wid (restore_to (restored_evidence ev)) else w) ids w).
Proof.
  revert w; induction ids as [|wid ids IH]; intros w Hw; [exact Hw|]. cbn [fold_left]. apply IH.
  destruct (map_has wid w); [|done]. apply update_stale; [done|]. intros s _.
  split; [|done]. intros e [= <-]. apply restored_all_stale.
Qed.

Lemma replay_stale st r st2 : state_stale st -> replay_record st r = Ok st2 -> state_stale st2.
Proof.
  intros Hs. unfold replay_record. destruct (json_decode _ _) as [[]|]; try discriminate. unfold replay_payload.
  destruct (_ =? kGenesis); [by intros [= <-]|]. destruct (_ || _).
  { unfold replay_contract. intros E. break_hyp E; try discriminate; injection E as <-;
      (apply update_stale; [exact Hs|by intros w [? ?]]). }
  destruct (_ =? kWorkloadRetired).
  { unfold replay_retirement. intros E. break_hyp E; try discriminate; injection E as <-;
      (apply update_stale; [exact Hs|by intros w [? ?]]). }
  destruct (_ =? kEvidenceAttached).
  { unfold replay_evidence. destruct (find _ _); [|discriminate]. destruct (evidence_from_json _) as [ev|]; [|discriminate].
    cbv zeta. destruct (_ =? 0); intros E; [by injection E as <-|]. injection E as <-. by apply restore_all_stale. }
  destruct (_ =? kPolicyInstalled).
  { unfold replay_policy. intros E. break_hyp E; try discriminate; by injection E as <-. }
  destruct (_ =? kEvaluationRecorded); [|discriminate].
  unfold replay_evaluation. intros E. break_hyp E; try discriminate; injection E as <-;
    (apply update_stale; [exact Hs|]; intros w [? ?]; split; [done|by intros e [= <-]]).
Qed.

Lemma open_stale boot now files options files2 R :
  open_runtime boot now files options = (files2, Ok R) -> state_stale (state_ R).
Proof.
  unfold open_runtime. destruct (is_empty _); [discriminate|]. cbv zeta.
  destruct (open_ledger _ _ _ _) as [fs [[L rep]|]]; [|discriminate]. intros [= _ E].
  apply result_bind_Ok in E as (sequence & _ & E). destruct (read_after _ _ _) as [[records ?]|[? ?]]; [|discriminate].
  apply result_bind_Ok in E as (st & Hst & E). injection E as <-. cbn [state_]. unfold state_stale.
  cbn [with_workloads st_workloads]. rewrite Forall_map.
  assert (state_stale st) as Hs.
  { apply (result_fold_inv state_stale replay_record records empty_state st); [|constructor|exact Hst]. intros s x s' Hs' E. by eapply replay_stale. }
  eapply Forall_impl; [exact Hs|]. intros [k w] [He Hv]. split; cbn; [exact He|]. intros e.
  destruct (ws_evaluation w); [|discriminate]. by intros [= <-].
Qed.

(** Stale evidence and no valid decision never give a satisfied contract. *)
Lemma stale_not_satisfied now R id w res :
  find_workload (state_ R) id = Some w -> workload_stale w -> evaluate now R id = Ok res ->
  aggregate (res_evaluation res) <> kSatisfied.
Proof.
  intros Hf [He Hv] E. unfold evaluate in E. rewrite Hf in E. unfold evaluate_internal in E.
  destruct (current_contract w) as [c|]; [|discriminate E]. unfold cached in E.
  assert (match ws_evaluation w with Some s => stored_valid s | None => false end = false) as Hc.
  { destruct (ws_evaluation w); [by apply Hv|done]. }
  destruct (ws_evaluation w) as [s|]; [rewrite Hc in E; cbn [andb] in E|];
  (destruct (ws_evidence w) as [ev|]; [|by injection E as <-]; unfold evaluated in E; injection E as <-;
   cbn [res_evaluation]; intros Hs; apply evaluate_contract_spec in Hs as [[r Hr] Hall];
   destruct (Hall r Hr) as (e & (Hfe & _ & Hcur) & _); apply find_some in Hfe as [Hin%list_elem_of_In _];
   pose proof (He ev eq_refl) as Hst; unfold all_stale in Hst; rewrite Forall_forall in Hst; rewrite (Hst e Hin) in Hcur;
   discriminate Hcur).
Qed.

End Replay.

(** ** Properties *)


(** C9: no verdict survives a restart.  Whatever the files of a state directory hold, when
    opening it succeeds then every entry of every stored evidence set is marked for
    revalidation and no stored decision is valid, and therefore no contract evaluates to
    satisfied until new evidence is attached. *)
Theorem restart_needs_evidence `{HashingOk} `{Ed25519} `{Host} (boot : Boot) (now later : nat -> Z)
    (files files2 : Files) (options : Options) (R : Runtime) :
  open_runtime boot now files options = (files2, Ok R) ->
  forall id w, find_workload (state_ R) id = Some w ->
    (forall ev, ws_evidence w = Some ev -> all_stale ev)
    /\ (forall e, ws_evaluation w = Some e -> stored_valid e = false)
    /\ forall res, evaluate later R id = Ok res -> aggregate (res_evaluation res) <> kSatisfied.
Proof.
  intros E id w Hf. pose proof (open_stale _ _ _ _ _ _ E) as Hs.
  pose proof (map_find_Forall (fun p => workload_stale p.2) _ _ _ Hs Hf) as Hw. cbn [snd] in Hw.
  split_and!; [apply Hw|apply Hw|]. intros res. by apply (stale_not_satisfied later R id w).
Qed.

(** C21: evidence submitted with an identity of its own makes the directory unusable.  The
    identity the runtime stamps is derived from bytes that include the submitted one, while
    the reader of the record derives it from bytes with none, so when the two differ an
    acknowledged submission is a record no later start can read: opening fails, and the
    contracts and policies in the journal are not served either. *)
Theorem submitted_identity_breaks_recovery `{HashingOk} `{Ed25519} `{Host} (options : Options) (files files1 : Files)
    (R R1 : Runtime) (disk : Disk) (now now2 : nat -> Z) (ev : EvidenceSet) (boot : Boot) (n : Z) :
  let stamped := (stamp_evidence now (info_ R) ev).1 in
  session options files R -> boot_ok boot -> state_directory options <> EmptyString ->
  evidence_codable stamped -> evidence_id stamped <> canonical_evidence_id stamped ->
  String.eqb (view (evidence_id stamped)) (char_string 64 "0") = false ->
  record_readable (evidence_payload (now (stamp_evidence now (info_ R) ev).2) stamped) ->
  perform disk now files R (AttachRequest ev) = (files1, R1, Ok n) ->
  exists files2 text, open_runtime boot now2 files1 options = (files2, Err (kLedgerCorrupt, text)).
Proof.
  intros stamped Hs Hb Hdir Hc Hi Hz Hread E. destruct (session_invariant _ _ _ Hs) as (runs & h & st' & Hok).
  rewrite perform_plan in E. destruct (plan now R (AttachRequest ev)) as [[type payload]|] eqn:Ep; [|discriminate E].
  pose proof (plan_type _ _ _ _ _ Ep) as Et. pose proof (plan_object _ _ _ _ _ Ep) as Hobj.
  cbn [plan] in Ep. apply bind_Ok_iff in Ep as (u & _ & Ep).
  assert (payload = evidence_payload (now (stamp_evidence now (info_ R) ev).2) stamped) as Epay.
  { unfold stamped. destruct (stamp_evidence now (info_ R) ev). by injection Ep. }
  pose proof Hok as [_ Hk [Hh Hhf] [Ho Hdig] Hsn _ Hrep _]. unfold commit in E. destruct (_ <? _); [discriminate E|].
  assert (0 <= type < 2 ^ 16) as Ht by (rewrite Et; apply request_type_range).
  pose proof (payload_bytes payload) as Hpb.
  pose proof (interrupted_append disk boot (ledger_ R) files runs h type _ Hk Hh Hhf Hb Ht Hpb) as Hint.
  pose proof (append_any disk (ledger_ R) files runs type _ Hk Ht Hpb) as Hany.
  destruct (append disk files (ledger_ R) type (bytes_of_string (dump payload))) as [[f1 L1] [m|e]]; [|discriminate E].
  assert (f1 = files1) as -> by congruence. destruct Hint as (files2 & L2 & rep & runs2 & Eo & _ & Hall & Hop & _).
  specialize (Hall eq_refl). cbv zeta in Hany.
  assert (map_find snapshot_name files1 = None) as Hsn1.
  { destruct Hany as [[_ Hf]|(? & ? & ? & _ & _ & _ & _ & _ & _ & _ & _ & Hother)]; [discriminate Hf|]. by rewrite Hother. }
  assert (id_ok (evidence_id stamped)) as Hid.
  { unfold stamped, stamp_evidence. destruct (stamp_entries _ _ _ _ _). apply from_digest_ok;
      [apply sha256_parts_length|apply sha256_parts_bytes]. }
  destruct (replay_foreign_identity st' stamped (now (stamp_evidence now (info_ R) ev).2) (1 + zlength (concat runs))
    Hc Hid Hi Hz) as [text Er].
  destruct (reopens_opens options boot now2 files1 h (Err (kLedgerCorrupt, text)) Hdir Hb Ho Hdig) as [f2 E2];
    [|by exists f2, text].
  eapply opened_reopens; [exact Eo|exact Hop|exact Hsn1|]. rewrite Hall, records_snoc, result_fold_app, Hrep.
  cbn [result_fold]. unfold replay_record. cbn [r_payload record_of r_type r_sequence].
  rewrite string_of_bytes_of_string. rewrite <- Epay in Hread, Er. rewrite Hread. subst type.
  cbn [request_type]. destruct payload; try discriminate Hobj. by rewrite Er.
Qed.

(** ** Witnesses: the concrete run of Authority.v *)
#[local] Existing Instance toy_hashing.
#[local] Existing Instance toy_hashing_ok.
#[local] Existing Instance toy_ed25519.
#[local] Existing Instance sample_host.

(** A contract whose document reads back is within the bounds of the codec. *)
Lemma readable_codable c :
  json_decode (dump (contract_to_json c)) default_options = Ok (contract_to_json c) ->
  contract_from_json (contract_to_json c) = Ok c -> (supersedes c = 0 -> supersedes_digest c = zero_digest) ->
  contract_codable c.
Proof.
  intros Ej Ec Hs. apply (decoded_codable (contract_to_json c)); [|done|done].
  apply (json_wf_representable default_options _ 0).
  pose proof (json_decode_outcome (dump (contract_to_json c)) default_options) as Hwf. rewrite Ej in Hwf.
  apply Hwf; discriminate.
Qed.

Lemma sample_contracts_codable : contract_codable first_contract /\ contract_codable second_contract.
Proof.
  split; (apply readable_codable; [vm_compute; reflexivity|vm_compute; reflexivity|]);
    [intros _; vm_compute; reflexivity|vm_compute; discriminate].
Qed.

Lemma sample_start_session : session sample_options sample_start.1 sample_start.2.
Proof.
  apply (session_open sample_options sample_boot clock); [apply sample_boot_ok|].
  unfold sample_start. destruct (open_runtime sample_boot clock [] sample_options) as [f [R|e]] eqn:E; [done|].
  assert (is_ok (open_runtime sample_boot clock [] sample_options).2 = true) as Hok by (vm_compute; reflexivity).
  rewrite E in Hok. discriminate Hok.
Qed.

(** The record a request appends on a runtime reads back. *)
Definition readable_plan (now : nat -> Z) (R : Runtime) (q : request) : Prop :=
  match plan now R q with Ok (_, payload) => record_readable payload | Err _ => True end.

Lemma readable_durable now R q : readable_plan now R q -> recoverable now (info_ R) q -> durable now R q.
Proof. unfold readable_plan. intros Hr Hq type payload E. by rewrite E in Hr. Qed.

(** The first contract registered, on the directory of the first run. *)
Definition registered : Files * Runtime :=
  Eval vm_compute in (perform healthy clock sample_start.1 sample_start.2 (RegisterRequest first_contract)).1.

Lemma registered_session : session sample_options registered.1 registered.2.
Proof.
  apply (session_request sample_options clock sample_start.1 sample_start.2 (RegisterRequest first_contract) registered.1
    registered.2 (perform healthy clock sample_start.1 sample_start.2 (RegisterRequest first_contract)).2).
  - apply sample_start_session.
  - apply readable_durable; [vm_compute; reflexivity|apply sample_contracts_codable].
  - assert ((perform healthy clock sample_start.1 sample_start.2 (RegisterRequest first_contract)).1 = registered) as E
      by (vm_compute; reflexivity).
    rewrite <- E. by destruct (perform _ _ _ _ _) as [[f R] r].
Qed.


(** Evidence attached before the restart. *)
Lemma restart_needs_evidence_witness :
  exists files2 R2 w res,
    open_runtime sample_boot clock
      (perform healthy clock registered.1 registered.2 (AttachRequest (sample_evidence 1 "leaf"))).1.1 sample_options
    = (files2, Ok R2)
    /\ find_workload (state_ R2) sample_workload = Some w /\ evaluate clock R2 sample_workload = Ok res
    /\ aggregate (res_evaluation res) <> kSatisfied.
Proof.
  assert (match open_runtime sample_boot clock
      (perform healthy clock registered.1 registered.2 (AttachRequest (sample_evidence 1 "leaf"))).1.1 sample_options with
      | (_, Ok R) => match find_workload (state_ R) sample_workload with Some _ => true | None => false end
                     && is_ok (evaluate clock R sample_workload)
      | _ => false end = true) as Hb by (vm_compute; reflexivity).
  destruct (open_runtime _ _ _ _) as [files2 [R2|e]] eqn:E; [|discriminate Hb]. apply andb_true_iff in Hb as [Hw He].
  destruct (find_workload (state_ R2) sample_workload) as [w|] eqn:Ef; [|discriminate Hw].
  destruct (evaluate clock R2 sample_workload) as [res|] eqn:Er; [|discriminate He].
  exists files2, R2, w, res. split; [reflexivity|]. split; [exact Ef|]. split; [exact Er|].
  destruct (restart_needs_evidence sample_boot clock clock _ files2 sample_options R2 E sample_workload w Ef)
    as (_ & _ & Hn). exact (Hn res Er).
Defined.

(** Evidence that carries an identity, as every decoded submission does. *)
Definition identified_evidence : EvidenceSet :=
  with_evidence_id (sample_evidence 1 "leaf") (mk_id (char_string 64 "1")).

Lemma identified_codable info :
  0 <= info_epoch info < 2 ^ 63 -> incarnation_ok (info_incarnation info) ->
  evidence_codable (stamp_evidence clock info identified_evidence).1.
Proof.
  intros He Hi. split; [cbn; lia|split; reflexivity|]. split; [discriminate|]. constructor; [|constructor].
  split; try reflexivity; [split; discriminate|split; reflexivity|cbn; lia|exact Hi|].
  split; [repeat constructor; vm_compute; intuition discriminate|repeat constructor|
    split_and!; try reflexivity; try discriminate; repeat constructor|reflexivity].
Qed.

Lemma registered_info : info_epoch (info_ registered.2) = 1 /\ incarnation_ok (info_incarnation (info_ registered.2)).
Proof.
  split; [vm_compute; reflexivity|]. assert (info_incarnation (info_ registered.2) = new_incarnation (random sample_boot)) as ->
    by (vm_compute; reflexivity). right. vm_compute. repeat split; repeat constructor; discriminate.
Qed.

Lemma submitted_identity_breaks_recovery_witness :
  exists files2 text,
    open_runtime sample_boot clock
      (perform healthy clock registered.1 registered.2 (AttachRequest identified_evidence)).1.1 sample_options
    = (files2, Err (kLedgerCorrupt, text)).
Proof.
  assert (record_readable (evidence_payload (clock (stamp_evidence clock (info_ registered.2) identified_evidence).2)
            (stamp_evidence clock (info_ registered.2) identified_evidence).1)) as Hread by (vm_compute; reflexivity).
  assert (is_ok (perform healthy clock registered.1 registered.2 (AttachRequest identified_evidence)).2 = true) as Hok
    by (vm_compute; reflexivity).
  destruct (perform _ _ _ _ _) as [[files1 R1] [n|e]] eqn:E; [|discriminate Hok].
  apply (submitted_identity_breaks_recovery sample_options registered.1 files1 registered.2 R1 healthy clock clock
    identified_evidence sample_boot n registered_session sample_boot_ok); [discriminate|apply identified_codable;
    destruct registered_info as [Ee Ei]; [rewrite Ee; lia|exact Ei]|vm_compute; discriminate|vm_compute; reflexivity|exact Hread|exact E].
Defined.
