(* ===== verification/Coordinator.v ===== *)
(** * The coordinator service

    Models [include/wnc/coordinator.hpp] and [src/coordinator.cpp]: the sessions, the pass
    that accepts, serves and reaps them, the dispatch of a request frame, the ten handlers
    with the documents they answer with, and the shutdown.

    What the operating system answers is an argument.  A [World] holds, by the number of the
    request, what the disk and the wall clock do during it, and the readings of the monotonic
    clock; [co_calls] and [co_ticks] count the answers used so far.  A [Line] is what the
    socket of one session does during one pass: the answers of successive [send] calls and of
    successive waits and receives; after them the peer neither takes nor sends anything, and
    [delivered] collects the bytes it was given. *)
From Stdlib Require Import ZArith Lia Ascii String.
From stdpp Require Import base numbers option list strings.
From S2P Require Import Prelude Doubles Identity Errors Hash Json JsonParser Signature Contract ContractDecode Policy Evaluation State Frame Ledger Runtime Wire.

Definition kAcceptPollMillis : Z := 100.
Definition kWorkPollMillis : Z := 20.
Definition kReceiveChunkBytes : nat := 16384.
Definition kFramesPerPass : nat := 8.
Definition kSchemaPrefix : string := "wnc/v1/".
Definition kMaxSessions : Z := 64.
Definition kSessionDrainMillis : Z := 2000.

(** ** The request schema *)
Definition strip_schema_prefix (schema : string) : string :=
  if String.prefix kSchemaPrefix schema
  then String.substring (String.length kSchemaPrefix) (String.length schema - String.length kSchemaPrefix) schema
  else schema.

Definition request_handlers : list MessageType :=
  [kHello; kRegisterWorkload; kPublishContract; kAttachEvidence; kEvaluate; kStatus; kDescribeContract;
   kInstallPolicy; kRetireWorkload; kListWorkloads].

Definition schema_handler (schema : string) : option MessageType :=
  match parse_message_type (strip_schema_prefix schema) with
  | None => None
  | Some parsed => if existsb (fun t => t =? parsed) request_handlers then Some parsed else None
  end.

Definition defined_message_type (type : MessageType) : bool :=
  (type =? Wire.kUnknown) || negb (String.eqb (message_type_token type) "unknown").

(** ** Evidence documents *)

(** The fields of one entry an evidence submitter may set. *)
Definition normalize_entry (item : Json) : Json :=
  match item with
  | JObject fields =>
      JObject (fold_left (fun m p =>
        if String.eqb p.1 "captured_by" || String.eqb p.1 "epoch" then m else (map_emplace p.1 p.2 m).1) fields [])
  | _ => item
  end.

(** One field of the document. *)
Definition normalize_field (top : JsonObject) (p : string * Json) : JsonObject :=
  let states_zero := String.eqb p.1 "evidence_id" && is_string p.2
    && match parse_id (Tag := EvidenceTag) (as_string p.2) with Some declared => is_zero declared | None => false end in
  if states_zero then top
  else match p.2 with
       | JArray items =>
           if String.eqb p.1 "entries" then (map_emplace "entries"%string (JArray (map normalize_entry items)) top).1
           else (map_emplace p.1 p.2 top).1
       | _ => (map_emplace p.1 p.2 top).1
       end.

Definition normalize_evidence_document (document : Json) : Json :=
  match document with
  | JObject fields => JObject (fold_left normalize_field fields [])
  | _ => document
  end.

(** ** Rendering *)
Definition incarnation_text (i : Incarnation) : string := base64url_encode (inc_bytes i).

Definition summary_to_json (s : EvaluationSummary) : Json :=
  set_all JNull
    [("required_total"%string, json_uint (required_total s)); ("required_satisfied"%string, json_uint (required_satisfied s));
     ("required_unsatisfied"%string, json_uint (required_unsatisfied s));
     ("required_unknown"%string, json_uint (required_unknown s));
     ("preferred_satisfied"%string, json_uint (preferred_satisfied s));
     ("preferred_unsatisfied"%string, json_uint (preferred_unsatisfied s));
     ("preferred_unknown"%string, json_uint (preferred_unknown s));
     ("informational"%string, json_uint (informational s)); ("not_applicable"%string, json_uint (not_applicable s))].

Definition requirement_to_json (item : RequirementEvaluation) : Json :=
  set_all JNull
    ([("requirement"%string, JString (view (re_requirement item))); ("scope"%string, JString (re_scope item));
      ("kind"%string, JString (requirement_kind_token (re_kind item)));
      ("strength"%string, JString (requirement_strength_token (re_strength item)));
      ("satisfaction"%string, JString (satisfaction_token (re_satisfaction item)));
      ("reason_code"%string, JString (code_token (re_code item))); ("reason"%string, JString (re_reason item));
      ("evidence"%string, JString (view (re_evidence item)));
      ("evidence_generation"%string, json_uint (re_generation item));
      ("freshness"%string, JString (freshness_token (re_freshness item)))]
     ++ match re_observed item with Some v => [("observed"%string, json_real v)] | None => [] end).

Definition evaluation_to_json (e : ContractEvaluation) : Json :=
  set_all JNull
    [("workload"%string, JString (view (eval_workload e))); ("contract"%string, JString (view (eval_contract e)));
     ("contract_generation"%string, json_uint (eval_generation e));
     ("contract_digest"%string, JString (hex_encode (eval_digest e)));
     ("policy_generation"%string, json_uint (eval_policy_generation e));
     ("evidence_generation"%string, json_uint (eval_evidence_generation e));
     ("evaluated_by"%string, JString (incarnation_text (evaluated_by e))); ("epoch"%string, json_uint (eval_epoch e));
     ("evaluated_at_millis"%string, json_uint (evaluated_at e));
     ("aggregate"%string, JString (satisfaction_token (aggregate e)));
     ("summary"%string, summary_to_json (summary e));
     ("requirements"%string, JArray (map requirement_to_json (eval_requirements e)))].

Definition history_to_json (record : GenerationHistory) : Json :=
  set_all JNull
    [("generation"%string, json_uint (gh_generation record)); ("digest"%string, JString (hex_encode (gh_digest record)));
     ("contract"%string, JString (view (gh_contract_id record)));
     ("recorded_at_millis"%string, json_uint (gh_recorded record));
     ("superseded"%string, JBool (gh_superseded record)); ("retired"%string, JBool (gh_retired record))].

Definition snapshot_to_json (s : WorkloadSnapshot) : Json :=
  set_all JNull
    [("id"%string, JString (view (wsn_id s))); ("name"%string, JString (wsn_name s));
     ("workload_generation"%string, json_uint (wsn_workload_generation s));
     ("contract_generation"%string, json_uint (wsn_contract_generation s));
     ("digest"%string, JString (hex_encode (wsn_digest s))); ("contract"%string, JString (view (wsn_contract s)));
     ("policy_generation"%string, json_uint (wsn_policy_generation s));
     ("evidence_generation"%string, json_uint (wsn_evidence_generation s));
     ("retired"%string, JBool (wsn_retired s)); ("history"%string, JArray (map history_to_json (wsn_history s)))].

Definition read_workload_id (body : Json) : result io_error WorkloadId :=
  match find body "workload" with
  | None => Err (kJsonMissingField, "request.workload is required"%string)
  | Some value =>
      if negb (is_string value) then Err (kJsonWrongType, "request.workload must be a string"%string)
      else match parse_id (as_string value) with
           | None => Err (kJsonWrongType,
               "request.workload must be a 64 character lowercase hexadecimal identity"%string)
           | Some id => Ok id
           end
  end.

(** ** State *)
Record Session := mk_session {
  socket : option Z;
  inbound : bytes;
  outbound : bytes;
  out_offset : nat;
  last_activity : Z;
  used : bool;
  ready : bool
}.

Definition empty_session : Session := mk_session None [] [] 0 0 false false.

Definition pending_output (s : Session) : bool := (out_offset s <? length (outbound s))%nat.

(** The members of [Impl] but the sessions, with the directory of the runtime and the
    counters of the answers used. *)
Record Core := mk_core {
  max_sessions : Z;
  idle_timeout : Z;
  co_files : Files;
  co_runtime : Runtime;
  listener : option Z;
  stop_requested : bool;
  stopped : bool;
  served : Z;
  rejected : Z;
  co_calls : nat;
  co_ticks : nat
}.

Record World := mk_world {
  w_disk : nat -> Disk;
  w_wall : nat -> nat -> Z;
  w_mono : nat -> Z
}.

Inductive SendAnswer := SendTakes (n : positive) | SendBlocks | SendFails.

Inductive ReadAnswer :=
| NotReadable | SelectFails
| Received (b : Z) (more : bytes)
| ReceiveBlocks | PeerCloses | ReceiveFails.

Record Line := mk_line { sends : list SendAnswer; reads : list ReadAnswer; delivered : bytes }.

Definition active_sessions (l : list Session) : Z := zlength (List.filter used l).

Definition tick (W : World) (c : Core) : Core * Z :=
  (mk_core (max_sessions c) (idle_timeout c) (co_files c) (co_runtime c) (listener c) (stop_requested c) (stopped c)
     (served c) (rejected c) (co_calls c) (S (co_ticks c)), w_mono W (co_ticks c)).

Definition count_served (c : Core) : Core :=
  mk_core (max_sessions c) (idle_timeout c) (co_files c) (co_runtime c) (listener c) (stop_requested c) (stopped c)
    (u64 (served c + 1)) (rejected c) (co_calls c) (co_ticks c).

Definition count_rejected (c : Core) : Core :=
  mk_core (max_sessions c) (idle_timeout c) (co_files c) (co_runtime c) (listener c) (stop_requested c) (stopped c)
    (served c) (u64 (rejected c + 1)) (co_calls c) (co_ticks c).

(** The state after a call into the runtime. *)
Definition after_call (c : Core) (files : Files) (R : Runtime) : Core :=
  mk_core (max_sessions c) (idle_timeout c) files R (listener c) (stop_requested c) (stopped c)
    (served c) (rejected c) (S (co_calls c)) (co_ticks c).

Definition with_activity (s : Session) (at_millis : Z) : Session :=
  mk_session (socket s) (inbound s) (outbound s) (out_offset s) at_millis (used s) (ready s).

Definition with_ready (s : Session) (b : bool) : Session :=
  mk_session (socket s) (inbound s) (outbound s) (out_offset s) (last_activity s) (used s) b.

Definition with_inbound (s : Session) (b : bytes) : Session :=
  mk_session (socket s) b (outbound s) (out_offset s) (last_activity s) (used s) (ready s).

Definition with_outbound (s : Session) (b : bytes) (offset : nat) : Session :=
  mk_session (socket s) (inbound s) b offset (last_activity s) (used s) (ready s).

(** [Coordinator::Impl::drop]. *)
Definition drop_session (s : Session) : Session := empty_session.

(** ** Sending and receiving *)
Inductive SendOutcome := SendProgress (n : nat) | SendWouldBlock | SendFailed.

(** At most a chunk is offered, and [send] takes at most what it is offered. *)
Definition send_some (answer : SendAnswer) (data : bytes) (offset : nat) : SendOutcome :=
  if (length data <=? offset)%nat then SendProgress 0
  else
    let slice := Nat.min (length data - offset) kReceiveChunkBytes in
    match answer with
    | SendTakes n => SendProgress (Nat.min slice (Pos.to_nat n))
    | SendBlocks => SendWouldBlock
    | SendFails => SendFailed
    end.

(** The loop of [flush], one turn per answer of the socket; without one the peer takes
    nothing more. *)
Fixpoint flush_loop (W : World) (answers : list SendAnswer) (out : bytes) (c : Core) (s : Session)
    : Core * Session * (list SendAnswer * bytes) :=
  if negb (pending_output s) then (c, with_outbound s [] 0, (answers, out))
  else
    match answers with
    | [] => (c, with_ready s true, ([], out))
    | answer :: rest =>
        match send_some answer (outbound s) (out_offset s) with
        | SendWouldBlock => (c, with_ready s true, (rest, out))
        | SendFailed => (c, drop_session s, (rest, out))
        | SendProgress n =>
            let out := out ++ slice (out_offset s) n (outbound s) in
            let s := with_outbound s (outbound s) (out_offset s + n) in
            let '(c, at_millis) := tick W c in
            flush_loop W rest out c (with_activity s at_millis)
        end
    end.

Definition flush (W : World) (line : Line) (c : Core) (s : Session) : Core * Session * Line :=
  let '(c, s, (rest, out)) := flush_loop W (sends line) (delivered line) c s in
  (c, s, mk_line rest (reads line) out).

(** ** Replies *)
Inductive Reply := Refused (e : io_error) | Succeeded (body : Json) | Greeted (body : Json).

Definition queue_frame (s : Session) (type : MessageType) (request_id : Z) (body : Json) : Session :=
  match encode_frame type request_id (bytes_of_string (dump body)) [] with
  | Err _ => drop_session s
  | Ok encoded => with_outbound s (outbound s ++ encoded) (out_offset s)
  end.

Definition queue_success (c : Core) (s : Session) (request_id : Z) (body : Json) : Core * Session :=
  (count_served c, queue_frame s kRetireReplyGeneric request_id body).

Definition error_body (e : io_error) : Json :=
  let '(code, message) := e in
  set_all JNull
    [("ok"%string, JBool false); ("code"%string, JString (code_token code));
     ("message"%string, JString (if is_empty message then code_description code else message))].

Definition queue_error (c : Core) (s : Session) (request_id : Z) (e : io_error) : Core * Session :=
  (count_rejected c, queue_frame s Wire.kError request_id (error_body e)).

(** How a handler's reply is queued. *)
Definition respond (c : Core) (s : Session) (request_id : Z) (reply : Reply) : Core * Session :=
  match reply with
  | Refused e => queue_error c s request_id e
  | Succeeded body => queue_success c s request_id body
  | Greeted body => (count_served c, queue_frame s kHelloReply request_id body)
  end.

(** ** Handlers

    A handler that calls the runtime gives the directory and the runtime back; the
    others only read it. *)
Section Handlers.
Context `{Hashing} `{Ed25519} `{Host}.

Definition info_fields (info : RuntimeInfo) : list (string * Json) :=
  [("coordinator"%string, JString (view (info_coordinator info)));
   ("incarnation"%string, JString (incarnation_text (info_incarnation info))); ("epoch"%string, json_uint (info_epoch info));
   ("trust_digest"%string, JString (hex_encode (info_trust_digest info)));
   ("started_at_millis"%string, json_uint (started_at info)); ("recovered"%string, JBool (info_recovered info));
   ("recovered_records"%string, json_uint (recovered_records info));
   ("truncated_bytes"%string, json_uint (info_truncated_bytes info))].

Definition handle_hello (R : Runtime) : Reply := Greeted (set_all JNull (info_fields (info_ R))).

Definition contract_reply (workload : WorkloadId) (contract : ContractId) (d : Digest) (generation sequence : Z) : Json :=
  set_all JNull
    [("ok"%string, JBool true); ("workload"%string, JString (view workload)); ("contract"%string, JString (view contract));
     ("digest"%string, JString (hex_encode d)); ("contract_generation"%string, json_uint generation);
     ("sequence"%string, json_uint sequence)].

Definition handle_contract_submission (disk : Disk) (now : nat -> Z) (files : Files) (R : Runtime) (body : Json)
    (publishing : bool) : Files * Runtime * Reply :=
  match find body "contract" with
  | None => (files, R, Refused (kJsonMissingField, "request.contract is required"%string))
  | Some document =>
      match contract_from_json document with
      | Err e => (files, R, Refused e)
      | Ok contract =>
          if publishing then
            let '(files, R, result) := publish disk now files R contract in
            (files, R, match result with
                       | Err e => Refused e
                       | Ok r => Succeeded (contract_reply (pub_workload r) (pub_contract r) (pub_digest r)
                                              (pub_generation r) (pub_sequence r))
                       end)
          else
            let '(files, R, result) := register_workload disk now files R contract in
            (files, R, match result with
                       | Err e => Refused e
                       | Ok r => Succeeded (contract_reply (reg_workload r) (reg_contract r) (reg_digest r)
                                              (reg_contract_generation r) (reg_sequence r))
                       end)
      end
  end.

Definition handle_attach_evidence (disk : Disk) (now : nat -> Z) (files : Files) (R : Runtime) (body : Json)
    : Files * Runtime * Reply :=
  match find body "evidence" with
  | None => (files, R, Refused (kJsonMissingField, "request.evidence is required"%string))
  | Some document =>
      match evidence_from_json (normalize_evidence_document document) with
      | Err e => (files, R, Refused e)
      | Ok evidence =>
          let '(files, R, result) := attach_evidence disk now files R evidence in
          (files, R, match result with
                     | Err e => Refused e
                     | Ok r => Succeeded (set_all JNull
                         [("ok"%string, JBool true); ("evidence"%string, JString (view (att_evidence r)));
                          ("evidence_generation"%string, json_uint (att_generation r));
                          ("sequence"%string, json_uint (att_sequence r));
                          ("invalidated_evaluations"%string, json_uint (invalidated_evaluations r))])
                     end)
      end
  end.

Definition handle_install_policy (disk : Disk) (now : nat -> Z) (files : Files) (R : Runtime) (body : Json)
    : Files * Runtime * Reply :=
  match find body "policy" with
  | None => (files, R, Refused (kJsonMissingField, "request.policy is required"%string))
  | Some document =>
      match policy_from_json document with
      | Err e => (files, R, Refused e)
      | Ok policy =>
          let '(files, R, result) := install_policy disk now files R policy in
          (files, R, match result with
                     | Err e => Refused e
                     | Ok r => Succeeded (set_all JNull
                         [("ok"%string, JBool true); ("policy"%string, JString (view (rp_policy r)));
                          ("policy_generation"%string, json_uint (rp_generation r));
                          ("sequence"%string, json_uint (rp_sequence r))])
                     end)
      end
  end.

Definition handle_evaluate (now : nat -> Z) (R : Runtime) (body : Json) : Reply :=
  match read_workload_id body with
  | Err e => Refused e
  | Ok workload =>
      match evaluate now R workload with
      | Err e => Refused e
      | Ok result => Succeeded (set_all JNull
          [("ok"%string, JBool true); ("evaluation"%string, evaluation_to_json (res_evaluation result))])
      end
  end.

(** [active] is the number of sessions in use. *)
Definition handle_status (active : Z) (c : Core) : Reply :=
  let state := state_ (co_runtime c) in
  Succeeded (set_all JNull
    ([("ok"%string, JBool true)] ++ info_fields (info_ (co_runtime c))
     ++ [("policy_generation"%string, json_uint (st_policy_generation state));
         ("contract_floor"%string, json_uint (contract_floor state));
         ("evidence_floor"%string, json_uint (evidence_floor state));
         ("workload_count"%string, json_uint (zlength (st_workloads state)));
         ("active_sessions"%string, json_uint active); ("served_requests"%string, json_uint (served c));
         ("rejected_requests"%string, json_uint (rejected c));
         ("healthy"%string, JBool (negb (stop_requested c) && negb (stopped c)))])).

Definition handle_list_workloads (R : Runtime) : Reply :=
  let snapshots := omap (snapshot R) (workloads R) in
  Succeeded (set_all JNull
    [("ok"%string, JBool true); ("count"%string, json_uint (zlength snapshots));
     ("workloads"%string, JArray (map snapshot_to_json snapshots))]).

(** The generation a request asks for; zero and none at all mean the current one. *)
Definition requested_generation (body : Json) (current : Z) : result io_error Z :=
  match find body "generation" with
  | None => Ok current
  | Some (JInt i) =>
      if i <? 0 then Err (kValueOutOfRange, "request.generation must not be negative"%string)
      else Ok (if i =? 0 then current else u64 i)
  | Some _ => Err (kJsonWrongType, "request.generation must be an integer"%string)
  end.

Definition handle_describe_contract (R : Runtime) (body : Json) : Reply :=
  match read_workload_id body with
  | Err e => Refused e
  | Ok workload =>
      match snapshot R workload with
      | None => Refused (kUnknownWorkload, "no contract is registered for that workload"%string)
      | Some snap =>
          match requested_generation body (wsn_contract_generation snap) with
          | Err e => Refused e
          | Ok generation =>
              match contract_at R workload generation with
              | None => Refused (kUnknownContract,
                  String.append "contract generation " (String.append (to_string generation) " is not retained"))
              | Some contract => Succeeded (set_all JNull
                  [("ok"%string, JBool true); ("workload"%string, JString (view workload));
                   ("contract"%string, contract_to_json contract); ("contract_generation"%string, json_uint generation);
                   ("retired"%string, JBool (wsn_retired snap))])
              end
          end
      end
  end.

Definition handle_retire_workload (disk : Disk) (now : nat -> Z) (files : Files) (R : Runtime) (body : Json)
    : Files * Runtime * Reply :=
  match read_workload_id body with
  | Err e => (files, R, Refused e)
  | Ok workload =>
      let '(files, R, result) := retire disk now files R workload in
      (files, R, match result with
                 | Err e => Refused e
                 | Ok sequence => Succeeded (set_all JNull
                     [("ok"%string, JBool true); ("workload"%string, JString (view workload));
                      ("retired"%string, JBool true); ("sequence"%string, json_uint sequence)])
                 end)
  end.

(** ** Dispatch *)

(** The checks of [handle_frame] before a handler is chosen: the handler and the document. *)
Definition decode_request (frame : Frame) : result io_error (MessageType * Json) :=
  let type := h_type (header frame) in
  if negb (defined_message_type type)
  then Err (kUnknownFrameType, "frame type is not defined by this protocol version"%string)
  else
    match json_decode (string_of_bytes (body frame)) default_options with
    | Err e => Err (err_code e, err_message e)
    | Ok document =>
        if negb (is_object document) then Err (kJsonNotAnObject, "request body must be a JSON object"%string)
        else
          schema ← require_string document "request" "schema";
          match schema_handler schema with
          | None => Err (kUnknownPayloadSchema,
              String.append "payload schema '" (String.append schema "' is not supported"))
          | Some handler =>
              if negb (type =? Wire.kUnknown) && negb (type =? handler)
              then Err (kUnknownPayloadSchema, "payload schema does not match the frame type"%string)
              else Ok (handler, document)
          end
    end.

(** The [switch] of [handle_frame]. *)
Definition dispatch (W : World) (active : Z) (c : Core) (handler : MessageType) (body : Json) : Core * Reply :=
  let R := co_runtime c in
  let disk := w_disk W (co_calls c) in
  let now := w_wall W (co_calls c) in
  let files := co_files c in
  let call (p : Files * Runtime * Reply) := let '(files, R, reply) := p in (after_call c files R, reply) in
  if handler =? kHello then (c, handle_hello R)
  else if handler =? kRegisterWorkload then call (handle_contract_submission disk now files R body false)
  else if handler =? kPublishContract then call (handle_contract_submission disk now files R body true)
  else if handler =? kAttachEvidence then call (handle_attach_evidence disk now files R body)
  else if handler =? kInstallPolicy then call (handle_install_policy disk now files R body)
  else if handler =? kEvaluate then (after_call c files R, handle_evaluate now R body)
  else if handler =? kStatus then (c, handle_status active c)
  else if handler =? kListWorkloads then (c, handle_list_workloads R)
  else if handler =? kDescribeContract then (c, handle_describe_contract R body)
  else if handler =? kRetireWorkload then call (handle_retire_workload disk now files R body)
  else (c, Refused (kUnknownPayloadSchema, "payload schema is not a request schema"%string)).

Definition handle_frame (W : World) (active : Z) (c : Core) (s : Session) (frame : Frame) : Core * Session :=
  let id := request_id (header frame) in
  match decode_request frame with
  | Err e => respond c s id (Refused e)
  | Ok (handler, document) =>
      let '(c, reply) := dispatch W active c handler document in respond c s id reply
  end.

(** ** Serving a session *)

(** The inner loop of [pump]: frames that are already buffered, at most [turns] of them.
    The flag says that the pump returns. *)
Fixpoint serve_buffered (W : World) (active : Z) (turns : nat) (line : Line) (c : Core) (s : Session)
    : nat * Line * Core * Session * bool :=
  match turns with
  | O => (O, line, c, s, false)
  | S budget =>
      if pending_output s then (turns, line, c, s, false)
      else if (length (inbound s) <? kHeaderBytes)%nat then (turns, line, c, s, false)
      else
        match decode_frame (inbound s) with
        | Err (code, _) =>
            if code_eqb code kTruncatedFrame then (turns, line, c, s, false)
            else (turns, line, count_rejected c, drop_session s, true)
        | Ok (frame, consumed) =>
            let '(c, at_millis) := tick W c in
            let s := with_activity (with_inbound s (drop consumed (inbound s))) at_millis in
            let '(c, s) := handle_frame W active c s frame in
            if negb (used s) then (turns, line, c, s, true)
            else
              let '(c, s, line) := flush W line c s in
              if negb (used s) then (turns, line, c, s, true)
              else serve_buffered W active budget line c s
        end
  end.

(** The outer loop, one turn per answer to a wait and a receive. *)
Fixpoint pump_loop (W : World) (active : Z) (answers : list ReadAnswer) (turns : nat) (line : Line) (c : Core) (s : Session)
    : Line * Core * Session :=
  let '(turns, line, c, s, returns) := serve_buffered W active turns line c s in
  if returns then (line, c, s)
  else if pending_output s then (line, c, with_ready s true)
  else if (turns =? 0)%nat then (line, c, with_ready s true)
  else if kMaxFrameBytes <? zlength (inbound s) then (line, c, drop_session s)
  else
    match answers with
    | [] | NotReadable :: _ | ReceiveBlocks :: _ => (line, c, s)
    | SelectFails :: _ | PeerCloses :: _ | ReceiveFails :: _ => (line, c, drop_session s)
    | Received b more :: rest =>
        let s := with_inbound s (inbound s ++ take kReceiveChunkBytes (b :: more)) in
        let '(c, at_millis) := tick W c in
        pump_loop W active rest turns line c (with_activity s at_millis)
    end.

Definition pump (W : World) (active : Z) (line : Line) (c : Core) (s : Session) : Line * Core * Session :=
  let '(c, s, line) := flush W line c (with_ready s false) in
  if negb (used s) then (line, c, s)
  else if pending_output s then (line, c, with_ready s true)
  else pump_loop W active (reads line) kFramesPerPass line c s.

End Handlers.

(** ** Accepting *)

(** What one bounded wait on the listener finds: the answers of [select] and [accept], and
    whether the accepted socket could be made non blocking. *)
Record Arrival := mk_arrival { arrival_ready : Z; arrival_handle : Z; arrival_mode : bool }.

(** The index of the slot and the sessions, with a fresh slot at the end when one is made. *)
Fixpoint first_unused (l : list Session) : option nat :=
  match l with
  | [] => None
  | s :: l' => if negb (used s) then Some O else S <$> first_unused l'
  end.

Definition free_slot (c : Core) (l : list Session) : option (nat * list Session) :=
  match first_unused l with
  | Some i => Some (i, l)
  | None => if max_sessions c <=? zlength l then None else Some (length l, l ++ [empty_session])
  end.

Definition accept_pending (W : World) (arrival : Z -> Arrival) (timeout : Z) (c : Core) (l : list Session)
    : Core * list Session :=
  match listener c with
  | None => (c, l)
  | Some _ =>
      if stop_requested c then (c, l)
      else
        let found := arrival timeout in
        match accept_one (arrival_ready found) (arrival_handle found) with
        | Err _ => (c, l)
        | Ok handle =>
            if max_sessions c <=? active_sessions l then (count_rejected c, l)
            else if negb (arrival_mode found) then (count_rejected c, l)
            else
              match free_slot c l with
              | None => (count_rejected c, l)
              | Some (i, l) =>
                  let '(c, at_millis) := tick W c in
                  (c, <[i := mk_session (Some handle) [] [] 0 at_millis true false]> l)
              end
        end
  end.

(** ** The pass *)
Definition has_pending_output (l : list Session) : bool := existsb (fun s => used s && pending_output s) l.
Definition has_ready_session (l : list Session) : bool := existsb (fun s => used s && ready s) l.

(** How long the pass waits for a connection; the wait for a blocked peer before it changes
    no state. *)
Definition pass_wait (timeout_millis : Z) (l : list Session) : Z :=
  if has_pending_output l then 0
  else if has_ready_session l then 0
  else Z.min timeout_millis kAcceptPollMillis.

Section Server.
Context `{Hashing} `{Ed25519} `{Host}.

(** Each session in its turn; the number of sessions in use does not change during a turn
    until the session itself ends. *)
Fixpoint serve_sessions (W : World) (lines : list Line) (c : Core) (before after : list Session)
    : list Line * Core * list Session :=
  match after with
  | [] => ([], c, before)
  | s :: rest =>
      let line := default (mk_line [] [] []) (head lines) in
      let '(line, c, s) :=
        if negb (used s) then (line, c, s)
        else pump W (active_sessions (before ++ s :: rest)) line c s in
      let '(lines', c, l) := serve_sessions W (tail lines) c (before ++ [s]) rest in
      (line :: lines', c, l)
  end.

(** The subtraction of the idle time wraps. *)
Definition reap_idle (now_millis : Z) (c : Core) (l : list Session) : list Session :=
  if idle_timeout c =? 0 then l
  else map (fun s => if negb (used s) then s
                     else if idle_timeout c <? u64 (now_millis - last_activity s) then drop_session s else s) l.

Definition run_pass (W : World) (arrival : Z -> Arrival) (lines : list Line) (timeout_millis : Z) (c : Core)
    (l : list Session) : list Line * Core * list Session :=
  if stop_requested c || stopped c then (lines, c, l)
  else
    let '(c, l) := accept_pending W arrival (pass_wait timeout_millis l) c l in
    let '(lines, c, l) := serve_sessions W lines c [] l in
    let '(c, now_millis) := tick W c in
    (lines, c, reap_idle now_millis c l).

(** ** Stopping *)
Definition request_stop (c : Core) : Core :=
  mk_core (max_sessions c) (idle_timeout c) (co_files c) (co_runtime c) (listener c) true (stopped c)
    (served c) (rejected c) (co_calls c) (co_ticks c).

Definition close_listener (c : Core) : Core :=
  mk_core (max_sessions c) (idle_timeout c) (co_files c) (co_runtime c) None (stop_requested c) (stopped c)
    (served c) (rejected c) (co_calls c) (co_ticks c).

Definition mark_stopped (c : Core) : Core :=
  mk_core (max_sessions c) (idle_timeout c) (co_files c) (co_runtime c) (listener c) (stop_requested c) true
    (served c) (rejected c) (co_calls c) (co_ticks c).

(** The drain of one session: one turn per bounded wait, [None] when it was in vain and
    otherwise the answers of the sends of that turn.  The clock ends the loop; when the list
    ends first, the next reading is past the deadline. *)
Fixpoint drain (W : World) (deadline : Z) (turns : list (option (list SendAnswer))) (out : bytes) (c : Core) (s : Session)
    : Core * Session * bytes :=
  if negb (used s && pending_output s) then (c, s, out)
  else
    let '(c, now_millis) := tick W c in
    if negb (now_millis <? deadline) then (c, s, out)
    else
      match turns with
      | [] => (c, s, out)
      | None :: rest => drain W deadline rest out c s
      | Some answers :: rest =>
          let '(c, s, (_, out)) := flush_loop W answers out c s in drain W deadline rest out c s
      end.

(** The bytes every session was given before it was closed. *)
Fixpoint drain_all (W : World) (deadline : Z) (turns : list (list (option (list SendAnswer)))) (c : Core) (l : list Session)
    : Core * list bytes :=
  match l with
  | [] => (c, [])
  | s :: rest =>
      let '(c, out) := if negb (used s) then (c, [])
                       else let '(c, _, out) := drain W deadline (default [] (head turns)) [] c s in (c, out) in
      let '(c, outs) := drain_all W deadline (tail turns) c rest in (c, out :: outs)
  end.

Definition shutdown (W : World) (turns : list (list (option (list SendAnswer)))) (c : Core) (l : list Session)
    : Core * list Session * list bytes :=
  let c := close_listener (request_stop c) in
  let '(c, now_millis) := tick W c in
  let '(c, outs) := drain_all W (u64 (now_millis + kSessionDrainMillis)) turns c l in
  (mark_stopped c, [], outs).

(** ** Starting *)
Record CoordinatorOptions := mk_coordinator_options {
  opt_sessions : Z;
  opt_idle_timeout : Z;
  opt_evidence_age : Z
}.

(** The options the runtime is opened with. *)
Definition runtime_options (o : CoordinatorOptions) (r : Options) : Options :=
  let sessions := if opt_sessions o =? 0 then kMaxSessions else opt_sessions o in
  mk_runtime_options (state_directory r) (opt_trust r)
    (if negb (opt_evidence_age o =? 0) then opt_evidence_age o else opt_evidence_max_age_millis r)
    (if opt_max_sessions r =? 0 then sessions else opt_max_sessions r).

(** The runtime first, then the listener; [resolved] is what the resolver and the calls
    on the addresses answer. *)
Definition start (boot : Boot) (now : nat -> Z) (files : Files) (o : CoordinatorOptions) (r : Options)
    (resolved : option (list Wire.Candidate)) : Files * result io_error (Core * list Session) :=
  let sessions := if opt_sessions o =? 0 then kMaxSessions else opt_sessions o in
  let '(files, opened) := open_runtime boot now files (runtime_options o r) in
  match opened with
  | Err e => (files, Err e)
  | Ok R =>
      match (listen_on resolved).2 with
      | Err e => (files, Err e)
      | Ok handle =>
          (files, Ok (mk_core sessions (opt_idle_timeout o) files R (Some handle) false false 0 0 0 0,
                      repeat empty_session (Z.to_nat (Z.min sessions kMaxSessions))))
      end
  end.

(** [run]: passes until a stop is requested; the caller's passes are the list. *)
Fixpoint run (W : World) (passes : list ((Z -> Arrival) * list Line)) (c : Core) (l : list Session)
    : Core * list Session :=
  match passes with
  | [] => (c, l)
  | (arrival, lines) :: rest =>
      if stop_requested c || stopped c then (c, l)
      else let '(_, c, l) := run_pass W arrival lines kAcceptPollMillis c l in run W rest c l
  end.

Definition healthy_service (c : Core) : bool := negb (stop_requested c) && negb (stopped c).

End Server.
