(* ===== verification/Service.v ===== *)
(** * What the coordinator service guarantees

    The service of Coordinator.v against the requests of Authority.v: whatever bytes its
    peers send, the authority state changes by requests only, every frame is answered once,
    and the memory of a session is bounded. *)
From Stdlib Require Import ZArith Lia Ascii String.
From stdpp Require Import base numbers option list strings sets relations.
From S2P Require Import Prelude Doubles Identity Errors Hash Json JsonParser Signature Contract ContractValidate ContractDecode Policy Evaluation State Frame Ledger Boot Journal Recovery Runtime Authority Wire Coordinator.

(** ** Requests on the wire *)
Section Requests.
Context `{Hashing} `{Ed25519} `{Host}.

(** The request a document submits to the runtime: none for the queries. *)
Definition submitted (handler : MessageType) (body : Json) : result io_error (option request) :=
  let contract :=
    match find body "contract" with
    | None => Err (kJsonMissingField, "request.contract is required"%string)
    | Some document => contract_from_json document
    end in
  if handler =? kRegisterWorkload then map_ok (fun c => Some (RegisterRequest c)) contract
  else if handler =? kPublishContract then map_ok (fun c => Some (PublishRequest c)) contract
  else if handler =? kAttachEvidence then
    map_ok (fun ev => Some (AttachRequest ev))
      (match find body "evidence" with
       | None => Err (kJsonMissingField, "request.evidence is required"%string)
       | Some document => evidence_from_json (normalize_evidence_document document)
       end)
  else if handler =? kInstallPolicy then
    map_ok (fun p => Some (PolicyRequest p))
      (match find body "policy" with
       | None => Err (kJsonMissingField, "request.policy is required"%string)
       | Some document => policy_from_json document
       end)
  else if handler =? kRetireWorkload then map_ok (fun wid => Some (RetireRequest wid)) (read_workload_id body)
  else Ok None.

(** What a handler does with a submission: it performs the request once, and the reply
    carries the sequence of its record or the refusal. *)
Definition performs (disk : Disk) (now : nat -> Z) (files : Files) (R : Runtime) (q : request)
    (out : Files * Runtime * Reply) : Prop :=
  let '(files', R', reply) := out in
  exists r, perform disk now files R q = (files', R', r)
    /\ match r with
       | Ok sequence => exists answer, reply = Succeeded answer /\ find answer "ok" = Some (JBool true)
                          /\ find answer "sequence" = Some (json_uint sequence)
       | Err e => reply = Refused e
       end.

Ltac answered :=
  eexists; split; [reflexivity|]; rewrite !find_object; unfold contract_reply; split; find_json.

Lemma contract_submission_performs disk now files R body publishing :
  let out := handle_contract_submission disk now files R body publishing in
  match find body "contract" with
  | None => out = (files, R, Refused (kJsonMissingField, "request.contract is required"%string))
  | Some document =>
      match contract_from_json document with
      | Err e => out = (files, R, Refused e)
      | Ok c => performs disk now files R (if publishing then PublishRequest c else RegisterRequest c) out
      end
  end.
Proof.
  unfold handle_contract_submission. destruct (find body "contract") as [document|]; [|done].
  destruct (contract_from_json document) as [c|e]; [|done]. unfold performs. destruct publishing; cbn [perform].
  - destruct (publish disk now files R c) as [[files' R'] [r|e]]; eexists; (split; [reflexivity|]); [|done].
    answered.
  - destruct (register_workload disk now files R c) as [[files' R'] [r|e]]; eexists; (split; [reflexivity|]); [|done].
    answered.
Qed.

Lemma attach_performs disk now files R body :
  let out := handle_attach_evidence disk now files R body in
  match find body "evidence" with
  | None => out = (files, R, Refused (kJsonMissingField, "request.evidence is required"%string))
  | Some document =>
      match evidence_from_json (normalize_evidence_document document) with
      | Err e => out = (files, R, Refused e)
      | Ok ev => performs disk now files R (AttachRequest ev) out
      end
  end.
Proof.
  unfold handle_attach_evidence. destruct (find body "evidence") as [document|]; [|done].
  destruct (evidence_from_json _) as [ev|e]; [|done]. unfold performs. cbn [perform].
  destruct (attach_evidence disk now files R ev) as [[files' R'] [r|e]]; eexists; (split; [reflexivity|]); [|done].
  answered.
Qed.

Lemma install_performs disk now files R body :
  let out := handle_install_policy disk now files R body in
  match find body "policy" with
  | None => out = (files, R, Refused (kJsonMissingField, "request.policy is required"%string))
  | Some document =>
      match policy_from_json document with
      | Err e => out = (files, R, Refused e)
      | Ok p => performs disk now files R (PolicyRequest p) out
      end
  end.
Proof.
  unfold handle_install_policy. destruct (find body "policy") as [document|]; [|done].
  destruct (policy_from_json _) as [p|e]; [|done]. unfold performs. cbn [perform].
  destruct (install_policy disk now files R p) as [[files' R'] [r|e]]; eexists; (split; [reflexivity|]); [|done].
  answered.
Qed.

Lemma retire_performs disk now files R body :
  let out := handle_retire_workload disk now files R body in
  match read_workload_id body with
  | Err e => out = (files, R, Refused e)
  | Ok wid => performs disk now files R (RetireRequest wid) out
  end.
Proof.
  unfold handle_retire_workload. destruct (read_workload_id body) as [wid|e]; [|done]. unfold performs. cbn [perform].
  destruct (retire disk now files R wid) as [[files' R'] [r|e]]; eexists; (split; [reflexivity|]); [|done]. answered.
Qed.

Ltac settle :=
  repeat match goal with
         | H : match ?x with _ => _ end |- _ => destruct x; cbn [map_ok]
         | H : (_, _, _) = (_, _, _) |- _ => injection H as -> -> ->
         end; cbn [map_ok]; try done.

(** Every handler: the submission is performed once, and nothing else touches the runtime. *)
Lemma dispatch_submits W active c handler body :
  let '(c', reply) := dispatch W active c handler body in
  match submitted handler body with
  | Ok (Some q) => performs (w_disk W (co_calls c)) (w_wall W (co_calls c)) (co_files c) (co_runtime c) q
                     (co_files c', co_runtime c', reply)
  | Ok None => co_files c' = co_files c /\ co_runtime c' = co_runtime c
  | Err e => co_files c' = co_files c /\ co_runtime c' = co_runtime c /\ reply = Refused e
  end.
Proof.
  unfold dispatch, submitted. set (disk := w_disk W _). set (now := w_wall W _).
  pose proof (contract_submission_performs disk now (co_files c) (co_runtime c) body true) as Hp.
  pose proof (contract_submission_performs disk now (co_files c) (co_runtime c) body false) as Hr.
  pose proof (attach_performs disk now (co_files c) (co_runtime c) body) as Ha.
  pose proof (install_performs disk now (co_files c) (co_runtime c) body) as Hi.
  pose proof (retire_performs disk now (co_files c) (co_runtime c) body) as Ht.
  destruct (handle_contract_submission _ _ _ _ _ true) as [[fp Rp] rp].
  destruct (handle_contract_submission _ _ _ _ _ false) as [[fr Rr] rr].
  destruct (handle_attach_evidence _ _ _ _ _) as [[fa Ra] ra].
  destruct (handle_install_policy _ _ _ _ _) as [[fi Ri] ri].
  destruct (handle_retire_workload _ _ _ _ _) as [[ft Rt] rt]. cbv zeta in *.
  destruct (handler =? kHello) eqn:E1; [apply Z.eqb_eq in E1 as ->; done|].
  destruct (handler =? kRegisterWorkload) eqn:E2; [clear - Hr; settle|].
  destruct (handler =? kPublishContract) eqn:E3; [clear - Hp; settle|].
  destruct (handler =? kAttachEvidence) eqn:E4; [clear - Ha; settle|].
  destruct (handler =? kInstallPolicy) eqn:E5; [clear - Hi; settle|].
  destruct (handler =? kEvaluate) eqn:E6; [apply Z.eqb_eq in E6 as ->; done|].
  destruct (handler =? kStatus) eqn:E7; [apply Z.eqb_eq in E7 as ->; done|].
  destruct (handler =? kListWorkloads) eqn:E8; [apply Z.eqb_eq in E8 as ->; done|].
  destruct (handler =? kDescribeContract) eqn:E9; [apply Z.eqb_eq in E9 as ->; done|].
  destruct (handler =? kRetireWorkload) eqn:E10; [clear - Ht; settle|]. done.
Qed.

(** ** What a pass does to the state, whatever its sessions do *)

(** A preorder on states that one frame, a reading of the clock and the count of a refused
    session respect is respected by serving a session, a pass and a run. *)
Section Serving.
Context (W : World) (P : Core -> Core -> Prop) `{!PreOrder P}
  (P_tick : forall c, P c (tick W c).1) (P_rejected : forall c, P c (count_rejected c))
  (P_frame : forall active c s frame, P c (handle_frame W active c s frame).1).

Lemma flush_respects line c s : P c (flush W line c s).1.1.
Proof using PreOrder0 P_tick.
  unfold flush. enough (P c (flush_loop W (sends line) (delivered line) c s).1.1) as Hf
    by by destruct (flush_loop _ _ _ _ _) as [[c' s'] [rest out]].
  generalize (delivered line). revert c s.
  induction (sends line) as [|answer answers IH]; intros c s out; cbn [flush_loop];
    (destruct (negb (pending_output s)); [reflexivity|]); [reflexivity|].
  destruct (send_some answer (outbound s) (out_offset s)) as [n| |]; [|reflexivity|reflexivity].
  pose proof (P_tick c) as Ht. destruct (tick W c) as [c1 at_millis]. by etransitivity; [exact Ht|].
Qed.

Lemma serve_buffered_respects active turns line c s :
  let '(_, _, c', _, _) := serve_buffered W active turns line c s in P c c'.
Proof using PreOrder0 P_tick P_rejected P_frame.
  revert line c s; induction turns as [|turns IH]; intros line c s; cbn [serve_buffered]; [reflexivity|].
  destruct (pending_output s); [reflexivity|]. destruct (_ <? _)%nat; [reflexivity|].
  destruct (decode_frame (inbound s)) as [[frame consumed]|[code text]].
  2: { destruct (code_eqb _ _); [reflexivity|apply P_rejected]. }
  pose proof (P_tick c) as Ht. destruct (tick W c) as [c1 t]. cbn [fst] in Ht. set (s1 := with_activity _ _).
  pose proof (P_frame active c1 s1 frame) as Hf. destruct (handle_frame W active c1 s1 frame) as [c2 s2]. cbn [fst] in Hf.
  assert (P c c2) as H2 by by etransitivity. destruct (negb (used s2)); [done|].
  pose proof (flush_respects line c2 s2) as Hfl. destruct (flush W line c2 s2) as [[c3 s3] line3]. cbn [fst] in Hfl.
  assert (P c c3) as H3 by by etransitivity. destruct (negb (used s3)); [done|].
  specialize (IH line3 c3 s3). destruct (serve_buffered W active turns line3 c3 s3) as [[[[? ?] c4] ?] ?]. by etransitivity.
Qed.

Lemma pump_loop_respects active answers turns line c s :
  let '(_, c', _) := pump_loop W active answers turns line c s in P c c'.
Proof using PreOrder0 P_tick P_rejected P_frame.
  revert turns line c s; induction answers as [|answer answers IH]; intros turns line c s; cbn [pump_loop];
    pose proof (serve_buffered_respects active turns line c s) as Hs;
    destruct (serve_buffered W active turns line c s) as [[[[turns' line'] c'] s'] returns];
    (destruct returns; [done|]); (destruct (pending_output s'); [done|]); (destruct (turns' =? 0)%nat; [done|]);
    (destruct (_ <? _); [done|]); [done|].
  destruct answer as [| |b more| | |]; try done. cbv zeta. pose proof (P_tick c') as Ht.
  destruct (tick W c') as [c1 t]. cbn [fst] in Ht. set (s1 := with_activity _ _). specialize (IH turns' line' c1 s1).
  destruct (pump_loop W active answers turns' line' c1 s1) as [[? c2] ?]. etransitivity; [exact Hs|]. by etransitivity.
Qed.

Lemma pump_respects active line c s : let '(_, c', _) := pump W active line c s in P c c'.
Proof using PreOrder0 P_tick P_rejected P_frame.
  unfold pump. pose proof (flush_respects line c (with_ready s false)) as Hf.
  destruct (flush W line c (with_ready s false)) as [[c1 s1] line1]. cbn [fst] in Hf.
  destruct (negb (used s1)); [done|]. destruct (pending_output s1); [done|].
  pose proof (pump_loop_respects active (reads line1) kFramesPerPass line1 c1 s1) as Hl.
  destruct (pump_loop _ _ _ _ _ _ _) as [[? c2] ?]. by etransitivity.
Qed.

Lemma serve_sessions_respects lines c before after :
  let '(_, c', _) := serve_sessions W lines c before after in P c c'.
Proof using PreOrder0 P_tick P_rejected P_frame.
  revert lines c before; induction after as [|s after IH]; intros lines c before; cbn [serve_sessions]; [reflexivity|].
  set (line := default _ _). set (active := active_sessions _). pose proof (pump_respects active line c s) as Hp.
  assert (let '(_, c', _) := (if negb (used s) then (line, c, s) else pump W active line c s) in P c c') as Hs
    by by destruct (negb (used s)).
  destruct (if negb (used s) then (line, c, s) else pump W active line c s) as [[line1 c1] s1].
  specialize (IH (tail lines) c1 (before ++ [s1])). destruct (serve_sessions W (tail lines) c1 (before ++ [s1]) after)
    as [[lines2 c2] l2]. by etransitivity.
Qed.

Lemma accept_respects arrival timeout c l : P c (accept_pending W arrival timeout c l).1.
Proof using PreOrder0 P_tick P_rejected.
  unfold accept_pending. destruct (listener c); [|reflexivity]. destruct (stop_requested c); [reflexivity|]. cbv zeta.
  destruct (accept_one _ _); [|reflexivity]. destruct (_ <=? _); [apply P_rejected|]. destruct (negb _); [apply P_rejected|].
  destruct (free_slot c l) as [[i l']|]; [|apply P_rejected]. pose proof (P_tick c) as Ht. by destruct (tick W c).
Qed.

Lemma run_pass_respects arrival lines timeout c l : let '(_, c', _) := run_pass W arrival lines timeout c l in P c c'.
Proof using PreOrder0 P_tick P_rejected P_frame.
  unfold run_pass. destruct (_ || _); [reflexivity|].
  pose proof (accept_respects arrival (pass_wait timeout l) c l) as Ha.
  destruct (accept_pending W arrival (pass_wait timeout l) c l) as [c1 l1]. cbn [fst] in Ha.
  pose proof (serve_sessions_respects lines c1 [] l1) as Hs. destruct (serve_sessions W lines c1 [] l1) as [[lines2 c2] l2].
  pose proof (P_tick c2) as Ht. destruct (tick W c2) as [c3 t]. etransitivity; [exact Ha|]. by etransitivity.
Qed.

Lemma run_respects passes c l : P c (run W passes c l).1.
Proof using PreOrder0 P_tick P_rejected P_frame.
  revert c l; induction passes as [|[arrival lines] passes IH]; intros c l; cbn [run]; [reflexivity|].
  destruct (_ || _); [reflexivity|]. pose proof (run_pass_respects arrival lines kAcceptPollMillis c l) as Hp.
  destruct (run_pass W arrival lines kAcceptPollMillis c l) as [[? c1] l1]. by etransitivity.
Qed.

End Serving.

(** *** The authority state *)
Definition authority (c : Core) : Files * Runtime := (co_files c, co_runtime c).

Definition by_requests (c c' : Core) : Prop := rtc step (authority c) (authority c').

#[global] Instance by_requests_preorder : PreOrder by_requests.
Proof. split; [intros c|intros c1 c2 c3]; unfold by_requests; [reflexivity|apply transitivity]. Qed.

Lemma respond_authority c s id reply : authority (respond c s id reply).1 = authority c.
Proof. by destruct reply. Qed.

(** A frame performs at most one request. *)
Lemma frame_by_requests W active c s frame : by_requests c (handle_frame W active c s frame).1.
Proof.
  unfold by_requests, handle_frame. destruct (decode_request frame) as [[handler document]|e]; [|by rewrite respond_authority].
  pose proof (dispatch_submits W active c handler document) as Hd.
  destruct (dispatch W active c handler document) as [c' reply]. rewrite respond_authority.
  destruct (submitted handler document) as [[q|]|e].
  - destruct Hd as (r & Hp & _). apply rtc_once. by econstructor.
  - destruct Hd as [Ef Er]. unfold authority. by rewrite Ef, Er.
  - destruct Hd as (Ef & Er & _). unfold authority. by rewrite Ef, Er.
Qed.

Lemma run_by_requests W passes c l : by_requests c (run W passes c l).1.
Proof.
  apply (run_respects W by_requests); [intros; apply rtc_refl|intros; apply rtc_refl|]. intros active c' s frame. apply frame_by_requests.
Qed.

Definition same_authority (c c' : Core) : Prop := authority c' = authority c.

Lemma flush_loop_authority W answers out c s : authority (flush_loop W answers out c s).1.1 = authority c.
Proof.
  assert (PreOrder same_authority) as Hpre by (split; [done|intros x y z; unfold same_authority; congruence]).
  pose proof (flush_respects W same_authority (fun c => eq_refl) (mk_line answers [] out) c s) as Hf.
  unfold flush in Hf. cbn [sends delivered reads] in Hf. by destruct (flush_loop W answers out c s) as [[c' s'] [rest o]].
Qed.

(** *** The settings *)
Definition settings (c : Core) : Z * Z := (max_sessions c, idle_timeout c).

Definition same_settings (c c' : Core) : Prop := settings c' = settings c.

#[global] Instance same_settings_preorder : PreOrder same_settings.
Proof. split; [done|]. intros c1 c2 c3 H12 H23. unfold same_settings in *. congruence. Qed.

Lemma frame_settings W active c s frame : same_settings c (handle_frame W active c s frame).1.
Proof.
  unfold same_settings, handle_frame.
  assert (forall c id reply, settings (respond c s id reply).1 = settings c) as Hr by by intros ? ? [].
  destruct (decode_request frame) as [[handler document]|e]; [|apply Hr].
  assert (settings (dispatch W active c handler document).1 = settings c) as Hd.
  { unfold dispatch. destruct (handle_contract_submission _ _ _ _ _ _) as [[? ?] ?].
    destruct (handle_contract_submission _ _ _ _ _ _) as [[? ?] ?]. destruct (handle_attach_evidence _ _ _ _ _) as [[? ?] ?].
    destruct (handle_install_policy _ _ _ _ _) as [[? ?] ?]. destruct (handle_retire_workload _ _ _ _ _) as [[? ?] ?].
    by repeat match goal with |- context [if ?b then _ else _] => destruct b end. }
  destruct (dispatch W active c handler document). by rewrite Hr.
Qed.

(** ** The memory of a session *)
#[local] Opaque kReceiveChunkBytes.

Lemma receive_chunk_bytes : Z.of_nat kReceiveChunkBytes = 16384.
Proof using. vm_compute. reflexivity. Qed.

(** A session in use within its bounds, and one that is also ready for the next request:
    a reply that was sent completely is gone. *)
Record fits (s : Session) : Prop := {
  fi_used : used s = true;
  fi_inbound : zlength (inbound s) <= kMaxFrameBytes + 16384;
  fi_outbound : zlength (outbound s) <= kMaxFrameBytes;
  fi_offset : (out_offset s <= length (outbound s))%nat
}.

Definition clean (s : Session) : Prop := fits s /\ (pending_output s = false -> outbound s = []).

(** Every slot is empty or clean. *)
Definition fine (s : Session) : Prop := s = empty_session \/ clean s.

Lemma fits_pending_clean s : fits s -> pending_output s = true -> clean s.
Proof using. intros Hf Hp. split; [done|]. congruence. Qed.

Lemma fine_used s : fine s -> used s = true -> clean s.
Proof using. by intros [->|Hc] Hu. Qed.

Lemma flush_loop_fine W answers out c s : fits s -> fine (flush_loop W answers out c s).1.2.
Proof using.
  revert out c s; induction answers as [|answer answers IH]; intros out c s Hf; cbn [flush_loop];
    (destruct (pending_output s) eqn:Hp; cbn [negb];
      [|right; destruct Hf; split; [split; try done; unfold zlength, kMaxFrameBytes; cbn; lia|done]]).
  - right. apply fits_pending_clean; [|done]. by destruct Hf.
  - destruct (send_some answer (outbound s) (out_offset s)) as [n| |] eqn:Es; cbn [fst snd].
    + unfold tick. cbv zeta beta iota. apply IH. destruct Hf. split; try done. cbn [with_activity with_outbound out_offset outbound].
      unfold send_some in Es. destruct (_ <=? _)%nat; [injection Es as <-; lia|]. destruct answer; try discriminate.
      injection Es as <-. lia.
    + right. apply fits_pending_clean; [|done]. by destruct Hf.
    + by left.
Qed.

Lemma flush_fine W line c s : fits s -> fine (flush W line c s).1.2.
Proof using.
  intros Hf. unfold flush. pose proof (flush_loop_fine W (sends line) (delivered line) c s Hf) as Hc.
  by destruct (flush_loop _ _ _ _ _) as [[c' s'] [rest out]].
Qed.

Lemma encode_frame_inv type req data out encoded :
  encode_frame type req data out = Ok encoded ->
  zlength data <= kMaxFrameBytes - 28 /\ encoded = out ++ wire_header type 0 (zlength data) req ++ data.
Proof using.
  destruct (Z.leb_spec (zlength data) (kMaxFrameBytes - 28)) as [Hl|Hl].
  - rewrite encode_frame_eq by done. by intros [= <-].
  - unfold encode_frame. rewrite (proj2 (Z.ltb_lt _ _)) by (unfold kHeaderBytes; lia). discriminate.
Qed.

Lemma encode_frame_size type req data encoded :
  encode_frame type req data [] = Ok encoded -> zlength encoded <= kMaxFrameBytes /\ (28 <= length encoded)%nat.
Proof using.
  intros [Hl ->]%encode_frame_inv. unfold zlength in *. rewrite app_nil_l, length_app, wire_header_length. lia.
Qed.

Lemma queue_frame_fine s type req body : clean s -> pending_output s = false -> fine (queue_frame s type req body).
Proof using.
  intros [Hf Hd] Hp. unfold queue_frame. destruct (encode_frame _ _ _ _) as [encoded|] eqn:E; [|by left].
  apply encode_frame_size in E as [Hs Hn]. right. rewrite (Hd Hp), app_nil_l. pose proof (fi_offset _ Hf) as Ho.
  rewrite (Hd Hp) in Ho. simpl in Ho. destruct Hf. apply fits_pending_clean.
  - split; cbn [with_outbound used inbound outbound out_offset]; try done. lia.
  - unfold pending_output. cbn [with_outbound outbound out_offset]. apply Nat.ltb_lt. lia.
Qed.

Lemma respond_fine c s id reply : clean s -> pending_output s = false -> fine (respond c s id reply).2.
Proof using. intros Hc Hp. destruct reply; by apply queue_frame_fine. Qed.

Lemma handle_frame_fine W active c s frame :
  clean s -> pending_output s = false -> fine (handle_frame W active c s frame).2.
Proof using.
  intros Hc Hp. unfold handle_frame. destruct (decode_request frame) as [[handler document]|e]; [|by apply respond_fine].
  destruct (dispatch W active c handler document). by apply respond_fine.
Qed.

Lemma serve_buffered_fine W active turns line c s :
  clean s ->
  let '(_, _, _, s', returns) := serve_buffered W active turns line c s in
  fine s' /\ (returns = false -> clean s').
Proof using.
  revert line c s; induction turns as [|turns IH]; intros line c s Hc; cbn [serve_buffered]; [by split; [right|]|].
  destruct (pending_output s) eqn:Hp; [by split; [right|]|]. destruct (_ <? _)%nat; [by split; [right|]|].
  destruct (decode_frame (inbound s)) as [[frame consumed]|[code text]].
  2: { destruct (code_eqb _ _); [by split; [right|]|]. split; [by left|discriminate]. }
  destruct (tick W c) as [c1 t]. set (s1 := with_activity _ _).
  assert (clean s1) as Hc1.
  { destruct Hc as [[? ? ? ?] Hd]. split; [|exact Hd]. split; try done. unfold s1. cbn [with_activity with_inbound inbound]. unfold zlength in *. rewrite length_drop. etransitivity; [|eassumption]. apply inj_le. lia. }
  pose proof (handle_frame_fine W active c1 s1 frame Hc1 Hp) as Hf.
  destruct (handle_frame W active c1 s1 frame) as [c2 s2]. cbn [snd] in Hf.
  destruct (used s2) eqn:Hu; cbn [negb]; [|by split; [|discriminate]].
  pose proof (flush_fine W line c2 s2 (proj1 (fine_used _ Hf Hu))) as Hfl.
  destruct (flush W line c2 s2) as [[c3 s3] line3]. cbn [fst snd] in Hfl.
  destruct (used s3) eqn:Hu3; cbn [negb]; [|by split; [|discriminate]]. apply IH. by apply fine_used.
Qed.

Lemma with_ready_fine s b : clean s -> fine (with_ready s b).
Proof using. intros [[] Hd]. right. by split. Qed.

Lemma pump_loop_fine W active answers turns line c s : clean s -> fine (pump_loop W active answers turns line c s).2.
Proof using.
  revert turns line c s; induction answers as [|answer answers IH]; intros turns line c s Hc; cbn [pump_loop];
    pose proof (serve_buffered_fine W active turns line c s Hc) as Hs;
    destruct (serve_buffered W active turns line c s) as [[[[turns' line'] c'] s'] returns]; destruct Hs as [Hf Hr];
    (destruct returns; [done|]); specialize (Hr eq_refl);
    (destruct (pending_output s') eqn:Hp; [by apply with_ready_fine|]); (destruct (turns' =? 0)%nat; [by apply with_ready_fine|]);
    (destruct (_ <? _) eqn:E; [by left|]); [by right|].
  apply Z.ltb_ge in E. destruct answer as [| |b more| | |]; try (by left); try (by right). cbv zeta. unfold tick. cbv beta iota.
  apply IH. destruct Hr as [[? ? ? ?] Hd]. split; [|exact Hd]. split; try done. cbn [with_activity with_inbound inbound].
  pose proof receive_chunk_bytes. unfold zlength in *. rewrite length_app, length_take. lia.
Qed.

Lemma pump_fine W active line c s : clean s -> fine (pump W active line c s).2.
Proof using.
  intros Hc. unfold pump. assert (fits (with_ready s false)) as Hf by by destruct Hc as [[] _].
  pose proof (flush_fine W line c _ Hf) as Hfl. destruct (flush W line c (with_ready s false)) as [[c1 s1] line1].
  cbn [fst snd] in Hfl. destruct (used s1) eqn:Hu; cbn [negb]; [|done]. pose proof (fine_used _ Hfl Hu) as Hc1.
  destruct (pending_output s1); [by apply with_ready_fine|by apply pump_loop_fine].
Qed.

(** *** All sessions *)
Definition service_ok (c : Core) (l : list Session) : Prop := zlength l <= max_sessions c /\ Forall fine l.

Lemma serve_sessions_fine W lines c before after :
  Forall fine before -> Forall fine after ->
  let '(_, _, l) := serve_sessions W lines c before after in
  Forall fine l /\ length l = (length before + length after)%nat.
Proof.
  revert lines c before; induction after as [|s after IH]; intros lines c before Hb Ha; cbn [serve_sessions];
    [by split; [|cbn; lia]|]. apply Forall_cons in Ha as [Hs Ha].
  set (line := default _ _). set (active := active_sessions _).
  assert (fine (if negb (used s) then (line, c, s) else pump W active line c s).2) as Hf.
  { destruct (used s) eqn:Hu; [by apply pump_fine, fine_used|done]. }
  destruct (if negb (used s) then (line, c, s) else pump W active line c s) as [[line1 c1] s1]. cbn [snd] in Hf.
  specialize (IH (tail lines) c1 (before ++ [s1])). destruct (serve_sessions _ _ _ _ _) as [[lines2 c2] l2].
  destruct IH as [Hl El]; [by apply Forall_app; split; [|constructor]|done|]. split; [done|].
  rewrite El, length_app. cbn. lia.
Qed.

Lemma first_unused_lt l i : first_unused l = Some i -> (i < length l)%nat.
Proof using.
  revert i; induction l as [|s l IH]; intros i; cbn [first_unused]; [discriminate|].
  destruct (negb (used s)); [intros [= <-]; cbn; lia|]. destruct (first_unused l); [|discriminate].
  intros [= <-]. specialize (IH n eq_refl). cbn. lia.
Qed.

Lemma accept_ok W arrival timeout c l :
  service_ok c l -> let '(c', l') := accept_pending W arrival timeout c l in
  zlength l' <= max_sessions c /\ Forall fine l'.
Proof using.
  intros [Hn Hl]. unfold accept_pending. destruct (listener c); [|done]. destruct (stop_requested c); [done|]. cbv zeta.
  destruct (accept_one _ _) as [handle|]; [|done]. destruct (_ <=? _); [done|]. destruct (negb _); [done|].
  unfold free_slot. set (fresh := fun t => mk_session (Some handle) [] [] 0 t true false).
  assert (forall t, fine (fresh t)) as Hfresh.
  { intros t. right. split; [|done]. split; cbn; unfold zlength, kMaxFrameBytes; cbn; lia. }
  destruct (first_unused l) as [i|] eqn:Ei.
  - unfold tick. cbv beta iota. unfold zlength in *. rewrite length_insert. split; [done|]. apply Forall_insert; [done|apply Hfresh].
  - destruct (_ <=? _) eqn:Em; [done|]. apply Z.leb_gt in Em. unfold tick. cbv beta iota.
    unfold zlength in *. rewrite length_insert, length_app. split; [cbn; lia|].
    apply Forall_insert; [|apply Hfresh]. apply Forall_app. split; [done|]. repeat constructor.
Qed.

Lemma reap_fine now_millis c l : Forall fine l -> Forall fine (reap_idle now_millis c l) /\ length (reap_idle now_millis c l) = length l.
Proof.
  intros Hl. unfold reap_idle. destruct (_ =? 0); [done|]. rewrite length_map, Forall_map. split; [|done].
  eapply Forall_impl; [exact Hl|]. intros s Hs. cbn. destruct (negb (used s)); [done|]. destruct (_ <? _); [by left|done].
Qed.

Lemma run_pass_ok W arrival lines timeout c l :
  service_ok c l -> let '(_, c', l') := run_pass W arrival lines timeout c l in service_ok c' l'.
Proof.
  intros Hok. pose proof (run_pass_respects W same_settings (fun c => eq_refl) (fun c => eq_refl)
    (frame_settings W) arrival lines timeout c l) as Hs.
  unfold run_pass in *. destruct (_ || _); [done|].
  pose proof (accept_ok W arrival (pass_wait timeout l) c l Hok) as Ha.
  destruct (accept_pending W arrival (pass_wait timeout l) c l) as [c1 l1]. destruct Ha as [Hn Hl].
  pose proof (serve_sessions_fine W lines c1 [] l1 (Forall_nil_2 _) Hl) as Hsv.
  destruct (serve_sessions W lines c1 [] l1) as [[lines2 c2] l2]. destruct Hsv as [Hl2 Hn2].
  unfold tick in *. cbv beta iota in *. set (c3 := mk_core _ _ _ _ _ _ _ _ _ _ _) in *.
  destruct (reap_fine (w_mono W (co_ticks c2)) c3 l2 Hl2) as [Hf Hlen]. split; [|exact Hf].
  injection Hs as Hmax _. change (max_sessions c3) with (max_sessions c2). rewrite Hmax. unfold zlength in *. rewrite Hlen, Hn2. exact Hn.
Qed.

Lemma run_ok W passes c l : service_ok c l -> let '(c', l') := run W passes c l in service_ok c' l'.
Proof.
  revert c l; induction passes as [|[arrival lines] passes IH]; intros c l Hok; cbn [run]; [done|].
  destruct (_ || _); [done|]. pose proof (run_pass_ok W arrival lines kAcceptPollMillis c l Hok) as Hp.
  destruct (run_pass W arrival lines kAcceptPollMillis c l) as [[? c1] l1]. by apply IH.
Qed.

(** ** One frame, one reply *)

(** The outbound bytes are one frame that answers the request [id] with a document. *)
Definition answered_with (s s' : Session) (id : Z) (type : MessageType) (answer : Json) : Prop :=
  let data := bytes_of_string (dump answer) in
  decode_frame (outbound s')
  = Ok (mk_frame (mk_header kWireVersion type 0 (zlength data) id) data, length (outbound s'))
  /\ s' = with_outbound s (outbound s') 0.

(** The reply is queued when it fits a frame; otherwise the session ends without one. *)
Definition replied (s s' : Session) (id : Z) (type : MessageType) (answer : Json) : Prop :=
  if zlength (bytes_of_string (dump answer)) <=? kMaxFrameBytes - 28
  then answered_with s s' id type answer else s' = empty_session.

Lemma queue_frame_replies s type id answer :
  clean s -> pending_output s = false -> 0 <= type < 2 ^ 16 -> 0 <= id < 2 ^ 64 ->
  replied s (queue_frame s type id answer) id type answer.
Proof using.
  intros [Hf Hd] Hp Ht Hi. unfold queue_frame, replied. destruct (encode_frame _ _ _ _) as [encoded|] eqn:E; cycle 1.
  { rewrite (proj2 (Z.leb_gt _ _)); [done|]. unfold encode_frame in E.
    destruct (_ <? _) eqn:El in E; [|discriminate E]. apply Z.ltb_lt in El. exact El. }
  apply encode_frame_inv in E as [Hl ->]. rewrite (proj2 (Z.leb_le _ _) Hl). rewrite app_nil_l, (Hd Hp), app_nil_l. pose proof (fi_offset _ Hf) as Ho.
  rewrite (Hd Hp) in Ho. assert (out_offset s = 0%nat) as -> by (simpl in Ho; lia). split; [|done].
  cbn [with_outbound outbound]. set (data := bytes_of_string _) in *.
  pose proof (decode_wire type 0 id data []) as E. rewrite app_nil_r in E. rewrite E.
  - by rewrite length_app, wire_header_length.
  - unfold fields_ok, zlength, kMaxFrameBytes in *. lia.
  - done.
Qed.

Definition counters (c : Core) : Z * Z := (served c, rejected c).

Lemma dispatch_counters W active c handler body : counters (dispatch W active c handler body).1 = counters c.
Proof using.
  unfold dispatch. destruct (handle_contract_submission _ _ _ _ _ _) as [[? ?] ?].
  destruct (handle_contract_submission _ _ _ _ _ _) as [[? ?] ?]. destruct (handle_attach_evidence _ _ _ _ _) as [[? ?] ?].
  destruct (handle_install_policy _ _ _ _ _) as [[? ?] ?]. destruct (handle_retire_workload _ _ _ _ _) as [[? ?] ?].
  by repeat match goal with |- context [if ?b then _ else _] => destruct b end.
Qed.

(** The frame type and document of a reply. *)
Definition reply_type (reply : Reply) : MessageType :=
  match reply with Refused _ => Wire.kError | Succeeded _ => kRetireReplyGeneric | Greeted _ => kHelloReply end.

Definition reply_body (reply : Reply) : Json :=
  match reply with Refused e => error_body e | Succeeded b | Greeted b => b end.

Lemma respond_replies c s id reply :
  clean s -> pending_output s = false -> 0 <= id < 2 ^ 64 ->
  let '(c', s') := respond c s id reply in
  replied s s' id (reply_type reply) (reply_body reply) /\ authority c' = authority c
  /\ counters c' = match reply with
                    | Refused _ => (served c, u64 (rejected c + 1)) | _ => (u64 (served c + 1), rejected c)
                    end.
Proof using.
  intros Hc Hp Hi. destruct reply; (split; [|done]); apply queue_frame_replies; try done;
    vm_compute; split; discriminate || reflexivity.
Qed.

End Requests.

(** ** Claims an evidence submitter may not make *)
Section Emplace.
Context {V : Type} (skip : string * V -> bool) (g : string * V -> V).

Lemma emplace_unskipped_find fields (top : list (string * V)) k :
  map_find k (fold_left (fun m p => if skip p then m else (map_emplace p.1 (g p) m).1) fields top)
  = match map_find k top with
    | Some v => Some v
    | None => g <$> List.find (fun p => String.eqb k p.1 && negb (skip p)) fields
    end.
Proof.
  revert top; induction fields as [|p fields IH]; intros top; cbn [fold_left List.find]; [by destruct (map_find k top)|].
  rewrite IH. destruct (skip p); cbn [negb]; [by rewrite andb_false_r|]. rewrite andb_true_r.
  unfold map_emplace, map_has. destruct (map_find p.1 top) as [v|] eqn:E; cbn [fst].
  - destruct (map_find k top) eqn:Ek; [done|]. destruct (String.eqb_spec k p.1) as [->|]; [congruence|done].
  - destruct (String.eqb_spec k p.1) as [->|Hne].
    + by rewrite map_find_insert_eq, E.
    + by rewrite map_find_insert_ne by done.
Qed.

End Emplace.

Definition states_zero (p : string * Json) : bool :=
  String.eqb p.1 "evidence_id" && is_string p.2
  && match parse_id (Tag := EvidenceTag) (as_string p.2) with Some declared => is_zero declared | None => false end.

Definition cleaned (p : string * Json) : Json :=
  match p.2 with
  | JArray items => if String.eqb p.1 "entries" then JArray (map normalize_entry items) else p.2
  | _ => p.2
  end.

(** The fields of a document are normalised one by one. *)
Lemma normalize_field_cleaned top p :
  normalize_field top p = if states_zero p then top else (map_emplace p.1 (cleaned p) top).1.
Proof.
  unfold normalize_field, cleaned. fold (states_zero p). destruct (states_zero p); [done|].
  destruct p as [key v]. cbn [fst snd]. destruct v; try done. by destruct (String.eqb_spec key "entries") as [->|].
Qed.

Lemma normalize_fields_cleaned fields top :
  fold_left normalize_field fields top
  = fold_left (fun m p => if states_zero p then m else (map_emplace p.1 (cleaned p) m).1) fields top.
Proof. revert top; induction fields as [|p fields IH]; intros top; [done|]. cbn [fold_left]. by rewrite IH, normalize_field_cleaned. Qed.

Lemma normalize_find fields k :
  map_find k (object (normalize_evidence_document (JObject fields)))
  = cleaned <$> List.find (fun p => String.eqb k p.1 && negb (states_zero p)) fields.
Proof.
  cbn [normalize_evidence_document object]. by rewrite normalize_fields_cleaned, (emplace_unskipped_find states_zero cleaned fields [] k).
Qed.

Lemma normalize_entry_find fields k :
  map_find k (object (normalize_entry (JObject fields)))
  = snd <$> List.find (fun p => String.eqb k p.1 && negb (String.eqb p.1 "captured_by" || String.eqb p.1 "epoch")) fields.
Proof.
  cbn [normalize_entry object].
  by rewrite (emplace_unskipped_find (fun p => String.eqb p.1 "captured_by" || String.eqb p.1 "epoch") snd fields [] k).
Qed.

(** The claims a normalised entry cannot carry. *)
Definition unclaimed (e : EvidenceEntry) : Prop := captured_by e = zero_incarnation /\ ent_epoch e = 0.

Lemma normalized_entry_unclaimed item i e : entry_from_json (normalize_entry item) i = Ok e -> unclaimed e.
Proof.
  unfold entry_from_json. destruct (is_object (normalize_entry item)) eqn:Ho; [|discriminate]. cbn [negb]. cbv zeta.
  destruct item as [| | | | | |fields]; try discriminate Ho.
  assert (forall k, String.eqb k "captured_by" || String.eqb k "epoch" = true ->
            map_find k (object (normalize_entry (JObject fields))) = None) as Hn.
  { intros k Hk. rewrite normalize_entry_find. destruct (List.find _ fields) as [p|] eqn:E; [|done].
    apply find_some in E as [_ E]. apply andb_true_iff in E as [Ek Es]. apply String.eqb_eq in Ek. subst k.
    by rewrite Hk in Es. }
  unfold read_captured_by, read_count at 2. rewrite (Hn "captured_by"%string eq_refl), (Hn "epoch"%string eq_refl).
  intros E. apply result_bind_Ok in E as (s & _ & E). apply result_bind_Ok in E as (g & _ & E).
  cbn [mbind result_bind] in E. apply result_bind_Ok in E as (p & _ & E). apply result_bind_Ok in E as (w & _ & E).
  apply result_bind_Ok in E as (x & _ & E). apply result_bind_Ok in E as (f & _ & E). by injection E as <-.
Qed.

Lemma decode_all_unclaimed items i l :
  decode_all entry_from_json i (map normalize_entry items) = Ok l -> Forall unclaimed l.
Proof.
  revert i l; induction items as [|item items IH]; intros i l; cbn [map decode_all]; [by intros [= <-]|].
  intros E. apply result_bind_Ok in E as (e & He & E). apply result_bind_Ok in E as (rest & Hr & E). injection E as <-.
  constructor; [by eapply normalized_entry_unclaimed|by eapply IH].
Qed.

Lemma read_entries_unclaimed document l :
  read_entries (object (normalize_evidence_document document)) = Ok l -> Forall unclaimed l.
Proof.
  unfold read_entries. destruct document as [| | | | | |fields]; try discriminate. rewrite normalize_find.
  destruct (List.find _ fields) as [[key v]|] eqn:E; [|discriminate]. apply find_some in E as [_ E].
  apply andb_true_iff in E as [Ek _]. apply String.eqb_eq in Ek. cbn [fst] in Ek. subst key.
  cbn [option_map fmap option_fmap]. unfold cleaned. cbn [fst snd]. destruct v; try discriminate. rewrite String.eqb_refl.
  destruct (_ <? _); [discriminate|]. apply decode_all_unclaimed.
Qed.

Lemma normalized_evidence_unclaimed `{Hashing} document ev :
  evidence_from_json (normalize_evidence_document document) = Ok ev -> Forall unclaimed (ev_entries ev).
Proof.
  unfold evidence_from_json. destruct (is_object _); [|discriminate]. cbn [negb]. cbv zeta. intros E.
  apply result_bind_Ok in E as (g & _ & E). apply result_bind_Ok in E as (ep & _ & E).
  apply result_bind_Ok in E as (p & _ & E). apply result_bind_Ok in E as (who & _ & E).
  apply result_bind_Ok in E as (l & Hl & E). apply result_bind_Ok in E as (u & _ & E). injection E as <-.
  by apply read_entries_unclaimed in Hl.
Qed.

(** The runtime records its own run as the one that captured an entry. *)
Definition attested (info : RuntimeInfo) (e : EvidenceEntry) : Prop :=
  captured_by e = info_incarnation info /\ ent_epoch e = info_epoch info.

Lemma stamp_entries_attested now info who n l : Forall (attested info) (stamp_entries now info who n l).1.
Proof.
  revert n; induction l as [|e l IH]; intros n; cbn [stamp_entries]; [constructor|].
  destruct (if _ =? 0 then _ else _) as [produced n1]. specialize (IH n1).
  destruct (stamp_entries now info who n1 l). by constructor.
Qed.

(** ** Delivery of a reply *)
Section Delivery.
Context (W : World).

(** The bytes of a reply the peer has not been given yet. *)
Definition unsent (s : Session) : bytes := drop (out_offset s) (outbound s).

Definition takes (answer : SendAnswer) : bool := match answer with SendTakes _ => true | _ => false end.

Lemma pending_unsent s : pending_output s = match unsent s with [] => false | _ => true end.
Proof.
  unfold pending_output, unsent. destruct (Nat.ltb_spec (out_offset s) (length (outbound s))) as [Hl|Hl].
  - destruct (drop _ _) eqn:E; [|done]. apply (f_equal length) in E. rewrite length_drop in E. simpl in E. lia.
  - by rewrite drop_ge.
Qed.

(** What a send takes is what the peer is given, and a peer that takes anything takes at
    least a byte. *)
Lemma send_some_progress answer data offset n :
  send_some answer data offset = SendProgress n -> (offset <= length data)%nat ->
  (offset + n <= length data)%nat /\ (takes answer = true -> (offset < length data)%nat -> (0 < n)%nat).
Proof using.
  unfold send_some. destruct (Nat.leb_spec (length data) offset); [intros [= <-]; lia|].
  pose proof receive_chunk_bytes. destruct answer; try discriminate. intros [= <-]. split; lia.
Qed.

Lemma send_some_stuck answer data offset :
  takes answer = true -> match send_some answer data offset with SendProgress _ => True | _ => False end.
Proof using. unfold send_some. destruct answer; try discriminate. by destruct (_ <=? _)%nat. Qed.

(** No byte of a reply is lost, repeated or reordered, and a peer that keeps taking gets all
    of it. *)
Lemma flush_loop_delivers answers out c s :
  fits s ->
  let '(_, s', (_, out')) := flush_loop W answers out c s in
  out' `prefix_of` out ++ unsent s
  /\ (s' = empty_session \/ out' ++ unsent s' = out ++ unsent s)
  /\ (forallb takes answers = true -> (length (unsent s) <= length answers)%nat ->
        out' = out ++ unsent s /\ unsent s' = []).
Proof.
  revert out c s; induction answers as [|answer answers IH]; intros out c s Hf; cbn [flush_loop]; rewrite pending_unsent;
    (destruct (unsent s) as [|b rest] eqn:Eu; cbn [negb]; [split_and!; [by rewrite app_nil_r|by right|by rewrite app_nil_r]|]).
  - split_and!; [by apply prefix_app_r|right; by rewrite <- Eu|simpl; lia].
  - destruct (send_some answer (outbound s) (out_offset s)) as [n| |] eqn:Es.
    + destruct (send_some_progress _ _ _ _ Es (fi_offset _ Hf)) as [Hn Hpos]. set (c1 := (tick W c).1). unfold tick. cbv zeta beta iota.
      set (s1 := with_activity _ _). assert (fits s1) as Hf1 by by destruct Hf.
      assert (slice (out_offset s) n (outbound s) ++ unsent s1 = unsent s) as Ed
        by (symmetry; apply slice_split).
      assert (out_offset s < length (outbound s))%nat as Hlt.
      { apply Nat.nle_gt. intros Hge. unfold unsent in Eu. rewrite drop_ge in Eu by done. discriminate. }
      specialize (IH (out ++ slice (out_offset s) n (outbound s)) c1 s1 Hf1).
      change (mk_core _ _ _ _ _ _ _ _ _ _ _) with c1. destruct (flush_loop W answers _ c1 s1) as [[c' s'] [rest' out']]. rewrite <- !app_assoc, Ed, Eu in IH.
      destruct IH as (Hpre & Hkeep & Hall). split; [exact Hpre|]. split; [exact Hkeep|]. cbn [forallb]. intros [Ht Hts]%andb_true_iff Hlen.
      apply Hall; [done|]. specialize (Hpos Ht Hlt). unfold unsent in *. cbn [s1 with_activity with_outbound out_offset outbound].
      rewrite <- Eu in Hlen. rewrite length_drop in *. cbn [length] in Hlen. lia.
    + split; [by apply prefix_app_r|]. split; [right; by rewrite <- Eu|]. cbn [forallb]. intros [Ht _]%andb_true_iff. apply (send_some_stuck _ (outbound s) (out_offset s)) in Ht.
      by rewrite Es in Ht.
    + split; [by apply prefix_app_r|]. split; [by left|]. cbn [forallb]. intros [Ht _]%andb_true_iff. apply (send_some_stuck _ (outbound s) (out_offset s)) in Ht.
      by rewrite Es in Ht.
Qed.

End Delivery.

(** ** Properties *)

(** C3: the service is only a client of the runtime.  Whatever connections arrive, whatever
    bytes their peers send and in whatever pieces, and whatever the disk and the clocks do,
    serving any number of passes performs a sequence of requests on the directory and the
    runtime and nothing else: the trust set stays, the state stays well formed, and every
    workload keeps its published contracts, as a prefix of those it has afterwards. *)
Theorem service_authority `{Hashing} `{Ed25519} `{Host} (W : World) (passes : list ((Z -> Arrival) * list Line))
    (c : Core) (l : list Session) :
  state_ok (trust_ (co_runtime c)) (state_ (co_runtime c)) ->
  let c' := (run W passes c l).1 in
  rtc step (co_files c, co_runtime c) (co_files c', co_runtime c')
  /\ trust_ (co_runtime c') = trust_ (co_runtime c)
  /\ state_ok (trust_ (co_runtime c')) (state_ (co_runtime c'))
  /\ keeps_contracts (state_ (co_runtime c)) (state_ (co_runtime c')).
Proof.
  intros Hok c'. pose proof (run_by_requests W passes c l) as Hr. split; [exact Hr|].
  destruct (steps_ok _ _ Hr Hok) as [Ht Hok']. split_and!; [exact Ht|exact Hok'|exact (steps_keep _ _ Hr)].
Qed.

(** C10: one frame, one answer.  A session with nothing left to send that serves a frame
    queues exactly one reply frame, which carries the request id of the frame, when the
    reply fits a frame, and is closed without a reply when it does not.  A frame that is no valid request is refused; a
    submission is performed once and the reply says what the runtime said, with the sequence
    of the record when it was accepted; a query leaves the directory and the runtime alone.
    Exactly one of the two counters moves, by one, and it is the one of rejections precisely
    when the reply is an error. *)
Theorem request_answered `{Hashing} `{Ed25519} `{Host} (W : World) (active : Z) (c : Core) (s : Session) (frame : Frame) :
  clean s -> pending_output s = false -> 0 <= request_id (header frame) < 2 ^ 64 ->
  let '(c', s') := handle_frame W active c s frame in
  exists reply,
    replied s s' (request_id (header frame)) (reply_type reply) (reply_body reply)
    /\ counters c' = match reply with
                     | Refused _ => (served c, u64 (rejected c + 1)) | _ => (u64 (served c + 1), rejected c)
                     end
    /\ match decode_request frame with
       | Err e => reply = Refused e /\ authority c' = authority c
       | Ok (handler, document) =>
           match submitted handler document with
           | Err e => reply = Refused e /\ authority c' = authority c
           | Ok None => authority c' = authority c
           | Ok (Some q) =>
               performs (w_disk W (co_calls c)) (w_wall W (co_calls c)) (co_files c) (co_runtime c) q
                 (co_files c', co_runtime c', reply)
           end
       end.
Proof.
  intros Hc Hp Hi. unfold handle_frame. destruct (decode_request frame) as [[handler document]|e].
  - pose proof (dispatch_submits W active c handler document) as Hd.
    pose proof (dispatch_counters W active c handler document) as Hn.
    destruct (dispatch W active c handler document) as [c1 reply]. cbn [fst] in Hn.
    pose proof (respond_replies c1 s _ reply Hc Hp Hi) as Hr. destruct (respond c1 s _ reply) as [c2 s2].
    destruct Hr as (Hr & Ha & Hk). injection Ha as Ef Er. injection Hn as E1 E2. rewrite E1, E2 in Hk.
    exists reply. split; [exact Hr|]. split; [exact Hk|]. unfold authority. rewrite Ef, Er.
    destruct (submitted handler document) as [[q|]|e]; [exact Hd|destruct Hd as [-> ->]|destruct Hd as (-> & -> & ->)]; done.
  - pose proof (respond_replies c s _ (Refused e) Hc Hp Hi) as Hr. destruct (respond c s _ _) as [c2 s2].
    destruct Hr as (Hr & Ha & Hk). exists (Refused e). by split_and!.
Qed.

(** C11: the memory of the service is bounded by its configuration.  After any number of
    passes since the start there are at most as many sessions as were configured; each buffers
    at most one frame and one receive of input and one frame of output, and a slot that is not
    in use holds nothing. *)
Theorem session_memory_bounded `{Hashing} `{Ed25519} `{Host} (boot : Boot) (now : nat -> Z) (files files' : Files)
    (o : CoordinatorOptions) (r : Options) (resolved : option (list Wire.Candidate)) (W : World)
    (passes : list ((Z -> Arrival) * list Line)) (c : Core) (l : list Session) :
  0 <= opt_sessions o -> start boot now files o r resolved = (files', Ok (c, l)) ->
  let '(_, l') := run W passes c l in
  zlength l' <= (if opt_sessions o =? 0 then kMaxSessions else opt_sessions o)
  /\ Forall (fun s =>
       (used s = false -> s = empty_session)
       /\ zlength (inbound s) <= kMaxFrameBytes + 16384 /\ zlength (outbound s) <= kMaxFrameBytes) l'.
Proof.
  intros Ho E. unfold start in E. set (sessions := if opt_sessions o =? 0 then _ else _) in *.
  destruct (open_runtime _ _ _ _) as [fs [R|e]]; [|discriminate E].
  destruct (listen_on resolved) as [closed [handle|e]]; [|discriminate E]. cbn [snd] in E. injection E as <- <- <-.
  set (c0 := mk_core _ _ _ _ _ _ _ _ _ _ _). set (l0 := repeat _ _).
  assert (service_ok c0 l0) as Hok.
  { split; [|apply Forall_forall; intros s ->%list_elem_of_In%repeat_spec; by left].
    unfold zlength, l0. rewrite repeat_length. subst c0 sessions. cbn [max_sessions].
    destruct (opt_sessions o =? 0); unfold kMaxSessions; lia. }
  pose proof (run_ok W passes c0 l0 Hok) as Hrun.
  pose proof (run_respects W same_settings (fun c => eq_refl) (fun c => eq_refl) (frame_settings W) passes c0 l0) as Hs.
  destruct (run W passes c0 l0) as [c1 l1]. destruct Hrun as [Hn Hl]. injection Hs as Hm _. cbn [fst] in Hm.
  rewrite Hm in Hn. split; [exact Hn|]. eapply Forall_impl; [exact Hl|]. intros s [->|[[Hu Hin Hout _] _]].
  - split; [done|]. unfold zlength, kMaxFrameBytes. cbn. lia.
  - split; [congruence|done].
Qed.

(** C12: an evidence submitter cannot say which run observed its evidence or in which epoch.
    Whatever the document of a request states, the evidence handed to the runtime claims no
    incarnation and no epoch, and what the runtime stores records its own. *)
Theorem submitter_claims_removed `{Hashing} (body : Json) (ev : EvidenceSet) (now : nat -> Z) (info : RuntimeInfo) :
  submitted kAttachEvidence body = Ok (Some (AttachRequest ev)) ->
  Forall (fun e => captured_by e = zero_incarnation /\ ent_epoch e = 0) (ev_entries ev)
  /\ Forall (attested info) (ev_entries (stamp_evidence now info ev).1)
  /\ ev_epoch (stamp_evidence now info ev).1 = info_epoch info.
Proof.
  intros E. change (submitted kAttachEvidence body) with
    (map_ok (fun ev => Some (AttachRequest ev))
      (match find body "evidence" with
       | None => Err (kJsonMissingField, "request.evidence is required"%string)
       | Some document => evidence_from_json (normalize_evidence_document document)
       end)) in E.
  destruct (find body "evidence") as [document|]; [|discriminate E].
  destruct (evidence_from_json _) as [ev'|] eqn:Ed; [|discriminate E]. injection E as ->.
  split; [exact (normalized_evidence_unclaimed document ev Ed)|]. unfold stamp_evidence.
  pose proof (stamp_entries_attested now info (ev_publisher ev) 0 (ev_entries ev)) as Hs.
  destruct (stamp_entries _ _ _ _ _) as [l n]. by split.
Qed.

(** C13: a queued reply is delivered.  Flushing a session gives the peer a prefix of what was
    queued, in order, and keeps exactly the rest unless the connection failed; when the peer
    keeps taking bytes, at whatever pace, it is given all of it. *)
Theorem reply_delivered (W : World) (line : Line) (c : Core) (s : Session) :
  fits s ->
  let '(c', s', line') := flush W line c s in
  delivered line' `prefix_of` delivered line ++ unsent s
  /\ (s' = empty_session \/ delivered line' ++ unsent s' = delivered line ++ unsent s)
  /\ (forallb takes (sends line) = true -> (length (unsent s) <= length (sends line))%nat ->
        delivered line' = delivered line ++ unsent s /\ unsent s' = []).
Proof.
  intros Hf. unfold flush. pose proof (flush_loop_delivers W (sends line) (delivered line) c s Hf) as Hd.
  by destruct (flush_loop _ _ _ _ _) as [[c' s'] [rest out]].
Qed.

(** ** Witnesses: a registration over the wire *)
#[local] Existing Instance toy_hashing.
#[local] Existing Instance toy_ed25519.
#[local] Existing Instance sample_host.

Definition sample_world : World := mk_world (fun _ => healthy) (fun _ => clock) Z.of_nat.

Definition sample_request : Json :=
  set_all JNull
    [("schema"%string, JString "wnc/v1/register_workload"); ("contract"%string, contract_to_json first_contract)].

Definition sample_frame : Frame :=
  let data := bytes_of_string (dump sample_request) in
  mk_frame (mk_header kWireVersion kRegisterWorkload 0 (zlength data) 9) data.

(** One peer that connects and sends the frame in two pieces. *)
Definition sample_pass : (Z -> Arrival) * list Line :=
  let data := wire_header kRegisterWorkload 0 (zlength (body sample_frame)) 9 ++ body sample_frame in
  (fun _ => mk_arrival 1 5 true,
   [mk_line [SendTakes 100; SendTakes 1000] [Received (hd 0 data) (take 30 (tail data)); Received (nth 31 data 0) (drop 32 data)] []]).

Definition sample_core : Core := mk_core 4 0 sample_start.1 sample_start.2 (Some 3) false false 0 0 0 0.

Lemma service_authority_witness :
  exists w, find_workload (state_ (co_runtime (run sample_world [sample_pass] sample_core []).1)) sample_workload = Some w
    /\ workload_ok toy_trust sample_workload w.
Proof.
  destruct (service_authority sample_world [sample_pass] sample_core [] sample_start_ok) as (_ & Ht & Hok & _).
  assert (trust_ (co_runtime sample_core) = toy_trust) as Et by (vm_compute; reflexivity). rewrite Et in Ht.
  assert (match find_workload (state_ (co_runtime (run sample_world [sample_pass] sample_core []).1)) sample_workload with
          | Some _ => true | None => false end = true) as Hf by (vm_compute; reflexivity).
  destruct (find_workload _ _) as [w|] eqn:E; [|discriminate Hf]. exists w. split; [reflexivity|].
  rewrite <- Ht. exact (state_find _ _ _ _ Hok E).
Defined.

Definition sample_session : Session := mk_session (Some 5) [] [] 0 0 true false.

Lemma sample_session_clean : clean sample_session.
Proof. split; [split; cbn; unfold zlength, kMaxFrameBytes; cbn; lia|done]. Qed.

Lemma request_answered_witness :
  exists reply,
    replied sample_session (handle_frame sample_world 1 sample_core sample_session sample_frame).2 9 (reply_type reply) (reply_body reply)
    /\ counters (handle_frame sample_world 1 sample_core sample_session sample_frame).1 = (1, 0)
    /\ exists answer, reply = Succeeded answer /\ find answer "sequence" = Some (json_uint 1).
Proof.
  assert (0 <= request_id (header sample_frame) < 2 ^ 64) as Hi by (cbn; lia).
  pose proof (request_answered sample_world 1 sample_core sample_session sample_frame sample_session_clean eq_refl Hi) as Ha.
  assert (match decode_request sample_frame with
          | Ok (handler, document) => match submitted handler document with
              | Ok (Some q) => match (perform healthy clock sample_start.1 sample_start.2 q).2 with Ok n => n =? 1 | Err _ => false end
              | _ => false end
          | Err _ => false end = true) as Hd by (vm_compute; reflexivity).
  destruct (handle_frame _ _ _ _ _) as [c' s']. destruct Ha as (reply & Hr & Hk & Hs). exists reply. cbn [fst snd].
  split; [exact Hr|]. destruct (decode_request _) as [[handler document]|]; [|discriminate Hd].
  destruct (submitted handler document) as [[q|]|]; try discriminate Hd. destruct Hs as (r & Ep & Hs).
  cbn [sample_world w_disk w_wall sample_core co_calls co_files co_runtime] in Ep. rewrite Ep in Hd. cbn [snd] in Hd.
  destruct r as [n|]; [|discriminate Hd]. apply Z.eqb_eq in Hd. subst n. destruct Hs as (answer & -> & _ & Hq).
  split; [exact Hk|]. exists answer. split; [reflexivity|exact Hq].
Defined.

Definition sample_coordinator_options : CoordinatorOptions := mk_coordinator_options 2 0 0.

Lemma session_memory_bounded_witness :
  exists files c l,
    start sample_boot clock [] sample_coordinator_options sample_options (Some [Wire.mk_candidate 3 true])
    = (files, Ok (c, l))
    /\ zlength (run sample_world [sample_pass] c l).2 <= 2.
Proof.
  destruct (start sample_boot clock [] sample_coordinator_options sample_options (Some [Wire.mk_candidate 3 true]))
    as [files [[c l]|e]] eqn:E.
  - exists files, c, l. split; [reflexivity|].
    pose proof (session_memory_bounded sample_boot clock [] files sample_coordinator_options sample_options
      (Some [Wire.mk_candidate 3 true]) sample_world [sample_pass] c l ltac:(cbn; lia) E) as Hb.
    destruct (run sample_world [sample_pass] c l) as [c' l']. exact (proj1 Hb).
  - assert (is_ok (start sample_boot clock [] sample_coordinator_options sample_options
      (Some [Wire.mk_candidate 3 true])).2 = true) as Hok by (vm_compute; reflexivity).
    rewrite E in Hok. discriminate Hok.
Defined.

(** A submission that claims an epoch of its own. *)
Definition claiming_request : Json :=
  set_all JNull [("evidence"%string, evidence_to_json
    (mk_evidence zero_id 1 0 (sig_publisher toy_signer) 0
      [mk_entry "leaf" zero_id zero_id 1 zero_incarnation 77 5
         (Evaluation.mk_candidate None (Some (double_of_int 5)) None None None None None None None None None None None None []) kCurrent]))].

Lemma submitter_claims_removed_witness :
  exists ev, submitted kAttachEvidence claiming_request = Ok (Some (AttachRequest ev))
    /\ Forall (fun e => captured_by e = zero_incarnation /\ ent_epoch e = 0) (ev_entries ev).
Proof.
  assert (match submitted kAttachEvidence claiming_request with Ok (Some (AttachRequest _)) => true | _ => false end = true)
    as Hb by (vm_compute; reflexivity).
  destruct (submitted _ _) as [[[| |ev| |]|]|] eqn:E; try discriminate Hb. exists ev. split; [reflexivity|].
  exact (proj1 (submitter_claims_removed claiming_request ev clock (info_ sample_start.2) E)).
Defined.

Lemma reply_delivered_witness :
  let s := with_outbound sample_session [1; 2; 3; 4] 1 in
  delivered (flush sample_world (mk_line [SendTakes 2; SendTakes 1; SendTakes 1] [] [9]) sample_core s).2 = [9; 2; 3; 4].
Proof.
  intros s. assert (fits s) as Hf by (split; cbn; unfold zlength, kMaxFrameBytes; cbn; lia).
  pose proof (reply_delivered sample_world (mk_line [SendTakes 2; SendTakes 1; SendTakes 1] [] [9]) sample_core s Hf) as Hd.
  destruct (flush _ _ _ _) as [[c' s'] line']. destruct Hd as (_ & _ & Hall).
  exact (proj1 (Hall eq_refl ltac:(cbn; lia))).
Defined.
