(* ===== verification/ClientSession.v ===== *)
(** * A client and the service

    The two client commands of [src/tools/wncctl_main.cpp] against the service of
    [src/src/coordinator.cpp]: the bytes a command sends become a frame of a session, the
    service answers it, and the bytes it queued are what the command reads and prints.  The
    file holds no new code: it composes [Wncctl], [Wire] and [Coordinator]. *)
From Stdlib Require Import ZArith Lia Ascii String.
From stdpp Require Import base numbers option list strings pretty.
From S2P Require Import Prelude Console Identity Errors Hash Json JsonParser JsonText Signature Contract ContractDecode ContractText Evaluation State Ledger Boot Journal Recovery Wire Runtime Authority Coordinator Service Wncctl.

(** ** Frames *)
Definition document_frame (type : MessageType) (id : Z) (document : Json) : Frame :=
  let data := bytes_of_string (dump document) in mk_frame (mk_header kWireVersion type 0 (zlength data) id) data.

Definition document_bytes (type : MessageType) (id : Z) (document : Json) : bytes :=
  let data := bytes_of_string (dump document) in wire_header type 0 (zlength data) id ++ data.

(** A document the other side reads back: well formed, with reals that have a text, and
    within the bound of a document. *)
Definition readable (document : Json) : Prop :=
  json_wf default_options 0 document /\ readable_reals document = true /\ size (text_of document) < kMaxDocumentBytes.

Lemma readable_decodes document :
  readable document ->
  dump document = text_of document
  /\ json_decode (string_of_bytes (bytes_of_string (dump document))) default_options = Ok document.
Proof.
  intros (Hwf & Hr & Hs). assert (dump document = text_of document) as Ed
    by (apply dump_text; unfold kMaxDocumentBytes in *; lia).
  split; [exact Ed|]. rewrite string_of_bytes_of_string, Ed.
  apply json_decode_text; [done|done|vm_compute; discriminate| |by left].
  unfold kMaxDocumentBytes in Hs. cbn [max_bytes default_options]. lia.
Qed.

Lemma document_bytes_decode type id document :
  0 <= type < 2 ^ 16 -> 0 <= id < 2 ^ 64 -> zlength (bytes_of_string (dump document)) <= kMaxFrameBytes - 28 ->
  decode_frame (document_bytes type id document)
  = Ok (document_frame type id document, length (document_bytes type id document)).
Proof.
  intros Ht Hi Hl. pose proof (decode_wire type 0 id (bytes_of_string (dump document)) []) as Hd.
  rewrite app_nil_r in Hd. unfold document_bytes. rewrite Hd; [|apply body_fields_ok; lia|exact Hl].
  by rewrite length_app, wire_header_length.
Qed.

(** ** The client *)
(** A call that is sent completely and answered by a frame continues with its document. *)
Lemma call_answered N type document answer k f n :
  Forall (fun n => 0 < n) (send_results N) -> zlength (bytes_of_string (dump document)) <= kMaxFrameBytes - 28 ->
  stream_ok (answers N (document_bytes type 1 document)) ->
  decode_frame (pending (answers N (document_bytes type 1 document))) = Ok (f, n) ->
  Wire.body f = bytes_of_string (dump answer) -> readable answer ->
  call (mk_client N 0) type document k = k answer.
Proof.
  intros Hs Hl Hok Hd Hb Ha. unfold call, send_frame. cbn [client_network last_request_id].
  change (u64 (0 + 1)) with 1. rewrite encode_frame_eq by done. unfold write_all. rewrite app_nil_l, write_loop_positive by done.
  rewrite app_nil_l. fold (document_bytes type 1 document).
  pose proof (read_frame_exact _ Hok) as Hr. destruct (read_frame _) as [peer' [reply|e]].
  - destruct Hr as (consumed & E & _). rewrite Hd in E. injection E as <- _. cbn [snd].
    rewrite Hb. by rewrite (proj2 (readable_decodes answer Ha)).
  - destruct Hr as (e' & E & _). by rewrite Hd in E.
Qed.

(** ** The service *)
Section Exchange.
Context `{Hashing} `{Ed25519} `{Host} (W : World).

(** A session between two requests. *)
Definition idle (s : Session) : Prop := used s = true /\ inbound s = [] /\ outbound s = [] /\ out_offset s = 0%nat.

Lemma idle_pending s : idle s -> pending_output s = false.
Proof using. intros (_ & _ & Ho & Hn). unfold pending_output. by rewrite Ho, Hn. Qed.

(** What [handle_frame] answers. *)
Definition answer_frame (active : Z) (c : Core) (frame : Frame) : Core * Reply :=
  match decode_request frame with
  | Err e => (c, Refused e)
  | Ok (handler, document) => dispatch W active c handler document
  end.

Lemma handle_frame_answer active c s frame :
  handle_frame W active c s frame
  = let '(c', reply) := answer_frame active c frame in respond c' s (Wire.request_id (header frame)) reply.
Proof using. unfold handle_frame, answer_frame. by destruct (decode_request frame) as [[handler document]|e]. Qed.

(** The core after the receive and the decoding of a frame. *)
Definition received (c : Core) : Core := (tick W (tick W c).1).1.

Lemma flush_nothing line c s :
  pending_output s = false -> flush W line c s = (c, with_outbound s [] 0, line).
Proof using. intros Hp. unfold flush. destruct line as [[|x l] r d]; cbn [sends delivered reads flush_loop]; by rewrite Hp. Qed.

Lemma serve_buffered_empty active turns line c s :
  pending_output s = false -> inbound s = [] -> serve_buffered W active turns line c s = (turns, line, c, s, false).
Proof using. intros Hp Hi. destruct turns; cbn [serve_buffered]; [done|]. by rewrite Hp, Hi. Qed.

(** The buffered frame is served, its answer flushed, and nothing is left to do. *)
Lemma serve_one active turns line c s type document :
  idle s -> 0 <= type < 2 ^ 16 -> zlength (bytes_of_string (dump document)) <= kMaxFrameBytes - 28 ->
  let s0 := with_inbound s (document_bytes type 1 document) in
  let s1 := with_activity (with_inbound s0 []) (tick W c).2 in
  let '(c2, s2) := handle_frame W active (tick W c).1 s1 (document_frame type 1 document) in
  let '(c3, s3, line3) := flush W line c2 s2 in
  used s2 = true -> used s3 = true -> pending_output s3 = false -> inbound s3 = [] ->
  serve_buffered W active (S turns) line c s0 = (turns, line3, c3, s3, false).
Proof using.
  intros Hidle Ht Hl. cbv zeta.
  set (s0 := with_inbound s _). set (s1 := with_activity _ _).
  destruct (handle_frame _ _ _ _ _) as [c2 s2] eqn:Eh. destruct (flush W line c2 s2) as [[c3 s3] line3] eqn:Ef.
  intros Hu2 Hu3 Hp3 Hi3. cbn [serve_buffered]. assert (pending_output s0 = false) as -> by (apply idle_pending in Hidle; done).
  assert (length (inbound s0) <? kHeaderBytes = false)%nat as ->.
  { apply Nat.ltb_ge. unfold s0, document_bytes, kHeaderBytes. cbn [with_inbound inbound]. rewrite length_app, wire_header_length. lia. }
  change (inbound s0) with (document_bytes type 1 document). rewrite document_bytes_decode by (done || lia).
  rewrite drop_all. change (tick W c) with ((tick W c).1, (tick W c).2). cbv beta iota. fold s1. rewrite Eh, Hu2. cbn [negb].
  rewrite Ef, Hu3. cbn [negb]. by apply serve_buffered_empty.
Qed.

(** The reply of an idle session is the whole of what it has to send. *)
Lemma respond_exact c s id reply :
  idle s -> zlength (bytes_of_string (dump (reply_body reply))) <= kMaxFrameBytes - 28 ->
  (respond c s id reply).2 = with_outbound s (document_bytes (reply_type reply) id (reply_body reply)) 0
  /\ authority (respond c s id reply).1 = authority c.
Proof using.
  intros (_ & _ & Ho & Eo) Hl. split; [|apply respond_authority].
  assert (forall type body, zlength (bytes_of_string (dump body)) <= kMaxFrameBytes - 28 ->
    queue_frame s type id body = with_outbound s (document_bytes type id body) 0) as Hq
    by (intros type body Hb; unfold queue_frame; rewrite encode_frame_eq by done; by rewrite Ho, Eo).
  destruct reply; by apply Hq.
Qed.

Lemma flush_takes answers out c s :
  forallb takes answers = true -> used s = true ->
  let s' := (flush_loop W answers out c s).1.2 in used s' = true /\ inbound s' = inbound s.
Proof using.
  revert out c s. induction answers as [|answer answers IH]; intros out c s Ht Hu; cbn [flush_loop];
    (destruct (negb (pending_output s)); [done|]); [done|].
  cbn [forallb] in Ht. apply andb_true_iff in Ht as [Ht Hts].
  pose proof (send_some_stuck answer (outbound s) (out_offset s) Ht) as Hs.
  destruct (send_some _ _ _) as [n| |]; try done. unfold tick. cbv zeta beta iota. set (s1 := with_activity _ _). exact (IH _ _ s1 Hts Hu).
Qed.

(** What is queued reaches a peer that keeps taking bytes, and the session is idle again. *)
Lemma flush_delivers line c s reply :
  idle s -> forallb takes (sends line) = true -> (length reply <= length (sends line))%nat -> zlength reply <= kMaxFrameBytes ->
  let '(c', s', line') := flush W line c (with_outbound s reply 0) in
  delivered line' = delivered line ++ reply /\ reads line' = reads line /\ authority c' = authority c
  /\ used s' = true /\ pending_output s' = false /\ inbound s' = [].
Proof using.
  intros (Hu & Hi & _ & _) Ht Hl Hz. unfold flush.
  assert (fits (with_outbound s reply 0)) as Hf.
  { split; cbn [with_outbound used inbound outbound out_offset]; [done| |done|lia]. rewrite Hi. unfold zlength, kMaxFrameBytes. simpl. lia. }
  pose proof (flush_loop_delivers W (sends line) (delivered line) c _ Hf) as Hdel.
  pose proof (flush_takes (sends line) (delivered line) c (with_outbound s reply 0) Ht Hu) as Hk.
  pose proof (flush_loop_authority W (sends line) (delivered line) c (with_outbound s reply 0)) as Ha.
  destruct (flush_loop _ _ _ _ _) as [[c' s'] [rest out]]. cbn [fst snd] in Hk, Ha. destruct Hk as [Hu' Hi'].
  destruct Hdel as (_ & _ & Hall). destruct (Hall Ht) as [-> Hun]; [by unfold unsent; rewrite drop_0|].
  split_and!; try done.
  - by rewrite pending_unsent, Hun.
  - by rewrite Hi'.
Qed.

(** One request of one peer, received in one piece: it is answered once, and a peer that
    keeps taking bytes is given that answer. *)
Lemma pump_answers active c s sends b more type document :
  idle s -> b :: more = document_bytes type 1 document -> (length (b :: more) <= kReceiveChunkBytes)%nat ->
  0 <= type < 2 ^ 16 -> zlength (bytes_of_string (dump document)) <= kMaxFrameBytes - 28 -> forallb takes sends = true ->
  let '(c2, answer) := answer_frame active (received c) (document_frame type 1 document) in
  let reply := document_bytes (reply_type answer) 1 (reply_body answer) in
  zlength (bytes_of_string (dump (reply_body answer))) <= kMaxFrameBytes - 28 -> (length reply <= length sends)%nat ->
  let '(line', c', _) := pump W active (mk_line sends [Received b more] []) c s in
  delivered line' = reply /\ authority c' = authority c2.
Proof using.
  intros Hidle Eb Hb Ht Hl Hs. destruct (answer_frame _ _ _) as [c2 answer] eqn:Ea. cbv zeta.
  set (reply := document_bytes _ _ _). intros Hr Hlen. unfold pump. rewrite flush_nothing by (apply idle_pending in Hidle; done).
  set (s0 := with_outbound (with_ready s false) [] 0). pose proof Hidle as (Hu & Hi & _ & _).
  assert (used s0 = true) as -> by done. assert (idle s0) as Hidle0 by done. rewrite (idle_pending s0 Hidle0).
  cbn [negb pump_loop reads]. rewrite serve_buffered_empty by (apply idle_pending in Hidle0; done).
  rewrite (idle_pending s0 Hidle0). change (kFramesPerPass =? 0)%nat with false. change (inbound s0) with (inbound s). rewrite Hi.
  change (kMaxFrameBytes <? zlength []) with false. cbn [app]. rewrite Eb, take_ge by (by rewrite <- Eb).
  change (tick W c) with ((tick W c).1, (tick W c).2). cbv beta iota. set (s1 := with_activity s0 (tick W c).2).
  change (with_activity (with_inbound s0 (document_bytes type 1 document)) (tick W c).2)
    with (with_inbound s1 (document_bytes type 1 document)).
  set (line := mk_line sends [Received b more] []).
  pose proof (serve_one active 7 line (tick W c).1 s1 type document Hidle0 Ht Hl) as Hone. cbv zeta in Hone.
  set (s2 := with_activity (with_inbound _ []) _) in Hone. assert (idle s2) as Hidle2 by done.
  rewrite handle_frame_answer in Hone. fold (received c) in Hone. rewrite Ea in Hone. cbn [header document_frame Wire.request_id] in Hone.
  destruct (respond_exact c2 s2 1 answer Hidle2 Hr) as [Eq Eauth].
  destruct (respond c2 s2 1 answer) as [c3 s3]. cbn [fst snd] in Eq, Eauth. subst s3. fold reply in Hone.
  pose proof (flush_delivers line c3 s2 reply Hidle2 Hs Hlen) as Hfl.
  destruct (flush W line c3 (with_outbound s2 reply 0)) as [[c4 s4] line4].
  destruct Hfl as (Hd & Hrd & Hau & Hu4 & Hp4 & Hi4).
  { unfold reply, document_bytes, zlength in *. rewrite length_app, wire_header_length. lia. }
  change (kFramesPerPass) with 8%nat. rewrite Hone by done. rewrite Hp4, Hi4. cbn. split; [exact Hd|congruence].
Qed.

(** The network of a client whose peer is this session of the service: what the client sends
    arrives in one piece, and what the session delivers arrives at the client, cut anyhow. *)
Definition served_by (N : Network) (active : Z) (sends : list SendAnswer) (c : Core) (s : Session) : Prop :=
  forall b more, let '(line', _, _) := pump W active (mk_line sends [Received b more] []) c s in
    stream_ok (answers N (b :: more)) /\ pending (answers N (b :: more)) = delivered line'.

(** The network takes all the client sends, and the peer takes [n] bytes of the service. *)
Record connected (N : Network) (host : string) (port : Z) (sends : list SendAnswer) (n : nat) : Prop := {
  cn_connects : is_ok (connect_to (resolve N host port)).2 = true;
  cn_sends : Forall (fun n => 0 < n) (send_results N);
  cn_takes : forallb takes sends = true /\ (n <= length sends)%nat
}.

Lemma reply_type_range reply : 0 <= reply_type reply < 2 ^ 16.
Proof using. destruct reply; vm_compute; split; discriminate || reflexivity. Qed.

Lemma readable_length document : readable document -> zlength (bytes_of_string (dump document)) < kMaxDocumentBytes.
Proof using.
  intros Hr. destruct (readable_decodes document Hr) as [-> _]. destruct Hr as (_ & _ & Hs).
  unfold zlength. by rewrite bytes_of_string_length.
Qed.

(** A request of a connected client continues with the document the service answers. *)
Lemma call_reaches_service N host port active sends c s type document k :
  idle s -> served_by N active sends c s ->
  0 <= type < 2 ^ 16 -> zlength (bytes_of_string (dump document)) <= 16000 ->
  let '(c2, answer) := answer_frame active (received c) (document_frame type 1 document) in
  readable (reply_body answer) ->
  connected N host port sends (length (document_bytes (reply_type answer) 1 (reply_body answer))) ->
  connect N host port (fun client => call client type document k) = k (reply_body answer).
Proof using.
  intros Hidle Hby Ht Hl. destruct (answer_frame _ _ _) as [c2 answer] eqn:Ea. intros Hr [Hc Hs [Htk Hlen]].
  unfold connect. destruct (connect_to _).2; [|discriminate Hc].
  assert (exists b more, document_bytes type 1 document = b :: more) as (b & more & Eb).
  { unfold document_bytes. pose proof (wire_header_length type 0 (zlength (bytes_of_string (dump document))) 1).
    destruct (wire_header _ _ _ _); [discriminate|by eexists _, _]. }
  pose proof (readable_length _ Hr) as Hbound. pose proof receive_chunk_bytes as Hk.
  assert (zlength (bytes_of_string (dump document)) <= kMaxFrameBytes - 28) as Hl1 by (unfold kMaxFrameBytes; lia).
  assert (zlength (bytes_of_string (dump (reply_body answer))) <= kMaxFrameBytes - 28) as Hl2
    by (unfold kMaxFrameBytes, kMaxDocumentBytes in *; lia).
  assert (length (b :: more) <= kReceiveChunkBytes)%nat as Hb.
  { rewrite <- Eb. unfold document_bytes, zlength in *. rewrite length_app, wire_header_length. lia. }
  pose proof (pump_answers active c s sends b more type document Hidle (eq_sym Eb) Hb Ht Hl1 Htk) as Hp.
  rewrite Ea in Hp. cbv zeta in Hp. specialize (Hp Hl2 Hlen). specialize (Hby b more).
  destruct (pump _ _ _ _ _) as [[line' c'] s']. destruct Hby as [Hok Hpend], Hp as [Hd _]. rewrite <- Eb in Hok, Hpend.
  rewrite Hd in Hpend.
  eapply (call_answered N type document (reply_body answer) k); [exact Hs|exact Hl1|exact Hok| | |exact Hr].
  - rewrite Hpend. apply document_bytes_decode; [apply reply_type_range|lia|exact Hl2].
  - done.
Qed.

End Exchange.

(** ** The two requests *)
Lemma escape_body_size s : size (escape_body s) <= 6 * size s.
Proof.
  induction s as [|c s IH]; [done|]. cbn [escape_body]. rewrite size_append, size_String.
  assert (size (escape_char c) <=? 6 = true) as Hc%Z.leb_le; [|lia].
  apply (ascii_forall (fun c => size (escape_char c) <=? 6)). by vm_compute.
Qed.

Lemma escaped_size s : size (escaped_string s) <= 2 + 6 * size s.
Proof.
  unfold escaped_string. autorewrite with sizes. pose proof (escape_body_size s). lia.
Qed.

Lemma evaluate_request_readable (id : WorkloadId) :
  id_ok id -> readable (evaluate_request (view id)) /\ size (text_of (evaluate_request (view id))) <= 16000.
Proof.
  intros Hi. assert (size (text_of (evaluate_request (view id))) <= 16000) as Hs.
  { change (text_of (evaluate_request (view id)))
      with (String "{" (String.append (escaped_string "schema") (String ":" (String.append (escaped_string "wnc/v1/evaluate")
             (String "," (String.append (escaped_string "workload") (String ":" (String.append (escaped_string (view id)) "}")))))))).
    autorewrite with sizes. pose proof (escaped_size "schema"). pose proof (escaped_size "wnc/v1/evaluate").
    pose proof (escaped_size "workload"). pose proof (escaped_size (view id)) as Hv. destruct Hi as [Hi _]. rewrite Hi in Hv.
    change (size "schema") with 6 in *. change (size "wnc/v1/evaluate") with 15 in *. change (size "workload") with 8 in *.
    unfold kSha256HexChars in *. lia. }
  split; [|done]. split; [|split; [done|unfold kMaxDocumentBytes; lia]].
  change (evaluate_request (view id))
    with (set_all JNull [("schema"%string, JString "wnc/v1/evaluate"); ("workload"%string, JString (view id))]).
  assert (4096 <= max_string_bytes default_options) as Hstr by (vm_compute; discriminate).
  assert (6 <= max_depth default_options) as Hdepth by (vm_compute; discriminate).
  assert (forall k v, str_ok default_options k -> str_ok default_options v -> field_ok default_options 0 (k, JString v)) as Hf
    by (intros k v H1 H2; split; [done|]; by apply wf_string).
  assert (forall s, all_chars is_ascii s = true -> size s <= 4096 -> str_ok default_options s) as Ha by (intros; by apply ascii_ok).
  apply set_all_wf; [done|done|]. repeat apply Forall_cons_2; [..|apply Forall_nil_2]; apply Hf.
  - by apply Ha.
  - by apply Ha.
  - by apply Ha.
  - by apply id_str_ok.
Qed.

Lemma client_type_range type : type = kStatus \/ type = kEvaluate -> 0 <= type < 2 ^ 16.
Proof. intros [->| ->]; unfold kStatus, kEvaluate; lia. Qed.

Lemma status_request_size : zlength (bytes_of_string (dump status_request)) <= 16000.
Proof. vm_compute. discriminate. Qed.

Lemma status_request_decodes : decode_request (document_frame kStatus 1 status_request) = Ok (kStatus, status_request).
Proof. vm_compute. reflexivity. Qed.

Lemma evaluate_request_decodes (id : WorkloadId) :
  id_ok id ->
  decode_request (document_frame kEvaluate 1 (evaluate_request (view id))) = Ok (kEvaluate, evaluate_request (view id))
  /\ read_workload_id (evaluate_request (view id)) = Ok id.
Proof.
  intros Hi. destruct (evaluate_request_readable id Hi) as [Hr _]. split.
  - unfold decode_request. cbn [header document_frame h_type Wire.body].
    change (defined_message_type kEvaluate) with true. cbn [negb]. rewrite (proj2 (readable_decodes _ Hr)). reflexivity.
  - change (match parse_id (view id) with
            | None => Err (kJsonWrongType, "request.workload must be a 64 character lowercase hexadecimal identity"%string)
            | Some id => Ok id end = Ok id). by rewrite parse_id_view.
Qed.

(** The document a successful evaluation is answered with. *)
Definition evaluation_document (e : ContractEvaluation) : Json :=
  set_all JNull [("ok"%string, JBool true); ("evaluation"%string, evaluation_to_json e)].

Definition status_document (active : Z) (c : Core) : Json := reply_body (handle_status active c).

(** What [evaluate] prints of a reply. *)
Definition evaluate_output (reply : Json) : Run :=
  out (reply_line reply)
    match find reply "evaluation" with
    | None => finish 1
    | Some evaluation => err (line ("aggregate " ++ aggregate_text evaluation)) (finish 0)
    end.

Lemma printed_line document : readable document -> reply_line document = line (dump document).
Proof. intros (_ & Hr & Hs). unfold reply_line. by rewrite printed_document. Qed.

Lemma evaluate_output_ok e : readable (evaluation_document e) ->
  evaluate_output (evaluation_document e)
  = out (line (dump (evaluation_document e))) (err (line ("aggregate " ++ satisfaction_token (aggregate e))) (finish 0)).
Proof.
  intros Hr. unfold evaluate_output. rewrite printed_line by done. f_equal.
  change (err (line ("aggregate " ++ c_str (satisfaction_token (aggregate e)))) (finish 0)
    = err (line ("aggregate " ++ satisfaction_token (aggregate e))) (finish 0)).
  by destruct (aggregate e).
Qed.

Lemma evaluate_output_error e : readable (error_body e) ->
  evaluate_output (error_body e) = out (line (dump (error_body e))) (finish 1).
Proof. intros Hr. unfold evaluate_output. rewrite printed_line by done. destruct e as [code message]. f_equal. Qed.

(** ** Properties *)

(** C15: the client commands against the service.  When the peer of the client is an idle
    session of a service and the network delivers, [status] prints the document of the
    service's own state and ends with 0; [evaluate] prints what the runtime decides about
    the workload it names: the decision, its aggregate on the error stream and exit code 0,
    or, when the runtime refuses, the refusal as a document on standard output, exit code 1
    and an empty error stream. *)
Theorem client_exchange `{Hashing} `{Ed25519} `{Host} (W : World) (N : Network) (active : Z) (sends : list SendAnswer)
    (c : Core) (s : Session) (argv : list string) :
  idle s -> served_by W N active sends c s ->
  let reaches answer :=
    readable (reply_body answer)
    /\ connected N (given_host argv) (given_port argv) sends (length (document_bytes (reply_type answer) 1 (reply_body answer))) in
  (reaches (handle_status active c) ->
     command_status N argv = out (line (dump (status_document active c))) (finish 0))
  /\ forall id, id_ok id -> option_ argv "--workload" = Some (view id) ->
       match evaluate (w_wall W (co_calls c)) (co_runtime c) id with
       | Ok decision =>
           let e := res_evaluation decision in
           reaches (Succeeded (evaluation_document e)) ->
           command_evaluate N argv
           = out (line (dump (evaluation_document e))) (err (line ("aggregate " ++ satisfaction_token (aggregate e))) (finish 0))
       | Err e =>
           reaches (Refused e) -> command_evaluate N argv = out (line (dump (error_body e))) (finish 1)
       end.
Proof.
  intros Hidle Hby reaches. split.
  - intros [Hr Hc]. unfold command_status, status_document. rewrite <- (printed_line _ Hr).
    assert (answer_frame W active (received W c) (document_frame kStatus 1 status_request)
      = (received W c, handle_status active c)) as Ea by (unfold answer_frame; by rewrite status_request_decodes).
    pose proof (call_reaches_service W N (given_host argv) (given_port argv) active sends c s kStatus status_request
      (fun reply => out (reply_line reply) (finish 0)) Hidle Hby) as Hcall.
    rewrite Ea in Hcall. specialize (Hcall (client_type_range _ (or_introl eq_refl)) status_request_size). exact (Hcall Hr Hc).
  - intros id Hi Ho. destruct (evaluate_request_decodes id Hi) as [Ed Ew]. destruct (evaluate_request_readable id Hi) as [Hrd Hsz].
    set (answer := handle_evaluate (w_wall W (co_calls c)) (co_runtime c) (evaluate_request (view id))).
    assert (reaches answer -> command_evaluate N argv = evaluate_output (reply_body answer)) as Hout.
    { intros [Hr Hc]. unfold command_evaluate. rewrite Ho.
      assert (exists c2, answer_frame W active (received W c) (document_frame kEvaluate 1 (evaluate_request (view id))) = (c2, answer))
        as [c2 Ea] by (unfold answer_frame; rewrite Ed; by eexists).
      pose proof (call_reaches_service W N (given_host argv) (given_port argv) active sends c s kEvaluate (evaluate_request (view id))
        evaluate_output Hidle Hby) as Hcall.
      rewrite Ea in Hcall. specialize (Hcall (client_type_range _ (or_intror eq_refl))).
      assert (zlength (bytes_of_string (dump (evaluate_request (view id)))) <= 16000) as Hl
        by (rewrite (proj1 (readable_decodes _ Hrd)); unfold zlength; rewrite bytes_of_string_length; exact Hsz).
      exact (Hcall Hl Hr Hc). }
    unfold answer, handle_evaluate in Hout. rewrite Ew in Hout. cbn [mbind result_bind] in Hout.
    destruct (evaluate _ _ id) as [decision|e]; cbv zeta; intros Hre; rewrite (Hout Hre).
    + exact (evaluate_output_ok _ (proj1 Hre)).
    + exact (evaluate_output_error _ (proj1 Hre)).
Qed.

(** ** A client of a service *)
#[local] Existing Instance toy_hashing.
#[local] Existing Instance toy_ed25519.
#[local] Existing Instance sample_host.

Definition service_network (W : World) (active : Z) (sends : list SendAnswer) (c : Core) (s : Session) : Network :=
  mk_network (fun _ _ => Some [Wire.mk_candidate 3 true]) [10; 5]
    (fun data => match data with
       | [] => mk_peer [] 0
       | b :: more =>
           let '(line', _, _) := pump W active (mk_line sends [Received b more] []) c s in
           mk_peer (match delivered line' with [] => [] | _ => [delivered line'] end) 0
       end).

Lemma service_network_serves W active sends c s : served_by W (service_network W active sends c s) active sends c s.
Proof.
  intros b more. cbn [service_network answers]. destruct (pump _ _ _ _ _) as [[line' c'] s']. unfold stream_ok, pending.
  destruct (delivered line') as [|x l]; cbn [arriving stream_end concat]; (split; [split; [|lia]|]).
  - constructor.
  - done.
  - by repeat constructor.
  - by rewrite app_nil_r.
Qed.

(** A member that is no array, object or real, with ASCII text. *)
Definition flat (p : string * Json) : bool :=
  let text_ok s := all_chars is_ascii s && (size s <=? 4096) in
  text_ok p.1
  && match p.2 with
     | JNull | JBool _ => true
     | JInt i => (- 2 ^ 63 <=? i) && (i <? 2 ^ 63)
     | JString s => text_ok s
     | _ => false
     end.

Lemma flat_readable m :
  forallb flat m = true -> keys_sorted m -> size (text_of (JObject m)) < kMaxDocumentBytes -> readable (JObject m).
Proof.
  intros Hf Hk Hs. rewrite forallb_forall in Hf.
  assert (forall s, all_chars is_ascii s && (size s <=? 4096) = true -> str_ok default_options s) as Hstr
    by (intros s [H1 H2%Z.leb_le]%andb_true_iff; by split; [apply ascii_utf8|]).
  split; [|split; [|done]].
  - split; [vm_compute; discriminate|]. split; [done|]. apply all_members_Forall, Forall_forall.
    intros [k v] Hin%list_elem_of_In. specialize (Hf _ Hin). apply andb_true_iff in Hf as [H1 H2]. split; [by apply Hstr|].
    assert (1 <= max_depth default_options) as Hd by (vm_compute; discriminate). destruct v; try done; (split; [done|]).
    + apply andb_true_iff in H2 as [?%Z.leb_le ?%Z.ltb_lt]. done.
    + by apply Hstr.
  - cbn [readable_reals]. apply forallb_forall. intros [k v] Hin. specialize (Hf _ Hin).
    apply andb_true_iff in Hf as [_ H2]. by destruct v.
Qed.

Lemma set_all_sorted l v : keys_sorted (object v) -> keys_sorted (object (set_all v l)).
Proof.
  revert v. unfold set_all. induction l as [|p l IH]; intros v Hv; simpl; [done|]. apply IH. by apply map_insert_sorted.
Qed.

Definition sample_sends : list SendAnswer := repeat (SendTakes 700) 2000.

Lemma client_exchange_witness :
  let N := service_network sample_world 1 sample_sends sample_core sample_session in
  command_status N ["wncctl"; "status"]%string = out (line (dump (status_document 1 sample_core))) (finish 0).
Proof.
  intros N. apply (client_exchange sample_world N 1 sample_sends sample_core sample_session ["wncctl"; "status"]%string).
  - split_and!; reflexivity.
  - apply service_network_serves.
  - split.
    + change (readable (JObject (object (status_document 1 sample_core)))). apply flat_readable.
      * vm_compute. reflexivity.
      * exact (set_all_sorted _ JNull I).
      * vm_compute. reflexivity.
    + split; [vm_compute; reflexivity|vm_compute; repeat constructor|].
      split; [vm_compute; reflexivity|]. apply Nat.leb_le. vm_compute. reflexivity.
Defined.
