(* ===== verification/CoordinatorMain.v ===== *)
(** * The coordinator process

    Models [src/tools/coordinator_main.cpp]: the arguments, the trust set they name, the start
    of the service, what is printed, the loop that serves until a stop is asked for, and the
    shutdown.  The process is a function of the arguments and of its [Surroundings]: what the
    operating system answers for a state directory, a host and a port, a status file, and
    during the passes the process gets to serve before it is told to stop. *)
From Stdlib Require Import ZArith Lia Ascii String Sorted.
From stdpp Require Import base numbers option list strings pretty relations.
From S2P Require Import Prelude Console Identity Errors Hash Json JsonParser RealText Signature Contract ContractValidate ContractDecode State Ledger Boot Journal Recovery Wire Runtime Authority Replay Coordinator Service.

Definition usage_text : string := "usage: wnc-coordinator --state <dir> [--host <host>] [--port <port>]
                       [--publisher <hex> --pubkey <hex>]...
                       [--evidence-max-age-ms <n>] [--print-port] [--verbose]

  --state <dir>              durable state directory (required)
  --host <host>              bind address (default 127.0.0.1)
  --port <port>              bind port, 0 selects an ephemeral port
  --publisher <hex>          trusted publisher identity, paired with --pubkey
  --pubkey <hex>             Ed25519 public key in hex, paired with --publisher
  --evidence-max-age-ms <n>  evidence age bound, 0 selects the default
  --print-port               print 'port=<n>' on stdout once bound
  --out <file>               write port, epoch, and identity to a file once bound
  --verbose                  write diagnostics to stderr

exit codes: 0 normal, 2 configuration error, 3 runtime error
".

(** [std::from_chars] into an unsigned 64-bit integer, of the whole text. *)
Definition parse_u64 (text : string) : option Z :=
  if is_empty text then None
  else if negb (all_chars is_digit text) then None
  else if uint64_max <? digits_value text then None
  else Some (digits_value text).

(** ** Arguments *)
Record CommandLine := mk_command_line {
  state_dir : string;
  host : string;
  port : Z;
  max_age_millis : Z;
  print_port : bool;
  status_file : string;
  verbose : bool;
  show_usage : bool;
  publishers : list string;
  public_keys : list string
}.

Definition no_arguments : CommandLine :=
  mk_command_line EmptyString "127.0.0.1" 0 0 false EmptyString false false [] [].

Definition with_state (a : CommandLine) (v : string) : CommandLine :=
  mk_command_line v (host a) (port a) (max_age_millis a) (print_port a) (status_file a) (verbose a) (show_usage a) (publishers a) (public_keys a).
Definition with_host (a : CommandLine) (v : string) : CommandLine :=
  mk_command_line (state_dir a) v (port a) (max_age_millis a) (print_port a) (status_file a) (verbose a) (show_usage a) (publishers a) (public_keys a).
Definition with_port (a : CommandLine) (v : Z) : CommandLine :=
  mk_command_line (state_dir a) (host a) v (max_age_millis a) (print_port a) (status_file a) (verbose a) (show_usage a) (publishers a) (public_keys a).
Definition with_max_age (a : CommandLine) (v : Z) : CommandLine :=
  mk_command_line (state_dir a) (host a) (port a) v (print_port a) (status_file a) (verbose a) (show_usage a) (publishers a) (public_keys a).
Definition with_print_port (a : CommandLine) : CommandLine :=
  mk_command_line (state_dir a) (host a) (port a) (max_age_millis a) true (status_file a) (verbose a) (show_usage a) (publishers a) (public_keys a).
Definition with_status_file (a : CommandLine) (v : string) : CommandLine :=
  mk_command_line (state_dir a) (host a) (port a) (max_age_millis a) (print_port a) v (verbose a) (show_usage a) (publishers a) (public_keys a).
Definition with_verbose (a : CommandLine) : CommandLine :=
  mk_command_line (state_dir a) (host a) (port a) (max_age_millis a) (print_port a) (status_file a) true (show_usage a) (publishers a) (public_keys a).
Definition with_usage (a : CommandLine) : CommandLine :=
  mk_command_line (state_dir a) (host a) (port a) (max_age_millis a) (print_port a) (status_file a) (verbose a) true (publishers a) (public_keys a).
Definition with_publisher (a : CommandLine) (v : string) : CommandLine :=
  mk_command_line (state_dir a) (host a) (port a) (max_age_millis a) (print_port a) (status_file a) (verbose a) (show_usage a) (publishers a ++ [v])%list (public_keys a).
Definition with_public_key (a : CommandLine) (v : string) : CommandLine :=
  mk_command_line (state_dir a) (host a) (port a) (max_age_millis a) (print_port a) (status_file a) (verbose a) (show_usage a) (publishers a) (public_keys a ++ [v])%list.

(** [argument.find('=')]: the text before the first one and the text after it. *)
Fixpoint split_at_equals (s : string) : option (string * string) :=
  match s with
  | EmptyString => None
  | String c s' =>
      if Ascii.eqb c "=" then Some (EmptyString, s')
      else match split_at_equals s' with Some (name, v) => Some (String c name, v) | None => None end
  end.

(** The name of an argument and its inline value. *)
Definition split_argument (argument : string) : string * option string :=
  if (2 <? size argument) && String.prefix "--" argument
  then match split_at_equals argument with Some (name, v) => (name, Some v) | None => (argument, None) end
  else (argument, None).

(** [take_value]: the inline value, else the next argument; and whether [index] moved. *)
Definition take_value (inline next : option string) : option (string * bool) :=
  match inline with
  | Some v => Some (v, false)
  | None => match next with Some v => Some (v, true) | None => None end
  end.

Definition complaint (text : string) : string := line ("wnc-coordinator: " ++ text).
Definition refuse (text : string) : Run := err (complaint text) (finish 2).

(** An option whose value [set] takes. *)
Definition with_value (inline next : option string) (message : string) (set : string -> option CommandLine)
    : result Run (CommandLine * bool) :=
  match take_value inline next with
  | Some (v, moved) => match set v with Some a => Ok (a, moved) | None => Err (refuse message) end
  | None => Err (refuse message)
  end.

(** One turn of the loop over the arguments. *)
Definition read_argument (argument : string) (next : option string) (a : CommandLine) : result Run (CommandLine * bool) :=
  let '(name, inline) := split_argument argument in
  let value := with_value inline next in
  if String.eqb name "--state" then value "--state requires a directory" (fun v => Some (with_state a v))
  else if String.eqb name "--host" then value "--host requires a value" (fun v => Some (with_host a v))
  else if String.eqb name "--port" then
    value "--port requires a value between 0 and 65535" (fun v =>
      match parse_u64 v with
      | Some p => if 65535 <? p then None else Some (with_port a p)
      | None => None
      end)
  else if String.eqb name "--publisher" then value "--publisher requires an identity in hex" (fun v => Some (with_publisher a v))
  else if String.eqb name "--pubkey" then value "--pubkey requires a key in hex" (fun v => Some (with_public_key a v))
  else if String.eqb name "--evidence-max-age-ms" then
    value "--evidence-max-age-ms requires a non negative integer" (fun v => with_max_age a <$> parse_u64 v)
  else if String.eqb name "--print-port" then Ok (with_print_port a, false)
  else if String.eqb name "--out" then value "--out requires a file path" (fun v => Some (with_status_file a v))
  else if String.eqb name "--verbose" || String.eqb name "-v" then Ok (with_verbose a, false)
  else if String.eqb name "--help" || String.eqb name "-h" then Ok (with_usage a, false)
  else Err (err (complaint ("unrecognised argument '" ++ name ++ "'")) (err usage_text (finish 2))).

Fixpoint read_arguments (argv : list string) (a : CommandLine) : result Run CommandLine :=
  match argv with
  | [] => Ok a
  | argument :: rest =>
      match read_argument argument (head rest) a with
      | Err r => Err r
      | Ok (a, false) => read_arguments rest a
      | Ok (a, true) => match rest with _ :: rest' => read_arguments rest' a | [] => Ok a end
      end
  end.

(** ** The process *)
Section Process.
Context `{Hashing} `{Ed25519} `{Host}.

(** The keys in the order given. *)
Fixpoint read_trust (publishers public_keys : list string) (trust : TrustSet) : result Run TrustSet :=
  match publishers, public_keys with
  | p :: publishers, k :: public_keys =>
      match parse_id p with
      | None => Err (refuse "--publisher must be a 64 character lowercase hex identity")
      | Some publisher =>
          match hex_decode_digest k with
          | None => Err (refuse "--pubkey must be a 64 character hex Ed25519 public key")
          | Some key => read_trust publishers public_keys (add_ed25519 trust publisher key)
          end
      end
  | _, _ => Ok trust
  end.

(** What the arguments ask for: the trust set and the settings of a service, or a run that
    ends at once. *)
Definition configure (argv : list string) : result Run (CommandLine * TrustSet) :=
  a ← read_arguments (tail argv) no_arguments;
  if show_usage a then Err (out usage_text (finish 0))
  else if is_empty (state_dir a) then Err (err (complaint "--state is required") (err usage_text (finish 2)))
  else if negb (length (publishers a) =? length (public_keys a))%nat
  then Err (refuse "every --publisher needs one matching --pubkey")
  else
    trust ← read_trust (publishers a) (public_keys a) [];
    Ok (a, trust).

(** The members of [CoordinatorOptions] the tool does not set have their defaults. *)
Definition service_options (a : CommandLine) : CoordinatorOptions :=
  mk_coordinator_options kMaxSessions 30000 (max_age_millis a).
Definition directory_options (a : CommandLine) (trust : TrustSet) : Options :=
  mk_runtime_options (state_dir a) trust (max_age_millis a) 0.

Record Surroundings := mk_surroundings {
  directory_boot : string -> Boot;
  directory_files : string -> Files;
  start_clock : nat -> Z;
  resolve : string -> Z -> option (list Wire.Candidate);
  bound_port : Z -> Z;
  writable : string -> bool;
  world : World;
  passes_before_stop : list ((Z -> Arrival) * list Line);
  drain_turns : list (list (option (list SendAnswer)))
}.

(** What the process leaves behind: its exit and output, the state directory and the runtime
    it ended with when the service started, and the status file when one was written. *)
Record Outcome := mk_outcome {
  ran : Run;
  left_directory : option (Files * option Runtime);
  status_text : option (string * string)
}.

(** [while (!g_stop_requested.load()) coordinator->run_once(100);] *)
Fixpoint serve (W : World) (passes : list ((Z -> Arrival) * list Line)) (c : Core) (l : list Session) : Core * list Session :=
  match passes with
  | [] => (c, l)
  | (arrival, lines) :: rest => let '(_, c, l) := run_pass W arrival lines 100 c l in serve W rest c l
  end.

Definition status_lines (port : Z) (c : Core) : string :=
  let info := info_ (co_runtime c) in
  line ("port=" ++ to_string port) ++ line ("epoch=" ++ to_string (info_epoch info))
  ++ line ("coordinator=" ++ view (info_coordinator info)).

(** From the started service on; every return runs the destructor, which shuts it down. *)
Definition serve_until_stop (S : Surroundings) (a : CommandLine) (c : Core) (l : list Session) : Outcome :=
  let W := world S in
  let port := match listener c with Some handle => bound_port S handle | None => 0 end in
  let announced r := if print_port a then out (line ("port=" ++ to_string port)) r else r in
  let ended c r status := mk_outcome (announced r) (Some (co_files c, Some (co_runtime c))) status in
  if negb (is_empty (status_file a)) && negb (writable S (status_file a))
  then
    let '(c, _, _) := shutdown W (drain_turns S) c l in
    ended c (err (complaint ("cannot write " ++ status_file a)) (finish 2)) None
  else
    let status := if is_empty (status_file a) then None else Some (status_file a, status_lines port c) in
    let '(c, l) := serve W (passes_before_stop S) c l in
    let '(c, _, _) := shutdown W (drain_turns S) (request_stop c) l in
    ended c
      (if verbose a
       then errs [complaint ("bound " ++ host a ++ ":" ++ to_string port);
                  complaint ("stopped; served=" ++ to_string (served c) ++ " rejected=" ++ to_string (rejected c))] (finish 0)
       else finish 0) status.

Definition main (S : Surroundings) (argv : list string) : Outcome :=
  match configure argv with
  | Err r => mk_outcome r None None
  | Ok (a, trust) =>
      let '(files, started) :=
        start (directory_boot S (state_dir a)) (start_clock S) (directory_files S (state_dir a)) (service_options a)
          (directory_options a trust) (resolve S (host a) (port a)) in
      match started with
      | Err e => mk_outcome (err (complaint (code_token e.1 ++ ": " ++ e.2)) (finish 3)) (Some (files, None)) None
      | Ok (c, l) => serve_until_stop S a c l
      end
  end.

End Process.

(** ** Lemmas on arguments *)
Lemma parse_u64_text n : 0 <= n <= uint64_max -> parse_u64 (to_string n) = Some n.
Proof.
  intros Hn. destruct (to_string_nonneg n ltac:(lia)) as (Hd & Hv & He & _). unfold parse_u64.
  rewrite Hd, Hv. destruct (to_string n); [done|]. cbn [is_empty negb]. by rewrite (proj2 (Z.ltb_ge _ _)) by lia.
Qed.

Definition value_options : list string :=
  ["--state"; "--host"; "--port"; "--publisher"; "--pubkey"; "--evidence-max-age-ms"; "--out"]%string.

(** One case per option. *)
Ltac each_option Hn tac :=
  unfold value_options in Hn; repeat (apply elem_of_cons in Hn as [->|Hn]; [tac|]); by apply elem_of_nil in Hn.

Lemma split_option name : name ∈ value_options -> split_argument name = (name, None).
Proof. intros Hn. each_option Hn ltac:(reflexivity). Qed.

Lemma split_inline name value : name ∈ value_options -> split_argument (name ++ "=" ++ value) = (name, Some value).
Proof.
  intros Hn. unfold split_argument. rewrite (size_append name).
  assert (2 <? size name + size (String.append "=" value) = true) as ->.
  { pose proof (size_nonneg (String.append "=" value)). apply Z.ltb_lt. enough (2 < size name) by lia.
    each_option Hn ltac:(reflexivity). }
  each_option Hn ltac:(by destruct value).
Qed.

(** How the value of an option was given makes no difference but to the position. *)
Lemma inline_or_separate name value a next :
  name ∈ value_options ->
  read_argument (name ++ "=" ++ value) next a
  = match read_argument name (Some value) a with Ok (a', _) => Ok (a', false) | Err r => Err r end
  /\ forall a' m, read_argument name (Some value) a = Ok (a', m) -> m = true.
Proof.
  intros Hn. unfold read_argument. rewrite split_inline, split_option by done. cbv beta iota zeta.
  unfold with_value, take_value.
  each_option Hn ltac:(cbn [String.eqb Ascii.eqb Bool.eqb orb]; repeat case_match; split; congruence).
Qed.

(** An argument that is complete by itself does not look at the next one. *)
Lemma read_argument_complete argument next a a' m :
  read_argument argument None a = Ok (a', m) -> m = false /\ read_argument argument next a = Ok (a', false).
Proof.
  unfold read_argument. destruct (split_argument argument) as [name inline]. unfold with_value, take_value.
  repeat case_match; try discriminate; intros [= <- <-]; split; congruence.
Qed.

Lemma read_arguments_app before rest a a' :
  read_arguments before a = Ok a' -> read_arguments (before ++ rest)%list a = read_arguments rest a'.
Proof.
  enough (forall n b a, (length b <= n)%nat -> read_arguments b a = Ok a' ->
    read_arguments (b ++ rest)%list a = read_arguments rest a') as Hall by by apply (Hall (length before)).
  clear. induction n as [|n IH]; intros [|x b] a Hlen; cbn [app read_arguments]; try (by intros [= ->]); [cbn in Hlen; lia|].
  destruct b as [|y b]; cbn [app head].
  - destruct (read_argument x None a) as [[a1 m]|r] eqn:E; [|done].
    destruct (read_argument_complete x (head rest) a a1 m E) as [-> ->]. cbn [read_arguments]. by intros [= ->].
  - cbn [length] in Hlen. destruct (read_argument x (Some y) a) as [[a1 [|]]|r]; [| |done]; intros Hr.
    + apply IH; [lia|done].
    + apply (IH (y :: b)); [cbn; lia|done].
Qed.

(** ** Lemmas on the trust set *)
Section ProcessFacts.
Context `{Hashing} `{Ed25519} `{Host}.

(** The pairs of identities and keys a command line names. *)
Definition named (publishers public_keys : list string) (p : PublisherId) (key : bytes) : Prop :=
  exists i text hex, publishers !! i = Some text /\ public_keys !! i = Some hex
    /\ parse_id text = Some p /\ hex_decode_digest hex = Some key.

Lemma named_cons text hex publishers public_keys p key :
  named (text :: publishers) (hex :: public_keys) p key
  <-> parse_id text = Some p /\ hex_decode_digest hex = Some key \/ named publishers public_keys p key.
Proof using.
  split.
  - intros ([|i] & t & h & Ht & Hh & Hp & Hk); [|right; by exists i, t, h]. left.
    injection Ht as ->. injection Hh as ->. done.
  - intros [[Hp Hk]|(i & t & h & Ht & Hh & Hpk)]; [by exists 0%nat, text, hex|by exists (S i), t, h].
Qed.

Lemma read_trust_spec publishers public_keys trust trust' :
  trust_wf trust -> read_trust publishers public_keys trust = Ok trust' ->
  trust_wf trust'
  /\ (forall i, i ∈ trust' -> i ∈ trust \/ exists p key, named publishers public_keys p key /\ i = new_issuer kEd25519 p key)
  /\ (forall k, k ∈ issuer_key <$> trust -> k ∈ issuer_key <$> trust')
  /\ (length publishers = length public_keys ->
      forall i text, publishers !! i = Some text -> exists p key, public_keys !! i ≫= hex_decode_digest = Some key
        /\ parse_id text = Some p /\ (p, issuer_key_id kEd25519 key) ∈ issuer_key <$> trust').
Proof using.
  revert public_keys trust. induction publishers as [|text publishers IH]; intros [|hex public_keys] trust Hwf; cbn [read_trust].
  1-3: intros [= <-]; split_and!; auto; by intros.
  destruct (parse_id text) as [p|] eqn:Ep; [|done]. destruct (hex_decode_digest hex) as [key|] eqn:Ek; [|done].
  change (add_ed25519 trust p key) with (add_issuer kEd25519 trust p key). intros E.
  destruct (IH public_keys _ (add_issuer_wf kEd25519 trust p key ltac:(done) Hwf) E) as (Hwf' & Hel & Hk & Hall).
  split_and!; [done| | |].
  - intros i Hi. destruct (Hel i Hi) as [[Ht| ->]%add_issuer_elem|(p' & key' & Hn & ->)]; [by left| |].
    + right. exists p, key. split; [apply named_cons; by left|done].
    + right. exists p', key'. split; [apply named_cons; by right|done].
  - intros k Hin. apply Hk, add_issuer_keys. by left.
  - intros [= Hlen] [|i] t; [|by apply Hall]. cbn [lookup list_lookup mbind option_bind]. intros [= <-]. exists p, key.
    split_and!; [done..|]. apply Hk, add_issuer_keys. by right.
Qed.

(** A signature accepted under such a trust set is by a key the command line names for the
    claimed publisher. *)
Lemma verify_named ps ks trust p domain text s o :
  (forall i, i ∈ trust -> exists p key, named ps ks p key /\ i = new_issuer kEd25519 p key) ->
  verify_signature trust p domain text s = Ok o ->
  exists key, named ps ks p key /\ key_id s = issuer_key_id kEd25519 key
    /\ ed25519_verify_strict key (bound_claim p (key_id s) domain text) (sig_bytes s) = true.
Proof using.
  intros Hall. unfold verify_signature. destruct (is_zero p); [done|]. destruct (_ || _); [done|].
  destruct (negb (size _ =? _)); [done|]. destruct (find_key trust p (key_id s)) as [i|] eqn:E; [|by case_match].
  apply find_key_spec in E as (Hin & Hp & Hk). destruct (Hall i Hin) as (p' & key & Hn & ->). cbn in Hp, Hk |- *. subst p'.
  destruct (negb (zlength _ =? _)); [done|]. destruct (ed25519_verify_strict _ _ _) eqn:Ev; [|done]. intros _. by exists key.
Qed.

Lemma configure_trust argv a trust :
  configure argv = Ok (a, trust) ->
  read_arguments (tail argv) no_arguments = Ok a /\ state_dir a <> EmptyString
  /\ length (publishers a) = length (public_keys a) /\ read_trust (publishers a) (public_keys a) [] = Ok trust.
Proof using.
  unfold configure. destruct (read_arguments _ _) as [a'|r]; [|done]. cbn [mbind result_bind].
  destruct (show_usage a'); [done|]. destruct (state_dir a') as [|x d] eqn:Ed; [done|]. cbn [is_empty].
  destruct (Nat.eqb_spec (length (publishers a')) (length (public_keys a'))) as [El|]; [|done]. cbn [negb].
  destruct (read_trust _ _ _) as [t|r] eqn:Et; [|done]. intros [= <- <-]. split_and!; congruence.
Qed.

(** *** What the arguments cannot change *)
Definition configuration_error (r : Run) : Prop := exit_code r = 2 /\ out_text r = EmptyString /\ err_text r <> EmptyString.

Lemma refused_configuration text : configuration_error (refuse text).
Proof using. split_and!; [done..|]. by apply append_not_empty. Qed.

Lemma read_argument_error argument next a r : read_argument argument next a = Err r -> configuration_error r.
Proof using.
  unfold read_argument, with_value. destruct (split_argument argument) as [name inline].
  repeat case_match; intros [= <-]; try apply refused_configuration.
  split_and!; [done..|]. by apply append_not_empty.
Qed.

Lemma read_arguments_error argv a r : read_arguments argv a = Err r -> configuration_error r.
Proof using.
  enough (forall n b a, (length b <= n)%nat -> read_arguments b a = Err r -> configuration_error r) as Hall
    by by apply (Hall (length argv)).
  clear. induction n as [|n IH]; intros [|x b] a Hlen; cbn [read_arguments]; try done; [cbn in Hlen; lia|].
  cbn [length] in Hlen. destruct (read_argument _ _ _) as [[a1 [|]]|r'] eqn:E.
  - destruct b as [|y b]; [done|]. apply IH. cbn in Hlen. lia.
  - apply IH. lia.
  - intros [= <-]. by eapply read_argument_error.
Qed.

Lemma read_trust_error ps ks trust r : read_trust ps ks trust = Err r -> configuration_error r.
Proof using.
  revert ks trust. induction ps as [|p ps IH]; intros [|k ks] trust; cbn [read_trust]; try done.
  destruct (parse_id p); [|intros [= <-]; apply refused_configuration].
  destruct (hex_decode_digest k); [|intros [= <-]; apply refused_configuration]. apply IH.
Qed.

Lemma configure_error argv r :
  configure argv = Err r -> r = out usage_text (finish 0) \/ configuration_error r.
Proof using.
  unfold configure. destruct (read_arguments _ _) as [a|r'] eqn:E; cbn [mbind result_bind].
  2: { intros [= <-]. right. by eapply read_arguments_error. }
  destruct (show_usage a); [intros [= <-]; by left|]. intros Hr. right. revert Hr.
  destruct (is_empty _); [intros [= <-]; split_and!; [done..|by apply append_not_empty]|].
  destruct (negb _); [intros [= <-]; apply refused_configuration|].
  destruct (read_trust _ _ _) eqn:Et; [done|]. intros [= <-]. by eapply read_trust_error.
Qed.

(** *** The shutdown *)
Lemma drain_authority W deadline turns out c s : authority (drain W deadline turns out c s).1.1 = authority c.
Proof using.
  revert out c s. induction turns as [|turn turns IH]; intros out c s; cbn [drain];
    (destruct (negb _); [done|]); unfold tick; cbv beta iota; set (c1 := mk_core _ _ _ _ _ _ _ _ _ _ _);
    (destruct (negb _); [done|]); [done|].
  destruct turn as [answers|]; [|by rewrite IH].
  pose proof (flush_loop_authority W answers out c1 s) as Hf. destruct (flush_loop W answers out c1 s) as [[c2 s2] [rest o]].
  by rewrite IH.
Qed.

Lemma drain_all_authority W deadline turns c l : authority (drain_all W deadline turns c l).1 = authority c.
Proof using.
  revert turns c. induction l as [|s l IH]; intros turns c; cbn [drain_all]; [done|].
  pose proof (drain_authority W deadline (default [] (head turns)) [] c s) as Hd.
  destruct (negb (used s)).
  - specialize (IH (tail turns) c). by destruct (drain_all _ _ _ _ _).
  - destruct (drain _ _ _ _ _ _) as [[c1 s1] o]. specialize (IH (tail turns) c1).
    destruct (drain_all _ _ _ _ _). cbn [fst] in *. congruence.
Qed.

Lemma shutdown_authority W turns c l : authority (shutdown W turns c l).1.1 = authority c.
Proof using.
  unfold shutdown, tick. cbv beta iota. set (c1 := mk_core _ _ _ _ _ _ _ _ _ _ _).
  pose proof (drain_all_authority W (u64 (w_mono W (co_ticks (close_listener (request_stop c))) + kSessionDrainMillis)) turns c1 l) as Hd.
  by destruct (drain_all _ _ _ _ _).
Qed.

(** Serving pass by pass is [run]: a pass waits as long as [run] lets it, and after a stop it
    does nothing. *)
Lemma serve_run W passes c l : serve W passes c l = run W passes c l.
Proof using.
  revert c l. induction passes as [|[arrival lines] passes IH]; intros c l; [done|]. cbn [serve run].
  destruct (stop_requested c || stopped c) eqn:E.
  - unfold run_pass at 1. rewrite E. rewrite IH. destruct passes as [|[? ?] ?]; [done|]. cbn [run]. by rewrite E.
  - change 100 with kAcceptPollMillis. by destruct (run_pass _ _ _ _ _ _) as [[? ?] ?].
Qed.

(** A service that started, seen from outside. *)
Lemma serve_until_stop_spec S a c l :
  let o := serve_until_stop S a c l in
  let unwritable := negb (is_empty (status_file a)) && negb (writable S (status_file a)) in
  let port := from_option (bound_port S) 0 (listener c) in
  exists files' R', left_directory o = Some (files', Some R') /\ rtc step (authority c) (files', R')
    /\ exit_code (ran o) = (if unwritable then 2 else 0)
    /\ (unwritable = true -> (files', R') = authority c)
    /\ status_text o = (if is_empty (status_file a) || unwritable then None else Some (status_file a, status_lines port c))
    /\ out_text (ran o) = (if print_port a then line ("port=" ++ to_string port) else EmptyString)
    /\ (unwritable = true -> err_text (ran o) <> EmptyString)
    /\ (unwritable = false -> verbose a = false -> err_text (ran o) = EmptyString).
Proof using.
  cbv zeta. unfold serve_until_stop.
  change (match listener c with Some handle => bound_port S handle | None => 0 end) with (from_option (bound_port S) 0 (listener c)).
  set (port := from_option _ _ _).
  destruct (negb (is_empty (status_file a)) && negb (writable S (status_file a))) eqn:Eu.
  - pose proof (shutdown_authority (world S) (drain_turns S) c l) as Hs.
    destruct (shutdown _ _ _ _) as [[c' l'] outs']. cbn [fst] in Hs. exists (co_files c'), (co_runtime c'). rewrite orb_true_r.
    change (co_files c', co_runtime c') with (authority c'). rewrite Hs.
    destruct (print_port a); split_and!; try done; try reflexivity;
      cbn; rewrite ?append_nil_r; try done; intros _; apply line_not_empty.
  - rewrite serve_run. pose proof (run_by_requests (world S) (passes_before_stop S) c l) as Hr.
    destruct (run _ _ _ _) as [c1 l1]. pose proof (shutdown_authority (world S) (drain_turns S) (request_stop c1) l1) as Hs.
    destruct (shutdown _ _ _ _) as [[c' l'] outs']. cbn [fst] in Hs, Hr. exists (co_files c'), (co_runtime c'). rewrite orb_false_r.
    change (co_files c', co_runtime c') with (authority c'). rewrite Hs.
    destruct (print_port a), (verbose a); split_and!; try done; try exact Hr; cbn; by rewrite ?append_nil_r.
Qed.

End ProcessFacts.

(** ** Properties *)

(** The two ways of giving an option its value are one.  Anywhere after arguments that
    are complete, [--name=value] and [--name value] give the same process: the same output
    and exit code, the same directory, the same status file. *)
Theorem inline_option_equivalent `{Hashing} `{Ed25519} `{Host} (S : Surroundings) (prog : string)
    (before after : list string) (name value : string) :
  name ∈ value_options -> is_ok (read_arguments before no_arguments) = true ->
  main S (prog :: before ++ (name ++ "=" ++ value)%string :: after)%list
  = main S (prog :: before ++ name :: value :: after)%list.
Proof.
  intros Hn Hb. destruct (read_arguments before no_arguments) as [a|] eqn:Ea; [|done].
  unfold main, configure. cbn [tail]. rewrite !(read_arguments_app before _ _ _ Ea). cbn [read_arguments head].
  destruct (inline_or_separate name value a (head after) Hn) as [-> Hm].
  destruct (read_argument name (Some value) a) as [[a' m]|r]; [|done]. by rewrite (Hm a' m eq_refl).
Qed.

(** C16: what the process does, by its exit code.  Arguments that are refused end with 2, a
    reason on the error stream and nothing else touched; [--help] ends with 0.  A service
    that cannot start ends with 3 and the code and message of the refusal.  A service that
    starts only ever performs requests on the directory and the runtime it was opened with,
    and ends with 0 when it is told to stop; when the status file cannot be written it ends
    with 2 instead, before serving anyone, and leaves what the start made.  Standard output
    carries the port line, when it is asked for, and nothing else. *)
Theorem process_exact `{Hashing} `{Ed25519} `{Host} (S : Surroundings) (argv : list string) :
  let o := main S argv in
  match configure argv with
  | Err r =>
      o = mk_outcome r None None
      /\ (exit_code r = 0 /\ out_text r = usage_text /\ err_text r = EmptyString \/ configuration_error r)
  | Ok (a, trust) =>
      match start (directory_boot S (state_dir a)) (start_clock S) (directory_files S (state_dir a)) (service_options a)
              (directory_options a trust) (resolve S (host a) (port a)) with
      | (files, Err (code, message)) =>
          o = mk_outcome (mk_run 3 EmptyString (complaint (code_token code ++ ": " ++ message))) (Some (files, None)) None
      | (_, Ok (c, l)) =>
          exists files' R', left_directory o = Some (files', Some R')
            /\ rtc step (co_files c, co_runtime c) (files', R')
            /\ (status_file a <> EmptyString /\ writable S (status_file a) = false ->
                exit_code (ran o) = 2 /\ err_text (ran o) <> EmptyString /\ status_text o = None
                /\ (files', R') = (co_files c, co_runtime c))
            /\ (status_file a = EmptyString \/ writable S (status_file a) = true ->
                exit_code (ran o) = 0 /\ (verbose a = false -> err_text (ran o) = EmptyString)
                /\ status_text o = if is_empty (status_file a) then None
                                   else Some (status_file a, status_lines (from_option (bound_port S) 0 (listener c)) c))
            /\ out_text (ran o) = (if print_port a then line ("port=" ++ to_string (from_option (bound_port S) 0 (listener c)))
                                   else EmptyString)
      end
  end.
Proof.
  cbv zeta. unfold main. destruct (configure argv) as [[a trust]|r] eqn:Ec.
  2: { split; [done|]. destruct (configure_error argv r Ec) as [->|]; [left|by right]. by split_and!. }
  destruct (start _ _ _ _ _ _) as [files [[c l]|[code message]]]; [|unfold err, finish; cbn [exit_code out_text err_text fst snd]; by rewrite append_nil_r].
  destruct (serve_until_stop_spec S a c l) as (files' & R' & El & Hr & Hx & Hu & Hst & Ho & He & Hv).
  exists files', R'. split; [exact El|]. split; [exact Hr|].
  destruct (status_file a) as [|x path] eqn:Es; cbn [is_empty negb andb orb] in *.
  - split_and!; [intros [? _]; done| |exact Ho]. intros _. split_and!; [exact Hx|by apply Hv|exact Hst].
  - destruct (writable S _); cbn [negb] in *; (split_and!; [|intros [?|?]; [done|]|exact Ho]); try (intros [_ ?]; done).
    + split_and!; [exact Hx|by apply Hv|exact Hst].
    + intros _. split_and!; [exact Hx|by apply He|exact Hst|by apply Hu].
    + done.
Qed.

(** C14: what the command line trusts is what the directory holds.  In a process started on a
    fresh directory, whatever the peers send and whatever the disk does, the trust set has
    its type, holds the keys the command line names and no other, and every contract of every
    workload the process ends with is valid and carries a signature that verifies, over that
    contract, under a key named for its publisher. *)
Theorem process_contracts_signed `{HashingOk} `{Ed25519} `{Host} (S : Surroundings) (argv : list string)
    (a : CommandLine) (trust : TrustSet) (files : Files) (R : Runtime) :
  configure argv = Ok (a, trust) -> boot_ok (directory_boot S (state_dir a)) -> directory_files S (state_dir a) = [] ->
  left_directory (main S argv) = Some (files, Some R) ->
  trust_wf trust /\ trust_ R = trust
  /\ (forall i, i ∈ trust -> exists p key, named (publishers a) (public_keys a) p key /\ i = new_issuer kEd25519 p key)
  /\ (forall i text, publishers a !! i = Some text -> exists p key,
        public_keys a !! i ≫= hex_decode_digest = Some key /\ parse_id text = Some p
        /\ (p, issuer_key_id kEd25519 key) ∈ issuer_key <$> trust)
  /\ forall id w g, find_workload (state_ R) id = Some w -> g ∈ ws_generations w ->
       let envelope := Contract.envelope (gr_body g) in
       validation_ok (validate_contract (gr_body g)) = true
       /\ exists key, named (publishers a) (public_keys a) (publisher envelope) key
            /\ ed25519_verify_strict key
                 (bound_claim (publisher envelope) (key_id (signature_of envelope))
                    (if gr_generation g =? 1 then kDomainRegistration else kDomainPublication)
                    (submission_bytes (gr_body g)))
                 (sig_bytes (signature_of envelope)) = true.
Proof.
  intros Hc Hb Hf Hl. destruct (configure_trust argv a trust Hc) as (_ & _ & Hlen & Ht).
  destruct (read_trust_spec _ _ [] trust ltac:(repeat constructor) Ht) as (Hwf & Hnamed & _ & Hall).
  assert (forall i, i ∈ trust -> exists p key, named (publishers a) (public_keys a) p key /\ i = new_issuer kEd25519 p key)
    as Hn by (intros i Hi; destruct (Hnamed i Hi) as [?%elem_of_nil|]; done).
  unfold main in Hl. rewrite Hc, Hf in Hl. unfold start in Hl.
  destruct (open_runtime _ _ _ _) as [files1 [R1|e]] eqn:Eo; [|done]. destruct (listen_on _) as [closed [handle|e]]; [|done].
  cbn [snd] in Hl. set (c := mk_core _ _ _ _ _ _ _ _ _ _ _) in Hl. set (l := repeat _ _) in Hl.
  destruct (serve_until_stop_spec S a c l) as (files' & R' & El & Hr & _). rewrite El in Hl. injection Hl as <- <-.
  destruct (session_start _ _ _ _ _ Hb Eo) as (runs & h & st' & Hs). pose proof (se_trust _ _ _ _ _ _ Hs) as Et.
  destruct (steps_ok _ _ Hr (se_state _ _ _ _ _ _ Hs)) as [Et' Hok]. cbn in Et, Et'.
  assert (trust_ R' = trust) as Etr by (cbn in Et'; congruence). split_and!; [done..| |].
  { intros i text Hi. exact (Hall Hlen i text Hi). }
  intros id w g Hw Hg. pose proof (wo_generations _ _ _ (state_find _ _ _ _ Hok Hw)) as Hgs.
  rewrite Forall_forall in Hgs. destruct (Hgs g Hg) as [_ _ _ _ Hvalid Hsig]. split; [exact Hvalid|].
  unfold signature_gate in Hsig. cbn [snd] in Hsig. rewrite Etr in Hsig.
  destruct (verify_signature trust _ _ _ _) as [o|] eqn:Ev; [|done].
  destruct (verify_named _ _ _ _ _ _ _ _ Hn Ev) as (key & Hk & _ & Hver). by exists key.
Qed.

(** ** A process *)
#[local] Existing Instance toy_hashing.
#[local] Existing Instance toy_hashing_ok.
#[local] Existing Instance toy_ed25519.
#[local] Existing Instance sample_host.

Definition sample_surroundings (status : bool) : Surroundings :=
  mk_surroundings (fun _ => sample_boot) (fun _ => []) clock (fun _ _ => Some [Wire.mk_candidate 3 true]) (fun _ => 40123)
    (fun _ => status) sample_world [sample_pass] [].

Definition sample_argv : list string :=
  ["wnc-coordinator"; "--state=state"; "--publisher"; view (sig_publisher toy_signer);
   "--pubkey"; hex_encode (public_key toy_signer); "--port"; "0"; "--print-port"]%string.

Lemma inline_option_equivalent_witness :
  main (sample_surroundings true) ["wnc-coordinator"; "--print-port"; "--port=70000"]%string
  = main (sample_surroundings true) ["wnc-coordinator"; "--print-port"; "--port"; "70000"]%string
  /\ exit_code (ran (main (sample_surroundings true) ["wnc-coordinator"; "--print-port"; "--port=70000"]%string)) = 2.
Proof.
  split; [|reflexivity].
  apply (inline_option_equivalent (sample_surroundings true) "wnc-coordinator" ["--print-port"%string] [] "--port" "70000");
    [|reflexivity]. right. right. left.
Defined.

(** The status file that cannot be written ends the process with the code of a configuration
    error, although the service had started and the port line was printed. *)
Lemma unwritable_status_file :
  let o := main (sample_surroundings false) (sample_argv ++ ["--out=status"])%list in
  exit_code (ran o) = 2 /\ out_text (ran o) = line "port=40123"
  /\ match left_directory o with Some (files, Some _) => map_has head_name files | _ => false end = true.
Proof. vm_compute. split_and!; reflexivity. Qed.

(** An upper case identity is accepted, in its lower case form. *)
Lemma upper_case_publisher :
  @parse_id PublisherTag (char_string 64 "A") = Some (mk_id (char_string 64 "a")).
Proof. reflexivity. Qed.

Definition sample_command_line : CommandLine :=
  mk_command_line "state" "127.0.0.1" 0 0 true EmptyString false false
    [view (sig_publisher toy_signer)] [hex_encode (public_key toy_signer)].

Lemma process_contracts_signed_witness :
  exists files R w g key, left_directory (main (sample_surroundings true) sample_argv) = Some (files, Some R)
    /\ find_workload (state_ R) sample_workload = Some w /\ g ∈ ws_generations w
    /\ named (publishers sample_command_line) (public_keys sample_command_line) (publisher (Contract.envelope (gr_body g))) key.
Proof.
  assert (configure sample_argv = Ok (sample_command_line, toy_trust)) as Hc by (vm_compute; reflexivity).
  assert (match left_directory (main (sample_surroundings true) sample_argv) with
          | Some (_, Some R) => match find_workload (state_ R) sample_workload with
                                | Some w => match ws_generations w with _ :: _ => true | [] => false end | None => false end
          | _ => false end = true) as Hb by (vm_compute; reflexivity).
  destruct (left_directory _) as [[files [R|]]|] eqn:El; [|discriminate Hb|discriminate Hb].
  destruct (find_workload (state_ R) sample_workload) as [w|] eqn:Ew; [|discriminate Hb].
  destruct (ws_generations w) as [|g l] eqn:Eg; [discriminate Hb|].
  destruct (process_contracts_signed (sample_surroundings true) sample_argv sample_command_line toy_trust files R Hc
    sample_boot_ok eq_refl El) as (_ & _ & _ & _ & Hw).
  assert (g ∈ ws_generations w) as Hg by (rewrite Eg; left).
  destruct (Hw _ w g Ew Hg) as [_ (key & Hk & _)]. exists files, R, w, g, key.
  split; [reflexivity|]. split; [exact Ew|]. split; [exact Hg|exact Hk].
Defined.
