(* ===== verification/Primes.v ===== *)
(** * The primality of the two moduli of Ed25519

    The field of edwards25519 has 2^255 - 19 elements and its base point generates a group of
    order 2^252 + 27742317777372353535851937790883648493.  That both numbers are prime is
    proved here by Pocklington's criterion, from certificates whose checks are computed. *)
From Stdlib Require Import ZArith Lia Znumtheory Zdivisibility Zmod.
From stdpp Require Import base numbers list.
From S2P Require Import Prelude.

(** ** Powers modulo [n]

    [reduce] subtracts the multiple of [n] that a precomputed reciprocal estimates; its result
    is congruent whatever the estimate is, and small when the reciprocal is right. *)
Definition reduce (n k reciprocal x : Z) : Z :=
  x - Z.shiftr (reciprocal * Z.shiftr x (k - 1)) (k + 17) * n.

Fixpoint pow_reduced (n k reciprocal a : Z) (e : positive) : Z :=
  match e with
  | xH => a
  | xO e' => let z := pow_reduced n k reciprocal a e' in reduce n k reciprocal (z * z)
  | xI e' => let z := pow_reduced n k reciprocal a e' in reduce n k reciprocal (reduce n k reciprocal (z * z) * a)
  end.

Definition pow_mod (a e n : Z) : Z :=
  let k := Z.log2 n + 1 in
  match e with Zpos e => pow_reduced n k (2 ^ (2 * k + 16) / n) a e mod n | _ => 1 mod n end.

Lemma reduce_mod n k reciprocal x : reduce n k reciprocal x mod n = x mod n.
Proof. unfold reduce. rewrite <- Z.add_opp_r, <- Z.mul_opp_l. apply Z_mod_plus_full. Qed.

Lemma pow_mod_exact a e n : 0 <= e -> pow_mod a e n = a ^ e mod n.
Proof.
  intros He. destruct e as [|e|e]; [done| |lia]. cbn [pow_mod]. set (k := Z.log2 n + 1). set (r := 2 ^ _ / n).
  induction e as [e IH|e IH|]; cbn [pow_reduced]; [| |by rewrite Z.pow_1_r].
  - specialize (IH ltac:(lia)). rewrite reduce_mod, <- Zmult_mod_idemp_l, reduce_mod, Zmult_mod_idemp_l.
    replace (a ^ Z.pos e~1) with (a ^ Z.pos e * a ^ Z.pos e * a)
      by (rewrite Pos2Z.inj_xI, Z.add_1_r, Z.pow_succ_r, Z.mul_comm, <- Z.add_diag, Z.pow_add_r by lia; lia).
    set (z := pow_reduced _ _ _ _ _) in *.
    by rewrite (Zmult_mod (z * z)), (Zmult_mod z), IH, <- (Zmult_mod (a ^ _)), <- Zmult_mod.
  - specialize (IH ltac:(lia)). rewrite reduce_mod, Pos2Z.inj_xO, <- Z.add_diag, Z.pow_add_r by lia.
    set (z := pow_reduced _ _ _ _ _) in *. by rewrite (Zmult_mod z), IH, <- Zmult_mod.
Qed.

(** ** Pocklington's criterion *)

Lemma prime_divisor n : 1 < n -> exists r, Z.prime r /\ (r | n).
Proof.
  intros Hn. assert (0 <= n) as H0 by lia. revert n H0 Hn. refine (Z_lt_induction _ _). intros n IH Hn.
  destruct (prime_dec n) as [Hp|Hp]; [exists n; split; [by apply prime_alt|done]|].
  destruct (not_prime_divide n Hn Hp) as (k & Hk & Hd). destruct (IH k ltac:(lia) ltac:(lia)) as (r & Hr & Hrk).
  exists r. split; [done|]. by transitivity k.
Qed.

(** A composite number has a prime divisor that is at most its root. *)
Lemma composite_divisor n : 1 < n -> ~ Z.prime n -> exists r, Z.prime r /\ (r | n) /\ r * r <= n.
Proof.
  intros Hn Hp. rewrite <- prime_alt in Hp || rewrite prime_alt in Hp.
  destruct (not_prime_divide n Hn Hp) as (k & Hk & [m Hm]).
  assert (exists d, 1 < d /\ (d | n) /\ d * d <= n) as (d & Hd & Hdn & Hdd).
  { destruct (Z.le_gt_cases k m); [exists k|exists m]; (split; [nia|]); (split; [|nia]); [by exists m|by exists k; lia]. }
  destruct (prime_divisor d Hd) as (r & Hr & Hrd). exists r. split; [done|]. split; [by transitivity d|].
  apply Z.divide_pos_le in Hrd; [|lia]. pose proof (Z.prime_ge_2 _ Hr). nia.
Qed.

(** The check of one prime factor [q] of [n - 1]. *)
Definition factor_check (n a q : Z) : bool :=
  ((n - 1) mod q =? 0) && (Z.gcd (pow_mod a ((n - 1) / q) n - 1) n =? 1).

Definition pocklington (n a : Z) (factors : list Z) : bool :=
  (1 <? n) && (pow_mod a (n - 1) n =? 1) && forallb (factor_check n a) factors
  && (n <? foldr Z.mul 1 factors * foldr Z.mul 1 factors).

(** A factor that passes the check divides the order of the units of every prime divisor. *)
Lemma factor_divides n a q r :
  1 < n -> Z.prime q -> Z.prime r -> (r | n) -> a ^ (n - 1) mod n = 1 -> factor_check n a q = true ->
  (q | r - 1).
Proof.
  intros Hn Hq Hr Hrn Ha Hc. apply andb_true_iff in Hc as [Hd Hg]. apply Z.eqb_eq in Hd, Hg.
  pose proof (Z.prime_ge_2 _ Hq). pose proof (Z.prime_ge_2 _ Hr).
  set (m := (n - 1) / q) in *. assert (n - 1 = q * m) as Em by (subst m; apply Z.div_exact; lia).
  assert (0 <= m) as Hm by (subst m; apply Z.div_pos; lia). rewrite pow_mod_exact in Hg by lia.
  assert (forall x, (x mod n) mod r = x mod r) as Hmod.
  { intros x. destruct Hrn as [k ->]. symmetry. apply Zmod_div_mod; [lia|nia|by exists k]. }
  set (b := Zmod.of_Z r (a ^ m)).
  assert (Zmod.pow b q = Zmod.one) as Hbq.
  { subst b. apply Zmod.to_Z_inj. rewrite Zmod.to_Z_pow_nonneg_r, Zmod.to_Z_of_Z, Z.mod_pow_l, <- Z.pow_mul_r by lia.
    rewrite Z.mul_comm, <- Em, Zmod.to_Z_1_pos, <- Hmod, Ha by lia. apply Z.mod_small. lia. }
  assert (b <> Zmod.zero) as Hb0.
  { intros E. rewrite E, Zmod.pow_0_l in Hbq by lia. symmetry in Hbq. revert Hbq. apply Zmod.one_neq_zero. lia. }
  assert (Z.gcd (Zmod.to_Z b) r = 1) as Hbr.
  { apply Z.Symmetric_coprime, Z.coprime_prime_small; [done|]. pose proof (Zmod.to_Z_nz _ Hb0).
    pose proof (Zmod.to_Z_pos_bound b ltac:(lia)). lia. }
  destruct (Zdivide_dec q (r - 1)) as [Hdiv|Hn1]; [done|exfalso].
  apply Z.coprime_prime_l in Hn1 as Hqr; [|done]. apply Z.Bezout_coprime in Hqr as (u & v & Huv).
  pose proof (Zmod.fermat_nz b Hb0 Hr) as Hf. replace (Z.pred r) with (r - 1) in Hf by lia.
  assert (Zmod.pow b 1 = Zmod.one) as Hb1.
  { rewrite <- Huv, Zmod.pow_add_r_coprime, (Z.mul_comm u q), (Z.mul_comm v), !Zmod.pow_mul_r_coprime, Hbq, Hf by done.
    by rewrite !Zmod.pow_1_l, Zmod.mul_1_l. }
  rewrite Zmod.pow_1_r in Hb1. apply (f_equal Zmod.to_Z) in Hb1. subst b.
  rewrite Zmod.to_Z_of_Z, Zmod.to_Z_1_pos in Hb1 by lia.
  assert (r | a ^ m mod n - 1) as Hdiv1.
  { apply Z.mod_divide; [lia|]. rewrite Zminus_mod, Hmod, Hb1, (Z.mod_small 1), Z.sub_diag by lia. apply Z.mod_0_l. lia. }
  pose proof (Z.gcd_greatest _ _ _ Hdiv1 Hrn) as H1. rewrite Hg in H1. apply Z.divide_pos_le in H1; lia.
Qed.

Lemma distinct_primes_divide qs n :
  Forall Z.prime qs -> NoDup qs -> Forall (fun q => (q | n)) qs -> (foldr Z.mul 1 qs | n).
Proof.
  induction qs as [|q qs IH]; intros Hp Hd Hn; cbn [foldr]; [apply Z.divide_1_l|].
  apply Forall_cons in Hp as [Hq Hp], Hn as [Hqn Hn]. apply NoDup_cons in Hd as [Hnot Hd].
  destruct (IH Hp Hd Hn) as [k ->].
  assert (forall l, Forall Z.prime l -> q ∉ l -> Z.coprime q (foldr Z.mul 1 l)) as Hc.
  { induction l as [|x l IHl]; intros Hl Hx; cbn [foldr]; [apply Z.coprime_1_r|]. apply Forall_cons in Hl as [Hxp Hl].
    apply not_elem_of_cons in Hx as [Hne Hx]. apply Z.coprime_mul_r; [|by apply IHl].
    apply Z.coprime_prime_l; [done|]. by intros ?%Z.divide_prime_prime. }
  apply Z.divide_prime_mul in Hqn as [[j ->]|Hdiv]; [exists j; lia| |done].
  specialize (Hc qs Hp Hnot). by apply Z.coprime_prime_l_iff in Hc.
Qed.

(** Pocklington's criterion: distinct primes whose product exceeds the root of [n]. *)
Lemma pocklington_prime n a qs : pocklington n a qs = true -> NoDup qs -> Forall Z.prime qs -> Z.prime n.
Proof.
  intros Hc Hd Hp. apply andb_true_iff in Hc as [Hc Hs]. apply andb_true_iff in Hc as [Hc Hf].
  apply andb_true_iff in Hc as [Hn Ha]. apply Z.ltb_lt in Hn, Hs. apply Z.eqb_eq in Ha.
  rewrite pow_mod_exact in Ha by lia. destruct (prime_dec n) as [Hpn|Hpn]; [by apply prime_alt|exfalso].
  destruct (composite_divisor n Hn) as (r & Hr & Hrn & Hrr); [by rewrite prime_alt|].
  assert (foldr Z.mul 1 qs | r - 1) as Hq.
  { apply distinct_primes_divide; [done|done|]. rewrite Forall_forall in Hp |- *. intros q Hin. apply factor_divides with n a; auto.
    rewrite forallb_forall in Hf. apply Hf. by apply list_elem_of_In. }
  pose proof (Z.prime_ge_2 _ Hr). apply Z.divide_pos_le in Hq; [|lia].
  assert (forall l, Forall Z.prime l -> 0 < foldr Z.mul 1 l) as Hpos.
  { induction l as [|x l IHl]; intros Hl; cbn [foldr]; [lia|]. apply Forall_cons in Hl as [Hx Hl].
    pose proof (Z.prime_ge_2 _ Hx). specialize (IHl Hl). nia. }
  specialize (Hpos qs Hp). nia.
Qed.

(** Trial division, for the primes a certificate ends in. *)
Definition trial_divisors : list Z := map Z.of_nat (seq 2 63).

Lemma trial_prime n : (1 <? n) && (n <? 4225) && forallb (fun k => negb (n mod k =? 0)) (List.filter (fun k => k * k <=? n) trial_divisors) = true -> Z.prime n.
Proof.
  intros Hc. apply andb_true_iff in Hc as [Hc Hf]. apply andb_true_iff in Hc as [Hn Hl]. apply Z.ltb_lt in Hn, Hl.
  destruct (prime_dec n) as [Hp|Hp]; [by apply prime_alt|exfalso].
  destruct (composite_divisor n Hn) as (r & Hr & Hrn & Hrr); [by rewrite prime_alt|].
  pose proof (Z.prime_ge_2 _ Hr). rewrite forallb_forall in Hf.
  assert (In r (List.filter (fun k => k * k <=? n) trial_divisors)) as Hin.
  { apply filter_In. split; [|lia]. apply in_map_iff. exists (Z.to_nat r). split; [lia|]. apply in_seq. nia. }
  specialize (Hf r Hin). apply Z.mod_divide in Hrn; [|lia]. by rewrite Hrn in Hf.
Qed.

(** ** The certificates *)
Ltac certify a qs :=
  apply (pocklington_prime _ a qs); [vm_compute; reflexivity|apply (bool_decide_eq_true_1 (NoDup qs)); vm_compute; reflexivity
    |repeat (constructor; [assumption || (apply trial_prime; vm_compute; reflexivity)|]); constructor].

Definition field_prime : Z := 2 ^ 255 - 19.
Definition group_order : Z := 2 ^ 252 + 27742317777372353535851937790883648493.

Lemma field_prime_prime : Z.prime field_prime.
Proof.
  assert (Z.prime 8574133) by certify 2 [991; 103].
  assert (Z.prime 1919519569386763) by certify 2 [8574133; 127].
  assert (Z.prime 569003) by certify 2 [419; 97].
  assert (Z.prime 2773320623) by certify 2 [569003].
  assert (Z.prime 72106336199) by certify 2 [2773320623].
  assert (Z.prime 75445702479781427272750846543864801) by certify 2 [1919519569386763; 72106336199].
  assert (Z.prime 430751) by certify 2 [1723].
  assert (Z.prime 31757755568855353) by certify 2 [430751; 4153].
  assert (Z.prime 74058212732561358302231226437062788676166966415465897661863160754340907) by certify 2 [75445702479781427272750846543864801; 31757755568855353].
  certify 2 [74058212732561358302231226437062788676166966415465897661863160754340907].
Qed.

Lemma group_order_prime : Z.prime group_order.
Proof.
  assert (Z.prime 1224481) by certify 2 [2551].
  assert (Z.prime 531581) by certify 2 [3797].
  assert (Z.prime 1257559732178653) by certify 2 [1224481; 531581].
  assert (Z.prime 4434155615661930479) by certify 2 [1257559732178653].
  assert (Z.prime 172054593956031949258510691) by certify 2 [4434155615661930479].
  assert (Z.prime 19757330305831588566944191468367130476339) by certify 2 [172054593956031949258510691].
  assert (Z.prime 276602624281642239937218680557139826668747) by certify 2 [19757330305831588566944191468367130476339].
  certify 2 [276602624281642239937218680557139826668747].
Qed.
