(* ===== verification/Field25519.v ===== *)
(** * The field of edwards25519

    Models the first part of [src/ed25519.cpp]: elements modulo 2^255 - 19 as eight 32 bit
    limbs, with their carry chains written out, and proves every operation exact: its result is
    the canonical representative of the operation on residues ([Zmod field_prime]).

    A loop over the limbs that hands a carry on is a recursion over the lists; a 64 bit
    accumulator is wrapped with [u64], a limb with [u32]. *)
From Stdlib Require Import ZArith Lia Zmod.
From stdpp Require Import base numbers list.
From S2P Require Import Prelude Primes.

Notation Fe := (list Z).

Definition kP : Fe :=
  [0xFFFFFFED; 0xFFFFFFFF; 0xFFFFFFFF; 0xFFFFFFFF; 0xFFFFFFFF; 0xFFFFFFFF; 0xFFFFFFFF; 0x7FFFFFFF].
Definition kOne : Fe := [1; 0; 0; 0; 0; 0; 0; 0].
Definition kZero : Fe := [0; 0; 0; 0; 0; 0; 0; 0].
Definition kD : Fe :=
  [0x135978A3; 0x75EB4DCA; 0x4141D8AB; 0x00700A4D; 0x7779E898; 0x8CC74079; 0x2B6FFE73; 0x52036CEE].
Definition kD2 : Fe :=
  [0x26B2F159; 0xEBD69B94; 0x8283B156; 0x00E0149A; 0xEEF3D130; 0x198E80F2; 0x56DFFCE7; 0x2406D9DC].
Definition kSqrtM1 : Fe :=
  [0x4A0EA0B0; 0xC4EE1B27; 0xAD2FE478; 0x2F431806; 0x3DFBD7A7; 0x2B4D0099; 0x4FC1DF0B; 0x2B832480].

(** ** Carry chains *)

(** [a - b] limb by limb: the limbs of the difference and the borrow out. *)
Fixpoint subtract_limbs (borrow : Z) (a b : list Z) : list Z * Z :=
  match a, b with
  | ai :: a', bi :: b' =>
      let difference := u64 (u64 (ai - bi) - borrow) in
      let '(out, last) := subtract_limbs (Z.land (Z.shiftr difference 32) 1) a' b' in
      (u32 difference :: out, last)
  | _, _ => ([], borrow)
  end.

(** [a + b], with the carry out. *)
Fixpoint add_limbs (carry : Z) (a b : list Z) : list Z * Z :=
  match a, b with
  | ai :: a', bi :: b' =>
      let sum := u64 (u64 (ai + bi) + carry) in
      let '(out, last) := add_limbs (Z.shiftr sum 32) a' b' in
      (u32 sum :: out, last)
  | _, _ => ([], carry)
  end.

(** 64 bit limbs normalised to 32 bits. *)
Fixpoint carry_limbs (carry : Z) (w : list Z) : list Z * Z :=
  match w with
  | wi :: w' =>
      let sum := u64 (wi + carry) in
      let '(out, last) := carry_limbs (Z.shiftr sum 32) w' in
      (Z.land sum 0xFFFFFFFF :: out, last)
  | [] => ([], carry)
  end.

(** One row of the schoolbook product: [t] is the array from index [i] on, and the limb
    after the row receives the carry. *)
Fixpoint multiply_row (ai carry : Z) (b t : list Z) : list Z :=
  match b, t with
  | bj :: b', tj :: t' =>
      let current := u64 (u64 (tj + u64 (ai * bj)) + carry) in
      Z.land current 0xFFFFFFFF :: multiply_row ai (Z.shiftr current 32) b' t'
  | [], _ :: t' => carry :: t'
  | _, [] => []
  end.

Fixpoint multiply_rows (a b t : list Z) : list Z :=
  match a with
  | [] => t
  | ai :: a' =>
      match multiply_row ai 0 b t with
      | [] => []
      | ti :: t' => ti :: multiply_rows a' b t'
      end
  end.

(** ** Operations *)
Definition fe_conditional_subtract_p (a : Fe) : Fe :=
  let '(reduced, borrow) := subtract_limbs 0 a kP in
  let take_mask := u32 (0 - u32 (1 - borrow)) in
  let keep_mask := Z.lxor take_mask 0xFFFFFFFF in
  zip_with (fun ai ri => Z.lor (Z.land ai keep_mask) (Z.land ri take_mask)) a reduced.

Definition fe_below_p (a : Fe) : bool := negb ((subtract_limbs 0 a kP).2 =? 0).

Definition fe_add (a b : Fe) : Fe := fe_conditional_subtract_p (add_limbs 0 a b).1.

Definition fe_sub (a b : Fe) : Fe :=
  let '(out, borrow) := subtract_limbs 0 a b in
  if negb (borrow =? 0) then (add_limbs 0 out kP).1 else out.

Definition fe_neg (a : Fe) : Fe := fe_sub kZero a.

(** [w[0] += 38 * carry]. *)
Definition fold_carry (w : list Z) (carry : Z) : list Z :=
  match w with w0 :: w' => u64 (w0 + u64 (38 * carry)) :: w' | [] => [] end.

Definition fe_mul (a b : Fe) : Fe :=
  let t := multiply_rows a b (replicate 16 0) in
  let w := zip_with (fun low high => u64 (low + u64 (38 * high))) (take 8 t) (drop 8 t) in
  let '(w, carry) := carry_limbs 0 w in
  let '(w, carry) := carry_limbs 0 (fold_carry w carry) in
  let w := fold_carry w carry in
  let out := map (fun wi => u32 (Z.land wi 0xFFFFFFFF)) w in
  fe_conditional_subtract_p (fe_conditional_subtract_p out).

Definition fe_sqr (a : Fe) : Fe := fe_mul a a.

Fixpoint fe_square_times (value : Fe) (count : nat) : Fe :=
  match count with O => value | S count' => fe_square_times (fe_sqr value) count' end.

Definition fe_pow_p58 (a : Fe) : Fe :=
  let q2 := fe_mul (fe_square_times a 1) a in
  let q4 := fe_mul (fe_square_times q2 2) q2 in
  let q8 := fe_mul (fe_square_times q4 4) q4 in
  let q16 := fe_mul (fe_square_times q8 8) q8 in
  let q32 := fe_mul (fe_square_times q16 16) q16 in
  let q18 := fe_mul (fe_square_times q16 2) q2 in
  let q50 := fe_mul (fe_square_times q32 18) q18 in
  let q100 := fe_mul (fe_square_times q50 50) q50 in
  let q200 := fe_mul (fe_square_times q100 100) q100 in
  let q250 := fe_mul (fe_square_times q200 50) q50 in
  fe_mul (fe_square_times q250 2) a.

Definition fe_invert (a : Fe) : Fe :=
  let z := fe_pow_p58 a in
  let z8 := fe_square_times z 3 in
  let a3 := fe_mul (fe_sqr a) a in
  fe_mul z8 a3.

Definition fe_is_zero (a : Fe) : bool := foldl Z.lor 0 a =? 0.

Definition fe_equal (a b : Fe) : bool := foldl Z.lor 0 (zip_with Z.lxor a b) =? 0.

(** ** Bytes *)

(** Four bytes, the least significant first. *)
Definition limb_of_bytes (b0 b1 b2 b3 : Z) : Z :=
  Z.lor (Z.lor (Z.lor b0 (Z.shiftl b1 8)) (Z.shiftl b2 16)) (Z.shiftl b3 24).

Fixpoint limbs_of_bytes (bytes : list Z) : list Z :=
  match bytes with
  | b0 :: b1 :: b2 :: b3 :: rest => limb_of_bytes b0 b1 b2 b3 :: limbs_of_bytes rest
  | _ => []
  end.

Definition bytes_of_limb (w : Z) : list Z :=
  [Z.land w 0xFF; Z.land (Z.shiftr w 8) 0xFF; Z.land (Z.shiftr w 16) 0xFF; Z.land (Z.shiftr w 24) 0xFF].

Definition fe_from_bytes (bytes : list Z) : Fe := limbs_of_bytes bytes.
Definition fe_to_bytes (a : Fe) : list Z := concat (map bytes_of_limb a).

(** ** The number a list of digits denotes *)
Definition num (width : Z) (l : list Z) : Z := foldr (fun x rest => x + 2 ^ width * rest) 0 l.

Definition digits (width : Z) (l : list Z) : Prop := Forall (fun x => 0 <= x < 2 ^ width) l.

Notation limbs := (digits 32).
Notation value := (num 32).

Lemma num_cons width x l : num width (x :: l) = x + 2 ^ width * num width l.
Proof. done. Qed.

Lemma num_nil width : num width [] = 0.
Proof. done. Qed.

Lemma num_range width l : 0 <= width -> digits width l -> 0 <= num width l < 2 ^ (width * Z.of_nat (length l)).
Proof.
  intros Hw. induction 1 as [|x l Hx Hl IH]; [cbn; rewrite Z.mul_0_r; lia|]. rewrite num_cons. cbn [length].
  rewrite Nat2Z.inj_succ, Z.mul_succ_r, Z.pow_add_r by lia. nia.
Qed.

Lemma num_app width l1 l2 : 0 <= width -> num width (l1 ++ l2) = num width l1 + 2 ^ (width * Z.of_nat (length l1)) * num width l2.
Proof.
  intros Hw. unfold num. induction l1 as [|x l1 IH]; cbn [app foldr length].
  - change (Z.of_nat 0) with 0. rewrite Z.mul_0_r, Z.pow_0_r. lia.
  - rewrite IH, Nat2Z.inj_succ, Z.mul_succ_r, Z.pow_add_r by lia. ring.
Qed.

Lemma num_inj width l1 l2 :
  0 <= width -> digits width l1 -> digits width l2 -> length l1 = length l2 -> num width l1 = num width l2 -> l1 = l2.
Proof.
  intros Hw H1. revert l2; induction H1 as [|x l1 Hx Hl IH]; intros [|y l2] H2 Hlen E; try discriminate; [done|].
  apply Forall_cons in H2 as [Hy H2]. rewrite !num_cons in E.
  assert (0 < 2 ^ width) as Hp by (apply Z.pow_pos_nonneg; lia). injection Hlen as Hlen.
  assert (x = y) as ->.
  { apply (f_equal (fun z => z mod 2 ^ width)) in E. by rewrite !(Z.mul_comm (2 ^ width)), !Z.mod_add, !Z.mod_small in E by lia. }
  f_equal. apply IH; [done|done|]. apply (Z.mul_reg_l _ _ (2 ^ width)); lia.
Qed.

(** ** Exactness of the carry chains *)
Lemma difference_exact ai bi borrow :
  0 <= ai < 2 ^ 32 -> 0 <= bi < 2 ^ 32 -> 0 <= borrow <= 1 ->
  let difference := u64 (u64 (ai - bi) - borrow) in
  let out := Z.land (Z.shiftr difference 32) 1 in
  ai - bi - borrow = u32 difference - 2 ^ 32 * out /\ 0 <= out <= 1 /\ 0 <= u32 difference < 2 ^ 32.
Proof.
  intros Ha Hb Hc. cbv zeta. unfold u32, u64. rewrite Zminus_mod_idemp_l. set (d := ai - bi - borrow).
  assert (- 2 ^ 32 <= d < 2 ^ 32) as Hd by lia. change 1 with (Z.ones 1). rewrite Z.land_ones, Z.shiftr_div_pow2 by lia.
  split; [|split; [|apply Z.mod_pos_bound; lia]].
  - destruct (Z.leb_spec 0 d).
    + rewrite (Z.mod_small d), (Z.mod_small d (2 ^ 32)), Z.div_small by lia. change (0 mod 2 ^ 1) with 0. lia.
    + replace (d mod 2 ^ 64) with (d + 2 ^ 64) by (apply (Z.mod_unique _ _ (-1)); lia).
      replace ((d + 2 ^ 64) mod 2 ^ 32) with (d + 2 ^ 32) by (apply (Z.mod_unique _ _ (2 ^ 32 - 1)); lia).
      replace ((d + 2 ^ 64) / 2 ^ 32) with (2 ^ 32 - 1) by (apply (Z.div_unique _ _ _ (d + 2 ^ 32)); lia). change ((2 ^ 32 - 1) mod 2 ^ 1) with 1. lia.
  - enough (forall z, 0 <= z mod 2 ^ 1 <= 1) as Hm by apply Hm. intros z. change (2 ^ 1) with 2. pose proof (Z.mod_pos_bound z 2). lia.
Qed.

Lemma subtract_limbs_exact borrow a b :
  limbs a -> limbs b -> length a = length b -> 0 <= borrow <= 1 ->
  let '(out, last) := subtract_limbs borrow a b in
  limbs out /\ length out = length a /\ 0 <= last <= 1
  /\ value a - value b - borrow = value out - 2 ^ (32 * Z.of_nat (length a)) * last.
Proof.
  intros Ha. revert borrow b; induction Ha as [|ai a Hai Ha IH]; intros borrow [|bi b] Hb Hlen Hc; try discriminate.
  - cbn. split_and!; try done; lia.
  - apply Forall_cons in Hb as [Hbi Hb]. injection Hlen as Hlen. cbn [subtract_limbs].
    destruct (difference_exact ai bi borrow Hai Hbi Hc) as (E & Hout & Hr). set (d := u64 _) in *. set (c := Z.land _ _) in *.
    specialize (IH c b Hb Hlen Hout). destruct (subtract_limbs c a b) as [out last]. destruct IH as (Hl & Hn & Hlast & Ev).
    split_and!; [by constructor|cbn; lia|lia|lia|]. rewrite !num_cons. cbn [length].
    rewrite Nat2Z.inj_succ, Z.mul_succ_r, Z.pow_add_r by lia. nia.
Qed.

(** A 64 bit sum split into its low and high half. *)
Lemma halves x : 0 <= x < 2 ^ 64 -> x = Z.land x 0xFFFFFFFF + 2 ^ 32 * Z.shiftr x 32 /\ 0 <= Z.land x 0xFFFFFFFF < 2 ^ 32
  /\ 0 <= Z.shiftr x 32 < 2 ^ 32.
Proof.
  intros Hx. change 0xFFFFFFFF with (Z.ones 32). rewrite Z.land_ones, Z.shiftr_div_pow2 by lia.
  pose proof (Z.mod_pos_bound x (2 ^ 32) ltac:(lia)). pose proof (Z.div_mod x (2 ^ 32) ltac:(lia)).
  split_and!; lia.
Qed.

Lemma u32_land x : u32 x = Z.land x 0xFFFFFFFF.
Proof. unfold u32. change 0xFFFFFFFF with (Z.ones 32). by rewrite Z.land_ones by lia. Qed.

Lemma u64_exact x : 0 <= x < 2 ^ 64 -> u64 x = x.
Proof. apply Z.mod_small. Qed.

Lemma add_limbs_exact carry a b :
  limbs a -> limbs b -> length a = length b -> 0 <= carry <= 1 ->
  let '(out, last) := add_limbs carry a b in
  limbs out /\ length out = length a /\ 0 <= last <= 1
  /\ value a + value b + carry = value out + 2 ^ (32 * Z.of_nat (length a)) * last.
Proof.
  intros Ha. revert carry b; induction Ha as [|ai a Hai Ha IH]; intros carry [|bi b] Hb Hlen Hc; try discriminate.
  - cbn. split_and!; try done; lia.
  - apply Forall_cons in Hb as [Hbi Hb]. injection Hlen as Hlen. cbn [add_limbs]. rewrite !u64_exact by (rewrite ?u64_exact; lia).
    set (s := ai + bi + carry). rewrite u32_land. destruct (halves s) as (E & Hlow & Hhigh); [lia|].
    assert (0 <= Z.shiftr s 32 <= 1) as Hc' by lia.
    specialize (IH (Z.shiftr s 32) b Hb Hlen Hc'). destruct (add_limbs _ a b) as [out last]. destruct IH as (Hl & Hn & Hlast & Ev).
    split_and!; [by constructor|cbn; lia|lia|lia|]. rewrite !num_cons. cbn [length].
    rewrite Nat2Z.inj_succ, Z.mul_succ_r, Z.pow_add_r by lia. nia.
Qed.

(** Normalising limbs that leave room for a carry. *)
Lemma carry_limbs_exact carry w :
  Forall (fun x => 0 <= x < 2 ^ 63) w -> 0 <= carry < 2 ^ 32 ->
  let '(out, last) := carry_limbs carry w in
  limbs out /\ length out = length w /\ 0 <= last < 2 ^ 32
  /\ value w + carry = value out + 2 ^ (32 * Z.of_nat (length w)) * last.
Proof.
  intros Hw. revert carry; induction Hw as [|wi w Hwi Hw IH]; intros carry Hc; cbn [carry_limbs].
  - rewrite !num_nil. cbn [length]. change (2 ^ (32 * Z.of_nat 0)) with 1. split_and!; [apply Forall_nil_2|done|lia..].
  - rewrite u64_exact by lia. destruct (halves (wi + carry)) as (E & Hlow & Hhigh); [lia|].
    specialize (IH (Z.shiftr (wi + carry) 32) Hhigh). destruct (carry_limbs _ w) as [out last]. destruct IH as (Hl & Hn & Hlast & Ev).
    split_and!; [by constructor|cbn; lia|lia|lia|]. rewrite !num_cons. cbn [length].
    rewrite Nat2Z.inj_succ, Z.mul_succ_r, Z.pow_add_r by lia. nia.
Qed.

(** ** Exactness of the product *)
Lemma multiply_row_exact ai carry b u v :
  0 <= ai < 2 ^ 32 -> 0 <= carry < 2 ^ 32 -> limbs b -> limbs u -> length u = length b ->
  exists r, multiply_row ai carry b (u ++ 0 :: v) = r ++ v
    /\ limbs r /\ length r = S (length b) /\ value r = value u + ai * value b + carry.
Proof.
  intros Ha Hc Hb. revert carry Hc u; induction Hb as [|bj b Hbj Hb IH]; intros carry Hc [|tj u] Hu Hlen; try discriminate.
  - exists [carry]. cbn [app multiply_row length]. rewrite !num_cons, !num_nil. split_and!; [done|by constructor; [|constructor]|done|lia].
  - apply Forall_cons in Hu as [Htj Hu]. injection Hlen as Hlen. cbn [app multiply_row].
    assert (0 <= ai * bj <= (2 ^ 32 - 1) * (2 ^ 32 - 1)) as Hab by nia.
    rewrite (u64_exact (ai * bj)) by lia. rewrite (u64_exact (tj + ai * bj)) by lia. rewrite u64_exact by lia.
    destruct (halves (tj + ai * bj + carry)) as (E & Hlow & Hhigh); [lia|].
    destruct (IH (Z.shiftr (tj + ai * bj + carry) 32) Hhigh u Hu Hlen) as (r & -> & Hr & Hn & Ev).
    exists (Z.land (tj + ai * bj + carry) 0xFFFFFFFF :: r). cbn [app length]. rewrite !num_cons.
    split_and!; [done|by constructor|lia|nia].
Qed.

Lemma multiply_rows_exact a b u :
  limbs a -> limbs b -> limbs u -> length u = length b ->
  let r := multiply_rows a b (u ++ replicate (length a) 0) in
  limbs r /\ length r = (length a + length b)%nat /\ value r = value u + value a * value b.
Proof.
  intros Ha Hb. revert u; induction Ha as [|ai a Hai Ha IH]; intros u Hu Hlen; cbv zeta.
  - cbn [multiply_rows length replicate]. rewrite app_nil_r, !num_nil. split_and!; [done|done|lia].
  - cbn [length replicate multiply_rows]. destruct (multiply_row_exact ai 0 b u (replicate (length a) 0)) as (r & -> & Hr & Hn & Ev); try done.
    destruct r as [|r0 r]; [discriminate|]. apply Forall_cons in Hr as [Hr0 Hr]. injection Hn as Hn. cbn [app].
    destruct (IH r Hr Hn) as (H1 & H2 & H3). rewrite !num_cons in *. cbn [length]. split_and!; [by constructor|lia|nia].
Qed.

(** ** Field elements *)
Record fe_ok (a : Fe) : Prop := {
  fe_length : length a = 8%nat;
  fe_limbs : limbs a;
  fe_canonical : value a < field_prime
}.

(** Eight limbs, not necessarily reduced. *)
Record fe_wide (a : Fe) : Prop := { wide_length : length a = 8%nat; wide_limbs : limbs a }.

Notation F := (Zmod field_prime).
Definition fe (a : Fe) : F := Zmod.of_Z field_prime (value a).

Lemma fe_ok_wide a : fe_ok a -> fe_wide a.
Proof. by intros []. Qed.

Lemma field_prime_bound : 2 * field_prime = 2 ^ 256 - 38.
Proof. reflexivity. Qed.

Lemma wide_range a : fe_wide a -> 0 <= value a < 2 ^ 256.
Proof. intros [Hn Hl]. pose proof (num_range 32 a ltac:(lia) Hl) as Hr. by rewrite Hn in Hr. Qed.

Lemma fe_range a : fe_ok a -> 0 <= value a < field_prime.
Proof. intros Ha. pose proof (wide_range a (fe_ok_wide a Ha)). pose proof (fe_canonical a Ha). lia. Qed.

Lemma value_kP : value kP = field_prime.
Proof. reflexivity. Qed.

Lemma kP_wide : fe_wide kP.
Proof. split; [done|]. repeat (apply Forall_cons; split; [lia|]). apply Forall_nil_2. Qed.

Lemma mask_all x : 0 <= x < 2 ^ 32 -> Z.land x 0xFFFFFFFF = x.
Proof. intros Hx. rewrite <- u32_land. by apply Z.mod_small. Qed.

Lemma select_limbs (borrow : Z) a r :
  limbs a -> limbs r -> length a = length r -> borrow = 0 \/ borrow = 1 ->
  let take_mask := u32 (0 - u32 (1 - borrow)) in
  zip_with (fun ai ri => Z.lor (Z.land ai (Z.lxor take_mask 0xFFFFFFFF)) (Z.land ri take_mask)) a r
  = if borrow =? 0 then r else a.
Proof.
  intros Ha Hr Hlen Hc. cbv zeta. revert r Hr Hlen; induction Ha as [|x a Hx Ha IH]; intros [|y r] Hr Hlen; try discriminate;
    [by destruct (borrow =? 0)|].
  apply Forall_cons in Hr as [Hy Hr]. injection Hlen as Hlen. cbn [zip_with]. rewrite (IH r Hr Hlen).
  destruct Hc as [-> | ->].
  - change (0 =? 0) with true. change (u32 (0 - u32 (1 - 0))) with 0xFFFFFFFF.
    change (Z.lxor 0xFFFFFFFF 0xFFFFFFFF) with 0. by rewrite Z.land_0_r, Z.lor_0_l, mask_all.
  - change (1 =? 0) with false. change (u32 (0 - u32 (1 - 1))) with 0. change (Z.lxor 0 0xFFFFFFFF) with 0xFFFFFFFF.
    by rewrite Z.land_0_r, Z.lor_0_r, mask_all.
Qed.

Lemma conditional_subtract_exact a :
  fe_wide a ->
  fe_wide (fe_conditional_subtract_p a)
  /\ value (fe_conditional_subtract_p a) = if value a <? field_prime then value a else value a - field_prime.
Proof.
  intros Ha. pose proof (wide_range a Ha) as Hr. unfold fe_conditional_subtract_p.
  pose proof (subtract_limbs_exact 0 a kP (wide_limbs _ Ha) (wide_limbs _ kP_wide)) as Hs.
  rewrite (wide_length _ Ha) in Hs. specialize (Hs eq_refl ltac:(lia)).
  destruct (subtract_limbs 0 a kP) as [r borrow]. destruct Hs as (Hl & Hn & Hb & E). rewrite value_kP in E. cbv zeta.
  assert (fe_wide r) as Hwr by by split. pose proof (wide_range r Hwr) as Hrr. change (2 ^ (32 * Z.of_nat 8)) with (2 ^ 256) in E.
  rewrite select_limbs; [|apply Ha|done|by rewrite Hn; apply Ha|lia].
  pose proof field_prime_bound. destruct (Z.eqb_spec borrow 0) as [->|]; destruct (Z.ltb_spec (value a) field_prime); split; try done; lia.
Qed.

Lemma conditional_subtract_once a :
  fe_wide a -> value a < 2 * field_prime -> fe_ok (fe_conditional_subtract_p a) /\ fe (fe_conditional_subtract_p a) = fe a.
Proof.
  intros Ha Hv. destruct (conditional_subtract_exact a Ha) as [[Hn Hl] E]. split.
  - split; try done. rewrite E. destruct (Z.ltb_spec (value a) field_prime); lia.
  - unfold fe. rewrite E. destruct (value a <? field_prime); [done|]. apply Zmod.of_Z_inj.
    rewrite <- (Z_mod_plus_full (value a - field_prime) 1). f_equal. lia.
Qed.

Lemma fe_below_p_exact a : fe_wide a -> fe_below_p a = true <-> value a < field_prime.
Proof.
  intros Ha. pose proof (wide_range a Ha) as Hr. unfold fe_below_p.
  pose proof (subtract_limbs_exact 0 a kP (wide_limbs _ Ha) (wide_limbs _ kP_wide)) as Hs.
  rewrite (wide_length _ Ha) in Hs. specialize (Hs eq_refl ltac:(lia)).
  destruct (subtract_limbs 0 a kP) as [r borrow]. destruct Hs as (Hl & Hn & Hb & E). rewrite value_kP in E. cbn [snd].
  assert (fe_wide r) as Hwr by by split. pose proof (wide_range r Hwr) as Hrr. change (2 ^ (32 * Z.of_nat 8)) with (2 ^ 256) in E.
  pose proof field_prime_bound. rewrite negb_true_iff, Z.eqb_neq. lia.
Qed.

Lemma fe_add_exact a b : fe_ok a -> fe_ok b -> fe_ok (fe_add a b) /\ fe (fe_add a b) = Zmod.add (fe a) (fe b).
Proof.
  intros Ha Hb. pose proof (fe_range a Ha). pose proof (fe_range b Hb). unfold fe_add.
  pose proof (add_limbs_exact 0 a b (fe_limbs _ Ha) (fe_limbs _ Hb)) as Hs.
  rewrite (fe_length _ Ha), (fe_length _ Hb) in Hs. specialize (Hs eq_refl ltac:(lia)).
  destruct (add_limbs 0 a b) as [r carry]. destruct Hs as (Hl & Hn & Hc & E). cbn [fst].
  assert (fe_wide r) as Hwr by by split. pose proof (wide_range r Hwr) as Hrr. change (2 ^ (32 * Z.of_nat 8)) with (2 ^ 256) in E.
  pose proof field_prime_bound. assert (carry = 0) as -> by lia.
  destruct (conditional_subtract_once r Hwr) as [Hok ->]; [lia|]. split; [done|].
  unfold fe. rewrite <- Zmod.of_Z_add. f_equal. lia.
Qed.

Lemma fe_sub_exact a b : fe_ok a -> fe_ok b -> fe_ok (fe_sub a b) /\ fe (fe_sub a b) = Zmod.sub (fe a) (fe b).
Proof.
  intros Ha Hb. pose proof (fe_range a Ha). pose proof (fe_range b Hb). unfold fe_sub.
  pose proof (subtract_limbs_exact 0 a b (fe_limbs _ Ha) (fe_limbs _ Hb)) as Hs.
  rewrite (fe_length _ Ha), (fe_length _ Hb) in Hs. specialize (Hs eq_refl ltac:(lia)).
  destruct (subtract_limbs 0 a b) as [r borrow]. destruct Hs as (Hl & Hn & Hc & E).
  assert (fe_wide r) as Hwr by by split. pose proof (wide_range r Hwr) as Hrr. change (2 ^ (32 * Z.of_nat 8)) with (2 ^ 256) in E.
  pose proof field_prime_bound. unfold fe. rewrite <- Zmod.of_Z_sub. destruct (Z.eqb_spec borrow 0) as [->|]; cbn [negb].
  - split; [split; [done|done|lia]|f_equal; lia].
  - assert (borrow = 1) as -> by lia.
    pose proof (add_limbs_exact 0 r kP Hl (wide_limbs _ kP_wide)) as Hs.
    rewrite Hn in Hs. specialize (Hs eq_refl ltac:(lia)).
    destruct (add_limbs 0 r kP) as [out carry]. destruct Hs as (Hlo & Hno & Hco & Eo). cbn [fst]. rewrite value_kP in Eo.
    assert (fe_wide out) as Hwo by by split. pose proof (wide_range out Hwo). change (2 ^ (32 * Z.of_nat 8)) with (2 ^ 256) in Eo.
    assert (carry = 1) as -> by lia. split; [split; [done|done|lia]|].
    apply Zmod.of_Z_inj. rewrite <- (Z_mod_plus_full (value a - value b) 1). f_equal. lia.
Qed.

(** The accumulators of the first fold. *)
Lemma fold_high_exact low high :
  limbs low -> limbs high -> length low = length high ->
  let w := zip_with (fun l h => u64 (l + u64 (38 * h))) low high in
  Forall (fun x => 0 <= x < 2 ^ 63) w /\ length w = length low /\ value w = value low + 38 * value high.
Proof.
  intros Hl. cbv zeta. revert high; induction Hl as [|x low Hx Hl IH]; intros [|y high] Hh Hlen; try discriminate;
    [by split_and!; [apply Forall_nil_2| |]|].
  apply Forall_cons in Hh as [Hy Hh]. injection Hlen as Hlen. cbn [zip_with length]. rewrite !num_cons.
  rewrite (u64_exact (38 * y)), u64_exact by lia. destruct (IH high Hh Hlen) as (H1 & H2 & H3).
  split_and!; [apply Forall_cons; split; [lia|done]|lia|lia].
Qed.

(** Adding [38 * carry] at the lowest limb. *)
Lemma fold_carry_exact w carry :
  limbs w -> w <> [] -> 0 <= carry <= 38 ->
  Forall (fun x => 0 <= x < 2 ^ 63) (fold_carry w carry) /\ length (fold_carry w carry) = length w
  /\ value (fold_carry w carry) = value w + 38 * carry.
Proof.
  intros [|x l Hx Hl] Hn Hc; [done|]. cbn [fold_carry length]. rewrite !num_cons, (u64_exact (38 * carry)), u64_exact by lia.
  split_and!; [apply Forall_cons; split; [lia|]|done|lia]. eapply Forall_impl; [exact Hl|]. cbn beta. lia.
Qed.

Lemma narrow_limbs w : limbs w -> map (fun wi => u32 (Z.land wi 0xFFFFFFFF)) w = w.
Proof.
  induction 1 as [|x w Hx Hw IH]; [done|]. cbn [map]. rewrite IH, mask_all by done. f_equal. by apply Z.mod_small.
Qed.

Lemma fe_mul_exact a b : fe_ok a -> fe_ok b -> fe_ok (fe_mul a b) /\ fe (fe_mul a b) = Zmod.mul (fe a) (fe b).
Proof.
  intros Ha Hb. unfold fe_mul.
  destruct (multiply_rows_exact a b (replicate 8 0) (fe_limbs _ Ha) (fe_limbs _ Hb)) as (Ht & Hn & Et).
  { repeat (apply Forall_cons; split; [lia|]). apply Forall_nil_2. } { by rewrite (fe_length _ Hb). }
  rewrite (fe_length _ Ha) in Ht, Hn, Et. rewrite (fe_length _ Hb) in Hn.
  change (replicate 8 0 ++ replicate 8 0) with (replicate 16 0) in *. change (value (replicate 8 0)) with 0 in Et.
  set (t := multiply_rows a b (replicate 16 0)) in *. cbv zeta.
  destruct (fold_high_exact (take 8 t) (drop 8 t)) as (Hw & Hnw & Ew);
    [by apply Forall_take|by apply Forall_drop|by rewrite length_take, length_drop, Hn|].
  assert (value t = value (take 8 t) + 2 ^ 256 * value (drop 8 t)) as Es.
  { rewrite <- (take_drop 8 t) at 1. rewrite num_app by lia. by rewrite length_take, Hn. }
  pose proof (num_range 32 (take 8 t) ltac:(lia) (Forall_take _ _ _ Ht)) as Hlo.
  pose proof (num_range 32 (drop 8 t) ltac:(lia) (Forall_drop _ _ _ Ht)) as Hhi.
  rewrite length_take, Hn in Hlo, Hnw. rewrite length_drop, Hn in Hhi.
  change (2 ^ (32 * Z.of_nat _)) with (2 ^ 256) in Hlo. change (2 ^ (32 * Z.of_nat _)) with (2 ^ 256) in Hhi.
  set (w := zip_with _ _ _) in *. pose proof (carry_limbs_exact 0 w Hw ltac:(lia)) as H1.
  destruct (carry_limbs 0 w) as [w1 c1]. destruct H1 as (L1 & N1 & C1 & E1). rewrite Hnw in N1, E1. cbn in N1.
  change (2 ^ (32 * Z.of_nat _)) with (2 ^ 256) in E1. assert (fe_wide w1) as W1 by by split.
  pose proof (wide_range w1 W1) as R1. assert (0 <= c1 <= 38) as B1 by lia.
  destruct (fold_carry_exact w1 c1 L1 ltac:(by intros ->) B1) as (F1 & M1 & V1).
  pose proof (carry_limbs_exact 0 (fold_carry w1 c1) F1 ltac:(lia)) as H2.
  destruct (carry_limbs 0 (fold_carry w1 c1)) as [w2 c2]. destruct H2 as (L2 & N2 & C2 & E2). rewrite M1, N1 in N2, E2.
  change (2 ^ (32 * Z.of_nat _)) with (2 ^ 256) in E2. assert (fe_wide w2) as W2 by by split.
  pose proof (wide_range w2 W2) as R2. assert (0 <= c2 <= 1) as B2 by lia.
  destruct (fold_carry_exact w2 c2 L2 ltac:(by intros ->) ltac:(lia)) as (F2 & M2 & V2).
  assert (fe_wide (fold_carry w2 c2)) as W3.
  { split; [by rewrite M2|]. destruct L2 as [|x l Hx Hl]; [done|]. cbn [fold_carry]. rewrite num_cons in *.
    pose proof (num_range 32 l ltac:(lia) Hl). rewrite (u64_exact (38 * c2)), u64_exact by lia.
    apply Forall_cons. split; [|done]. assert (c2 = 0 \/ c2 = 1) as [->| ->] by lia; lia. }
  rewrite narrow_limbs by apply W3. destruct (conditional_subtract_exact _ W3) as [W4 V4].
  pose proof (wide_range _ W3) as R3. pose proof field_prime_bound.
  destruct (conditional_subtract_once _ W4) as [Hok E4].
  { rewrite V4. destruct (Z.ltb_spec (value (fold_carry w2 c2)) field_prime); lia. }
  split; [done|]. rewrite E4. unfold fe. rewrite <- Zmod.of_Z_mul. apply Zmod.of_Z_inj. rewrite V4.
  assert (exists k, value a * value b = value (fold_carry w2 c2) + k * field_prime) as [k ->].
  { exists (2 * (value (drop 8 t) + c1 + c2)). lia. }
  rewrite Z_mod_plus_full. destruct (_ <? _); [done|]. rewrite <- (Z_mod_plus_full (_ - _) 1). f_equal. lia.
Qed.

(** ** The constants *)
Ltac constant_ok := split; [done|repeat (apply Forall_cons; split; [lia|]); apply Forall_nil_2|vm_compute; reflexivity].

Lemma kOne_ok : fe_ok kOne. Proof. constant_ok. Qed.
Lemma kZero_ok : fe_ok kZero. Proof. constant_ok. Qed.
Lemma kD_ok : fe_ok kD. Proof. constant_ok. Qed.
Lemma kD2_ok : fe_ok kD2. Proof. constant_ok. Qed.
Lemma kSqrtM1_ok : fe_ok kSqrtM1. Proof. constant_ok. Qed.

Lemma fe_kOne : fe kOne = Zmod.one.
Proof. apply Zmod.of_Z_1. Qed.

Lemma fe_kZero : fe kZero = Zmod.zero.
Proof. apply Zmod.of_Z_0. Qed.

Lemma fe_mul_ok a b : fe_ok a -> fe_ok b -> fe_ok (fe_mul a b).
Proof. apply fe_mul_exact. Qed.
Lemma fe_add_ok a b : fe_ok a -> fe_ok b -> fe_ok (fe_add a b).
Proof. apply fe_add_exact. Qed.
Lemma fe_sub_ok a b : fe_ok a -> fe_ok b -> fe_ok (fe_sub a b).
Proof. apply fe_sub_exact. Qed.
Lemma fe_sqr_ok a : fe_ok a -> fe_ok (fe_sqr a).
Proof. intros Ha. by apply fe_mul_exact. Qed.
Lemma fe_neg_ok a : fe_ok a -> fe_ok (fe_neg a).
Proof. intros Ha. apply fe_sub_exact; [apply kZero_ok|done]. Qed.

#[export] Hint Resolve kOne_ok kZero_ok kD_ok kD2_ok kSqrtM1_ok fe_mul_ok fe_add_ok fe_sub_ok fe_sqr_ok fe_neg_ok : fe.

Lemma fe_mul_eq a b : fe_ok a -> fe_ok b -> fe (fe_mul a b) = Zmod.mul (fe a) (fe b).
Proof. apply fe_mul_exact. Qed.
Lemma fe_add_eq a b : fe_ok a -> fe_ok b -> fe (fe_add a b) = Zmod.add (fe a) (fe b).
Proof. apply fe_add_exact. Qed.
Lemma fe_sub_eq a b : fe_ok a -> fe_ok b -> fe (fe_sub a b) = Zmod.sub (fe a) (fe b).
Proof. apply fe_sub_exact. Qed.
Lemma fe_sqr_eq a : fe_ok a -> fe (fe_sqr a) = Zmod.mul (fe a) (fe a).
Proof. intros Ha. by apply fe_mul_exact. Qed.
Lemma fe_neg_eq a : fe_ok a -> fe (fe_neg a) = Zmod.opp (fe a).
Proof. intros Ha. unfold fe_neg. rewrite fe_sub_eq, fe_kZero by eauto with fe. apply Zmod.sub_0_l. Qed.

(** Equality of elements is equality of limbs. *)
Lemma fe_inj a b : fe_ok a -> fe_ok b -> fe a = fe b -> a = b.
Proof.
  intros Ha Hb E. apply (num_inj 32); [lia|apply Ha|apply Hb|by rewrite (fe_length _ Ha), (fe_length _ Hb)|].
  apply Zmod.of_Z_inj in E. rewrite !Z.mod_small in E by (by apply fe_range). done.
Qed.

Lemma fe_to_Z a : fe_ok a -> Zmod.to_Z (fe a) = value a.
Proof. intros Ha. unfold fe. rewrite Zmod.to_Z_of_Z. apply Z.mod_small. by apply fe_range. Qed.

Lemma fe_value a (z : F) : fe_ok a -> fe a = z -> value a = Zmod.to_Z z.
Proof. intros Ha <-. symmetry. by apply fe_to_Z. Qed.

(** ** Powers *)

(** [v] is [a] to the power [e]. *)
Record is_power (a : F) (e : Z) (v : Fe) : Prop := {
  power_ok : fe_ok v;
  power_nonneg : 0 <= e;
  power_eq : fe v = Zmod.pow a e
}.

Lemma power_one a : fe_ok a -> is_power (fe a) 1 a.
Proof. intros Ha. split; [done|lia|]. by rewrite Zmod.pow_1_r. Qed.

Lemma power_mul a e1 e2 v1 v2 : is_power a e1 v1 -> is_power a e2 v2 -> is_power a (e1 + e2) (fe_mul v1 v2).
Proof.
  intros [O1 N1 E1] [O2 N2 E2]. split; [by apply fe_mul_ok|lia|]. by rewrite fe_mul_eq, Zmod.pow_add_r_nonneg, E1, E2.
Qed.

Lemma power_square_times a e v n : is_power a e v -> is_power a (e * 2 ^ Z.of_nat n) (fe_square_times v n).
Proof.
  revert e v; induction n as [|n IH]; intros e v Hv; cbn [fe_square_times].
  - change (2 ^ Z.of_nat 0) with 1. by rewrite Z.mul_1_r.
  - replace (e * 2 ^ Z.of_nat (S n)) with ((e + e) * 2 ^ Z.of_nat n) by (rewrite Nat2Z.inj_succ, Z.pow_succ_r by lia; lia).
    apply IH. by apply power_mul.
Qed.

Lemma power_exact a e e' v : is_power a e v -> e = e' -> is_power a e' v.
Proof. by intros ? <-. Qed.

Lemma fe_pow_p58_exact a : fe_ok a -> is_power (fe a) (2 ^ 252 - 3) (fe_pow_p58 a).
Proof.
  intros Ha. pose proof (power_one a Ha) as H1. unfold fe_pow_p58. cbv zeta.
  set (q2 := fe_mul (fe_square_times a 1) a).
  assert (is_power (fe a) (2 ^ 2 - 1) q2) as H2 by (eapply power_exact; [by apply power_mul, H1; apply power_square_times|done]).
  set (q4 := fe_mul (fe_square_times q2 2) q2).
  assert (is_power (fe a) (2 ^ 4 - 1) q4) as H4 by (eapply power_exact; [by apply power_mul, H2; apply power_square_times|done]).
  set (q8 := fe_mul (fe_square_times q4 4) q4).
  assert (is_power (fe a) (2 ^ 8 - 1) q8) as H8 by (eapply power_exact; [by apply power_mul, H4; apply power_square_times|done]).
  set (q16 := fe_mul (fe_square_times q8 8) q8).
  assert (is_power (fe a) (2 ^ 16 - 1) q16) as H16 by (eapply power_exact; [by apply power_mul, H8; apply power_square_times|done]).
  set (q32 := fe_mul (fe_square_times q16 16) q16).
  assert (is_power (fe a) (2 ^ 32 - 1) q32) as H32 by (eapply power_exact; [by apply power_mul, H16; apply power_square_times|done]).
  set (q18 := fe_mul (fe_square_times q16 2) q2).
  assert (is_power (fe a) (2 ^ 18 - 1) q18) as H18 by (eapply power_exact; [by apply power_mul, H2; apply power_square_times|done]).
  set (q50 := fe_mul (fe_square_times q32 18) q18).
  assert (is_power (fe a) (2 ^ 50 - 1) q50) as H50 by (eapply power_exact; [by apply power_mul, H18; apply power_square_times|done]).
  set (q100 := fe_mul (fe_square_times q50 50) q50).
  assert (is_power (fe a) (2 ^ 100 - 1) q100) as H100 by (eapply power_exact; [by apply power_mul, H50; apply power_square_times|done]).
  set (q200 := fe_mul (fe_square_times q100 100) q100).
  assert (is_power (fe a) (2 ^ 200 - 1) q200) as H200 by (eapply power_exact; [by apply power_mul, H100; apply power_square_times|done]).
  set (q250 := fe_mul (fe_square_times q200 50) q50).
  assert (is_power (fe a) (2 ^ 250 - 1) q250) as H250 by (eapply power_exact; [by apply power_mul, H50; apply power_square_times|done]).
  eapply power_exact; [by apply power_mul, H1; apply power_square_times|done].
Qed.

Lemma fe_pow_p58_ok a : fe_ok a -> fe_ok (fe_pow_p58 a).
Proof. intros Ha. apply (power_ok _ _ _ (fe_pow_p58_exact a Ha)). Qed.

(** The inverse, and zero for zero. *)
Lemma fe_invert_exact a : fe_ok a -> fe_ok (fe_invert a) /\ fe (fe_invert a) = Zmod.inv (fe a).
Proof.
  intros Ha. pose proof (power_one a Ha) as H1. assert (is_power (fe a) (field_prime - 2) (fe_invert a)) as [Hok _ ->].
  { unfold fe_invert. eapply power_exact; [apply power_mul; [by apply power_square_times, fe_pow_p58_exact|]|].
    - apply power_mul; [|exact H1]. by apply power_mul.
    - done. }
  split; [done|]. destruct (Zmod.eqb_spec (fe a) Zmod.zero) as [E|E].
  - rewrite E, Zmod.pow_0_l by done. symmetry. apply Zmod.inv_0.
  - apply Zmod.fermat_inv; [done|apply field_prime_prime].
Qed.

#[export] Hint Resolve fe_pow_p58_ok : fe.

(** ** Predicates *)
Lemma lor_zero_iff l : Forall (fun x => 0 <= x) l -> forall acc, 0 <= acc -> foldl Z.lor acc l = 0 <-> acc = 0 /\ Forall (fun x => x = 0) l.
Proof.
  induction 1 as [|x l Hx Hl IH]; intros acc Hacc; cbn [foldl]; [by split; [|intros []]|].
  rewrite IH by (by apply Z.lor_nonneg). rewrite Forall_cons. rewrite Z.lor_eq_0_iff. tauto.
Qed.

Lemma fe_equal_exact a b : fe_ok a -> fe_ok b -> fe_equal a b = true <-> fe a = fe b.
Proof.
  intros Ha Hb. transitivity (a = b); [|by split; [intros ->|apply fe_inj]]. unfold fe_equal. rewrite Z.eqb_eq.
  destruct Ha as [Hna Hla _], Hb as [Hnb Hlb _]. rewrite <- Hnb in Hna. clear Hnb.
  assert (Forall (fun x => 0 <= x) (zip_with Z.lxor a b)) as Hpos.
  { revert b Hlb Hna; induction Hla as [|x a Hx Hla IH]; intros [|y b] Hlb Hn; try discriminate; [apply Forall_nil_2|].
    apply Forall_cons in Hlb as [Hy Hlb]. apply Forall_cons. split; [apply Z.lxor_nonneg; lia|]. apply IH; [done|by injection Hn]. }
  rewrite lor_zero_iff by (done || lia). split; [intros [_ Hz]|intros ->; split; [done|]].
  - clear Hpos Hla Hlb. revert b Hna Hz; induction a as [|x a IH]; intros [|y b] Hn Hz; try discriminate; [done|].
    apply Forall_cons in Hz as [Hx Hz]. apply Z.lxor_eq in Hx as ->. f_equal. apply IH; [by injection Hn|done].
  - clear. induction b as [|y b IH]; [apply Forall_nil_2|]. apply Forall_cons. by rewrite Z.lxor_nilpotent.
Qed.

Lemma fe_is_zero_exact a : fe_ok a -> fe_is_zero a = true <-> fe a = Zmod.zero.
Proof.
  intros Ha. rewrite <- fe_kZero, <- (fe_equal_exact a kZero) by eauto with fe.
  unfold fe_is_zero, fe_equal. f_equiv. f_equal. f_equal. destruct Ha as [Hn _ _].
  do 9 (destruct a as [|? a]; try discriminate Hn). cbn [zip_with kZero]. by rewrite !Z.lxor_0_r.
Qed.

(** ** Bytes *)
Lemma limb_of_bytes_exact b0 b1 b2 b3 :
  0 <= b0 < 2 ^ 8 -> 0 <= b1 < 2 ^ 8 -> 0 <= b2 < 2 ^ 8 -> 0 <= b3 < 2 ^ 8 ->
  limb_of_bytes b0 b1 b2 b3 = b0 + 2 ^ 8 * (b1 + 2 ^ 8 * (b2 + 2 ^ 8 * b3)).
Proof.
  intros H0 H1 H2 H3. unfold limb_of_bytes.
  rewrite (Z.lor_comm b0), lor_shiftl_add, (Z.lor_comm (_ + _)), lor_shiftl_add by lia.
  rewrite (Z.lor_comm (_ + _)), lor_shiftl_add by lia. lia.
Qed.

Lemma limbs_of_bytes_exact n data :
  digits 8 data -> length data = (4 * n)%nat ->
  limbs (limbs_of_bytes data) /\ length (limbs_of_bytes data) = n /\ value (limbs_of_bytes data) = num 8 data.
Proof.
  revert data; induction n as [|n IH]; intros data Hd Hn.
  - destruct data; [|discriminate]. split_and!; [apply Forall_nil_2|done|done].
  - destruct data as [|b0 [|b1 [|b2 [|b3 data]]]]; try (simpl in Hn; lia).
    apply Forall_cons in Hd as [H0 Hd]. apply Forall_cons in Hd as [H1 Hd].
    apply Forall_cons in Hd as [H2 Hd]. apply Forall_cons in Hd as [H3 Hd].
    destruct (IH data Hd) as (Hl & Hlen & Hv); [simpl in Hn; lia|]. cbn [limbs_of_bytes length].
    rewrite !num_cons, Hv, limb_of_bytes_exact by done. split_and!; [|lia|lia].
    apply Forall_cons. split; [lia|done].
Qed.

Lemma bytes_of_limb_exact w :
  0 <= w < 2 ^ 32 -> digits 8 (bytes_of_limb w) /\ num 8 (bytes_of_limb w) = w.
Proof.
  intros Hw. unfold bytes_of_limb. change 0xFF with (2 ^ 8 - 1).
  replace (Z.land w (2 ^ 8 - 1)) with (Z.land (Z.shiftr w 0) (2 ^ 8 - 1)) by by rewrite Z.shiftr_0_r.
  rewrite !land_shiftr_mod by lia. change (2 ^ 0) with 1. rewrite Z.div_1_r. split.
  - repeat (apply Forall_cons; split; [apply Z.mod_pos_bound; lia|]). apply Forall_nil_2.
  - rewrite !num_cons, num_nil.
    pose proof (Z.div_mod w (2 ^ 8) ltac:(lia)) as E0. pose proof (Z.div_mod (w / 2 ^ 8) (2 ^ 8) ltac:(lia)) as E1.
    pose proof (Z.div_mod (w / 2 ^ 8 / 2 ^ 8) (2 ^ 8) ltac:(lia)) as E2. rewrite !Z.div_div in * by lia.
    change (2 ^ 8 * 2 ^ 8) with (2 ^ 16) in *. change (2 ^ 16 * 2 ^ 8) with (2 ^ 24) in *.
    change (2 ^ 8 * 2 ^ 16) with (2 ^ 24) in *.
    rewrite (Z.mod_small (w / 2 ^ 24)) by (split; [apply Z.div_pos; lia|apply Z.div_lt_upper_bound; lia]). lia.
Qed.

Lemma bytes_of_limbs_exact a :
  limbs a -> digits 8 (fe_to_bytes a) /\ length (fe_to_bytes a) = (4 * length a)%nat /\ num 8 (fe_to_bytes a) = value a.
Proof.
  unfold fe_to_bytes. induction 1 as [|x a Hx Ha (IH1 & IH2 & IH3)]; [split_and!; [apply Forall_nil_2|done|done]|].
  destruct (bytes_of_limb_exact x Hx) as [Hd Hv]. cbn [map concat]. rewrite num_app, IH3, Hv, num_cons by lia.
  split_and!; [by apply Forall_app|rewrite length_app, IH2; cbn [length bytes_of_limb]; lia|].
  change (2 ^ (8 * Z.of_nat (length (bytes_of_limb x)))) with (2 ^ 32). lia.
Qed.

Lemma limbs_bytes_roundtrip a : limbs a -> limbs_of_bytes (fe_to_bytes a) = a.
Proof.
  intros Ha. destruct (bytes_of_limbs_exact a Ha) as (Hd & Hn & Hv).
  destruct (limbs_of_bytes_exact (length a) _ Hd Hn) as (Hl & Hlen & Hval).
  apply (num_inj 32); [lia|done|done|done|by rewrite Hval].
Qed.

(** ** Properties *)

(** C29: the operations on field elements compute modulo 2^255 - 19.  On canonical elements
    (eight limbs of 32 bits below the prime) the sum, the difference, the opposite and the
    product, with their carry chains, folds and conditional subtractions, are the canonical
    element of the result; the inverse is the multiplicative inverse of what is not zero; and
    the branch free comparisons decide equality. *)
Theorem fe_operations_exact (a b : Fe) (Ha : fe_ok a) (Hb : fe_ok b) :
  (fe_ok (fe_add a b) /\ value (fe_add a b) = (value a + value b) mod field_prime)
  /\ (fe_ok (fe_sub a b) /\ value (fe_sub a b) = (value a - value b) mod field_prime)
  /\ (fe_ok (fe_neg a) /\ value (fe_neg a) = (- value a) mod field_prime)
  /\ (fe_ok (fe_mul a b) /\ value (fe_mul a b) = (value a * value b) mod field_prime)
  /\ (fe_ok (fe_invert a) /\ (value a <> 0 -> (value a * value (fe_invert a)) mod field_prime = 1))
  /\ (fe_equal a b = true <-> a = b) /\ (fe_is_zero a = true <-> value a = 0)
  /\ fe_from_bytes (fe_to_bytes a) = a.
Proof.
  destruct (fe_invert_exact a Ha) as [Hi Ei].
  split_and!; auto with fe.
  - rewrite (fe_value _ _ (fe_add_ok a b Ha Hb) (fe_add_eq a b Ha Hb)), Zmod.to_Z_add, !fe_to_Z by done. done.
  - rewrite (fe_value _ _ (fe_sub_ok a b Ha Hb) (fe_sub_eq a b Ha Hb)), Zmod.to_Z_sub, !fe_to_Z by done. done.
  - rewrite (fe_value _ _ (fe_neg_ok a Ha) (fe_neg_eq a Ha)), Zmod.to_Z_opp, !fe_to_Z by done. done.
  - rewrite (fe_value _ _ (fe_mul_ok a b Ha Hb) (fe_mul_eq a b Ha Hb)), Zmod.to_Z_mul, !fe_to_Z by done. done.
  - intros Hn. rewrite <- (fe_to_Z a), <- (fe_to_Z (fe_invert a)), <- Zmod.to_Z_mul, Ei, Zmod.mul_comm by done.
    rewrite Zmod.mul_inv_same_l_prime; [by rewrite Zmod.to_Z_1_pos|apply field_prime_prime|].
    intros E. apply Hn. by rewrite <- fe_to_Z, E.
  - rewrite fe_equal_exact by done. split; [by apply fe_inj|by intros ->].
  - rewrite fe_is_zero_exact, <- (fe_to_Z a) by done. split; [by intros ->|]. intros E. by apply Zmod.to_Z_inj.
  - apply limbs_bytes_roundtrip, Ha.
Qed.

Lemma fe_operations_exact_witness :
  fe_ok kD /\ fe_ok kSqrtM1 /\ value (fe_mul kD kSqrtM1) = (value kD * value kSqrtM1) mod field_prime.
Proof.
  assert (fe_ok kD) as H1 by constant_ok. assert (fe_ok kSqrtM1) as H2 by constant_ok.
  split; [exact H1|]. split; [exact H2|]. apply (fe_operations_exact kD kSqrtM1 H1 H2).
Defined.
