(* ===== verification/Scalar25519.v ===== *)
(** * Scalars of Ed25519

    Models the second part of [src/ed25519.cpp]: scalars as eight 32 bit limbs and their
    reduction modulo the group order by binary long division, and proves the operations exact. *)
From Stdlib Require Import ZArith Lia.
From stdpp Require Import base numbers list.
From S2P Require Import Prelude Primes Field25519.

Notation Scalar := (list Z).

Definition kL : Scalar :=
  [0x5CF5D3ED; 0x5812631A; 0xA2F79CD6; 0x14DEF9DE; 0x00000000; 0x00000000; 0x00000000; 0x10000000].

(** The comparison runs from the most significant limb down. *)
Fixpoint compare_down (a b : list Z) : Z :=
  match a, b with
  | ai :: a', bi :: b' => if negb (ai =? bi) then (if ai <? bi then -1 else 1) else compare_down a' b'
  | _, _ => 0
  end.

Definition scalar_compare (a b : Scalar) : Z := compare_down (rev a) (rev b).

Definition scalar_sub (a b : Scalar) : Scalar := (subtract_limbs 0 a b).1.

Definition scalar_from_bytes (bytes : list Z) : Scalar := limbs_of_bytes bytes.
Definition scalar_to_bytes (value : Scalar) : list Z := concat (map bytes_of_limb value).

(** The remainder shifted left by one bit, [carry] shifted in. *)
Fixpoint shift_limbs (carry : Z) (l : list Z) : list Z :=
  match l with
  | ri :: l' =>
      let shifted := Z.lor (Z.shiftl ri 1) carry in
      u32 shifted :: shift_limbs (Z.shiftr shifted 32) l'
  | [] => []
  end.

(** The subtraction of the group order when the value reaches it. *)
Definition reduce_once (a : Scalar) : Scalar := if 0 <=? scalar_compare a kL then scalar_sub a kL else a.

(** The loop over the bits below [bit], the most significant first. *)
Fixpoint reduce_bits (wide : list Z) (bit : nat) (remainder : Scalar) : Scalar :=
  match bit with
  | O => remainder
  | S index =>
      let carry := Z.land (Z.shiftr (nth (index / 32) wide 0) (Z.of_nat (index mod 32))) 1 in
      reduce_bits wide index (reduce_once (shift_limbs carry remainder))
  end.

Definition scalar_reduce (wide : list Z) : Scalar := reduce_bits wide 512 (replicate 8 0).

Definition scalar_from_wide_hash (hash : list Z) : Scalar := scalar_reduce (limbs_of_bytes hash).

(** The rows of the product run over the limbs of [b]. *)
Definition scalar_mul (a b : Scalar) : Scalar := scalar_reduce (multiply_rows b a (replicate 16 0)).

Definition scalar_add (a b : Scalar) : Scalar := reduce_once (add_limbs 0 a b).1.

(** ** Exactness *)
Record scalar_wide (a : Scalar) : Prop := { sw_length : length a = 8%nat; sw_limbs : limbs a }.

Record scalar_ok (a : Scalar) : Prop := {
  sc_wide : scalar_wide a;
  sc_reduced : value a < group_order
}.

Lemma scalar_range a : scalar_wide a -> 0 <= value a < 2 ^ 256.
Proof. intros [Hn Hl]. pose proof (num_range 32 a ltac:(lia) Hl) as Hr. by rewrite Hn in Hr. Qed.

Lemma kL_wide : scalar_wide kL.
Proof. split; [done|]. repeat (apply Forall_cons; split; [lia|]). apply Forall_nil_2. Qed.

Lemma value_kL : value kL = group_order.
Proof. reflexivity. Qed.

(** The most significant limb decides. *)
Lemma compare_down_exact a b :
  limbs a -> limbs b -> length a = length b ->
  Z.sgn (value (rev a) - value (rev b)) = compare_down a b.
Proof.
  intros Ha. revert b; induction Ha as [|x a Hx Ha IH]; intros [|y b] Hb Hn; try discriminate; [done|].
  apply Forall_cons in Hb as [Hy Hb]. injection Hn as Hn. cbn [rev compare_down].
  rewrite !num_app, !num_cons, !num_nil, !length_rev, Hn by lia.
  assert (limbs (rev a)) as Hra by by apply Forall_rev. assert (limbs (rev b)) as Hrb by by apply Forall_rev.
  pose proof (num_range 32 (rev a) ltac:(lia) Hra) as Ra. pose proof (num_range 32 (rev b) ltac:(lia) Hrb) as Rb.
  rewrite length_rev, Hn in Ra. rewrite length_rev in Rb.
  destruct (Z.eqb_spec x y) as [->|Hne]; cbn [negb].
  - rewrite <- IH by done. f_equal. lia.
  - destruct (Z.ltb_spec x y); [apply Z.sgn_neg|apply Z.sgn_pos]; nia.
Qed.

Lemma scalar_compare_exact a b : scalar_wide a -> scalar_wide b -> 0 <= scalar_compare a b <-> value b <= value a.
Proof.
  intros Ha Hb. unfold scalar_compare. rewrite <- compare_down_exact.
  - rewrite !rev_involutive. lia.
  - apply Forall_rev, Ha.
  - apply Forall_rev, Hb.
  - by rewrite !length_rev, (sw_length _ Ha), (sw_length _ Hb).
Qed.

Lemma reduce_once_exact a :
  scalar_wide a -> value a < 2 * group_order -> scalar_ok (reduce_once a) /\ value (reduce_once a) = value a mod group_order.
Proof.
  intros Ha Hv. unfold reduce_once. pose proof (scalar_compare_exact a kL Ha kL_wide) as Hc. rewrite value_kL in Hc.
  pose proof (scalar_range a Ha). destruct (Z.leb_spec 0 (scalar_compare a kL)) as [Hle|Hlt].
  - apply Hc in Hle. unfold scalar_sub. pose proof (subtract_limbs_exact 0 a kL (sw_limbs _ Ha) (sw_limbs _ kL_wide)) as Hs.
    rewrite (sw_length _ Ha) in Hs. specialize (Hs eq_refl ltac:(lia)). destruct (subtract_limbs 0 a kL) as [r borrow].
    destruct Hs as (Hl & Hn & Hb & E). rewrite value_kL in E. cbn [fst]. change (2 ^ (32 * Z.of_nat 8)) with (2 ^ 256) in E.
    assert (scalar_wide r) as Hr by by split. pose proof (scalar_range r Hr). assert (borrow = 0) as -> by lia.
    split; [split; [done|lia]|]. apply (Z.mod_unique _ _ 1); lia.
  - assert (value a < group_order) by (apply Z.nle_gt; intros ?%Hc; lia). split; [by split|]. symmetry. apply Z.mod_small. lia.
Qed.

Lemma shift_limbs_exact carry l :
  limbs l -> 0 <= carry <= 1 ->
  limbs (shift_limbs carry l) /\ length (shift_limbs carry l) = length l
  /\ value (shift_limbs carry l) = (2 * value l + carry) mod 2 ^ (32 * Z.of_nat (length l)).
Proof.
  intros Hl. revert carry; induction Hl as [|x l Hx Hl IH]; intros carry Hc; cbn [shift_limbs length].
  - split_and!; [apply Forall_nil_2|done|]. change (2 ^ (32 * Z.of_nat 0)) with 1. by rewrite Z.mod_1_r.
  - rewrite lor_shiftl_add by lia. set (s := x * 2 ^ 1 + carry). assert (0 <= s < 2 ^ 33) as Hs by (subst s; lia).
    rewrite Z.shiftr_div_pow2 by lia. pose proof (Z.div_mod s (2 ^ 32) ltac:(lia)) as E.
    pose proof (Z.mod_pos_bound s (2 ^ 32) ltac:(lia)) as Hm. fold (u32 s) in *.
    destruct (IH (s / 2 ^ 32)) as (H1 & H2 & H3); [lia|]. rewrite !num_cons, H3. split_and!; [by apply Forall_cons|lia|].
    set (n := Z.of_nat (length l)). replace (32 * Z.of_nat (S (length l))) with (32 + 32 * n) by lia. rewrite Z.pow_add_r by lia.
    assert (0 < 2 ^ (32 * n)) as Hp by (apply Z.pow_pos_nonneg; lia). rewrite Z.rem_mul_r by lia.
    replace (2 * (x + 2 ^ 32 * value l) + carry) with (s + 2 * value l * 2 ^ 32) by (subst s; lia).
    rewrite Z_mod_plus_full, Z.div_add by lia. fold (u32 s). f_equal. f_equal. f_equal. lia.
Qed.

(** Bit [index] of the number, read from its limb. *)
Lemma limb_bit wide index :
  limbs wide -> Z.land (Z.shiftr (nth (index / 32) wide 0) (Z.of_nat (index mod 32))) 1 = value wide / 2 ^ Z.of_nat index mod 2.
Proof.
  intros Hw. change 1 with (2 ^ 1 - 1). rewrite land_shiftr_mod by lia. change (2 ^ 1) with 2.
  revert index; induction Hw as [|x wide Hx Hw IH]; intros index.
  - rewrite num_nil. destruct (index / 32)%nat; cbn [nth]; by rewrite !Z.div_0_l by (apply Z.pow_nonzero; lia).
  - rewrite num_cons. destruct (decide (index < 32)%nat) as [Hlt|Hge].
    + rewrite Nat.div_small, Nat.mod_small by done. cbn [nth].
      replace (x + 2 ^ 32 * value wide) with (x + value wide * 2 ^ (31 - Z.of_nat index) * 2 * 2 ^ Z.of_nat index).
      2: { replace (2 ^ 32) with (2 ^ (31 - Z.of_nat index) * 2 * 2 ^ Z.of_nat index); [lia|].
           rewrite <- (Z.pow_1_r 2) at 2. rewrite <- !Z.pow_add_r by lia. f_equal. lia. }
      rewrite Z.div_add by (apply Z.pow_nonzero; lia). by rewrite Z_mod_plus_full.
    + assert (exists k, index = (k + 1 * 32)%nat) as [k ->] by (exists (index - 32)%nat; lia).
      rewrite Nat.div_add, Nat.Div0.mod_add by done. rewrite (Nat.add_comm (k / 32)). cbn [nth Nat.add]. rewrite IH.
      rewrite Nat2Z.inj_add, Z.pow_add_r, (Z.mul_comm (2 ^ Z.of_nat k)), <- Z.div_div by lia.
      change (2 ^ Z.of_nat (1 * 32)) with (2 ^ 32). rewrite (Z.mul_comm (2 ^ 32)), Z.div_add, (Z.div_small x) by lia. done.
Qed.

Lemma reduce_bits_exact wide n remainder :
  limbs wide -> scalar_ok remainder -> value remainder = value wide / 2 ^ Z.of_nat n mod group_order ->
  scalar_ok (reduce_bits wide n remainder) /\ value (reduce_bits wide n remainder) = value wide mod group_order.
Proof.
  intros Hw. revert remainder; induction n as [|index IH]; intros remainder Hr Hv; cbn [reduce_bits].
  - change (2 ^ Z.of_nat 0) with 1 in Hv. by rewrite Z.div_1_r in Hv.
  - rewrite limb_bit by done. set (q := value wide / 2 ^ Z.of_nat index) in *.
    assert (value wide / 2 ^ Z.of_nat (S index) = q / 2) as Eq.
    { subst q. rewrite Z.div_div by lia. f_equal. rewrite Nat2Z.inj_succ, Z.pow_succ_r by lia. lia. }
    rewrite Eq in Hv. pose proof (Z.div_mod q 2 ltac:(lia)) as Ed. pose proof (Z.mod_pos_bound q 2 ltac:(lia)) as Hb.
    pose proof (scalar_range _ (sc_wide _ Hr)) as Hrr. pose proof (sc_reduced _ Hr) as Hlt.
    destruct (shift_limbs_exact (q mod 2) remainder (sw_limbs _ (sc_wide _ Hr)) ltac:(lia)) as (H1 & H2 & H3).
    rewrite (sw_length _ (sc_wide _ Hr)) in H2, H3. change (2 ^ (32 * Z.of_nat 8)) with (2 ^ 256) in H3.
    assert (group_order < 2 ^ 254) by reflexivity. rewrite (Z.mod_small (2 * _ + _)) in H3 by lia.
    destruct (reduce_once_exact (shift_limbs (q mod 2) remainder)) as [Hok Ev]; [by split|lia|].
    apply IH; [done|]. rewrite Ev, H3, Hv, Z.add_mod, Z.mul_mod_idemp_r, <- Z.add_mod by done. f_equal. lia.
Qed.

Lemma scalar_reduce_exact wide :
  limbs wide -> length wide = 16%nat ->
  scalar_ok (scalar_reduce wide) /\ value (scalar_reduce wide) = value wide mod group_order.
Proof.
  intros Hw Hn. unfold scalar_reduce. apply reduce_bits_exact; [done| |].
  - split; [split; [done|]|vm_compute; reflexivity]. repeat (apply Forall_cons; split; [lia|]). apply Forall_nil_2.
  - pose proof (num_range 32 wide ltac:(lia) Hw) as Hr. rewrite Hn in Hr. rewrite Z.div_small; [done|exact Hr].
Qed.

Lemma scalar_from_wide_hash_exact hash :
  digits 8 hash -> length hash = 64%nat ->
  scalar_ok (scalar_from_wide_hash hash) /\ value (scalar_from_wide_hash hash) = num 8 hash mod group_order.
Proof.
  intros Hd Hn. destruct (limbs_of_bytes_exact 16 hash Hd Hn) as (Hl & Hlen & Hv).
  unfold scalar_from_wide_hash. rewrite <- Hv. by apply scalar_reduce_exact.
Qed.

Lemma scalar_mul_exact a b :
  scalar_wide a -> scalar_wide b ->
  scalar_ok (scalar_mul a b) /\ value (scalar_mul a b) = (value a * value b) mod group_order.
Proof.
  intros Ha Hb. unfold scalar_mul.
  destruct (multiply_rows_exact b a (replicate 8 0) (sw_limbs _ Hb) (sw_limbs _ Ha)) as (Ht & Hn & Et).
  { repeat (apply Forall_cons; split; [lia|]). apply Forall_nil_2. } { by rewrite (sw_length _ Ha). }
  rewrite (sw_length _ Hb) in Ht, Hn, Et. rewrite (sw_length _ Ha) in Hn.
  change (replicate 8 0 ++ replicate 8 0) with (replicate 16 0) in *. change (value (replicate 8 0)) with 0 in Et.
  rewrite (Z.mul_comm (value a)), <- (Z.add_0_l (value b * value a)), <- Et. by apply scalar_reduce_exact.
Qed.

Lemma scalar_add_exact a b :
  scalar_ok a -> scalar_ok b ->
  scalar_ok (scalar_add a b) /\ value (scalar_add a b) = (value a + value b) mod group_order.
Proof.
  intros [Ha La] [Hb Lb]. unfold scalar_add.
  pose proof (add_limbs_exact 0 a b (sw_limbs _ Ha) (sw_limbs _ Hb)) as Hs.
  rewrite (sw_length _ Ha), (sw_length _ Hb) in Hs. specialize (Hs eq_refl ltac:(lia)).
  destruct (add_limbs 0 a b) as [r carry]. destruct Hs as (Hl & Hn & Hc & E). cbn [fst].
  assert (scalar_wide r) as Hwr by by split. pose proof (scalar_range r Hwr) as Hrr.
  change (2 ^ (32 * Z.of_nat 8)) with (2 ^ 256) in E. assert (group_order < 2 ^ 254) by reflexivity.
  assert (carry = 0) as -> by lia. replace (value a + value b) with (value r) by lia. apply reduce_once_exact; [done|lia].
Qed.

Lemma scalar_from_bytes_exact data :
  digits 8 data -> length data = 32%nat ->
  scalar_wide (scalar_from_bytes data) /\ value (scalar_from_bytes data) = num 8 data.
Proof. intros Hd Hn. destruct (limbs_of_bytes_exact 8 data Hd Hn) as (Hl & Hlen & Hv). split; [by split|done]. Qed.

Lemma scalar_bytes_roundtrip a : scalar_wide a -> scalar_from_bytes (scalar_to_bytes a) = a.
Proof. intros Ha. apply limbs_bytes_roundtrip, Ha. Qed.

(** ** Properties *)

(** C30: the operations on scalars compute modulo the order of the base point and stay within
    their eight limbs.  The long division of the 512 bits of a hash or of a product keeps its
    remainder below the order at every bit and returns the canonical remainder; the sum of two
    canonical scalars needs one subtraction at most; the check of the verifier accepts exactly
    the canonical scalars. *)
Theorem scalar_operations_exact (a b hash : list Z) (Ha : scalar_ok a) (Hb : scalar_ok b)
    (Hd : digits 8 hash) (Hn : length hash = 64%nat) :
  (scalar_ok (scalar_add a b) /\ value (scalar_add a b) = (value a + value b) mod group_order)
  /\ (scalar_ok (scalar_mul a b) /\ value (scalar_mul a b) = (value a * value b) mod group_order)
  /\ (scalar_ok (scalar_from_wide_hash hash) /\ value (scalar_from_wide_hash hash) = num 8 hash mod group_order)
  /\ (forall bytes, digits 8 bytes -> length bytes = 32%nat ->
        (0 <=? scalar_compare (scalar_from_bytes bytes) kL) = negb (num 8 bytes <? group_order))
  /\ scalar_from_bytes (scalar_to_bytes a) = a.
Proof.
  split; [by apply scalar_add_exact|]. split; [apply scalar_mul_exact; [apply Ha|apply Hb]|].
  split; [by apply scalar_from_wide_hash_exact|]. split; [|apply scalar_bytes_roundtrip, Ha].
  intros bytes Hd' Hn'. destruct (scalar_from_bytes_exact bytes Hd' Hn') as [Hw <-].
  pose proof (scalar_compare_exact _ kL Hw kL_wide) as Hc. rewrite value_kL in Hc.
  destruct (Z.leb_spec 0 (scalar_compare (scalar_from_bytes bytes) kL)), (Z.ltb_spec (value (scalar_from_bytes bytes)) group_order);
    try done; cbn [negb]; exfalso; lia.
Qed.

Lemma scalar_operations_exact_witness :
  let a := 5 :: replicate 7 0 in
  scalar_ok a /\ value (scalar_from_wide_hash (replicate 64 255)) = num 8 (replicate 64 255) mod group_order.
Proof.
  assert (scalar_ok (5 :: replicate 7 0)) as Ha.
  { split; [split; [reflexivity|]|vm_compute; reflexivity]. repeat (apply Forall_cons; split; [lia|]). apply Forall_nil_2. }
  assert (digits 8 (replicate 64 255)) as Hd by (apply Forall_replicate; lia).
  split; [exact Ha|]. apply (scalar_operations_exact _ _ (replicate 64 255) Ha Ha Hd). reflexivity.
Defined.
