(* ===== verification/Edwards.v ===== *)
(** * The group of a twisted Edwards curve

    The curve -x^2 + y^2 = 1 + d x^2 y^2 over a prime field in which -1 is a square and [d] is
    not: the addition law is complete, and its points form a commutative group. *)
From Stdlib Require Import ZArith Lia Zmod Field Zdivisibility.
From stdpp Require Import base numbers list.
From S2P Require Import Prelude.

(** What the completeness of the addition law rests on. *)
Class EdwardsCurve (q : Z) (d : Zmod q) : Prop := {
  curve_prime : Z.prime q;
  curve_root : exists i : Zmod q, Zmod.mul i i = Zmod.opp Zmod.one;
  d_nonsquare : forall r : Zmod q, Zmod.mul r r <> d;
  two_nonzero : Zmod.add Zmod.one Zmod.one <> (Zmod.zero : Zmod q)
}.

Section Curve.
#[local] Open Scope Zmod_scope.
Context {q : Z} {d : Zmod q} `{!EdwardsCurve q d}.
Notation F := (Zmod q).

Add Field modular_field : (Zmod.field_theory q curve_prime).

Definition point : Type := F * F.

Definition on_curve (P : point) : Prop :=
  let '(x, y) := P in y * y - x * x = 1 + d * x * x * y * y.

Definition padd (P Q : point) : point :=
  let '(x1, y1) := P in
  let '(x2, y2) := Q in
  let e := d * x1 * x2 * y1 * y2 in
  (Zmod.mdiv (x1 * y2 + y1 * x2) (1 + e), Zmod.mdiv (y1 * y2 + x1 * x2) (1 - e)).

Definition pzero : point := (0, 1).
Definition pneg (P : point) : point := let '(x, y) := P in (Zmod.opp x, y).

Lemma mul_zero (a b : F) : a * b = 0 -> a = 0 \/ b = 0.
Proof. apply Zmod.mul_0_iff_prime, curve_prime. Qed.

Lemma mul_nonzero (a b : F) : a <> 0 -> b <> 0 -> a * b <> 0.
Proof. by intros Ha Hb [?|?]%mul_zero. Qed.

Lemma mul_cancel (c a b : F) : c <> 0 -> a * c = b * c -> a = b.
Proof. intros Hc E. by apply (Zmod.mul_cancel_r_prime c a b curve_prime Hc). Qed.

Lemma sub_zero (a b : F) : a - b = 0 -> a = b.
Proof. intros E. transitivity (a - b + b); [ring|rewrite E; ring]. Qed.

Lemma div_mul (a b : F) : b <> 0 -> Zmod.mdiv a b * b = a.
Proof. intros Hb. by field. Qed.

(** The curve equation in the form the products are reduced with. *)
Lemma d_nonzero : d <> 0.
Proof. intros E. apply (d_nonsquare 0). rewrite E. ring. Qed.

Lemma curve_product c x y : d * c = 1 -> on_curve (x, y) -> x * x * (y * y) = c * (y * y - x * x - 1).
Proof. intros Hc H. cbn in H. replace (y * y - x * x - 1) with (d * (x * x * (y * y))) by (rewrite H; ring). ring [Hc]. Qed.

Lemma d_inverse : exists c, d * c = 1.
Proof. exists (Zmod.inv d). rewrite Zmod.mul_comm. apply Zmod.mul_inv_same_l_prime; [apply curve_prime|apply d_nonzero]. Qed.

(** The denominators of the addition law are not zero. *)
Lemma square_transport (i s x1 y1 x2 y2 : F) :
  i * i = Zmod.opp 1 ->
  let e := d * x1 * x2 * y1 * y2 in
  on_curve (x1, y1) -> on_curve (x2, y2) -> e * e = 1 -> s * s = 1 ->
  (i * x1 + s * e * y1) * (i * x1 + s * e * y1) = d * ((x1 * y1 * (i * x2 + s * y2)) * (x1 * y1 * (i * x2 + s * y2))).
Proof.
  cbv zeta. intros i_square H1 H2 He Hs. cbn in H1, H2. set (e := d * x1 * x2 * y1 * y2) in *.
  assert (i * i + 1 = 0) as Z1 by (rewrite i_square; ring).
  assert (e * e - 1 = 0) as Z2 by (rewrite He; ring). assert (s * s - 1 = 0) as Z3 by (rewrite Hs; ring).
  assert (y1 * y1 - x1 * x1 - (1 + d * x1 * x1 * y1 * y1) = 0) as Z4 by (rewrite H1; ring).
  assert (y2 * y2 - x2 * x2 - (1 + d * x2 * x2 * y2 * y2) = 0) as Z5 by (rewrite H2; ring).
  apply sub_zero.
  transitivity ((i * i + 1) * (x1 * x1) + (s * s - 1) * (e * e * y1 * y1) + (e * e - 1) * (y1 * y1 - 1)
    + (y1 * y1 - x1 * x1 - (1 + d * x1 * x1 * y1 * y1))
    - d * x1 * x1 * y1 * y1 * ((i * i + 1) * (x2 * x2) + (s * s - 1) * (y2 * y2)
        + (y2 * y2 - x2 * x2 - (1 + d * x2 * x2 * y2 * y2)))); [subst e; ring|rewrite Z1, Z2, Z3, Z4, Z5; ring].
Qed.

Lemma complete x1 y1 x2 y2 :
  on_curve (x1, y1) -> on_curve (x2, y2) -> (d * x1 * x2 * y1 * y2) * (d * x1 * x2 * y1 * y2) <> 1.
Proof.
  intros H1 H2 He. destruct curve_root as [i i_square].
  assert ((1 : F) <> 0) as one_nonzero by (intros E; apply two_nonzero; rewrite E; ring).
  assert (x1 * y1 <> 0) as Hxy.
  { intros E. apply one_nonzero. rewrite <- He. replace (d * x1 * x2 * y1 * y2) with (d * x2 * y2 * (x1 * y1)) by ring. rewrite E. ring. }
  assert (forall s : F, s * s = 1 -> i * x2 + s * y2 = 0) as Hs.
  { intros s Hs. destruct (Zmod.eqb_spec (i * x2 + s * y2) 0) as [|Hne]; [done|exfalso].
    pose proof (square_transport i s x1 y1 x2 y2 i_square H1 H2 He Hs) as E. set (e := d * x1 * x2 * y1 * y2) in *.
    set (w := x1 * y1 * (i * x2 + s * y2)) in *. assert (w <> 0) as Hw by by apply mul_nonzero.
    apply (d_nonsquare (Zmod.mdiv (i * x1 + s * e * y1) w)). apply (mul_cancel (w * w)); [by apply mul_nonzero|].
    rewrite <- E. by field. }
  assert (i * x2 + 1 * y2 = 0) as E1 by (apply Hs; ring). assert (i * x2 + Zmod.opp 1 * y2 = 0) as E2 by (apply Hs; ring).
  assert (y2 = 0) as Ey.
  { apply (mul_cancel (1 + 1)); [apply two_nonzero|]. transitivity ((i * x2 + 1 * y2) - (i * x2 + Zmod.opp 1 * y2)); [ring|rewrite E1, E2; ring]. }
  apply one_nonzero. rewrite <- He, Ey. ring.
Qed.

(** *** The addition law without division *)
Lemma denominators P Q :
  on_curve P -> on_curve Q ->
  let e := d * P.1 * Q.1 * P.2 * Q.2 in 1 + e <> 0 /\ 1 - e <> 0.
Proof.
  destruct P as [x1 y1], Q as [x2 y2]. intros H1 H2. cbn [fst snd]. pose proof (complete x1 y1 x2 y2 H1 H2) as Hc.
  set (e := d * x1 * x2 * y1 * y2) in *. split; intros E; apply Hc.
  - transitivity (1 - (1 + e) * (1 - e)); [ring|rewrite E; ring].
  - transitivity (1 - (1 + e) * (1 - e)); [ring|rewrite E; ring].
Qed.

Lemma padd_sum P Q :
  on_curve P -> on_curve Q ->
  let e := d * P.1 * Q.1 * P.2 * Q.2 in
  (padd P Q).1 * (1 + e) = P.1 * Q.2 + P.2 * Q.1 /\ (padd P Q).2 * (1 - e) = P.2 * Q.2 + P.1 * Q.1.
Proof.
  intros H1 H2. destruct (denominators P Q H1 H2) as [D1 D2]. destruct P as [x1 y1], Q as [x2 y2]. cbn [fst snd] in *.
  cbn [padd fst snd]. split; by apply div_mul.
Qed.

(** What satisfies the two equations is the sum. *)
Lemma padd_unique P Q (S : point) :
  on_curve P -> on_curve Q ->
  let e := d * P.1 * Q.1 * P.2 * Q.2 in
  S.1 * (1 + e) = P.1 * Q.2 + P.2 * Q.1 -> S.2 * (1 - e) = P.2 * Q.2 + P.1 * Q.1 -> S = padd P Q.
Proof.
  intros H1 H2 e E1 E2. destruct (denominators P Q H1 H2) as [D1 D2], (padd_sum P Q H1 H2) as [S1 S2].
  destruct S as [x y], (padd P Q) as [x' y']. cbn [fst snd] in *. fold e in D1, D2, S1, S2.
  f_equal; [apply (mul_cancel (1 + e))|apply (mul_cancel (1 - e))]; congruence.
Qed.

Lemma padd_on_curve P Q : on_curve P -> on_curve Q -> on_curve (padd P Q).
Proof.
  intros H1 H2. destruct (denominators P Q H1 H2) as [D1 D2], (padd_sum P Q H1 H2) as [S1 S2].
  destruct d_inverse as [c Hc]. destruct P as [x1 y1], Q as [x2 y2]. pose proof (curve_product c x1 y1 Hc H1) as C1.
  pose proof (curve_product c x2 y2 Hc H2) as C2. destruct (padd (x1, y1) (x2, y2)) as [x y]. cbn [fst snd] in *.
  set (e := d * x1 * x2 * y1 * y2) in *. set (A := x1 * y2 + y1 * x2) in *. set (B := y1 * y2 + x1 * x2) in *.
  set (w := (1 + e) * (1 - e)). assert (w * w <> 0) as Hw by (repeat apply mul_nonzero; done).
  cbn. apply (mul_cancel (w * w) _ _ Hw).
  transitivity (B * (1 + e) * (B * (1 + e)) - A * (1 - e) * (A * (1 - e))); [rewrite <- S1, <- S2; subst w; ring|].
  transitivity (w * w + d * A * A * B * B); [|rewrite <- S1, <- S2; subst w; ring].
  subst w A B e. ring [C1 C2 Hc].
Qed.

Lemma pzero_on_curve : on_curve pzero.
Proof. cbn. ring. Qed.

Lemma pneg_on_curve P : on_curve P -> on_curve (pneg P).
Proof. destruct P as [x y]. cbn. intros H. transitivity (y * y - x * x); [ring|]. rewrite H. ring. Qed.

Lemma padd_comm P Q : on_curve P -> on_curve Q -> padd P Q = padd Q P.
Proof.
  intros H1 H2. destruct (padd_sum Q P H2 H1) as [S1 S2]. symmetry. apply padd_unique; [done|done| |].
  - transitivity (Q.1 * P.2 + Q.2 * P.1); [rewrite <- S1|]; ring.
  - transitivity (Q.2 * P.2 + Q.1 * P.1); [rewrite <- S2|]; ring.
Qed.

Lemma padd_zero_l P : on_curve P -> padd pzero P = P.
Proof.
  intros H. symmetry. destruct P as [x y]. apply padd_unique; [apply pzero_on_curve|done|cbn; ring|cbn; ring].
Qed.

Lemma padd_neg P : on_curve P -> padd P (pneg P) = pzero.
Proof.
  intros H. symmetry. pose proof (pneg_on_curve P H) as Hn. destruct P as [x y]. apply padd_unique; [done|done|cbn; ring|].
  cbn in *. transitivity (1 + d * x * x * y * y); [ring|]. rewrite <- H. ring.
Qed.

(** The two ways to add three points, with the denominators cleared. *)
Lemma assoc_identities x1 y1 x2 y2 x3 y3 :
  on_curve (x1, y1) -> on_curve (x2, y2) -> on_curve (x3, y3) ->
  let A := x1 * y2 + y1 * x2 in let B := y1 * y2 + x1 * x2 in let e := d * x1 * x2 * y1 * y2 in
  let A' := x2 * y3 + y2 * x3 in let B' := y2 * y3 + x2 * x3 in let e' := d * x2 * x3 * y2 * y3 in
  (A * (1 - e) * y3 + B * (1 + e) * x3) * ((1 + e') * (1 - e') + d * x1 * A' * y1 * B')
  = (x1 * (B' * (1 + e')) + y1 * (A' * (1 - e'))) * ((1 + e) * (1 - e) + d * A * x3 * B * y3)
  /\ (B * (1 + e) * y3 + A * (1 - e) * x3) * ((1 + e') * (1 - e') - d * x1 * A' * y1 * B')
  = (y1 * (B' * (1 + e')) + x1 * (A' * (1 - e'))) * ((1 + e) * (1 - e) - d * A * x3 * B * y3).
Proof.
  intros H1 H2 H3. destruct d_inverse as [c Hc]. pose proof (curve_product c x1 y1 Hc H1) as C1.
  pose proof (curve_product c x2 y2 Hc H2) as C2. pose proof (curve_product c x3 y3 Hc H3) as C3. cbv zeta.
  split; ring [C1 C2 C3 Hc].
Qed.

(** Equal cross products give equal quotients. *)
Lemma quotient_transport (w n n' m m' s : F) :
  w <> 0 -> m <> 0 -> n * w * m' = n' * (w * m) -> s * m = n -> s * m' = n'.
Proof.
  intros Hw Hm E <-. apply (mul_cancel (w * m)); [by apply mul_nonzero|]. rewrite <- E. ring.
Qed.

Lemma padd_assoc P Q R :
  on_curve P -> on_curve Q -> on_curve R -> padd (padd P Q) R = padd P (padd Q R).
Proof.
  intros H1 H2 H3. pose proof (padd_on_curve P Q H1 H2) as H12. pose proof (padd_on_curve Q R H2 H3) as H23.
  destruct (padd_sum P Q H1 H2) as [S1 S2], (padd_sum Q R H2 H3) as [S3 S4], (padd_sum _ R H12 H3) as [S5 S6].
  destruct (denominators P Q H1 H2) as [D1 D2], (denominators Q R H2 H3) as [D3 D4], (denominators _ R H12 H3) as [D5 D6].
  apply padd_unique; [done|done| |];
    destruct P as [x1 y1], Q as [x2 y2], R as [x3 y3]; pose proof (assoc_identities x1 y1 x2 y2 x3 y3 H1 H2 H3) as [Ix Iy];
    destruct (padd (padd (x1, y1) (x2, y2)) (x3, y3)) as [x y]; clear H12 H23;
    destruct (padd (x1, y1) (x2, y2)) as [x12 y12], (padd (x2, y2) (x3, y3)) as [x23 y23]; cbn [fst snd] in *;
    cbv zeta in *; set (e := d * x1 * x2 * y1 * y2) in *; set (e' := d * x2 * x3 * y2 * y3) in *;
    set (w := (1 + e) * (1 - e) * ((1 + e') * (1 - e'))); assert (w <> 0) as Hw by (repeat apply mul_nonzero; done).
  - apply (quotient_transport w (x12 * y3 + y12 * x3) _ (1 + d * x12 * x3 * y12 * y3)); [done|done| |done].
    rewrite <- S1, <- S2, <- S3, <- S4 in Ix. subst w. transitivity ((x12 * (1 + e) * (1 - e) * y3 + y12 * (1 - e) * (1 + e) * x3) *
       ((1 + e') * (1 - e') + d * x1 * (x23 * (1 + e')) * y1 * (y23 * (1 - e')))); [ring|rewrite Ix; ring].
  - apply (quotient_transport w (y12 * y3 + x12 * x3) _ (1 - d * x12 * x3 * y12 * y3)); [done|done| |done].
    rewrite <- S1, <- S2, <- S3, <- S4 in Iy. subst w. transitivity ((y12 * (1 - e) * (1 + e) * y3 + x12 * (1 + e) * (1 - e) * x3) *
       ((1 + e') * (1 - e') - d * x1 * (x23 * (1 + e')) * y1 * (y23 * (1 - e')))); [ring|rewrite Iy; ring].
Qed.

(** ** Extended coordinates *)

(** The four coordinates stand for the point [P] of the curve. *)
Record extended (x y z t : F) (P : point) : Prop := {
  e_curve : on_curve P;
  e_z : z <> 0;
  e_x : x = P.1 * z;
  e_y : y = P.2 * z;
  e_t : t = P.1 * P.2 * z
}.

Lemma one_nonzero : (1 : F) <> 0.
Proof. intros E. apply two_nonzero. rewrite E. ring. Qed.

Lemma extended_zero : extended 0 1 1 0 pzero.
Proof. split; cbn [pzero fst snd]; try ring; [apply pzero_on_curve|apply one_nonzero]. Qed.

Lemma extended_affine (x y : F) : on_curve (x, y) -> extended x y 1 (x * y) (x, y).
Proof. intros H. split; cbn [fst snd]; try ring; [done|apply one_nonzero]. Qed.

(** The four products both formulas end in. *)
Lemma extended_products (e f g h : F) (S : point) :
  on_curve S -> f <> 0 -> g <> 0 -> e = S.1 * g -> h = S.2 * f -> extended (e * f) (g * h) (f * g) (e * h) S.
Proof. intros Hc Hf Hg -> ->. split; try ring; [done|by apply mul_nonzero]. Qed.

Lemma extended_add x1 y1 z1 t1 x2 y2 z2 t2 P Q :
  extended x1 y1 z1 t1 P -> extended x2 y2 z2 t2 Q ->
  let a := (y1 - x1) * (y2 - x2) in
  let b := (y1 + x1) * (y2 + x2) in
  let c := t1 * t2 * (d + d) in
  let m := (z1 + z1) * z2 in
  extended ((b - a) * (m - c)) ((m + c) * (b + a)) ((m - c) * (m + c)) ((b - a) * (b + a)) (padd P Q).
Proof.
  intros [Cp Zp -> -> ->] [Cq Zq -> -> ->]. cbv zeta. destruct (denominators P Q Cp Cq) as [D1 D2], (padd_sum P Q Cp Cq) as [S1 S2].
  set (z := (1 + 1) * z1 * z2). assert (z <> 0) as Hz by (repeat apply mul_nonzero; [apply two_nonzero|done|done]).
  set (e := d * P.1 * Q.1 * P.2 * Q.2) in *.
  apply extended_products; [by apply padd_on_curve|..].
  - intros E. apply (mul_nonzero z (1 - e) Hz D2). rewrite <- E. subst z e. ring.
  - intros E. apply (mul_nonzero z (1 + e) Hz D1). rewrite <- E. subst z e. ring.
  - transitivity ((padd P Q).1 * (1 + e) * z); [rewrite S1; subst z; ring|subst z e; ring].
  - transitivity ((padd P Q).2 * (1 - e) * z); [rewrite S2; subst z; ring|subst z e; ring].
Qed.

Lemma extended_double x y z t P :
  extended x y z t P ->
  let a := x * x in let b := y * y in let c := z * z + z * z in
  let e := (x + y) * (x + y) - a - b in
  let g := Zmod.opp a + b in let f := g - c in let h := Zmod.opp a - b in
  extended (e * f) (g * h) (f * g) (e * h) (padd P P).
Proof.
  intros [Cp Zp -> -> _]. cbv zeta. destruct (denominators P P Cp Cp) as [D1 D2], (padd_sum P P Cp Cp) as [S1 S2].
  set (w := z * z). assert (w <> 0) as Hz by (by apply mul_nonzero).
  set (e := d * P.1 * P.1 * P.2 * P.2) in *. assert (P.2 * P.2 - P.1 * P.1 = 1 + e) as Ec.
  { destruct P as [px py]. cbn in Cp |- *. rewrite Cp. subst e. cbn. ring. }
  apply extended_products; [by apply padd_on_curve|..].
  - intros E. apply (mul_nonzero w (1 - e) Hz D2). transitivity (w * (1 + 1 - (1 + e))); [ring|].
    rewrite <- Ec. transitivity (Zmod.opp (0 : F)); [rewrite <- E; subst w; ring|ring].
  - intros E. apply (mul_nonzero w (1 + e) Hz D1). rewrite <- Ec, <- E. subst w. ring.
  - transitivity ((padd P P).1 * (1 + e) * w); [rewrite S1; subst w; ring|rewrite <- Ec; subst w; ring].
  - transitivity (Zmod.opp ((padd P P).2 * (1 - e) * w)); [rewrite S2; subst w; ring|].
    replace (1 - e) with (1 + 1 - (P.2 * P.2 - P.1 * P.1)) by (rewrite Ec; ring). subst w. ring.
Qed.

(** The coordinates of the zero. *)
Lemma extended_is_zero x y z t P : extended x y z t P -> x = 0 /\ y = z <-> P = pzero.
Proof.
  intros [_ Hz -> -> _]. destruct P as [a b]. unfold pzero. cbn [fst snd]. split.
  - intros [Ex Ey]. f_equal; apply (mul_cancel z); try done; [rewrite Ex; ring|rewrite Ey; ring].
  - intros [= -> ->]. split; ring.
Qed.

(** ** Multiples of a point *)
Definition pmul (n : Z) (P : point) : point :=
  match n with Zpos k => Pos.iter (padd P) pzero k | _ => pzero end.

Lemma pmul_succ n P : (0 <= n)%Z -> pmul (Z.succ n) P = padd P (pmul n P).
Proof.
  destruct n as [|k|k]; [done| |lia]. intros _. rewrite <- Pos2Z.inj_succ. cbn [pmul]. apply Pos.iter_succ.
Qed.

Lemma pmul_on_curve n P : on_curve P -> on_curve (pmul n P).
Proof.
  intros H. destruct (Z.le_gt_cases 0 n) as [Hn|Hn]; [|destruct n; try lia; apply pzero_on_curve].
  pattern n. apply natlike_ind; [apply pzero_on_curve| |done]. intros m Hm IH. rewrite pmul_succ by done. by apply padd_on_curve.
Qed.

Lemma pmul_1 P : on_curve P -> pmul 1 P = P.
Proof. intros H. change 1%Z with (Z.succ 0). rewrite pmul_succ by done. by rewrite padd_comm, padd_zero_l by (done || apply pzero_on_curve). Qed.

Lemma pmul_add m n P : (0 <= m)%Z -> (0 <= n)%Z -> on_curve P -> pmul (m + n) P = padd (pmul m P) (pmul n P).
Proof.
  intros Hm Hn H. revert m Hm. apply (natlike_ind (fun m => pmul (m + n) P = padd (pmul m P) (pmul n P))).
  - rewrite Z.add_0_l. symmetry. by apply padd_zero_l, pmul_on_curve.
  - intros m Hm IH. rewrite Z.add_succ_l, !pmul_succ, IH by lia. symmetry. by apply padd_assoc; try apply pmul_on_curve.
Qed.

Lemma pmul_zero n : (0 <= n)%Z -> pmul n pzero = pzero.
Proof.
  revert n. apply (natlike_ind (fun n => pmul n pzero = pzero)); [done|]. intros n Hn IH. rewrite pmul_succ, IH by done.
  apply padd_zero_l, pzero_on_curve.
Qed.

Lemma pmul_mul m n P : (0 <= m)%Z -> (0 <= n)%Z -> on_curve P -> pmul (m * n) P = pmul m (pmul n P).
Proof.
  intros Hm Hn H. revert m Hm. apply (natlike_ind (fun m => pmul (m * n) P = pmul m (pmul n P))); [done|].
  intros m Hm IH. rewrite Z.mul_succ_l, Z.add_comm, pmul_add, IH, pmul_succ by (done || lia). done.
Qed.

(** Multiples of a point whose [order]-th multiple is zero. *)
Section Order.
Context (order : Z) (P : point) (Hpos : (0 < order)%Z) (Hc : on_curve P) (Hz : pmul order P = pzero).

Lemma pmul_mod n : (0 <= n)%Z -> pmul (n mod order) P = pmul n P.
Proof.
  intros Hn. pose proof (Z.mod_pos_bound n order Hpos) as Hm. assert (0 <= n / order)%Z as Hq' by (apply Z.div_pos; lia).
  rewrite (Z.div_mod n order) at 2 by lia. rewrite Z.mul_comm, pmul_add, pmul_mul, Hz, pmul_zero by (done || lia).
  symmetry. by apply padd_zero_l, pmul_on_curve.
Qed.

Lemma pmul_order n : Z.prime order -> P <> pzero -> (0 <= n)%Z -> pmul n P = pzero -> (order | n)%Z.
Proof.
  intros Hp Hne Hn Hzero. destruct (Znumtheory.Zdivide_dec order n) as [|Hd]; [done|exfalso].
  apply Z.coprime_prime_l in Hd; [|done]. apply Z.Bezout_coprime in Hd as (u & v & Huv).
  pose proof (Z.mod_pos_bound v order Hpos) as Hv. pose proof (Z.prime_ge_2 _ Hp).
  assert ((v mod order * n) mod order = 1)%Z as Hinv.
  { rewrite Z.mul_mod_idemp_l by lia. replace (v * n)%Z with (1 + (- u) * order)%Z by lia.
    rewrite Z_mod_plus_full. apply Z.mod_small. lia. }
  apply Hne. rewrite <- (pmul_1 P Hc), <- Hinv, pmul_mod, pmul_mul, Hzero by (done || lia || nia). apply pmul_zero. lia.
Qed.

End Order.

End Curve.

Arguments point q : clear implicits.
Arguments on_curve {q} d P.
Arguments padd {q} d P Q.
Arguments pmul {q} d n P.
Arguments pzero {q}.
Arguments extended {q} d x y z t P.
