(* ===== verification/Curve25519.v ===== *)
(** * Points of edwards25519

    Models the third part of [src/ed25519.cpp]: points in extended coordinates, their addition
    and doubling, the compressed encoding and the four bit window.  Every operation is proved
    to compute in the group of Edwards.v. *)
From Stdlib Require Import ZArith Lia Zmod Field.
From stdpp Require Import base numbers list.
From S2P Require Import Prelude Primes Field25519 Scalar25519 Edwards.

Record Point := mk_point { px : Fe; py : Fe; pz : Fe; pt : Fe }.

Definition point_identity : Point := mk_point kZero kOne kOne kZero.

Definition point_add (p q : Point) : Point :=
  let a := fe_mul (fe_sub (py p) (px p)) (fe_sub (py q) (px q)) in
  let b := fe_mul (fe_add (py p) (px p)) (fe_add (py q) (px q)) in
  let c := fe_mul (fe_mul (pt p) (pt q)) kD2 in
  let d := fe_mul (fe_add (pz p) (pz p)) (pz q) in
  let e := fe_sub b a in
  let f := fe_sub d c in
  let g := fe_add d c in
  let h := fe_add b a in
  mk_point (fe_mul e f) (fe_mul g h) (fe_mul f g) (fe_mul e h).

Definition point_double (p : Point) : Point :=
  let a := fe_sqr (px p) in
  let b := fe_sqr (py p) in
  let c := fe_add (fe_sqr (pz p)) (fe_sqr (pz p)) in
  let d := fe_neg a in
  let e := fe_sub (fe_sub (fe_sqr (fe_add (px p) (py p))) a) b in
  let g := fe_add d b in
  let f := fe_sub g c in
  let h := fe_sub d b in
  mk_point (fe_mul e f) (fe_mul g h) (fe_mul f g) (fe_mul e h).

Definition point_is_identity (p : Point) : bool := fe_is_zero (px p) && fe_equal (py p) (pz p).

Definition point_equal (p q : Point) : bool :=
  fe_equal (fe_mul (px p) (pz q)) (fe_mul (px q) (pz p)) && fe_equal (fe_mul (py p) (pz q)) (fe_mul (py q) (pz p)).

(** The sign bit of [x] goes into the last byte. *)
Definition point_to_bytes (p : Point) : list Z :=
  let z_inverse := fe_invert (pz p) in
  let x := fe_mul (px p) z_inverse in
  let y := fe_mul (py p) z_inverse in
  let out := fe_to_bytes y in
  <[31%nat := Z.lor (nth 31 out 0) (Z.shiftl (Z.land (nth 0 x 0) 1) 7)]> out.

(** A square root of [u / v], when there is one: the candidate, or the candidate times a root
    of -1. *)
Definition recover_x (u v : Fe) : option Fe :=
  let v3 := fe_mul (fe_sqr v) v in
  let v7 := fe_mul (fe_sqr v3) v in
  let x := fe_mul (fe_pow_p58 (fe_mul u v7)) (fe_mul u v3) in
  let vx2 := fe_mul v (fe_sqr x) in
  if fe_equal vx2 u then Some x
  else if fe_equal vx2 (fe_neg u) then Some (fe_mul x kSqrtM1) else None.

Definition point_from_bytes (data : list Z) : option Point :=
  let sign := Z.shiftr (nth 31 data 0) 7 in
  let y_bytes := <[31%nat := Z.land (nth 31 data 0) 0x7F]> data in
  let y := fe_from_bytes y_bytes in
  if negb (fe_below_p y) then None
  else
    let y2 := fe_sqr y in
    match recover_x (fe_sub y2 kOne) (fe_add (fe_mul kD y2) kOne) with
    | None => None
    | Some x =>
        if fe_is_zero x && negb (sign =? 0) then None
        else
          let x := if negb (Z.land (nth 0 x 0) 1 =? sign) then fe_neg x else x in
          Some (mk_point x y kOne (fe_mul x y))
    end.

(** The table of the window: entry [i] is the [i]-th multiple. *)
Fixpoint small_multiples_from (base : Point) (i count : nat) (table : list Point) : list Point :=
  match count with
  | O => table
  | S count' =>
      let entry := if Nat.even i then point_double (nth (i / 2) table point_identity)
                   else point_add (nth (i - 1) table point_identity) base in
      small_multiples_from base (S i) count' (table ++ [entry])
  end.

Definition point_small_multiples (base : Point) : list Point :=
  small_multiples_from base 2 14 [point_identity; base].

(** The loop over the windows below [window], the most significant first. *)
Fixpoint window_loop (bytes : list Z) (table : list Point) (window : nat) (result : Point) : Point :=
  match window with
  | O => result
  | S w =>
      let result := if negb (w =? 63)%nat
                    then point_double (point_double (point_double (point_double result))) else result in
      let packed := nth (w / 2) bytes 0 in
      let digit := if Nat.even w then Z.land packed 0x0F else Z.shiftr packed 4 in
      let result := if negb (digit =? 0) then point_add result (nth (Z.to_nat digit) table point_identity) else result in
      window_loop bytes table w result
  end.

Definition point_window_mul (scalar : Scalar) (table : list Point) : Point :=
  window_loop (scalar_to_bytes scalar) table 64 point_identity.

Definition kBasePointBytes : list Z := 0x58 :: replicate 31 0x66.

Definition base_point : Point := default point_identity (point_from_bytes kBasePointBytes).

Definition base_multiples : list Point := point_small_multiples base_point.

Definition point_scalar_mul_base (scalar : Scalar) : Point := point_window_mul scalar base_multiples.

Definition point_scalar_mul (scalar : Scalar) (base : Point) : Point :=
  point_window_mul scalar (point_small_multiples base).

(** ** The curve *)
#[local] Open Scope Zmod_scope.

Definition curve_d : F := fe kD.
Definition root_minus_one : F := fe kSqrtM1.

#[export] Instance field_prime_is_prime : Z.prime field_prime := field_prime_prime.

Add Field field25519 : (Zmod.field_theory field_prime field_prime_prime).

Lemma root_minus_one_square : root_minus_one * root_minus_one = Zmod.opp 1.
Proof.
  unfold root_minus_one. rewrite <- fe_mul_eq, <- fe_kOne, <- fe_neg_eq by eauto with fe.
  assert (fe_mul kSqrtM1 kSqrtM1 = fe_neg kOne) as -> by (vm_compute; reflexivity). done.
Qed.

Lemma two_nonzero25519 : (1 + 1 : F) <> 0.
Proof.
  rewrite <- fe_kOne, <- fe_kZero, <- fe_add_eq by eauto with fe. intros E.
  assert (fe_add kOne kOne = kZero) as Hc by (apply fe_inj; eauto with fe). vm_compute in Hc. discriminate Hc.
Qed.

(** Euler's criterion for [d]. *)
Lemma d_power : Zmod.pow curve_d ((field_prime - 1) / 2) = Zmod.opp 1.
Proof.
  apply Zmod.to_Z_inj. rewrite Zmod.to_Z_pow_nonneg_r by (vm_compute; discriminate). unfold curve_d. rewrite fe_to_Z by eauto with fe.
  rewrite <- pow_mod_exact by (vm_compute; discriminate). rewrite <- fe_kOne, <- fe_neg_eq, fe_to_Z by eauto with fe.
  vm_compute. reflexivity.
Qed.

Lemma d_nonsquare25519 : forall r : F, r * r <> curve_d.
Proof.
  intros r E. pose proof d_power as Hd. rewrite <- E in Hd. apply two_nonzero25519. destruct (Zmod.eqb_spec r 0) as [->|Hr].
  - rewrite Zmod.mul_0_l, Zmod.pow_0_l in Hd by (vm_compute; discriminate).
    transitivity ((0 : F) - Zmod.opp 1 - Zmod.opp 1); [ring|rewrite <- Hd; ring].
  - rewrite <- Zmod.pow_2_r, <- Zmod.pow_mul_r_nonneg in Hd by (vm_compute; discriminate).
    change (2 * ((field_prime - 1) / 2))%Z with (Z.pred field_prime) in Hd.
    rewrite (Zmod.fermat_nz r Hr field_prime_prime) in Hd. transitivity ((1 : F) - Zmod.opp 1); [ring|rewrite <- Hd; ring].
Qed.

#[export] Instance curve25519 : EdwardsCurve field_prime curve_d.
Proof.
  split; [apply field_prime_prime|exists root_minus_one; apply root_minus_one_square|apply d_nonsquare25519|apply two_nonzero25519].
Qed.

(** ** Extended coordinates *)

(** The four coordinates of [p] are canonical and stand for the point [P] of the curve. *)
Record represents (p : Point) (P : point field_prime) : Prop := {
  rx_ok : fe_ok (px p); ry_ok : fe_ok (py p); rz_ok : fe_ok (pz p); rt_ok : fe_ok (pt p);
  r_extended : extended curve_d (fe (px p)) (fe (py p)) (fe (pz p)) (fe (pt p)) P
}.

#[export] Hint Resolve rx_ok ry_ok rz_ok rt_ok : fe.

Lemma r_curve p P : represents p P -> on_curve curve_d P.
Proof. intros [_ _ _ _ []]. done. Qed.
Lemma r_z p P : represents p P -> fe (pz p) <> 0.
Proof. intros [_ _ _ _ []]. done. Qed.
Lemma r_x p P : represents p P -> fe (px p) = P.1 * fe (pz p).
Proof. intros [_ _ _ _ []]. done. Qed.
Lemma r_y p P : represents p P -> fe (py p) = P.2 * fe (pz p).
Proof. intros [_ _ _ _ []]. done. Qed.

Ltac fe_push :=
  repeat first [rewrite fe_mul_eq by eauto 20 with fe|rewrite fe_add_eq by eauto 20 with fe
    |rewrite fe_sub_eq by eauto 20 with fe|rewrite fe_sqr_eq by eauto 20 with fe|rewrite fe_neg_eq by eauto 20 with fe].

Lemma fe_kD2 : fe kD2 = curve_d + curve_d.
Proof.
  unfold curve_d. rewrite <- fe_add_eq by eauto with fe. assert (kD2 = fe_add kD kD) as -> by (vm_compute; reflexivity). done.
Qed.

Lemma identity_represents : represents point_identity pzero.
Proof. split; cbn [point_identity px py pz pt]; eauto with fe. rewrite fe_kOne, fe_kZero. apply extended_zero. Qed.

(** A point decoded to its affine coordinates. *)
Lemma affine_represents x y :
  fe_ok x -> fe_ok y -> on_curve curve_d (fe x, fe y) -> represents (mk_point x y kOne (fe_mul x y)) (fe x, fe y).
Proof. intros Hx Hy Hc. split; cbn [px py pz pt]; eauto with fe. rewrite fe_kOne, fe_mul_eq by done. by apply extended_affine. Qed.

Lemma point_add_represents p q P Q :
  represents p P -> represents q Q -> represents (point_add p q) (padd curve_d P Q).
Proof.
  intros [? ? ? ? Hp] [? ? ? ? Hq]. pose proof (extended_add _ _ _ _ _ _ _ _ P Q Hp Hq) as He.
  unfold point_add. cbv zeta in *. split; cbn [px py pz pt]; auto 20 with fe. fe_push. rewrite fe_kD2. exact He.
Qed.

Lemma point_double_represents p P : represents p P -> represents (point_double p) (padd curve_d P P).
Proof.
  intros [? ? ? ? Hp]. pose proof (extended_double _ _ _ _ P Hp) as He.
  unfold point_double. cbv zeta in *. split; cbn [px py pz pt]; auto 20 with fe. fe_push. exact He.
Qed.

(** ** Comparisons *)
Lemma represents_is_identity p P : represents p P -> point_is_identity p = true <-> P = pzero.
Proof.
  intros Hp. unfold point_is_identity. rewrite andb_true_iff, fe_is_zero_exact, fe_equal_exact by eauto with fe.
  apply (extended_is_zero _ _ _ _ _ (r_extended _ _ Hp)).
Qed.

Lemma represents_equal p q P Q : represents p P -> represents q Q -> point_equal p q = true <-> P = Q.
Proof.
  intros Hp Hq. unfold point_equal. rewrite andb_true_iff, !fe_equal_exact by eauto with fe. fe_push.
  rewrite (r_x _ _ Hp), (r_y _ _ Hp), (r_x _ _ Hq), (r_y _ _ Hq).
  set (z := fe (pz p) * fe (pz q)). assert (z <> 0) as Hz by (apply mul_nonzero; [apply (r_z _ _ Hp)|apply (r_z _ _ Hq)]).
  destruct P as [x1 y1], Q as [x2 y2]. cbn [fst snd]. split.
  - intros [Ex Ey]. f_equal; apply (mul_cancel z _ _ Hz); subst z; [transitivity (x1 * fe (pz p) * fe (pz q))|transitivity (y1 * fe (pz p) * fe (pz q))];
      [ring|rewrite Ex; ring|ring|rewrite Ey; ring].
  - intros [= -> ->]. split; ring.
Qed.
