(* ===== verification/Encode25519.v ===== *)
(** * The encoding of points

    Proves the two directions of the compressed encoding of Curve25519.v: decoding what
    [point_to_bytes] wrote gives the point back, and what decodes is written the same way. *)
From Stdlib Require Import ZArith Lia Zmod Field.
From stdpp Require Import base numbers list.
From S2P Require Import Prelude Primes Field25519 Edwards Curve25519.
#[local] Open Scope Zmod_scope.

Add Field field25519 : (Zmod.field_theory field_prime field_prime_prime).

(** ** The encoding *)

(** The affine coordinates the encoding is computed from. *)
Lemma affine_coordinates p P :
  represents p P ->
  let x := fe_mul (px p) (fe_invert (pz p)) in let y := fe_mul (py p) (fe_invert (pz p)) in
  fe_ok x /\ fe_ok y /\ fe x = P.1 /\ fe y = P.2.
Proof.
  intros Hp. destruct (fe_invert_exact (pz p) (rz_ok _ _ Hp)) as [Hi Ei]. cbv zeta.
  pose proof (Zmod.mul_inv_same_l_prime (fe (pz p)) field_prime_prime (r_z _ _ Hp)) as Hz.
  split_and!; [by apply fe_mul_ok; [apply Hp|]..| |].
  - rewrite fe_mul_eq, Ei, (r_x _ _ Hp) by (done || apply Hp). transitivity (P.1 * (Zmod.inv (fe (pz p)) * fe (pz p))); [ring|rewrite Hz; ring].
  - rewrite fe_mul_eq, Ei, (r_y _ _ Hp) by (done || apply Hp). transitivity (P.2 * (Zmod.inv (fe (pz p)) * fe (pz p))); [ring|rewrite Hz; ring].
Qed.

(** The encoding of canonical affine coordinates. *)
Definition encode_affine (x y : Fe) : list Z :=
  let out := fe_to_bytes y in <[31%nat := Z.lor (nth 31 out 0%Z) (Z.shiftl (Z.land (nth 0 x 0%Z) 1%Z) 7%Z)]> out.

Lemma point_to_bytes_affine p P x y :
  represents p P -> fe_ok x -> fe_ok y -> fe x = P.1 -> fe y = P.2 -> point_to_bytes p = encode_affine x y.
Proof.
  intros Hp Hx Hy Ex Ey. destruct (affine_coordinates p P Hp) as (Hx' & Hy' & Ex' & Ey'). unfold point_to_bytes. cbv zeta.
  rewrite (fe_inj _ x Hx' Hx), (fe_inj _ y Hy' Hy) by congruence. done.
Qed.

(** The lowest bit of an element, and of its opposite. *)
Lemma parity_exact x : fe_ok x -> (Z.land (nth 0 x 0) 1 = value x mod 2)%Z.
Proof.
  intros Hx. change 1%Z with (Z.ones 1). rewrite Z.land_ones by lia. change (2 ^ 1)%Z with 2%Z.
  destruct x as [|x0 x]; [done|]. rewrite num_cons. cbn [nth].
  replace (x0 + 2 ^ 32 * value x)%Z with (x0 + (2 ^ 31 * value x) * 2)%Z by lia. by rewrite Z_mod_plus_full.
Qed.

Lemma parity_neg x : fe_ok x -> fe x <> 0 -> (value (fe_neg x) mod 2 = 1 - value x mod 2)%Z.
Proof.
  intros Hx Hn. pose proof (fe_neg_ok x Hx) as Hx'. pose proof (fe_range x Hx) as R. pose proof (fe_range _ Hx') as R'.
  rewrite <- (fe_to_Z (fe_neg x)), fe_neg_eq, Zmod.to_Z_opp, fe_to_Z by done.
  assert (value x <> 0)%Z as Hv by (intros E; apply Hn; unfold fe; by rewrite E, Zmod.of_Z_0).
  replace ((- value x) mod field_prime)%Z with (field_prime - value x)%Z by (apply (Z.mod_unique _ _ (-1)); lia).
  assert (field_prime mod 2 = 1)%Z as Hodd by reflexivity.
  rewrite Zminus_mod, Hodd. pose proof (Z.mod_pos_bound (value x) 2 ltac:(lia)).
  assert (value x mod 2 = 0 \/ value x mod 2 = 1)%Z as [-> | ->] by lia; reflexivity.
Qed.

(** ** The square root of the decoder *)
Lemma v_nonzero (y : F) : curve_d * (y * y) + 1 <> 0.
Proof.
  intros E. assert (curve_d * (y * y) = Zmod.opp 1) as E1 by (transitivity (curve_d * (y * y) + 1 - 1); [ring|rewrite E; ring]).
  destruct (Zmod.eqb_spec y 0) as [->|Hy].
  - apply two_nonzero25519. transitivity ((0 : F) - (curve_d * (0 * 0) + 1) + (1 + 1) ); [|ring [E]].
    rewrite E. ring.
  - apply (d_nonsquare25519 (Zmod.mdiv root_minus_one y)). apply (mul_cancel (d := curve_d) (y * y)); [by apply (mul_nonzero (d := curve_d))|].
    rewrite E1, <- root_minus_one_square. by field.
Qed.

(** The curve equation solved for the square of [x]. *)
Lemma curve_solved (x y : F) : on_curve curve_d (x, y) <-> (curve_d * (y * y) + 1) * (x * x) = y * y - 1.
Proof.
  cbn. split; intros H.
  - transitivity (1 + curve_d * x * x * y * y - 1 + x * x); [ring|]. rewrite <- H. ring.
  - transitivity (y * y - 1 + 1 - x * x); [ring|]. rewrite <- H. ring.
Qed.

Lemma pow_square (t : F) (n : Z) : (0 <= n)%Z -> Zmod.pow (t * t) n = Zmod.pow t (2 * n).
Proof. intros Hn. rewrite <- Zmod.pow_2_r, <- Zmod.pow_mul_r_nonneg by lia. done. Qed.

(** Half of the order of the units gives a sign. *)
Lemma half_power_sign (t : F) : t <> 0 -> Zmod.pow t ((field_prime - 1) / 2) = 1 \/ Zmod.pow t ((field_prime - 1) / 2) = Zmod.opp 1.
Proof.
  intros Ht. set (s := Zmod.pow t _). assert (s * s = 1) as Hs.
  { subst s. rewrite <- Zmod.pow_add_r_nonneg by (vm_compute; discriminate).
    change ((field_prime - 1) / 2 + (field_prime - 1) / 2)%Z with (Z.pred field_prime). apply Zmod.fermat_nz; [done|apply field_prime_prime]. }
  destruct (mul_zero (d := curve_d) (s - 1) (s + 1)) as [E|E]; [ring [Hs]|left|right].
  - transitivity (s - 1 + 1); [ring|rewrite E; ring].
  - transitivity (s + 1 - 1); [ring|rewrite E; ring].
Qed.

(** The candidate is a root of [u / v], or of [- u / v], when there is one. *)
Lemma root_candidate (u v x : F) :
  v <> 0 -> v * (x * x) = u ->
  let v3 := v * v * v in let v7 := v3 * v3 * v in
  let r := Zmod.pow (u * v7) (2 ^ 252 - 3) * (u * v3) in
  v * (r * r) = u \/ v * (r * r) = Zmod.opp u.
Proof.
  intros Hv E v3 v7 r. destruct (Zmod.eqb_spec x 0) as [->|Hx].
  { left. assert (u = 0) as Eu by (rewrite <- E; ring). subst r. rewrite Eu. ring. }
  set (t := x * (v * v * v * v)). assert (t <> 0) as Ht by (repeat apply (mul_nonzero (d := curve_d)); done).
  assert (u * v7 = t * t) as Et by (subst t v7 v3; rewrite <- E; ring).
  set (w := Zmod.pow (t * t) (2 ^ 252 - 3)).
  assert (v * (r * r) = u * Zmod.pow t ((field_prime - 1) / 2)) as Er.
  { assert (w * w * (t * t) = Zmod.pow t ((field_prime - 1) / 2)) as <-.
    { subst w. rewrite pow_square by (vm_compute; discriminate). rewrite <- Zmod.pow_add_r_nonneg by (vm_compute; discriminate).
      rewrite <- (Zmod.pow_2_r t), <- Zmod.pow_add_r_nonneg by (vm_compute; discriminate). reflexivity. }
    subst r. rewrite Et. fold w. rewrite <- Et. subst v7 v3. ring. }
  rewrite Er. destruct (half_power_sign t Ht) as [-> | ->]; [left|right]; ring.
Qed.

Definition digits_ok (data : list Z) : Prop := digits 8 data /\ length data = 32%nat.

(** The bytes of the second coordinate: the sign bit cleared. *)
Lemma cleared_sign data :
  digits_ok data ->
  let y_bytes := <[31%nat := Z.land (nth 31 data 0%Z) 0x7F%Z]> data in
  digits_ok y_bytes /\ fe_wide (fe_from_bytes y_bytes) /\ fe_to_bytes (fe_from_bytes y_bytes) = y_bytes
  /\ (0 <= nth 31 data 0 < 2 ^ 8)%Z.
Proof.
  intros [Hd Hn]. cbv zeta. assert (0 <= nth 31 data 0 < 2 ^ 8)%Z as Hb.
  { unfold digits in Hd. rewrite Forall_forall in Hd. apply Hd. apply list_elem_of_In, nth_In. lia. }
  set (b := Z.land _ _). assert (0 <= b < 2 ^ 8)%Z as Hb'.
  { subst b. change 0x7F%Z with (Z.ones 7). rewrite Z.land_ones by lia. pose proof (Z.mod_pos_bound (nth 31 data 0%Z) (2 ^ 7)%Z ltac:(lia)). lia. }
  assert (digits_ok (<[31%nat := b]> data)) as [Hd' Hn'].
  { split; [by apply Forall_insert|by rewrite length_insert]. }
  destruct (limbs_of_bytes_exact 8 _ Hd' Hn') as (Hl & Hlen & Hv). unfold fe_from_bytes. split_and!; [done|by split| |apply Hb..].
  destruct (bytes_of_limbs_exact _ Hl) as (Hd2 & Hn2 & Hv2).
  apply (num_inj 8); [lia|done|done|by rewrite Hn2, Hlen|]. by rewrite Hv2, Hv.
Qed.

(** ** Decoding *)
Lemma fe_pow_p58_eq a : fe_ok a -> fe (fe_pow_p58 a) = Zmod.pow (fe a) (2 ^ 252 - 3).
Proof. intros Ha. apply (power_eq _ _ _ (fe_pow_p58_exact a Ha)). Qed.

Lemma recover_x_exact u v :
  fe_ok u -> fe_ok v -> fe v <> 0 ->
  match recover_x u v with
  | Some x => fe_ok x /\ fe v * (fe x * fe x) = fe u
  | None => forall x : F, fe v * (x * x) <> fe u
  end.
Proof.
  intros Hu Hv Hn. unfold recover_x. cbv zeta.
  set (v3 := fe_mul (fe_sqr v) v). assert (fe_ok v3) as H3 by (subst v3; eauto with fe).
  set (v7 := fe_mul (fe_sqr v3) v). assert (fe_ok v7) as H7 by (subst v7; eauto with fe).
  set (x := fe_mul _ (fe_mul u v3)). assert (fe_ok x) as Hx by (subst x; eauto with fe).
  assert (fe x = Zmod.pow (fe u * fe v7) (2 ^ 252 - 3) * (fe u * fe v3)) as Ex.
  { subst x. rewrite fe_mul_eq, fe_pow_p58_eq by eauto with fe. by fe_push. }
  destruct (fe_equal (fe_mul v (fe_sqr x)) u) eqn:Eq1.
  { apply fe_equal_exact in Eq1; eauto with fe. revert Eq1. fe_push. done. }
  destruct (fe_equal (fe_mul v (fe_sqr x)) (fe_neg u)) eqn:Eq2.
  - apply fe_equal_exact in Eq2; eauto with fe. revert Eq2. fe_push. intros Eq2. split; [eauto with fe|]. fold root_minus_one.
    transitivity (fe v * (fe x * fe x) * (root_minus_one * root_minus_one)); [ring|]. rewrite Eq2, root_minus_one_square. ring.
  - assert (fe v3 = fe v * fe v * fe v) as E3 by (subst v3; by fe_push).
    assert (fe v7 = fe v3 * fe v3 * fe v) as E7 by (subst v7; by fe_push). rewrite E7, E3 in Ex.
    rewrite <- not_true_iff_false, fe_equal_exact in Eq1, Eq2 by eauto with fe. revert Eq1 Eq2. fe_push. rewrite Ex.
    intros Eq1 Eq2 r Er. by destruct (root_candidate (fe u) (fe v) r Hn Er).
Qed.

(** The bit operations on the last byte. *)
Lemma split_byte b : (0 <= b < 2 ^ 8)%Z -> Z.lor (Z.land b 0x7F) (Z.shiftl (Z.shiftr b 7) 7) = b.
Proof.
  intros Hb. change 0x7F%Z with (Z.ones 7). pose proof (Z.mod_pos_bound b (2 ^ 7)%Z ltac:(lia)).
  rewrite Z.land_ones, Z.lor_comm, lor_shiftl_add by lia. rewrite Z.shiftr_div_pow2 by lia. pose proof (Z.div_mod b (2 ^ 7)%Z ltac:(lia)). lia.
Qed.

Lemma join_byte b s : (0 <= b < 2 ^ 7)%Z -> (0 <= s <= 1)%Z ->
  let c := Z.lor b (Z.shiftl s 7) in (0 <= c < 2 ^ 8)%Z /\ Z.land c 0x7F = b /\ Z.shiftr c 7 = s.
Proof.
  intros Hb Hs. cbv zeta. rewrite Z.lor_comm, lor_shiftl_add by lia. change 0x7F%Z with (Z.ones 7). rewrite Z.land_ones, Z.shiftr_div_pow2 by lia.
  split_and!; [lia|lia|..].
  - rewrite Z.add_comm, Z_mod_plus_full. apply Z.mod_small. lia.
  - rewrite Z.div_add_l, Z.div_small by lia. lia.
Qed.

(** The last of 32 bytes of a canonical element. *)
Lemma last_byte_small y : fe_ok y -> (0 <= nth 31 (fe_to_bytes y) 0 < 2 ^ 7)%Z.
Proof.
  intros Hy. destruct (bytes_of_limbs_exact y (fe_limbs _ Hy)) as (Hd & Hn & Hv). rewrite (fe_length _ Hy) in Hn.
  pose proof (fe_range y Hy) as R. set (data := fe_to_bytes y) in *.
  rewrite <- (take_drop 31 data) in Hd, Hv. apply Forall_app in Hd as [Hd1 Hd2]. rewrite num_app in Hv by lia.
  rewrite <- (take_drop 31 data) at 1 2. rewrite app_nth2, length_take, Hn by (rewrite length_take; lia).
  assert (length (drop 31 data) = 1%nat) as Hn2 by (rewrite length_drop; lia). destruct (drop 31 data) as [|b [|? ?]]; try discriminate.
  apply Forall_cons in Hd2 as [Hb _]. change (31 - 31 `min` (4 * 8))%nat with 0%nat. cbn [nth].
  rewrite length_take, Hn in Hv. change (2 ^ (8 * Z.of_nat _))%Z with (2 ^ 248)%Z in Hv. rewrite num_cons, num_nil in Hv.
  pose proof (num_range 8 (take 31 data) ltac:(lia) Hd1). assert (field_prime < 2 ^ 255)%Z by reflexivity. lia.
Qed.

Lemma digits_ok_bytes y : fe_ok y -> digits_ok (fe_to_bytes y).
Proof. intros Hy. destruct (bytes_of_limbs_exact y (fe_limbs _ Hy)) as (Hd & Hn & _). split; [done|by rewrite Hn, (fe_length _ Hy)]. Qed.

(** The sign the decoder gives the root. *)
Definition with_sign (x : Fe) (sign : Z) : Fe := if negb (Z.land (nth 0 x 0%Z) 1 =? sign)%Z then fe_neg x else x.

Lemma with_sign_parity x sign :
  fe_ok x -> (0 <= sign <= 1)%Z -> fe x <> 0 \/ sign = 0%Z ->
  fe_ok (with_sign x sign) /\ (Z.land (nth 0 (with_sign x sign) 0) 1)%Z = sign /\ fe (with_sign x sign) * fe (with_sign x sign) = fe x * fe x.
Proof.
  intros Hx Hs Hn. unfold with_sign. destruct (Z.eqb_spec (Z.land (nth 0 x 0%Z) 1) sign) as [E|E]; cbn [negb]; [done|].
  split_and!; [eauto with fe| |fe_push; ring]. rewrite !parity_exact in * by eauto with fe.
  pose proof (Z.mod_pos_bound (value x) 2 ltac:(lia)). destruct (Zmod.eqb_spec (fe x) 0) as [E0|Hn0].
  - destruct Hn as [?| ->]; [done|]. exfalso. apply E. rewrite <- fe_to_Z, E0 by done. done.
  - rewrite parity_neg by done. lia.
Qed.

Lemma nth_insert (i : nat) (data : list Z) b : (i < length data)%nat -> nth i (<[i := b]> data) 0%Z = b.
Proof. intros Hi. rewrite nth_lookup, list_lookup_insert_eq by done. done. Qed.

Lemma insert_nth_self (i : nat) (data : list Z) : (i < length data)%nat -> <[i := nth i data 0%Z]> data = data.
Proof. intros Hi. apply list_insert_id. by destruct (nth_lookup_or_length data i 0%Z); [|lia]. Qed.

(** The two elements the square root is taken of. *)
Lemma decoder_terms y :
  fe_ok y ->
  let u := fe_sub (fe_sqr y) kOne in let v := fe_add (fe_mul kD (fe_sqr y)) kOne in
  fe_ok u /\ fe_ok v /\ fe u = fe y * fe y - 1 /\ fe v = curve_d * (fe y * fe y) + 1 /\ fe v <> 0.
Proof.
  intros Hy. cbv zeta. assert (fe (fe_add (fe_mul kD (fe_sqr y)) kOne) = curve_d * (fe y * fe y) + 1) as Ev.
  { fe_push. by rewrite fe_kOne. }
  split_and!; [eauto with fe|eauto with fe|fe_push; by rewrite fe_kOne|done|]. rewrite Ev. apply v_nonzero.
Qed.

(** What decodes is a point of the curve, and it is encoded by the same bytes. *)
Lemma decode_sound data p :
  digits_ok data -> point_from_bytes data = Some p -> exists P, represents p P /\ point_to_bytes p = data.
Proof.
  intros Hd. destruct (cleared_sign data Hd) as (_ & Hw & Eb & Hb). destruct Hd as [_ Hn]. unfold point_from_bytes. cbv zeta.
  set (y := fe_from_bytes _) in *. destruct (fe_below_p y) eqn:Ey; cbn [negb]; [|done].
  apply fe_below_p_exact in Ey; [|done]. assert (fe_ok y) as Hy by (split; [apply Hw|apply Hw|done]).
  destruct (decoder_terms y Hy) as (Hu & Hv & Eu & Ev & Hnz). pose proof (recover_x_exact _ _ Hu Hv Hnz) as Hx.
  destruct (recover_x _ _) as [x|]; [|done]. destruct Hx as [Hx Ex]. set (sign := Z.shiftr (nth 31 data 0%Z) 7) in *.
  assert (0 <= sign <= 1)%Z as Hs.
  { subst sign. rewrite Z.shiftr_div_pow2 by lia. split; [apply Z.div_pos; lia|]. apply Z.lt_succ_r, Z.div_lt_upper_bound; lia. }
  destruct (fe_is_zero x && negb (sign =? 0)%Z) eqn:Ez; [done|]. fold (with_sign x sign). intros [= <-].
  destruct (with_sign_parity x sign Hx Hs) as (Hx' & Hp & Ex').
  { destruct (Z.eqb_spec sign 0) as [|Hne]; [by right|left]. rewrite andb_true_r in Ez. intros E.
    apply fe_is_zero_exact in E; [|done]. by rewrite E in Ez. }
  set (x' := with_sign x sign) in *. exists (fe x', fe y).
  assert (represents (mk_point x' y kOne (fe_mul x' y)) (fe x', fe y)) as Hr.
  { apply affine_represents; [done|done|]. apply curve_solved. by rewrite Ex', <- Ev, Ex, Eu. }
  split; [done|]. rewrite (point_to_bytes_affine _ _ x' y Hr) by done. unfold encode_affine. rewrite Hp, Eb, list_insert_insert_eq.
  rewrite nth_insert by lia. subst sign. rewrite split_byte by done. apply insert_nth_self. lia.
Qed.

(** The two square roots. *)
Lemma square_roots (a b : F) : a * a = b * b -> a = b \/ a = Zmod.opp b.
Proof.
  intros E. destruct (mul_zero (d := curve_d) (a - b) (a + b)) as [E1|E1].
  - transitivity (a * a - b * b); [ring|rewrite E; ring].
  - left. by apply (sub_zero (d := curve_d)).
  - right. transitivity (a + b - b); [ring|rewrite E1; ring].
Qed.

(** The sign tells the two roots apart. *)
Lemma sign_unique x x' :
  fe_ok x -> fe_ok x' -> fe x * fe x = fe x' * fe x' ->
  Z.land (nth 0 x 0%Z) 1 = Z.land (nth 0 x' 0%Z) 1 -> x = x'.
Proof.
  intros Hx Hx' E Hp. destruct (square_roots _ _ E) as [E'|E']; [by apply fe_inj|].
  destruct (Zmod.eqb_spec (fe x') 0) as [E0|Hn]; [apply fe_inj; [done|done|]; rewrite E', E0; ring|exfalso].
  assert (x = fe_neg x') as -> by (apply fe_inj; eauto with fe; rewrite fe_neg_eq; done).
  rewrite !parity_exact, parity_neg in Hp by eauto with fe. pose proof (Z.mod_pos_bound (value x') 2 ltac:(lia)). lia.
Qed.

(** The encoding of a point of the curve decodes to its affine coordinates. *)
Lemma decode_encode x y :
  fe_ok x -> fe_ok y -> on_curve curve_d (fe x, fe y) ->
  point_from_bytes (encode_affine x y) = Some (mk_point x y kOne (fe_mul x y)).
Proof.
  intros Hx Hy Hc. pose proof (digits_ok_bytes y Hy) as [_ Hn]. pose proof (last_byte_small y Hy) as Hl.
  set (s := Z.land (nth 0 x 0%Z) 1). assert (0 <= s <= 1)%Z as Hs.
  { subst s. rewrite parity_exact by done. pose proof (Z.mod_pos_bound (value x) 2 ltac:(lia)). lia. }
  destruct (join_byte _ s Hl Hs) as (_ & J1 & J2). unfold point_from_bytes, encode_affine. cbv zeta. fold s.
  rewrite nth_insert, J1, J2, list_insert_insert_eq, insert_nth_self by lia.
  unfold fe_from_bytes. rewrite limbs_bytes_roundtrip by apply Hy.
  assert (fe_below_p y = true) as -> by (apply fe_below_p_exact; [by apply fe_ok_wide|apply Hy]). cbn [negb].
  destruct (decoder_terms y Hy) as (Hu & Hv & Eu & Ev & Hnz). pose proof (recover_x_exact _ _ Hu Hv Hnz) as Hr.
  pose proof (proj1 (curve_solved (fe x) (fe y)) Hc) as Hs2. rewrite <- Ev, <- Eu in Hs2. clear Hc. destruct (recover_x _ _) as [r|]; [|by destruct (Hr (fe x))].
  destruct Hr as [Hok Er]. assert (fe r * fe r = fe x * fe x) as E2.
  { apply (mul_cancel (d := curve_d) (fe (fe_add (fe_mul kD (fe_sqr y)) kOne))); [done|].
    rewrite !(Zmod.mul_comm _ (fe (fe_add _ _))). by rewrite Er, Hs2. }
  assert (fe r <> 0 \/ s = 0%Z) as Hzero.
  { destruct (Zmod.eqb_spec (fe r) 0) as [E0|]; [right|by left]. rewrite E0 in E2.
    assert (fe x = 0) as Ex0 by (destruct (mul_zero (d := curve_d) (fe x) (fe x)); [rewrite <- E2; ring|done|done]).
    subst s. rewrite parity_exact, <- fe_to_Z, Ex0 by done. done. }
  assert (fe_is_zero r && negb (s =? 0)%Z = false) as ->.
  { destruct Hzero as [Hne| ->]; [|by rewrite andb_false_r]. apply andb_false_iff; left. apply not_true_iff_false.
    by rewrite fe_is_zero_exact. }
  fold (with_sign r s). destruct (with_sign_parity r s Hok Hs Hzero) as (Hx' & Hp & Ex').
  assert (with_sign r s = x) as -> by (apply sign_unique; [done|done|by rewrite Ex'|done]). done.
Qed.

Lemma point_bytes_ok p P : represents p P -> digits_ok (point_to_bytes p).
Proof.
  intros Hp. destruct (affine_coordinates p P Hp) as (Hx & Hy & Ex & Ey). set (x := fe_mul (px p) _) in *. set (y := fe_mul (py p) _) in *.
  rewrite (point_to_bytes_affine p P x y) by done. destruct (digits_ok_bytes y Hy) as [Hd Hn]. unfold encode_affine. cbv zeta.
  split; [apply Forall_insert; [done|]|by rewrite length_insert]. rewrite parity_exact by done.
  apply join_byte; [by apply last_byte_small|]. pose proof (Z.mod_pos_bound (value x) 2 ltac:(lia)). lia.
Qed.

Lemma decode_point p P : represents p P -> exists p', point_from_bytes (point_to_bytes p) = Some p' /\ represents p' P.
Proof.
  intros Hp. destruct (affine_coordinates p P Hp) as (Hx & Hy & Ex & Ey). set (x := fe_mul (px p) _) in *. set (y := fe_mul (py p) _) in *.
  assert ((fe x, fe y) = P) as E by (destruct P as [a b]; cbn [fst snd] in *; by rewrite Ex, Ey).
  pose proof (r_curve _ _ Hp) as Hc. exists (mk_point x y kOne (fe_mul x y)). split.
  - rewrite (point_to_bytes_affine p P x y) by done. apply decode_encode; [done|done|by rewrite E].
  - rewrite <- E in *. by apply affine_represents.
Qed.

(** Nothing encodes to what the decoder refuses. *)
Lemma decode_refuses data p P : point_from_bytes data = None -> represents p P -> point_to_bytes p <> data.
Proof. intros Hd Hp <-. destruct (decode_point p P Hp) as (p' & E & _). congruence. Qed.

Lemma represents_unique p P Q : represents p P -> represents p Q -> P = Q.
Proof.
  intros Hp Hq. apply (represents_equal p p P Q Hp Hq). by apply (represents_equal p p P P Hp Hp).
Qed.

Lemma point_to_bytes_inj p q P Q : represents p P -> represents q Q -> point_to_bytes p = point_to_bytes q -> P = Q.
Proof.
  intros Hp Hq E. destruct (decode_point p P Hp) as (p' & E1 & H1), (decode_point q Q Hq) as (q' & E2 & H2).
  rewrite E, E2 in E1. injection E1 as ->. by apply (represents_unique p').
Qed.

(** ** Properties *)

(** The compressed encoding of points is exact in both directions.  What the decoder
    accepts is a point of the curve whose encoding is the very bytes it was given, so every
    point has one encoding; what the decoder refuses is the encoding of no point; and the
    encoding of any point, whatever its extended coordinates, decodes to that point. *)
Theorem point_encoding_exact (data : list Z) (Hd : digits_ok data) :
  (forall p, point_from_bytes data = Some p -> exists P, represents p P /\ point_to_bytes p = data)
  /\ (point_from_bytes data = None -> forall p P, represents p P -> point_to_bytes p <> data)
  /\ (forall p P, represents p P -> exists p', point_from_bytes (point_to_bytes p) = Some p' /\ represents p' P).
Proof.
  split; [intros p; by apply decode_sound|]. split; [|apply decode_point]. intros Hnone p P. by apply decode_refuses.
Qed.

Lemma point_encoding_exact_witness :
  digits_ok (replicate 32 255%Z) /\ forall p P, represents p P -> point_to_bytes p <> replicate 32 255%Z.
Proof.
  assert (digits_ok (replicate 32 255%Z)) as Hd by (split; [apply Forall_replicate; lia|reflexivity]).
  split; [exact Hd|]. apply (point_encoding_exact (replicate 32 255%Z) Hd). vm_compute. reflexivity.
Defined.
