(* ===== verification/Window25519.v ===== *)
(** * Multiplication of points by scalars

    Proves that the four bit window of Curve25519.v computes the multiple of the group: the
    table holds the sixteen small multiples, and the loop goes through the scalar digit by
    digit. *)
From Stdlib Require Import ZArith Lia.
From stdpp Require Import base numbers list.
From S2P Require Import Prelude Primes Field25519 Scalar25519 Edwards Curve25519.

Notation "n '*p' P" := (pmul curve_d n P) (at level 40).

Lemma pmul_double (m : Z) (P : point field_prime) :
  0 <= m -> on_curve curve_d P -> padd curve_d (m *p P) (m *p P) = (2 * m) *p P.
Proof. intros Hm HP. rewrite <- pmul_add by done. f_equal. lia. Qed.

Lemma double_multiple p m P :
  0 <= m -> on_curve curve_d P -> represents p (m *p P) -> represents (point_double p) ((2 * m) *p P).
Proof. intros Hm HP Hp. rewrite <- pmul_double by done. by apply point_double_represents. Qed.

Lemma add_multiple p q m n P :
  0 <= m -> 0 <= n -> on_curve curve_d P -> represents p (m *p P) -> represents q (n *p P) ->
  represents (point_add p q) ((m + n) *p P).
Proof. intros Hm Hn HP Hp Hq. rewrite pmul_add by done. by apply point_add_represents. Qed.

(** ** The table *)
Definition multiples (P : point field_prime) (n : nat) (table : list Point) : Prop :=
  length table = n /\ forall j, (j < n)%nat -> represents (nth j table point_identity) (Z.of_nat j *p P).

Lemma multiples_app P n table entry :
  multiples P n table -> represents entry (Z.of_nat n *p P) -> multiples P (S n) (table ++ [entry]).
Proof.
  intros [Hn Ht] He. split; [rewrite length_app, Hn; cbn; lia|]. intros j Hj. destruct (decide (j = n)) as [->|Hne].
  - by rewrite app_nth2, Hn, Nat.sub_diag by lia.
  - rewrite app_nth1 by lia. apply Ht. lia.
Qed.

Lemma small_multiples_from_represents base P i count table :
  represents base P -> multiples P i table -> (2 <= i)%nat ->
  multiples P (i + count) (small_multiples_from base i count table).
Proof.
  intros Hb. pose proof (r_curve _ _ Hb) as HP. revert i table; induction count as [|count IH]; intros i table Ht Hi; cbn [small_multiples_from].
  - by rewrite Nat.add_0_r.
  - rewrite Nat.add_succ_r, <- Nat.add_succ_l. apply IH; [|lia]. apply multiples_app; [done|]. destruct Ht as [_ Ht].
    destruct (Nat.even i) eqn:Ev.
    + apply Nat.even_spec in Ev as [k ->]. rewrite (Nat.mul_comm 2 k), Nat.div_mul by done.
      rewrite Nat2Z.inj_mul, Z.mul_comm. apply double_multiple; [lia|done|]. apply Ht. lia.
    + replace (Z.of_nat i) with (Z.of_nat (i - 1) + 1) by lia. apply add_multiple; [lia|lia|done|apply Ht; lia|].
      by rewrite pmul_1.
Qed.

Lemma point_small_multiples_represents base P : represents base P -> multiples P 16 (point_small_multiples base).
Proof.
  intros Hb. apply (small_multiples_from_represents base P 2 14); [done| |lia]. split; [done|].
  intros [|[|j]] Hj; [apply identity_represents|rewrite pmul_1; [done|by apply (r_curve _ _ Hb)]|lia].
Qed.

(** ** The digits *)

(** Digit [w] to the base 16 of the number the bytes denote. *)
Lemma window_digit bytes w :
  digits 8 bytes ->
  let packed := nth (w / 2) bytes 0 in
  (if Nat.even w then Z.land packed 0x0F else Z.shiftr packed 4) = num 8 bytes / 2 ^ (4 * Z.of_nat w) mod 2 ^ 4.
Proof.
  intros Hb. cbv zeta. revert w; induction Hb as [|b bytes Hb Hbs IH]; intros w.
  - rewrite num_nil, Z.div_0_l, Z.mod_0_l by (try apply Z.pow_nonzero; lia). destruct (w / 2)%nat, (Nat.even w); done.
  - rewrite num_cons. destruct w as [|[|w]].
    + change (0 / 2)%nat with 0%nat. cbn [nth Nat.even]. change 0x0F with (Z.ones 4). rewrite Z.land_ones by lia.
      change (2 ^ (4 * Z.of_nat 0)) with 1. rewrite Z.div_1_r. replace (2 ^ 8 * num 8 bytes) with (2 ^ 4 * num 8 bytes * 2 ^ 4) by lia.
      by rewrite Z_mod_plus_full.
    + change (1 / 2)%nat with 0%nat. cbn [nth Nat.even]. rewrite Z.shiftr_div_pow2 by lia. change (2 ^ (4 * Z.of_nat 1)) with (2 ^ 4).
      replace (2 ^ 8 * num 8 bytes) with (num 8 bytes * 2 ^ 4 * 2 ^ 4) by lia. rewrite Z.div_add by done. rewrite Z_mod_plus_full.
      symmetry. apply Z.mod_small. split; [apply Z.div_pos; lia|apply Z.div_lt_upper_bound; lia].
    + cbn [Nat.even]. replace (S (S w)) with (w + 1 * 2)%nat by lia. rewrite Nat.div_add, Nat.add_1_r by done. cbn [nth]. rewrite IH.
      replace (4 * Z.of_nat (w + 1 * 2)) with (8 + 4 * Z.of_nat w) by lia. rewrite Z.pow_add_r, <- Z.div_div by lia.
      replace (b + 2 ^ 8 * num 8 bytes) with (num 8 bytes * 2 ^ 8 + b) by lia. by rewrite Z.div_add_l, (Z.div_small b), Z.add_0_r by lia.
Qed.

Lemma window_loop_represents bytes table P n result :
  digits 8 bytes -> length bytes = 32%nat -> on_curve curve_d P -> multiples P 16 table -> (n <= 64)%nat ->
  represents result ((num 8 bytes / 2 ^ (4 * Z.of_nat n)) *p P) ->
  represents (window_loop bytes table n result) (num 8 bytes *p P).
Proof.
  intros Hb Hlen HP [_ Ht]. pose proof (num_range 8 bytes ltac:(lia) Hb) as HN. rewrite Hlen in HN.
  change (2 ^ (8 * Z.of_nat 32)) with (2 ^ 256) in HN. set (N := num 8 bytes) in *.
  revert result; induction n as [|w IH]; intros result Hn Hr; cbn [window_loop].
  - change (2 ^ (4 * Z.of_nat 0)) with 1 in Hr. by rewrite Z.div_1_r in Hr.
  - cbv zeta. apply IH; [lia|]. pose proof (window_digit bytes w Hb) as Hd. cbv zeta in Hd. rewrite Hd. fold N.
    set (q := N / 2 ^ (4 * Z.of_nat w)). assert (0 <= q) as Hq by (apply Z.div_pos; [lia|apply Z.pow_pos_nonneg; lia]).
    replace (N / 2 ^ (4 * Z.of_nat (S w))) with (q / 2 ^ 4) in Hr.
    2: { subst q. rewrite Z.div_div by (try apply Z.pow_pos_nonneg; lia). rewrite <- Z.pow_add_r by lia. do 2 f_equal. lia. }
    assert (0 <= q / 2 ^ 4) as Hq4 by (apply Z.div_pos; lia). pose proof (Z.mod_pos_bound q (2 ^ 4) ltac:(lia)) as Hm.
    set (doubled := if negb (w =? 63)%nat then _ else result).
    assert (represents doubled ((q / 2 ^ 4 * 2 ^ 4) *p P)) as H4.
    { subst doubled. destruct (Nat.eqb_spec w 63) as [->|]; cbn [negb].
      - assert (q / 2 ^ 4 = 0) as E0; [|by rewrite E0 in *]. subst q. change (2 ^ (4 * Z.of_nat 63)) with (2 ^ 252).
        rewrite Z.div_div by lia. by apply Z.div_small.
      - replace (q / 2 ^ 4 * 2 ^ 4) with (2 * (2 * (2 * (2 * (q / 2 ^ 4))))) by lia.
        do 4 (apply double_multiple; [lia|done|]). done. }
    assert (q / 2 ^ 4 * 2 ^ 4 + q mod 2 ^ 4 = q) as Eq by (pose proof (Z.div_mod q (2 ^ 4) ltac:(lia)); lia).
    rewrite <- Eq at 3. destruct (Z.eqb_spec (q mod 2 ^ 4) 0) as [->|Hne]; cbn [negb]; [by rewrite Z.add_0_r|].
    apply add_multiple; [lia|lia|done|done|]. rewrite <- (Z2Nat.id (q mod 2 ^ 4)) at 2 by lia. apply Ht. lia.
Qed.

Lemma scalar_to_bytes_exact a :
  scalar_wide a -> digits 8 (scalar_to_bytes a) /\ length (scalar_to_bytes a) = 32%nat /\ num 8 (scalar_to_bytes a) = value a.
Proof.
  intros Ha. destruct (bytes_of_limbs_exact a (sw_limbs _ Ha)) as (Hd & Hn & Hv). rewrite (sw_length _ Ha) in Hn. done.
Qed.

Lemma point_window_mul_represents scalar table P :
  scalar_wide scalar -> on_curve curve_d P -> multiples P 16 table -> represents (point_window_mul scalar table) (value scalar *p P).
Proof.
  intros Hs HP Ht. destruct (scalar_to_bytes_exact scalar Hs) as (Hd & Hn & Hv). unfold point_window_mul. rewrite <- Hv.
  apply window_loop_represents; try done. pose proof (num_range 8 _ ltac:(lia) Hd) as HN. rewrite Hn in HN.
  rewrite Z.div_small by exact HN. apply identity_represents.
Qed.

Lemma point_scalar_mul_represents scalar base P :
  scalar_wide scalar -> represents base P -> represents (point_scalar_mul scalar base) (value scalar *p P).
Proof. intros Hs Hb. apply point_window_mul_represents; [done|by apply (r_curve _ _ Hb)|by apply point_small_multiples_represents]. Qed.
