(* ===== verification/BasePoint25519.v ===== *)
(** * The base point of edwards25519

    Proves that [base_point] of Curve25519.v decodes to a point of the curve whose multiples
    form a group of [group_order] elements.  The multiple that is the zero is computed on
    integers that are congruent to the coordinates, which costs far less than on limbs. *)
From Stdlib Require Import ZArith Lia Zmod.
From stdpp Require Import base numbers list.
From S2P Require Import Prelude Primes Field25519 Scalar25519 Edwards Curve25519 Encode25519 Window25519.

(** ** The affine coordinates *)
Definition base_x : Fe :=
  [0x8F25D51A; 0xC9562D60; 0x9525A7B2; 0x692CC760; 0xFDD6DC5C; 0xC0A4E231; 0xCD6E53FE; 0x216936D3].
Definition base_y : Fe :=
  [0x66666658; 0x66666666; 0x66666666; 0x66666666; 0x66666666; 0x66666666; 0x66666666; 0x66666666].

Lemma base_x_ok : fe_ok base_x. Proof. constant_ok. Qed.
Lemma base_y_ok : fe_ok base_y. Proof. constant_ok. Qed.

#[export] Hint Resolve base_x_ok base_y_ok : fe.

Definition base : point field_prime := (fe base_x, fe base_y).

(** ** Multiples on integers *)

(** A number congruent to [x], of 256 bits when [x] has 512. *)
Definition fold_p (x : Z) : Z := Z.land x (Z.ones 255) + 19 * Z.shiftr x 255.
Definition mulp (a b : Z) : Z := fold_p (fold_p (a * b)).

Lemma fold_p_of_Z x : Zmod.of_Z field_prime (fold_p x) = Zmod.of_Z field_prime x.
Proof.
  apply Zmod.of_Z_inj. unfold fold_p. rewrite Z.land_ones, Z.shiftr_div_pow2 by lia.
  rewrite (Z.div_mod x (2 ^ 255)) at 3 by lia. replace (2 ^ 255) with (field_prime + 19) at 3 by reflexivity.
  rewrite <- (Z_mod_plus_full _ (x / 2 ^ 255)). f_equal. lia.
Qed.

Lemma mulp_of_Z a b : Zmod.of_Z field_prime (mulp a b) = Zmod.mul (Zmod.of_Z field_prime a) (Zmod.of_Z field_prime b).
Proof. unfold mulp. by rewrite !fold_p_of_Z, Zmod.of_Z_mul. Qed.

Record zpoint := mk_zpoint { zx : Z; zy : Z; zz : Z; zt : Z }.

Definition zadd (p q : zpoint) : zpoint :=
  let '(mk_zpoint x1 y1 z1 t1) := p in
  let '(mk_zpoint x2 y2 z2 t2) := q in
  let a := mulp (y1 - x1) (y2 - x2) in
  let b := mulp (y1 + x1) (y2 + x2) in
  let c := mulp (mulp t1 t2) (value kD2) in
  let m := mulp (z1 + z1) z2 in
  mk_zpoint (mulp (b - a) (m - c)) (mulp (m + c) (b + a)) (mulp (m - c) (m + c)) (mulp (b - a) (b + a)).

Definition zdouble (p : zpoint) : zpoint :=
  let '(mk_zpoint x y z t) := p in
  let a := mulp x x in
  let b := mulp y y in
  let c := mulp z z + mulp z z in
  let e := mulp (x + y) (x + y) - a - b in
  let g := - a + b in
  let f := g - c in
  let h := - a - b in
  mk_zpoint (mulp e f) (mulp g h) (mulp f g) (mulp e h).

Fixpoint zmultiple (p : zpoint) (n : positive) : zpoint :=
  match n with
  | xH => p
  | xO n' => zdouble (zmultiple p n')
  | xI n' => zadd (zdouble (zmultiple p n')) p
  end.

Definition zrepresents (p : zpoint) (P : point field_prime) : Prop :=
  let r := Zmod.of_Z field_prime in extended curve_d (r (zx p)) (r (zy p)) (r (zz p)) (r (zt p)) P.

Lemma zadd_represents p q P Q : zrepresents p P -> zrepresents q Q -> zrepresents (zadd p q) (padd curve_d P Q).
Proof.
  destruct p as [x1 y1 z1 t1], q as [x2 y2 z2 t2]. unfold zrepresents. cbn [zx zy zz zt zadd]. cbv zeta. intros Hp Hq.
  pose proof (extended_add _ _ _ _ _ _ _ _ P Q Hp Hq) as He. cbv zeta in He.
  repeat first [rewrite mulp_of_Z|rewrite Zmod.of_Z_sub|rewrite Zmod.of_Z_add]. fold (fe kD2). rewrite fe_kD2. exact He.
Qed.

Lemma zdouble_represents p P : zrepresents p P -> zrepresents (zdouble p) (padd curve_d P P).
Proof.
  destruct p as [x y z t]. unfold zrepresents. cbn [zx zy zz zt zdouble]. cbv zeta. intros Hp.
  pose proof (extended_double _ _ _ _ P Hp) as He. cbv zeta in He.
  repeat first [rewrite mulp_of_Z|rewrite Zmod.of_Z_sub|rewrite Zmod.of_Z_add|rewrite Zmod.of_Z_opp]. exact He.
Qed.

Lemma zmultiple_represents p P n : zrepresents p P -> zrepresents (zmultiple p n) (Z.pos n *p P).
Proof.
  intros Hp. pose proof (e_curve _ _ _ _ _ Hp) as HP. induction n as [n IH|n IH|]; cbn [zmultiple].
  - rewrite Pos2Z.inj_xI, pmul_add, pmul_1, <- pmul_double by (done || lia). apply zadd_represents; [|done]. by apply zdouble_represents.
  - rewrite Pos2Z.inj_xO, <- pmul_double by (done || lia). by apply zdouble_represents.
  - by rewrite pmul_1.
Qed.

(** The sufficient test for the zero. *)
Definition zis_zero (p : zpoint) : bool := (zx p mod field_prime =? 0) && ((zy p - zz p) mod field_prime =? 0).

Lemma zis_zero_exact p P : zrepresents p P -> zis_zero p = true <-> P = pzero.
Proof.
  intros Hp. rewrite <- (extended_is_zero _ _ _ _ _ Hp). unfold zis_zero. rewrite andb_true_iff, !Z.eqb_eq.
  assert (forall a b, Zmod.of_Z field_prime a = Zmod.of_Z field_prime b <-> (a - b) mod field_prime = 0) as Hr.
  { intros a b. rewrite Zmod.of_Z_inj. apply Z.cong_iff_0. }
  pose proof (Hr (zx p) 0) as H0. rewrite Z.sub_0_r, Zmod.of_Z_0 in H0. by rewrite <- Hr, <- H0.
Qed.

(** ** The order of the base point *)
Lemma base_on_curve : on_curve curve_d base.
Proof.
  unfold base, on_curve, curve_d, fe. rewrite <- Zmod.of_Z_1. repeat first [rewrite <- Zmod.of_Z_mul|rewrite <- Zmod.of_Z_sub|rewrite <- Zmod.of_Z_add].
  apply Zmod.of_Z_inj. vm_compute. reflexivity.
Qed.

Lemma base_nonzero : base <> pzero.
Proof.
  intros E. apply (f_equal snd) in E. unfold base, pzero in E. cbn [snd] in E. rewrite <- fe_kOne in E.
  apply fe_inj in E; [discriminate E|eauto with fe|eauto with fe].
Qed.

Definition base_zpoint : zpoint := Eval vm_compute in mk_zpoint (value base_x) (value base_y) 1 (value base_x * value base_y).

Definition order_positive : positive := Eval vm_compute in Z.to_pos group_order.

Lemma base_zrepresents : zrepresents base_zpoint base.
Proof.
  unfold zrepresents. cbv zeta. assert (base_zpoint = mk_zpoint (value base_x) (value base_y) 1 (value base_x * value base_y)) as -> by (vm_compute; reflexivity).
  cbn [zx zy zz zt]. rewrite Zmod.of_Z_mul, Zmod.of_Z_1. apply extended_affine, base_on_curve.
Qed.

Lemma order_multiple_zero : zis_zero (zmultiple base_zpoint order_positive) = true.
Proof. vm_compute. reflexivity. Qed.

Lemma base_order : group_order *p base = pzero.
Proof.
  assert (group_order = Z.pos order_positive) as -> by (vm_compute; reflexivity).
  apply (zis_zero_exact (zmultiple base_zpoint order_positive)); [|exact order_multiple_zero].
  apply zmultiple_represents, base_zrepresents.
Qed.

(** ** The base point of the source *)
Lemma base_point_affine : base_point = mk_point base_x base_y kOne (fe_mul base_x base_y).
Proof.
  assert (encode_affine base_x base_y = kBasePointBytes) as E by (vm_compute; reflexivity).
  unfold base_point. rewrite <- E, decode_encode; [done|eauto with fe|eauto with fe|apply base_on_curve].
Qed.

Lemma base_point_represents : represents base_point base.
Proof. rewrite base_point_affine. apply affine_represents; [eauto with fe|eauto with fe|apply base_on_curve]. Qed.

Lemma point_scalar_mul_base_represents scalar :
  scalar_wide scalar -> represents (point_scalar_mul_base scalar) (value scalar *p base).
Proof.
  intros Hs. exact (point_window_mul_represents scalar base_multiples base Hs base_on_curve
    (point_small_multiples_represents base_point base base_point_represents)).
Qed.

Lemma group_order_positive : 0 < group_order.
Proof. reflexivity. Qed.

(** Multiples of the base point count modulo the order. *)
Lemma base_multiple_mod n : 0 <= n -> (n mod group_order) *p base = n *p base.
Proof. intros Hn. exact (pmul_mod group_order base group_order_positive base_on_curve base_order n Hn). Qed.

Lemma base_multiple_zero n : 0 <= n -> n *p base = pzero -> (group_order | n).
Proof.
  intros Hn. exact (pmul_order group_order base group_order_positive base_on_curve base_order n group_order_prime base_nonzero Hn).
Qed.

(** ** Properties *)

(** C27: the point arithmetic of the source implements the group of edwards25519.  On extended
    coordinates that represent points of the curve, the addition and the doubling represent
    the sum in the group, which is commutative and associative; the comparisons without
    inversion decide equality and the zero; the four bit window computes the multiple by the
    value of the scalar; and the base point, which is not the zero, has the prime
    [group_order] as its order. *)
Theorem point_arithmetic_refines (p q : Point) (P Q : point field_prime) (s : Scalar)
    (Hp : represents p P) (Hq : represents q Q) (Hs : scalar_wide s) :
  represents (point_add p q) (padd curve_d P Q) /\ represents (point_double p) (padd curve_d P P)
  /\ padd curve_d P Q = padd curve_d Q P
  /\ (forall R, on_curve curve_d R -> padd curve_d (padd curve_d P Q) R = padd curve_d P (padd curve_d Q R))
  /\ (point_equal p q = true <-> P = Q) /\ (point_is_identity p = true <-> P = pzero)
  /\ represents (point_scalar_mul s p) (value s *p P)
  /\ represents (point_scalar_mul_base s) (value s *p base)
  /\ (value s *p base = pzero <-> (group_order | value s)) /\ Z.prime group_order.
Proof.
  pose proof (r_curve _ _ Hp) as HP. pose proof (r_curve _ _ Hq) as HQ. pose proof (scalar_range s Hs) as Hr.
  split_and!; [by apply point_add_represents|by apply point_double_represents|by apply padd_comm|intros R HR; by apply padd_assoc
    |by apply represents_equal|by apply represents_is_identity|by apply point_scalar_mul_represents
    |by apply point_scalar_mul_base_represents| |apply group_order_prime].
  split; [apply base_multiple_zero; lia|]. intros [k Ek]. rewrite Ek.
  assert (0 <= k) as Hk by (pose proof group_order_positive; nia).
  rewrite (pmul_mul k group_order base Hk ltac:(pose proof group_order_positive; lia) base_on_curve), base_order. by apply pmul_zero.
Qed.

Lemma point_arithmetic_refines_witness :
  represents (point_add base_point point_identity) (padd curve_d base pzero)
  /\ represents (point_scalar_mul_base (5 :: replicate 7 0)) (5 *p base).
Proof.
  assert (scalar_wide (5 :: replicate 7 0)) as Hs.
  { split; [reflexivity|]. repeat (apply Forall_cons; split; [lia|]). apply Forall_nil_2. }
  destruct (point_arithmetic_refines base_point point_identity base pzero (5 :: replicate 7 0) base_point_represents identity_represents Hs)
    as (H1 & _ & _ & _ & _ & _ & _ & H2 & _).
  split; [exact H1|exact H2].
Defined.
