(* ===== verification/Ed25519Sign.v ===== *)
(** * Ed25519 signatures

    Models the last part of [src/ed25519.cpp]: the hashes over concatenated ranges, the key
    expansion, signing and the two verifications.  The operations are an instance of the class
    [Ed25519] of Signature.v and satisfy its law, so the theorems about envelopes hold for the
    arithmetic of the source. *)
From Stdlib Require Import ZArith Lia Zmod.
From stdpp Require Import base numbers list.
From S2P Require Import Prelude Hash Signature Primes Field25519 Scalar25519 Edwards Curve25519 Encode25519 Window25519 BasePoint25519.

Module Code.

Definition sha512_update_span (hasher : hash_state) (data : list Z) : hash_state :=
  if negb (length data =? 0)%nat then Sha512.update hasher data else hasher.

Definition sha512_of_two (first second : list Z) : list Z :=
  Sha512.digest (sha512_update_span (sha512_update_span Sha512.init first) second).

Definition sha512_of_three (first second third : list Z) : list Z :=
  Sha512.digest (sha512_update_span (sha512_update_span (sha512_update_span Sha512.init first) second) third).

Record ExpandedKey := mk_expanded_key { scalar : Scalar; prefix : list Z; public_key : list Z }.

(** The three assignments to the bytes of the scalar. *)
Definition clamp (bytes : list Z) : list Z :=
  let clamped := <[0%nat := Z.land (nth 0 bytes 0) 248]> bytes in
  let clamped := <[31%nat := Z.land (nth 31 clamped 0) 63]> clamped in
  <[31%nat := Z.lor (nth 31 clamped 0) 64]> clamped.

Definition expand_key (seed : list Z) : ExpandedKey :=
  let expanded := Sha512.sha512 seed in
  let clamped := clamp (take 32 expanded) in
  let scalar := scalar_from_bytes clamped in
  let prefix := take 32 (drop 32 expanded) in
  let public_point := point_scalar_mul_base scalar in
  mk_expanded_key scalar prefix (point_to_bytes public_point).

Definition ed25519_public_key (seed : list Z) : list Z := public_key (expand_key seed).

Definition ed25519_sign (seed message : list Z) : list Z :=
  let key := expand_key seed in
  let nonce_hash := sha512_of_two (prefix key) message in
  let nonce := scalar_from_wide_hash nonce_hash in
  let nonce_point := point_scalar_mul_base nonce in
  let nonce_bytes := point_to_bytes nonce_point in
  let challenge_hash := sha512_of_three nonce_bytes (public_key key) message in
  let challenge := scalar_from_wide_hash challenge_hash in
  let s := scalar_add (scalar_mul challenge (scalar key)) nonce in
  nonce_bytes ++ scalar_to_bytes s.

Definition ed25519_verify (public_key message signature : list Z) : bool :=
  match point_from_bytes public_key with
  | None => false
  | Some a =>
      match point_from_bytes (take 32 signature) with
      | None => false
      | Some r =>
          let s := scalar_from_bytes (drop 32 signature) in
          if 0 <=? scalar_compare s kL then false
          else
            let challenge_hash := sha512_of_three (take 32 signature) public_key message in
            let challenge := scalar_from_wide_hash challenge_hash in
            let left := point_scalar_mul_base s in
            let right := point_add r (point_scalar_mul challenge a) in
            point_equal left right
      end
  end.

Definition ed25519_verify_strict (public_key message signature : list Z) : bool :=
  match point_from_bytes public_key with
  | None => false
  | Some a =>
      let eight_a := point_double (point_double (point_double a)) in
      if point_is_identity eight_a then false else ed25519_verify public_key message signature
  end.

End Code.

#[export] Instance wnc_ed25519 : Ed25519 := {|
  ed25519_public_key := Code.ed25519_public_key;
  ed25519_sign := Code.ed25519_sign;
  ed25519_verify_strict := Code.ed25519_verify_strict
|}.

(** ** Digests *)

(** The chaining words of a hash object keep their number. *)
Lemma compress_blocks_words B compress n fuel s data :
  (forall s b, length s = n -> length (compress s b) = n) -> length s = n ->
  length (compress_blocks B compress fuel s data).1 = n.
Proof.
  intros Hc. revert s data; induction fuel as [|fuel IH]; intros s data Hs; cbn [compress_blocks]; [done|].
  destruct (B <=? length data)%nat; [|done]. apply IH. by apply Hc.
Qed.

Lemma block_update_words B compress n h data :
  (forall s b, length s = n -> length (compress s b) = n) -> length (state_ h) = n ->
  length (state_ (block_update B compress h data)) = n.
Proof.
  intros Hc Hs. unfold block_update. destruct (finished_ h); [done|]. cbv zeta.
  match goal with |- context [match ?x with (_, _) => _ end] =>
    assert (length x.1.1 = n) as Hx by (repeat case_match; cbn [fst]; auto); destruct x as [[s b] rest] end.
  pose proof (compress_blocks_words B compress n (length rest) s rest Hc Hx) as Hw. by destruct (compress_blocks _ _ _ s rest).
Qed.

Lemma sha512_compress_words s b : length s = 8%nat -> length (Sha512.compress s b) = 8%nat.
Proof.
  intros Hs. unfold Sha512.compress. cbv zeta. rewrite length_zip_with.
  enough (forall l v, length v = 8%nat -> length (fold_left Sha512.round l v) = 8%nat) as H by (rewrite H; lia).
  induction l as [|x l IH]; intros v Hv; cbn [fold_left]; [done|]. apply IH.
  destruct v as [|? [|? [|? [|? [|? [|? [|? [|? [|]]]]]]]]]; done.
Qed.

Lemma sha512_update_words h data : length (state_ h) = 8%nat -> length (state_ (Sha512.update h data)) = 8%nat.
Proof. apply block_update_words. apply sha512_compress_words. Qed.

Record digest_ok (d : list Z) : Prop := { digest_digits : digits 8 d; digest_length : length d = 64%nat }.

Lemma sha512_digest_ok h : length (state_ h) = 8%nat -> digest_ok (Sha512.digest h).
Proof.
  intros Hs. unfold Sha512.digest, Sha512.finish. cbn [snd]. split; [apply concat_words_bytes; intros; apply write_be_bytes|].
  rewrite (concat_words_length _ 8) by (intros; apply write_be_length). destruct (finished_ h); cbn [negb state_]; [by rewrite Hs|].
  by rewrite !sha512_update_words by (rewrite ?sha512_update_words; done).
Qed.

Lemma update_span_words h data : length (state_ h) = 8%nat -> length (state_ (Code.sha512_update_span h data)) = 8%nat.
Proof. intros Hs. unfold Code.sha512_update_span. destruct (negb _); [|done]. by apply sha512_update_words. Qed.

Lemma sha512_ok seed : digest_ok (Sha512.sha512 seed).
Proof. by apply sha512_digest_ok, sha512_update_words. Qed.

Lemma sha512_of_two_ok a b : digest_ok (Code.sha512_of_two a b).
Proof. apply sha512_digest_ok. by repeat apply update_span_words. Qed.

Lemma sha512_of_three_ok a b c : digest_ok (Code.sha512_of_three a b c).
Proof. apply sha512_digest_ok. by repeat apply update_span_words. Qed.

(** The ranges are hashed as their concatenation. *)
Lemma update_spans ms h :
  fold_left Code.sha512_update_span ms h = fold_left Sha512.update (List.filter (fun m => negb (length m =? 0)%nat) ms) h.
Proof.
  revert h; induction ms as [|m ms IH]; intros h; cbn [fold_left List.filter]; [done|]. rewrite IH.
  unfold Code.sha512_update_span. by destruct (negb _).
Qed.

Lemma concat_nonempty (ms : list (list Z)) : concat (List.filter (fun m => negb (length m =? 0)%nat) ms) = concat ms.
Proof. induction ms as [|[|x m] ms IH]; cbn; [done|done|]. by rewrite IH. Qed.

Lemma sha512_spans ms :
  zlength (concat ms) < 2 ^ 61 -> Sha512.digest (fold_left Code.sha512_update_span ms Sha512.init) = sha512_spec (concat ms).
Proof. intros Hs. rewrite update_spans, sha512_updates, concat_nonempty; [done|by rewrite concat_nonempty]. Qed.

(** ** Keys *)
Lemma clamp_low b : 0 <= b < 256 -> exists k, Z.land b 248 = 8 * k /\ 0 <= k < 32.
Proof.
  intros Hb. exists (Z.land b 248 / 8).
  assert (Forall (fun b => Z.land b 248 = 8 * (Z.land b 248 / 8) /\ 0 <= Z.land b 248 / 8 < 32) (seqZ 0 256)) as Hall.
  { apply (bool_decide_eq_true_1 _). vm_compute. reflexivity. }
  rewrite Forall_forall in Hall. apply Hall. apply elem_of_seqZ. lia.
Qed.

Lemma clamp_high b : 0 <= b < 256 -> 64 <= Z.lor (Z.land b 63) 64 < 128.
Proof.
  intros Hb. change 63 with (Z.ones 6). rewrite Z.land_ones, Z.lor_comm by lia.
  pose proof (Z.mod_pos_bound b (2 ^ 6) ltac:(lia)). set (r := b mod 2 ^ 6) in *.
  change (Z.lor 64 r) with (Z.lor (Z.shiftl 1 6) r). rewrite lor_shiftl_add by lia. lia.
Qed.

(** A clamped scalar is a multiple of the cofactor, of 255 bits. *)
Lemma clamp_exact bytes :
  digits_ok bytes ->
  digits_ok (Code.clamp bytes) /\ exists m, num 8 (Code.clamp bytes) = 8 * m /\ 2 ^ 251 <= m < 2 ^ 252.
Proof.
  intros [Hd Hn]. destruct bytes as [|b0 rest]; [discriminate|]. injection Hn as Hn.
  assert (length (take 30 rest) = 30%nat) as H30 by (rewrite length_take; lia).
  assert (length (drop 30 rest) = 1%nat) as H1 by (rewrite length_drop; lia). rewrite <- (take_drop 30 rest) in Hd |- *. clear Hn. set (mid := take 30 rest) in *.
  destruct (drop 30 rest) as [|b [|? ?]]; try discriminate. apply Forall_cons in Hd as [H0 Hd]. apply Forall_app in Hd as [Hmid Hb].
  apply Forall_cons in Hb as [Hb _]. unfold Code.clamp. cbv zeta. cbn [nth].
  change (<[0%nat:=Z.land b0 248]> (b0 :: mid ++ [b])) with (Z.land b0 248 :: mid ++ [b]).
  assert (forall x y c, <[31%nat:=y]> (x :: mid ++ [c]) = x :: mid ++ [y]) as Hins.
  { intros x y c. change (x :: <[30%nat:=y]> (mid ++ [c]) = x :: mid ++ [y]). f_equal. rewrite insert_app_r_alt, H30 by lia. done. }
  assert (forall x c, nth 31 (x :: mid ++ [c]) 0 = c) as Hnth by (intros x c; cbn [nth]; by rewrite app_nth2, H30 by lia).
  rewrite Hins, Hnth, Hins, Hnth. destruct (clamp_low b0 H0) as (k & -> & Hk). pose proof (clamp_high b Hb) as Hc.
  set (c := Z.lor _ 64) in *. pose proof (num_range 8 mid ltac:(lia) Hmid) as Hr. rewrite H30 in Hr. split.
  - split; [|cbn [length]; rewrite length_app, H30; done]. apply Forall_cons. split; [lia|]. apply Forall_app. split; [done|].
    apply Forall_cons. split; [lia|apply Forall_nil_2].
  - exists (k + 2 ^ 5 * (num 8 mid + 2 ^ 240 * c)). rewrite num_cons, num_app, num_cons, num_nil, H30 by lia.
    change (8 * Z.of_nat 30) with 240 in *. lia.
Qed.

Lemma wide_hash_exact d :
  digest_ok d -> scalar_ok (scalar_from_wide_hash d) /\ value (scalar_from_wide_hash d) = num 8 d mod group_order.
Proof. intros [Hd Hn]. by apply scalar_from_wide_hash_exact. Qed.

(** What the expanded key holds. *)
Record key_ok (key : Code.ExpandedKey) : Prop := {
  key_scalar : scalar_wide (Code.scalar key);
  key_clamped : exists m, value (Code.scalar key) = 8 * m /\ 2 ^ 251 <= m < 2 ^ 252;
  key_public : Code.public_key key = point_to_bytes (point_scalar_mul_base (Code.scalar key))
}.

Lemma expand_key_scalar seed :
  let clamped := Code.clamp (take 32 (Sha512.sha512 seed)) in
  digits_ok clamped /\ value (Code.scalar (Code.expand_key seed)) = num 8 clamped /\ key_ok (Code.expand_key seed).
Proof.
  destruct (sha512_ok seed) as [Hd Hn]. assert (digits_ok (take 32 (Sha512.sha512 seed))) as Ht.
  { split; [by apply Forall_take|by rewrite length_take, Hn]. }
  destruct (clamp_exact _ Ht) as ([Hc Hl] & m & Em & Hm). destruct (scalar_from_bytes_exact _ Hc Hl) as [Hw Ev].
  split_and!; [done|exact Ev|]. split; [exact Hw| |done]. exists m. split; [|done]. rewrite <- Em. exact Ev.
Qed.

Lemma expand_key_ok seed : key_ok (Code.expand_key seed).
Proof. apply expand_key_scalar. Qed.

Lemma scalar_nonneg a : scalar_wide a -> 0 <= value a.
Proof. intros Ha. apply (scalar_range a Ha). Qed.

(** The public point is not of small order. *)
Lemma clamped_order m : 2 ^ 251 <= m < 2 ^ 252 -> 8 *p ((8 * m) *p base) <> pzero.
Proof.
  intros Hm E. rewrite <- pmul_mul in E by (lia || apply base_on_curve). apply base_multiple_zero in E; [|lia].
  replace (8 * (8 * m)) with (64 * m) in E by lia. apply Z.divide_prime_mul in E as [E|E]; [..|apply group_order_prime].
  - apply Z.divide_pos_le in E; [|lia]. unfold group_order in E. lia.
  - apply Z.divide_pos_le in E; [|lia]. unfold group_order in E. lia.
Qed.

Lemma eight_identity a A :
  represents a A -> point_is_identity (point_double (point_double (point_double a))) = true <-> 8 *p A = pzero.
Proof.
  intros Ha. pose proof (r_curve _ _ Ha) as HA. rewrite (represents_is_identity _ (8 *p A)); [done|].
  change 8 with (2 * (2 * (2 * 1))). do 3 (apply double_multiple; [lia|done|]). by rewrite pmul_1.
Qed.

(** ** Verification *)

(** [data] is the encoding of the point [P]. *)
Definition encodes (data : list Z) (P : point field_prime) : Prop := exists p, represents p P /\ point_to_bytes p = data.

Lemma encodes_unique data P Q : encodes data P -> encodes data Q -> P = Q.
Proof. intros (p & Hp & <-) (q & Hq & E). symmetry in E. by apply (point_to_bytes_inj p q). Qed.

Lemma encodes_decodes data P : encodes data P -> exists p, point_from_bytes data = Some p /\ represents p P.
Proof. intros (p & Hp & <-). by apply decode_point. Qed.

Lemma decodes_encodes data p : digits_ok data -> point_from_bytes data = Some p -> exists P, represents p P /\ encodes data P.
Proof. intros Hd E. destruct (decode_sound data p Hd E) as (P & Hp & Eb). exists P. split; [done|]. by exists p. Qed.

(** The challenge both sides compute. *)
Definition challenge (R A message : list Z) : Z := value (scalar_from_wide_hash (Code.sha512_of_three R A message)).

Lemma challenge_exact R A message :
  zlength (R ++ A ++ message) < 2 ^ 61 -> challenge R A message = num 8 (sha512_spec (R ++ A ++ message)) mod group_order.
Proof.
  intros Hs. unfold challenge. destruct (wide_hash_exact _ (sha512_of_three_ok R A message)) as [_ ->].
  pose proof (sha512_spans [R; A; message]) as E. cbn [concat app fold_left] in E. rewrite app_nil_r in E.
  unfold Code.sha512_of_three. by rewrite E.
Qed.

Lemma challenge_ok R A message : scalar_ok (scalar_from_wide_hash (Code.sha512_of_three R A message)).
Proof. apply (wide_hash_exact _ (sha512_of_three_ok R A message)). Qed.

(** The equation the verifier checks. *)
Lemma verify_decoded key message signature a A r R :
  point_from_bytes key = Some a -> represents a A ->
  point_from_bytes (take 32 signature) = Some r -> represents r R -> digits_ok (drop 32 signature) ->
  let s := num 8 (drop 32 signature) in
  Code.ed25519_verify key message signature = true
  <-> s < group_order /\ s *p base = padd curve_d R (challenge (take 32 signature) key message *p A).
Proof.
  intros Ea Ha Er Hr [Hd Hn]. cbv zeta. destruct (scalar_from_bytes_exact _ Hd Hn) as [Hw Ev].
  unfold Code.ed25519_verify, challenge. rewrite Ea, Er. cbv zeta. set (s := scalar_from_bytes _) in *. rewrite <- Ev.
  pose proof (scalar_compare_exact s kL Hw kL_wide) as Hc. rewrite value_kL in Hc.
  pose proof (challenge_ok (take 32 signature) key message) as Hk.
  pose proof (point_scalar_mul_base_represents s Hw) as Hl. pose proof (point_scalar_mul_represents _ a A (sc_wide _ Hk) Ha) as Hm.
  pose proof (represents_equal _ _ _ _ Hl (point_add_represents _ _ _ _ Hr Hm)) as He.
  destruct (Z.leb_spec 0 (scalar_compare s kL)) as [Hge|Hlt].
  - split; [done|]. intros [Hs _]. apply Hc in Hge. lia.
  - rewrite He. split; [intros E; split; [|done]|by intros []]. apply Z.nle_gt. intros ?%Hc. lia.
Qed.

(** Strict verification on points: both encodings decode, the key is not of small order, the
    scalar is canonical and the equation holds. *)
Lemma strict_exact key message signature :
  digits_ok key -> digits_ok (take 32 signature) -> digits_ok (drop 32 signature) ->
  let s := num 8 (drop 32 signature) in
  Code.ed25519_verify_strict key message signature = true
  <-> exists A R, encodes key A /\ encodes (take 32 signature) R /\ 8 *p A <> pzero
        /\ s < group_order /\ s *p base = padd curve_d R (challenge (take 32 signature) key message *p A).
Proof.
  intros Hk H1 H2. cbv zeta. unfold Code.ed25519_verify_strict. destruct (point_from_bytes key) as [a|] eqn:Ea.
  - destruct (decodes_encodes key a Hk Ea) as (A & Ha & HA). cbv zeta. pose proof (eight_identity a A Ha) as H8.
    destruct (point_is_identity _).
    { split; [done|]. intros (A' & R & HA' & _ & Hne & _). exfalso. apply Hne. rewrite (encodes_unique key A' A HA' HA). by apply H8. }
    assert (8 *p A <> pzero) as Hne by (intros E; by apply H8 in E). clear H8. destruct (point_from_bytes (take 32 signature)) as [r|] eqn:Er.
    + destruct (decodes_encodes _ r H1 Er) as (R & Hr & HR). rewrite (verify_decoded key message signature a A r R) by done. split.
      * intros [Hs E]. by exists A, R.
      * intros (A' & R' & HA' & HR' & _ & Hs & E). by rewrite (encodes_unique key A' A HA' HA), (encodes_unique _ R' R HR' HR) in E.
    + split; [unfold Code.ed25519_verify; by rewrite Ea, Er|]. intros (A' & R & _ & HR & _). apply encodes_decodes in HR as (r & Er' & _). congruence.
  - split; [done|]. intros (A & R & HA & _). apply encodes_decodes in HA as (a & Ea' & _). congruence.
Qed.

(** The nonce of the signer. *)
Lemma nonce_exact prefix message :
  zlength (prefix ++ message) < 2 ^ 61 ->
  value (scalar_from_wide_hash (Code.sha512_of_two prefix message)) = num 8 (sha512_spec (prefix ++ message)) mod group_order.
Proof.
  intros Hs. destruct (wide_hash_exact _ (sha512_of_two_ok prefix message)) as [_ ->].
  pose proof (sha512_spans [prefix; message]) as E. cbn [concat app fold_left] in E. rewrite app_nil_r in E.
  unfold Code.sha512_of_two. by rewrite E.
Qed.

(** ** Signing *)

(** The two halves of a signature. *)
Record signature_parts (seed message signature : list Z) (a r : Z) (A R : list Z) : Prop := {
  part_public : Code.ed25519_public_key seed = A;
  part_A : encodes A (a *p base);
  part_R : encodes R (r *p base);
  part_first : take 32 signature = R;
  part_second : digits_ok (drop 32 signature);
  part_s : num 8 (drop 32 signature) = (challenge R A message * a + r) mod group_order
}.

Lemma multiple_encodes scalar : scalar_wide scalar -> encodes (point_to_bytes (point_scalar_mul_base scalar)) (value scalar *p base).
Proof. intros Hs. exists (point_scalar_mul_base scalar). split; [by apply point_scalar_mul_base_represents|done]. Qed.

Lemma encodes_ok data P : encodes data P -> digits_ok data.
Proof. intros (p & Hp & <-). by apply (point_bytes_ok p P). Qed.

Lemma sign_parts seed message :
  let key := Code.expand_key seed in
  let a := value (Code.scalar key) in
  let r := value (scalar_from_wide_hash (Code.sha512_of_two (Code.prefix key) message)) in
  exists A R, signature_parts seed message (Code.ed25519_sign seed message) a r A R.
Proof.
  cbv zeta. destruct (expand_key_ok seed) as [Hw _ Ep]. set (key := Code.expand_key seed) in *.
  destruct (wide_hash_exact _ (sha512_of_two_ok (Code.prefix key) message)) as [Hr _].
  set (nonce := scalar_from_wide_hash (Code.sha512_of_two (Code.prefix key) message)) in *.
  exists (Code.public_key key), (point_to_bytes (point_scalar_mul_base nonce)).
  pose proof (multiple_encodes _ Hw) as HA. rewrite <- Ep in HA. pose proof (multiple_encodes _ (sc_wide _ Hr)) as HR.
  set (R := point_to_bytes (point_scalar_mul_base nonce)) in *. destruct (encodes_ok _ _ HR) as [_ HnR].
  pose proof (challenge_ok R (Code.public_key key) message) as Hk.
  destruct (scalar_mul_exact _ _ (sc_wide _ Hk) Hw) as [Hm Em]. destruct (scalar_add_exact _ _ Hm Hr) as [Hs Es].
  set (s := scalar_add _ nonce) in *. destruct (scalar_to_bytes_exact s (sc_wide _ Hs)) as (Hd & Hn & Hv).
  assert (Code.ed25519_sign seed message = R ++ scalar_to_bytes s) as -> by reflexivity.
  split; [done|done|done| | |].
  - by rewrite <- HnR, take_app_length.
  - rewrite <- HnR, drop_app_length. by split.
  - rewrite <- HnR at 1. rewrite drop_app_length, Hv, Es, Em, Z.add_mod_idemp_l by done. unfold challenge. reflexivity.
Qed.

Lemma sign_length seed message : length (Code.ed25519_sign seed message) = 64%nat.
Proof.
  destruct (sign_parts seed message) as (A & R & [_ _ HR H1 [_ H2] _]). destruct (encodes_ok _ _ HR) as [_ Hn].
  rewrite <- (take_drop 32 (Code.ed25519_sign seed message)), length_app, H1, H2, Hn. done.
Qed.

(** What was signed verifies. *)
Lemma sign_verifies seed message :
  Code.ed25519_verify_strict (Code.ed25519_public_key seed) message (Code.ed25519_sign seed message) = true.
Proof.
  destruct (sign_parts seed message) as (A & R & [EA HA HR H1 H2 Es]). destruct (expand_key_ok seed) as [Hw (m & Em & Hm) _].
  rewrite EA. apply strict_exact; [by apply (encodes_ok _ _ HA)|rewrite H1; by apply (encodes_ok _ _ HR)|done|].
  rewrite H1, Es. set (a := value (Code.scalar _)) in *. set (r := value (scalar_from_wide_hash _)) in *.
  destruct (wide_hash_exact _ (sha512_of_two_ok (Code.prefix (Code.expand_key seed)) message)) as [Hr _].
  pose proof (scalar_nonneg _ Hw : 0 <= a) as Ha. pose proof (scalar_nonneg _ (sc_wide _ Hr) : 0 <= r) as Hr0.
  pose proof (scalar_nonneg _ (sc_wide _ (challenge_ok R A message)) : 0 <= challenge R A message) as Hk.
  exists (a *p base), (r *p base). split_and!; [done|done| | |].
  - rewrite Em. by apply clamped_order.
  - apply Z.mod_pos_bound, group_order_positive.
  - assert (0 <= challenge R A message * a) as Hka by (by apply Z.mul_nonneg_nonneg).
    rewrite base_multiple_mod, Z.add_comm by lia. rewrite (pmul_add r _ base Hr0 Hka base_on_curve). f_equal.
    exact (pmul_mul _ _ base Hk Ha base_on_curve).
Qed.

#[export] Instance wnc_ed25519_ok : @Ed25519Ok wnc_ed25519.
Proof. split; [apply sign_length|apply sign_verifies]. Qed.

Lemma sign_bytes seed message : Forall is_byte (Code.ed25519_sign seed message).
Proof.
  destruct (sign_parts seed message) as (A & R & [_ _ HR H1 [H2 _] _]). destruct (encodes_ok _ _ HR) as [Hd _].
  rewrite <- (take_drop 32 (Code.ed25519_sign seed message)), H1. clear H1. generalize dependent (drop 32 (Code.ed25519_sign seed message)).
  intros rest H2. apply Forall_app. by split.
Qed.

(** ** Properties *)
#[local] Existing Instance wnc_hashing.

(** C23: what is signed verifies.  For every seed and every message the strict verification
    of the source accepts the signature the source makes, under the public key the source
    derives from the seed; and the signature has the 64 bytes the callers check. *)
Theorem ed25519_sign_verifies (seed message : list Z) :
  Code.ed25519_verify_strict (Code.ed25519_public_key seed) message (Code.ed25519_sign seed message) = true
  /\ length (Code.ed25519_sign seed message) = 64%nat /\ Forall is_byte (Code.ed25519_sign seed message).
Proof. split; [apply sign_verifies|]. split; [apply sign_length|apply sign_bytes]. Qed.

(** What a local signer signs, every trust set that has learnt its key accepts, with the hash
    functions and the curve arithmetic of the source. *)
Corollary envelope_verifies (seed : list Z) (t : TrustSet) (d b : String.string) :
  let signer := local_signer_from_seed seed in
  NoDup (issuer_key <$> t) -> (sig_publisher signer, signer_key_id signer) ∉ (issuer_key <$> t) ->
  Identity.is_zero (sig_publisher signer) = false ->
  verify_signature (add_ed25519 t (sig_publisher signer) (public_key signer)) (sig_publisher signer) d b
    (sign_with_local_signer signer d b)
  = Ok (mk_outcome Errors.kOk String.EmptyString (sig_publisher signer) (signer_key_id signer)).
Proof. intros signer Hn Hi Hz. apply sign_then_verify; [done|done|done|]. apply sign_bytes. Qed.

(** C22: the strict verification accepts exactly the signatures of the equation.  The key and
    the first half of the signature have to be the encodings of points [A] and [R] of the
    curve, [A] not of small order, the second half a number [s] below the group order, and
    s B = R + k A has to hold for the challenge [k], the SHA-512 digest of the
    concatenation of R, the key and the message modulo the group order.  Everything else is
    refused: other encodings, larger scalars, and any other message whose challenge differs. *)
Theorem ed25519_verify_exact (key message signature : list Z)
    (Hk : digits_ok key) (Hd : digits 8 signature) (Hn : length signature = 64%nat) (Hm : zlength message < 2 ^ 61 - 64) :
  let first := take 32 signature in
  let s := num 8 (drop 32 signature) in
  let k := num 8 (sha512_spec (first ++ key ++ message)) mod group_order in
  Code.ed25519_verify_strict key message signature = true
  <-> exists A R, encodes key A /\ encodes first R /\ 8 *p A <> pzero
        /\ s < group_order /\ s *p base = padd curve_d R (k *p A).
Proof.
  cbv zeta. assert (digits_ok (take 32 signature)) as H1 by (split; [by apply Forall_take|by rewrite length_take, Hn]).
  assert (digits_ok (drop 32 signature)) as H2 by (split; [by apply Forall_drop|by rewrite length_drop, Hn]).
  rewrite <- challenge_exact; [by apply strict_exact|].
  destruct Hk as [_ Hk], H1 as [_ H1]. unfold zlength in *. rewrite !length_app, H1, Hk. lia.
Qed.

Lemma ed25519_verify_exact_witness :
  Code.ed25519_verify_strict kBasePointBytes [7] (replicate 64 255) <> true.
Proof.
  assert (digits_ok kBasePointBytes) as Hk.
  { split; [|reflexivity]. apply Forall_cons. split; [lia|]. apply (Forall_replicate (fun x => 0 <= x < 2 ^ 8)). lia. }
  assert (digits 8 (replicate 64 255)) as Hd by (apply Forall_replicate; lia).
  intros Hv. apply (ed25519_verify_exact kBasePointBytes [7] (replicate 64 255) Hk Hd eq_refl ltac:(reflexivity)) in Hv.
  destruct Hv as (A & R & _ & _ & _ & Hs & _). apply Z.lt_nge in Hs. apply Hs. vm_compute. discriminate.
Defined.

(** C28: signing computes the two equations of RFC 8032.  With [h] the SHA-512 digest of the
    seed, [a] its clamped first half and [r] the digest of its second half and the message
    modulo the group order, the public key is the encoding of a B, the first half of
    the signature the encoding of r B, and the second half the 32 bytes of
    (k a + r) modulo the group order for the challenge [k]. *)
Theorem ed25519_sign_exact (seed message : list Z) (Hseed : zlength seed < 2 ^ 61) (Hm : zlength message < 2 ^ 61 - 64) :
  let h := sha512_spec seed in
  let a := num 8 (Code.clamp (take 32 h)) in
  let r := num 8 (sha512_spec (drop 32 h ++ message)) mod group_order in
  exists A R,
    let k := num 8 (sha512_spec (R ++ A ++ message)) mod group_order in
    Code.ed25519_public_key seed = A /\ encodes A (a *p base) /\ encodes R (r *p base)
    /\ take 32 (Code.ed25519_sign seed message) = R
    /\ digits_ok (drop 32 (Code.ed25519_sign seed message))
    /\ num 8 (drop 32 (Code.ed25519_sign seed message)) = (k * a + r) mod group_order
    /\ exists m, a = 8 * m /\ 2 ^ 251 <= m < 2 ^ 252.
Proof.
  cbv zeta. destruct (sign_parts seed message) as (A & R & [EA HA HR H1 H2 Es]).
  destruct (expand_key_scalar seed) as (_ & Ea & [_ Hc _]). cbv zeta in Ea. destruct (encodes_ok _ _ HR) as [_ HnR], (encodes_ok _ _ HA) as [_ HnA].
  assert (Sha512.sha512 seed = sha512_spec seed) as Eseed.
  { pose proof (sha512_updates [seed]) as E. cbn [concat app fold_left] in E. rewrite app_nil_r in E. by apply E. }
  destruct (sha512_ok seed) as [_ Hlen]. rewrite Eseed in Hlen.
  assert (Code.prefix (Code.expand_key seed) = drop 32 (sha512_spec seed)) as Epre.
  { unfold Code.expand_key. cbn [Code.prefix]. rewrite Eseed. apply take_ge. by rewrite length_drop, Hlen. }
  rewrite Eseed in Ea. exists A, R. cbv zeta. rewrite <- Ea. rewrite Epre in HR, Es. unfold zlength in *.
  rewrite nonce_exact in HR, Es by (unfold zlength; rewrite length_app, length_drop, Hlen; lia).
  rewrite <- challenge_exact by (unfold zlength; rewrite !length_app, HnR, HnA; lia).
  exact (conj EA (conj HA (conj HR (conj H1 (conj H2 (conj Es Hc)))))).
Qed.

Lemma ed25519_sign_exact_witness :
  exists A R, Code.ed25519_public_key (repeat 7 32) = A /\ take 32 (Code.ed25519_sign (repeat 7 32) []) = R.
Proof.
  destruct (ed25519_sign_exact (repeat 7 32) [] ltac:(reflexivity) ltac:(reflexivity)) as (A & R & H1 & _ & _ & H2 & _).
  exists A, R. split; [exact H1|exact H2].
Defined.
